(** * dwm: state model and handlers of the window manager

    A shallow embedding of [dwm.c] (with the settings of [config.def.h]):
    the [Client] and [Monitor] structures, the global state, the geometry
    code ([applysizehints], [resize], [tile], [monocle], [showhide]), the
    focus and tag code and the event handlers, written as functions on an
    explicit state.  Calls that only talk to the X server (drawing,
    configuring windows, grabs, properties written for clients) change
    nothing of this state and are left out; what the server or a client
    answers (window attributes, hints, pointer position) comes in as an
    argument of the handler that asks for it.

    Conventions.
    - [int] values are [Z].  Signed overflow is undefined in C, so signed
      arithmetic is written without wrap-around; [unsigned int] arithmetic
      wraps and is written with [u32], and an unsigned value stored into an
      [int] goes through [s32].
    - [float] is IEEE binary32 and [double] binary64, computed with the
      Standard Library's [SpecFloat] operations.
    - A [Client*] is an address in [heap]; a [Monitor*] is a position in
      [mons]; the [next] and [snext] chains are the lists [clients] and
      [stack] of the monitor.  The lists are taken to be well formed (no
      sharing, no cycle), and a handler that would follow a dangling
      pointer leaves the state as it is. *)

From Stdlib Require Import ZArith Lia SpecFloat.
From stdpp Require Import gmap list strings pretty.

Local Open Scope Z_scope.

(** ** Machine numbers *)

(** Wrap-around of [unsigned int] (32 bits). *)
Definition u32 (z : Z) : Z := z mod 2 ^ 32.

(** An [unsigned int] stored into an [int]: the two's complement reading. *)
Definition s32 (z : Z) : Z :=
  let r := z mod 2 ^ 32 in if r <? 2 ^ 31 then r else r - 2 ^ 32.

Definition INT_MIN : Z := - 2 ^ 31.

(** [float] and [double] values. *)
Definition float32 : Type := spec_float.
Definition float64 : Type := spec_float.

Definition f32_of_int (z : Z) : float32 := binary_normalize 24 128 z 0 false.
Definition f32_mul (a b : float32) : float32 := SFmul 24 128 a b.
Definition f32_div (a b : float32) : float32 := SFdiv 24 128 a b.
Definition f32_add (a b : float32) : float32 := SFadd 24 128 a b.

(** The promotion of a [float] to [double] is exact. *)
Definition f64_of_f32 (a : float32) : float64 :=
  match a with
  | S754_finite s m e => binary_normalize 53 1024 (cond_Zopp s (Zpos m)) e s
  | _ => a
  end.
Definition f64_add (a b : float64) : float64 := SFadd 53 1024 a b.
Definition f64_sub (a b : float64) : float64 := SFsub 53 1024 a b.

(** Rounding a [double] to [float] (an assignment to a [float] object). *)
Definition f32_of_f64 (a : float64) : float32 :=
  match a with
  | S754_finite s m e => binary_normalize 24 128 (cond_Zopp s (Zpos m)) e s
  | _ => a
  end.

(** The [double] constants of the source. *)
Definition f64_0_5 : float64 := S754_finite false 4503599627370496 (-53).
Definition f64_1_0 : float64 := S754_finite false 4503599627370496 (-52).
Definition f64_0_1 : float64 := S754_finite false 7205759403792794 (-56).
Definition f64_0_9 : float64 := S754_finite false 8106479329266893 (-53).

(** Conversion of a floating value to an integer truncates toward zero.
    C leaves the conversion of NaN and of the infinities undefined; they
    are given the value the x86 conversion instruction returns. *)
Definition trunc_float (a : spec_float) : Z :=
  match a with
  | S754_zero _ => 0
  | S754_finite s m e =>
      let n := if 0 <=? e then Zpos m * 2 ^ e else Zpos m / 2 ^ (- e) in
      if s then - n else n
  | _ => INT_MIN
  end.

(** ** Data model *)

(** The arrange callbacks a layout can carry. *)
Inductive ArrangeFn : Type := Tile | Monocle.

Module Layout.
(** [Layout]: a symbol and an arrange callback, absent for the floating
    layout. *)
Record t := mk {
  symbol : string;
  arrange : option ArrangeFn
}.
End Layout.

#[global] Instance ArrangeFn_eq_dec : EqDecision ArrangeFn.
Proof. solve_decision. Defined.

#[global] Instance Layout_eq_dec : EqDecision Layout.t.
Proof. solve_decision. Defined.

Module Client.
(** [struct Client].  The [next]/[snext] links live in the monitor's lists. *)
Record t := mk {
  name : string;  (* char name[256] *)
  mina : float32;
  maxa : float32;
  x : Z;
  y : Z;
  w : Z;
  h : Z;
  oldx : Z;
  oldy : Z;
  oldw : Z;
  oldh : Z;
  basew : Z;
  baseh : Z;
  incw : Z;
  inch : Z;
  maxw : Z;
  maxh : Z;
  minw : Z;
  minh : Z;
  bw : Z;  (* border width *)
  oldbw : Z;  (* saved border width *)
  tags : Z;  (* unsigned int *)
  isfixed : bool;
  isfloating : bool;
  isurgent : bool;
  neverfocus : bool;
  oldstate : bool;
  isfullscreen : bool;
  mon : nat;  (* Monitor* mon *)
  win : Z  (* Window win *)
}.

Definition set_name v (r : t) : t :=
  mk v (mina r) (maxa r) (x r) (y r) (w r) (h r) (oldx r) (oldy r)
     (oldw r) (oldh r) (basew r) (baseh r) (incw r) (inch r) (maxw r)
     (maxh r) (minw r) (minh r) (bw r) (oldbw r) (tags r) (isfixed r)
     (isfloating r) (isurgent r) (neverfocus r) (oldstate r)
     (isfullscreen r) (mon r) (win r).
Definition set_x v (r : t) : t :=
  mk (name r) (mina r) (maxa r) v (y r) (w r) (h r) (oldx r) (oldy r)
     (oldw r) (oldh r) (basew r) (baseh r) (incw r) (inch r) (maxw r)
     (maxh r) (minw r) (minh r) (bw r) (oldbw r) (tags r) (isfixed r)
     (isfloating r) (isurgent r) (neverfocus r) (oldstate r)
     (isfullscreen r) (mon r) (win r).
Definition set_y v (r : t) : t :=
  mk (name r) (mina r) (maxa r) (x r) v (w r) (h r) (oldx r) (oldy r)
     (oldw r) (oldh r) (basew r) (baseh r) (incw r) (inch r) (maxw r)
     (maxh r) (minw r) (minh r) (bw r) (oldbw r) (tags r) (isfixed r)
     (isfloating r) (isurgent r) (neverfocus r) (oldstate r)
     (isfullscreen r) (mon r) (win r).
Definition set_w v (r : t) : t :=
  mk (name r) (mina r) (maxa r) (x r) (y r) v (h r) (oldx r) (oldy r)
     (oldw r) (oldh r) (basew r) (baseh r) (incw r) (inch r) (maxw r)
     (maxh r) (minw r) (minh r) (bw r) (oldbw r) (tags r) (isfixed r)
     (isfloating r) (isurgent r) (neverfocus r) (oldstate r)
     (isfullscreen r) (mon r) (win r).
Definition set_h v (r : t) : t :=
  mk (name r) (mina r) (maxa r) (x r) (y r) (w r) v (oldx r) (oldy r)
     (oldw r) (oldh r) (basew r) (baseh r) (incw r) (inch r) (maxw r)
     (maxh r) (minw r) (minh r) (bw r) (oldbw r) (tags r) (isfixed r)
     (isfloating r) (isurgent r) (neverfocus r) (oldstate r)
     (isfullscreen r) (mon r) (win r).
Definition set_oldx v (r : t) : t :=
  mk (name r) (mina r) (maxa r) (x r) (y r) (w r) (h r) v (oldy r)
     (oldw r) (oldh r) (basew r) (baseh r) (incw r) (inch r) (maxw r)
     (maxh r) (minw r) (minh r) (bw r) (oldbw r) (tags r) (isfixed r)
     (isfloating r) (isurgent r) (neverfocus r) (oldstate r)
     (isfullscreen r) (mon r) (win r).
Definition set_oldy v (r : t) : t :=
  mk (name r) (mina r) (maxa r) (x r) (y r) (w r) (h r) (oldx r) v
     (oldw r) (oldh r) (basew r) (baseh r) (incw r) (inch r) (maxw r)
     (maxh r) (minw r) (minh r) (bw r) (oldbw r) (tags r) (isfixed r)
     (isfloating r) (isurgent r) (neverfocus r) (oldstate r)
     (isfullscreen r) (mon r) (win r).
Definition set_oldw v (r : t) : t :=
  mk (name r) (mina r) (maxa r) (x r) (y r) (w r) (h r) (oldx r)
     (oldy r) v (oldh r) (basew r) (baseh r) (incw r) (inch r) (maxw r)
     (maxh r) (minw r) (minh r) (bw r) (oldbw r) (tags r) (isfixed r)
     (isfloating r) (isurgent r) (neverfocus r) (oldstate r)
     (isfullscreen r) (mon r) (win r).
Definition set_oldh v (r : t) : t :=
  mk (name r) (mina r) (maxa r) (x r) (y r) (w r) (h r) (oldx r)
     (oldy r) (oldw r) v (basew r) (baseh r) (incw r) (inch r) (maxw r)
     (maxh r) (minw r) (minh r) (bw r) (oldbw r) (tags r) (isfixed r)
     (isfloating r) (isurgent r) (neverfocus r) (oldstate r)
     (isfullscreen r) (mon r) (win r).
Definition set_bw v (r : t) : t :=
  mk (name r) (mina r) (maxa r) (x r) (y r) (w r) (h r) (oldx r)
     (oldy r) (oldw r) (oldh r) (basew r) (baseh r) (incw r) (inch r)
     (maxw r) (maxh r) (minw r) (minh r) v (oldbw r) (tags r)
     (isfixed r) (isfloating r) (isurgent r) (neverfocus r) (oldstate r)
     (isfullscreen r) (mon r) (win r).
Definition set_oldbw v (r : t) : t :=
  mk (name r) (mina r) (maxa r) (x r) (y r) (w r) (h r) (oldx r)
     (oldy r) (oldw r) (oldh r) (basew r) (baseh r) (incw r) (inch r)
     (maxw r) (maxh r) (minw r) (minh r) (bw r) v (tags r) (isfixed r)
     (isfloating r) (isurgent r) (neverfocus r) (oldstate r)
     (isfullscreen r) (mon r) (win r).
Definition set_tags v (r : t) : t :=
  mk (name r) (mina r) (maxa r) (x r) (y r) (w r) (h r) (oldx r)
     (oldy r) (oldw r) (oldh r) (basew r) (baseh r) (incw r) (inch r)
     (maxw r) (maxh r) (minw r) (minh r) (bw r) (oldbw r) v (isfixed r)
     (isfloating r) (isurgent r) (neverfocus r) (oldstate r)
     (isfullscreen r) (mon r) (win r).
Definition set_isfixed v (r : t) : t :=
  mk (name r) (mina r) (maxa r) (x r) (y r) (w r) (h r) (oldx r)
     (oldy r) (oldw r) (oldh r) (basew r) (baseh r) (incw r) (inch r)
     (maxw r) (maxh r) (minw r) (minh r) (bw r) (oldbw r) (tags r) v
     (isfloating r) (isurgent r) (neverfocus r) (oldstate r)
     (isfullscreen r) (mon r) (win r).
Definition set_isfloating v (r : t) : t :=
  mk (name r) (mina r) (maxa r) (x r) (y r) (w r) (h r) (oldx r)
     (oldy r) (oldw r) (oldh r) (basew r) (baseh r) (incw r) (inch r)
     (maxw r) (maxh r) (minw r) (minh r) (bw r) (oldbw r) (tags r)
     (isfixed r) v (isurgent r) (neverfocus r) (oldstate r)
     (isfullscreen r) (mon r) (win r).
Definition set_isurgent v (r : t) : t :=
  mk (name r) (mina r) (maxa r) (x r) (y r) (w r) (h r) (oldx r)
     (oldy r) (oldw r) (oldh r) (basew r) (baseh r) (incw r) (inch r)
     (maxw r) (maxh r) (minw r) (minh r) (bw r) (oldbw r) (tags r)
     (isfixed r) (isfloating r) v (neverfocus r) (oldstate r)
     (isfullscreen r) (mon r) (win r).
Definition set_neverfocus v (r : t) : t :=
  mk (name r) (mina r) (maxa r) (x r) (y r) (w r) (h r) (oldx r)
     (oldy r) (oldw r) (oldh r) (basew r) (baseh r) (incw r) (inch r)
     (maxw r) (maxh r) (minw r) (minh r) (bw r) (oldbw r) (tags r)
     (isfixed r) (isfloating r) (isurgent r) v (oldstate r)
     (isfullscreen r) (mon r) (win r).
Definition set_oldstate v (r : t) : t :=
  mk (name r) (mina r) (maxa r) (x r) (y r) (w r) (h r) (oldx r)
     (oldy r) (oldw r) (oldh r) (basew r) (baseh r) (incw r) (inch r)
     (maxw r) (maxh r) (minw r) (minh r) (bw r) (oldbw r) (tags r)
     (isfixed r) (isfloating r) (isurgent r) (neverfocus r) v
     (isfullscreen r) (mon r) (win r).
Definition set_isfullscreen v (r : t) : t :=
  mk (name r) (mina r) (maxa r) (x r) (y r) (w r) (h r) (oldx r)
     (oldy r) (oldw r) (oldh r) (basew r) (baseh r) (incw r) (inch r)
     (maxw r) (maxh r) (minw r) (minh r) (bw r) (oldbw r) (tags r)
     (isfixed r) (isfloating r) (isurgent r) (neverfocus r) (oldstate r)
     v (mon r) (win r).
Definition set_mon v (r : t) : t :=
  mk (name r) (mina r) (maxa r) (x r) (y r) (w r) (h r) (oldx r)
     (oldy r) (oldw r) (oldh r) (basew r) (baseh r) (incw r) (inch r)
     (maxw r) (maxh r) (minw r) (minh r) (bw r) (oldbw r) (tags r)
     (isfixed r) (isfloating r) (isurgent r) (neverfocus r) (oldstate r)
     (isfullscreen r) v (win r).
Definition set_base v0 v1 (r : t) : t :=
  mk (name r) (mina r) (maxa r) (x r) (y r) (w r) (h r) (oldx r)
     (oldy r) (oldw r) (oldh r) v0 v1 (incw r) (inch r) (maxw r)
     (maxh r) (minw r) (minh r) (bw r) (oldbw r) (tags r) (isfixed r)
     (isfloating r) (isurgent r) (neverfocus r) (oldstate r)
     (isfullscreen r) (mon r) (win r).
Definition set_inc v0 v1 (r : t) : t :=
  mk (name r) (mina r) (maxa r) (x r) (y r) (w r) (h r) (oldx r)
     (oldy r) (oldw r) (oldh r) (basew r) (baseh r) v0 v1 (maxw r)
     (maxh r) (minw r) (minh r) (bw r) (oldbw r) (tags r) (isfixed r)
     (isfloating r) (isurgent r) (neverfocus r) (oldstate r)
     (isfullscreen r) (mon r) (win r).
Definition set_max v0 v1 (r : t) : t :=
  mk (name r) (mina r) (maxa r) (x r) (y r) (w r) (h r) (oldx r)
     (oldy r) (oldw r) (oldh r) (basew r) (baseh r) (incw r) (inch r) v0
     v1 (minw r) (minh r) (bw r) (oldbw r) (tags r) (isfixed r)
     (isfloating r) (isurgent r) (neverfocus r) (oldstate r)
     (isfullscreen r) (mon r) (win r).
Definition set_min v0 v1 (r : t) : t :=
  mk (name r) (mina r) (maxa r) (x r) (y r) (w r) (h r) (oldx r)
     (oldy r) (oldw r) (oldh r) (basew r) (baseh r) (incw r) (inch r)
     (maxw r) (maxh r) v0 v1 (bw r) (oldbw r) (tags r) (isfixed r)
     (isfloating r) (isurgent r) (neverfocus r) (oldstate r)
     (isfullscreen r) (mon r) (win r).
Definition set_aspect v0 v1 (r : t) : t :=
  mk (name r) v0 v1 (x r) (y r) (w r) (h r) (oldx r) (oldy r) (oldw r)
     (oldh r) (basew r) (baseh r) (incw r) (inch r) (maxw r) (maxh r)
     (minw r) (minh r) (bw r) (oldbw r) (tags r) (isfixed r)
     (isfloating r) (isurgent r) (neverfocus r) (oldstate r)
     (isfullscreen r) (mon r) (win r).
Definition set_geom v0 v1 v2 v3 (r : t) : t :=
  mk (name r) (mina r) (maxa r) v0 v1 v2 v3 (oldx r) (oldy r) (oldw r)
     (oldh r) (basew r) (baseh r) (incw r) (inch r) (maxw r) (maxh r)
     (minw r) (minh r) (bw r) (oldbw r) (tags r) (isfixed r)
     (isfloating r) (isurgent r) (neverfocus r) (oldstate r)
     (isfullscreen r) (mon r) (win r).
Definition set_oldgeom v0 v1 v2 v3 (r : t) : t :=
  mk (name r) (mina r) (maxa r) (x r) (y r) (w r) (h r) v0 v1 v2 v3
     (basew r) (baseh r) (incw r) (inch r) (maxw r) (maxh r) (minw r)
     (minh r) (bw r) (oldbw r) (tags r) (isfixed r) (isfloating r)
     (isurgent r) (neverfocus r) (oldstate r) (isfullscreen r) (mon r)
     (win r).
End Client.

Module Monitor.
(** [struct Monitor].  The [next] link is the position in [mons]. *)
Record t := mk {
  ltsymbol : string;  (* char ltsymbol[16] *)
  mfact : float32;
  nmaster : Z;
  num : Z;
  by_ : Z;  (* int by, the bar geometry (by is reserved) *)
  mx : Z;  (* screen size *)
  my : Z;
  mw : Z;
  mh : Z;
  wx : Z;  (* window area *)
  wy : Z;
  ww : Z;
  wh : Z;
  seltags : Z;  (* unsigned int *)
  sellt : Z;  (* unsigned int *)
  tagset0 : Z;  (* tagset[0] *)
  tagset1 : Z;  (* tagset[1] *)
  showbar : bool;
  topbar : bool;
  clients : list nat;  (* Client* clients, linked through next *)
  sel : option nat;  (* Client* sel *)
  stack : list nat;  (* Client* stack, linked through snext *)
  lt0 : Layout.t;  (* lt[0] *)
  lt1 : Layout.t  (* lt[1] *)
}.

Definition set_ltsymbol v (r : t) : t :=
  mk v (mfact r) (nmaster r) (num r) (by_ r) (mx r) (my r) (mw r) (mh r)
     (wx r) (wy r) (ww r) (wh r) (seltags r) (sellt r) (tagset0 r)
     (tagset1 r) (showbar r) (topbar r) (clients r) (sel r) (stack r)
     (lt0 r) (lt1 r).
Definition set_mfact v (r : t) : t :=
  mk (ltsymbol r) v (nmaster r) (num r) (by_ r) (mx r) (my r) (mw r)
     (mh r) (wx r) (wy r) (ww r) (wh r) (seltags r) (sellt r)
     (tagset0 r) (tagset1 r) (showbar r) (topbar r) (clients r) (sel r)
     (stack r) (lt0 r) (lt1 r).
Definition set_nmaster v (r : t) : t :=
  mk (ltsymbol r) (mfact r) v (num r) (by_ r) (mx r) (my r) (mw r)
     (mh r) (wx r) (wy r) (ww r) (wh r) (seltags r) (sellt r)
     (tagset0 r) (tagset1 r) (showbar r) (topbar r) (clients r) (sel r)
     (stack r) (lt0 r) (lt1 r).
Definition set_num v (r : t) : t :=
  mk (ltsymbol r) (mfact r) (nmaster r) v (by_ r) (mx r) (my r) (mw r)
     (mh r) (wx r) (wy r) (ww r) (wh r) (seltags r) (sellt r)
     (tagset0 r) (tagset1 r) (showbar r) (topbar r) (clients r) (sel r)
     (stack r) (lt0 r) (lt1 r).
Definition set_by v (r : t) : t :=
  mk (ltsymbol r) (mfact r) (nmaster r) (num r) v (mx r) (my r) (mw r)
     (mh r) (wx r) (wy r) (ww r) (wh r) (seltags r) (sellt r)
     (tagset0 r) (tagset1 r) (showbar r) (topbar r) (clients r) (sel r)
     (stack r) (lt0 r) (lt1 r).
Definition set_mx v (r : t) : t :=
  mk (ltsymbol r) (mfact r) (nmaster r) (num r) (by_ r) v (my r) (mw r)
     (mh r) (wx r) (wy r) (ww r) (wh r) (seltags r) (sellt r)
     (tagset0 r) (tagset1 r) (showbar r) (topbar r) (clients r) (sel r)
     (stack r) (lt0 r) (lt1 r).
Definition set_my v (r : t) : t :=
  mk (ltsymbol r) (mfact r) (nmaster r) (num r) (by_ r) (mx r) v (mw r)
     (mh r) (wx r) (wy r) (ww r) (wh r) (seltags r) (sellt r)
     (tagset0 r) (tagset1 r) (showbar r) (topbar r) (clients r) (sel r)
     (stack r) (lt0 r) (lt1 r).
Definition set_mw v (r : t) : t :=
  mk (ltsymbol r) (mfact r) (nmaster r) (num r) (by_ r) (mx r) (my r) v
     (mh r) (wx r) (wy r) (ww r) (wh r) (seltags r) (sellt r)
     (tagset0 r) (tagset1 r) (showbar r) (topbar r) (clients r) (sel r)
     (stack r) (lt0 r) (lt1 r).
Definition set_mh v (r : t) : t :=
  mk (ltsymbol r) (mfact r) (nmaster r) (num r) (by_ r) (mx r) (my r)
     (mw r) v (wx r) (wy r) (ww r) (wh r) (seltags r) (sellt r)
     (tagset0 r) (tagset1 r) (showbar r) (topbar r) (clients r) (sel r)
     (stack r) (lt0 r) (lt1 r).
Definition set_wx v (r : t) : t :=
  mk (ltsymbol r) (mfact r) (nmaster r) (num r) (by_ r) (mx r) (my r)
     (mw r) (mh r) v (wy r) (ww r) (wh r) (seltags r) (sellt r)
     (tagset0 r) (tagset1 r) (showbar r) (topbar r) (clients r) (sel r)
     (stack r) (lt0 r) (lt1 r).
Definition set_wy v (r : t) : t :=
  mk (ltsymbol r) (mfact r) (nmaster r) (num r) (by_ r) (mx r) (my r)
     (mw r) (mh r) (wx r) v (ww r) (wh r) (seltags r) (sellt r)
     (tagset0 r) (tagset1 r) (showbar r) (topbar r) (clients r) (sel r)
     (stack r) (lt0 r) (lt1 r).
Definition set_ww v (r : t) : t :=
  mk (ltsymbol r) (mfact r) (nmaster r) (num r) (by_ r) (mx r) (my r)
     (mw r) (mh r) (wx r) (wy r) v (wh r) (seltags r) (sellt r)
     (tagset0 r) (tagset1 r) (showbar r) (topbar r) (clients r) (sel r)
     (stack r) (lt0 r) (lt1 r).
Definition set_wh v (r : t) : t :=
  mk (ltsymbol r) (mfact r) (nmaster r) (num r) (by_ r) (mx r) (my r)
     (mw r) (mh r) (wx r) (wy r) (ww r) v (seltags r) (sellt r)
     (tagset0 r) (tagset1 r) (showbar r) (topbar r) (clients r) (sel r)
     (stack r) (lt0 r) (lt1 r).
Definition set_seltags v (r : t) : t :=
  mk (ltsymbol r) (mfact r) (nmaster r) (num r) (by_ r) (mx r) (my r)
     (mw r) (mh r) (wx r) (wy r) (ww r) (wh r) v (sellt r) (tagset0 r)
     (tagset1 r) (showbar r) (topbar r) (clients r) (sel r) (stack r)
     (lt0 r) (lt1 r).
Definition set_sellt v (r : t) : t :=
  mk (ltsymbol r) (mfact r) (nmaster r) (num r) (by_ r) (mx r) (my r)
     (mw r) (mh r) (wx r) (wy r) (ww r) (wh r) (seltags r) v (tagset0 r)
     (tagset1 r) (showbar r) (topbar r) (clients r) (sel r) (stack r)
     (lt0 r) (lt1 r).
Definition set_tagset0 v (r : t) : t :=
  mk (ltsymbol r) (mfact r) (nmaster r) (num r) (by_ r) (mx r) (my r)
     (mw r) (mh r) (wx r) (wy r) (ww r) (wh r) (seltags r) (sellt r) v
     (tagset1 r) (showbar r) (topbar r) (clients r) (sel r) (stack r)
     (lt0 r) (lt1 r).
Definition set_tagset1 v (r : t) : t :=
  mk (ltsymbol r) (mfact r) (nmaster r) (num r) (by_ r) (mx r) (my r)
     (mw r) (mh r) (wx r) (wy r) (ww r) (wh r) (seltags r) (sellt r)
     (tagset0 r) v (showbar r) (topbar r) (clients r) (sel r) (stack r)
     (lt0 r) (lt1 r).
Definition set_showbar v (r : t) : t :=
  mk (ltsymbol r) (mfact r) (nmaster r) (num r) (by_ r) (mx r) (my r)
     (mw r) (mh r) (wx r) (wy r) (ww r) (wh r) (seltags r) (sellt r)
     (tagset0 r) (tagset1 r) v (topbar r) (clients r) (sel r) (stack r)
     (lt0 r) (lt1 r).
Definition set_clients v (r : t) : t :=
  mk (ltsymbol r) (mfact r) (nmaster r) (num r) (by_ r) (mx r) (my r)
     (mw r) (mh r) (wx r) (wy r) (ww r) (wh r) (seltags r) (sellt r)
     (tagset0 r) (tagset1 r) (showbar r) (topbar r) v (sel r) (stack r)
     (lt0 r) (lt1 r).
Definition set_sel v (r : t) : t :=
  mk (ltsymbol r) (mfact r) (nmaster r) (num r) (by_ r) (mx r) (my r)
     (mw r) (mh r) (wx r) (wy r) (ww r) (wh r) (seltags r) (sellt r)
     (tagset0 r) (tagset1 r) (showbar r) (topbar r) (clients r) v
     (stack r) (lt0 r) (lt1 r).
Definition set_stack v (r : t) : t :=
  mk (ltsymbol r) (mfact r) (nmaster r) (num r) (by_ r) (mx r) (my r)
     (mw r) (mh r) (wx r) (wy r) (ww r) (wh r) (seltags r) (sellt r)
     (tagset0 r) (tagset1 r) (showbar r) (topbar r) (clients r) (sel r)
     v (lt0 r) (lt1 r).
Definition set_lt0 v (r : t) : t :=
  mk (ltsymbol r) (mfact r) (nmaster r) (num r) (by_ r) (mx r) (my r)
     (mw r) (mh r) (wx r) (wy r) (ww r) (wh r) (seltags r) (sellt r)
     (tagset0 r) (tagset1 r) (showbar r) (topbar r) (clients r) (sel r)
     (stack r) v (lt1 r).
Definition set_lt1 v (r : t) : t :=
  mk (ltsymbol r) (mfact r) (nmaster r) (num r) (by_ r) (mx r) (my r)
     (mw r) (mh r) (wx r) (wy r) (ww r) (wh r) (seltags r) (sellt r)
     (tagset0 r) (tagset1 r) (showbar r) (topbar r) (clients r) (sel r)
     (stack r) (lt0 r) v.
End Monitor.

(** A [Rule] of the rule table. *)
Module Rule.
Record t := mk {
  class : option string;
  instance : option string;
  title : option string;
  tags : Z;
  isfloating : bool;
  monitor : Z
}.
End Rule.

(** ** config.def.h *)
Module config.
Definition borderpx : Z := 1.
Definition snap : Z := 32.
Definition showbar : bool := true.
Definition topbar : bool := true.
Definition tags : list string := ["1"; "2"; "3"; "4"; "5"; "6"; "7"; "8"; "9"]%string.
Definition rules : list Rule.t :=
  [ Rule.mk (Some "Gimp"%string) None None 0 true (-1);
    Rule.mk (Some "Firefox"%string) None None (Z.shiftl 1 8) false (-1) ].
(** [0.55] as a [float]. *)
Definition mfact : float32 := S754_finite false 9227469 (-24).
Definition nmaster : Z := 1.
Definition resizehints : bool := true.
Definition layouts : list Layout.t :=
  [ Layout.mk "[]=" (Some Tile);
    Layout.mk "><>" None;
    Layout.mk "[M]" (Some Monocle) ].
End config.

(** ** Macros *)

Definition TAGMASK : Z := Z.shiftl 1 (Z.of_nat (length config.tags)) - 1.
Definition WIDTH (c : Client.t) : Z := Client.w c + 2 * Client.bw c.
Definition HEIGHT (c : Client.t) : Z := Client.h c + 2 * Client.bw c.

(** [m->tagset[i]] and its assignment, for [i] in 0..1. *)
Definition tagset (m : Monitor.t) (i : Z) : Z :=
  if i =? 0 then Monitor.tagset0 m else Monitor.tagset1 m.
Definition set_tagset (i v : Z) (m : Monitor.t) : Monitor.t :=
  if i =? 0 then Monitor.set_tagset0 v m else Monitor.set_tagset1 v m.

(** [m->lt[i]] and its assignment. *)
Definition lt (m : Monitor.t) (i : Z) : Layout.t :=
  if i =? 0 then Monitor.lt0 m else Monitor.lt1 m.
Definition set_lt (i : Z) (v : Layout.t) (m : Monitor.t) : Monitor.t :=
  if i =? 0 then Monitor.set_lt0 v m else Monitor.set_lt1 v m.

(** [m->lt[m->sellt]->arrange]. *)
Definition cur_arrange (m : Monitor.t) : option ArrangeFn :=
  Layout.arrange (lt m (Monitor.sellt m)).

(** ** Global state *)

Record State := mkState {
  mons : list Monitor.t;       (* the list headed by [mons] *)
  selmon : nat;
  heap : gmap nat Client.t;    (* the allocated [Client] structures *)
  nextaddr : nat;              (* the next address [ecalloc] hands out *)
  sw : Z;
  sh : Z;
  bh : Z;
  running : bool;
  motionmon : option nat       (* [static Monitor* mon] of [motionnotify] *)
}.

Definition set_mons v (s : State) : State :=
  mkState v (selmon s) (heap s) (nextaddr s) (sw s) (sh s) (bh s) (running s)
    (motionmon s).
Definition set_selmon v (s : State) : State :=
  mkState (mons s) v (heap s) (nextaddr s) (sw s) (sh s) (bh s) (running s)
    (motionmon s).
Definition set_heap v (s : State) : State :=
  mkState (mons s) (selmon s) v (nextaddr s) (sw s) (sh s) (bh s) (running s)
    (motionmon s).
Definition set_nextaddr v (s : State) : State :=
  mkState (mons s) (selmon s) (heap s) v (sw s) (sh s) (bh s) (running s)
    (motionmon s).
Definition set_screen vw vh (s : State) : State :=
  mkState (mons s) (selmon s) (heap s) (nextaddr s) vw vh (bh s) (running s)
    (motionmon s).
Definition set_running v (s : State) : State :=
  mkState (mons s) (selmon s) (heap s) (nextaddr s) (sw s) (sh s) (bh s) v
    (motionmon s).
Definition set_motionmon v (s : State) : State :=
  mkState (mons s) (selmon s) (heap s) (nextaddr s) (sw s) (sh s) (bh s)
    (running s) v.

(** Writing through a [Client*] or a [Monitor*]. *)
Definition updc (c : nat) (f : Client.t -> Client.t) (s : State) : State :=
  set_heap (alter f c (heap s)) s.
Definition updm (i : nat) (f : Monitor.t -> Monitor.t) (s : State) : State :=
  set_mons (alter f i (mons s)) s.

(** [ISVISIBLE(c)]. *)
Definition ISVISIBLE (s : State) (c : Client.t) : bool :=
  match mons s !! Client.mon c with
  | Some m => negb (Z.land (Client.tags c) (tagset m (Monitor.seltags m)) =? 0)
  | None => false
  end.

(** [ISVISIBLE] through a pointer. *)
Definition visible (s : State) (c : nat) : bool :=
  match heap s !! c with
  | Some cl => ISVISIBLE s cl
  | None => false
  end.

(** ** Size hints and resizing *)

(** [applysizehints]: the adjusted geometry, and whether it differs from
    the client's.  [m] is [c->mon]. *)
Definition applysizehints (s : State) (m : Monitor.t) (c : Client.t)
    (x y w h : Z) (interact : bool) : Z * Z * Z * Z * bool :=
  (* set minimum possible *)
  let w := Z.max 1 w in
  let h := Z.max 1 h in
  let '(x, y) :=
    if interact then
      let x := if sw s <? x then sw s - WIDTH c else x in
      let y := if sh s <? y then sh s - HEIGHT c else y in
      let x := if x + w + 2 * Client.bw c <? 0 then 0 else x in
      let y := if y + h + 2 * Client.bw c <? 0 then 0 else y in
      (x, y)
    else
      let x := if Monitor.wx m + Monitor.ww m <=? x
               then Monitor.wx m + Monitor.ww m - WIDTH c else x in
      let y := if Monitor.wy m + Monitor.wh m <=? y
               then Monitor.wy m + Monitor.wh m - HEIGHT c else y in
      let x := if x + w + 2 * Client.bw c <=? Monitor.wx m
               then Monitor.wx m else x in
      let y := if y + h + 2 * Client.bw c <=? Monitor.wy m
               then Monitor.wy m else y in
      (x, y) in
  let h := if h <? bh s then bh s else h in
  let w := if w <? bh s then bh s else w in
  let '(w, h) :=
    if config.resizehints || Client.isfloating c
       || negb (bool_decide (is_Some (cur_arrange m)))
    then
      (* see last two sentences in ICCCM 4.1.2.3 *)
      let baseismin :=
        (Client.basew c =? Client.minw c) && (Client.baseh c =? Client.minh c) in
      let '(w, h) :=
        if negb baseismin (* temporarily remove base dimensions *)
        then (w - Client.basew c, h - Client.baseh c) else (w, h) in
      (* adjust for aspect limits *)
      let '(w, h) :=
        if SFltb (f32_of_int 0) (Client.mina c)
           && SFltb (f32_of_int 0) (Client.maxa c)
        then
          if SFltb (Client.maxa c) (f32_div (f32_of_int w) (f32_of_int h))
          then (trunc_float
                  (f64_add (f64_of_f32 (f32_mul (f32_of_int h) (Client.maxa c)))
                           f64_0_5), h)
          else if SFltb (Client.mina c) (f32_div (f32_of_int h) (f32_of_int w))
          then (w, trunc_float
                     (f64_add (f64_of_f32 (f32_mul (f32_of_int w) (Client.mina c)))
                              f64_0_5))
          else (w, h)
        else (w, h) in
      let '(w, h) :=
        if baseismin (* increment calculation requires this *)
        then (w - Client.basew c, h - Client.baseh c) else (w, h) in
      (* adjust for increment value *)
      let w := if Client.incw c =? 0 then w else w - Z.rem w (Client.incw c) in
      let h := if Client.inch c =? 0 then h else h - Z.rem h (Client.inch c) in
      (* restore base dimensions *)
      let w := Z.max (w + Client.basew c) (Client.minw c) in
      let h := Z.max (h + Client.baseh c) (Client.minh c) in
      let w := if Client.maxw c =? 0 then w else Z.min w (Client.maxw c) in
      let h := if Client.maxh c =? 0 then h else Z.min h (Client.maxh c) in
      (w, h)
    else (w, h) in
  (x, y, w, h,
   negb (x =? Client.x c) || negb (y =? Client.y c)
   || negb (w =? Client.w c) || negb (h =? Client.h c)).

(** The assignments of [resizeclient] to the client structure. *)
Definition resizeclient_rec (x y w h : Z) (c : Client.t) : Client.t :=
  Client.set_geom x y w h
    (Client.set_oldgeom (Client.x c) (Client.y c) (Client.w c) (Client.h c) c).

Definition resizeclient (c : nat) (x y w h : Z) (s : State) : State :=
  updc c (resizeclient_rec x y w h) s.

Definition resize (c : nat) (x y w h : Z) (interact : bool) (s : State) : State :=
  match heap s !! c with
  | Some cl =>
      match mons s !! Client.mon cl with
      | Some m =>
          let '(x, y, w, h, changed) := applysizehints s m cl x y w h interact in
          if changed then resizeclient c x y w h s else s
      | None => s
      end
  | None => s
  end.

(** ** Layouts *)

(** The test of [nexttiled]: the client is neither floating nor hidden.
    An address with no structure behind it is passed over. *)
Definition istiled (s : State) (c : nat) : bool :=
  match heap s !! c with
  | Some cl => negb (Client.isfloating cl) && ISVISIBLE s cl
  | None => false
  end.

(** [nexttiled]: the rest of the [next] chain from its first tiled client. *)
Fixpoint nexttiled (s : State) (cs : list nat) : list nat :=
  match cs with
  | [] => []
  | c :: rest => if istiled s c then cs else nexttiled s rest
  end.

(** [showhide], along the [snext] chain [cs].  The moves of the X windows
    leave the structures alone; floating clients that are not fullscreen
    are resized to their own geometry. *)
Fixpoint showhide (cs : list nat) (s : State) : State :=
  match cs with
  | [] => s
  | c :: rest =>
      match heap s !! c with
      | Some cl =>
          if ISVISIBLE s cl then
            (* show clients top down *)
            let floating :=
              match mons s !! Client.mon cl with
              | Some m => negb (bool_decide (is_Some (cur_arrange m)))
              | None => false
              end in
            let s :=
              if (floating || Client.isfloating cl) && negb (Client.isfullscreen cl)
              then resize c (Client.x cl) (Client.y cl) (Client.w cl) (Client.h cl)
                     false s
              else s in
            showhide rest s
          else
            (* hide clients bottom up *)
            showhide rest s
      | None => s
      end
  end.

(** [HEIGHT(c)] through a pointer. *)
Definition height_of (s : State) (c : nat) : Z :=
  match heap s !! c with
  | Some cl => HEIGHT cl
  | None => 0
  end.

(** The second loop of [tile] over the tiled clients of the [next] chain
    [cs]; [i], [my], [ty], [n] and [mw] are the [unsigned int] locals. *)
Fixpoint tile_loop (m : Monitor.t) (n mw : Z) (cs : list nat) (i my ty : Z)
    (s : State) : State :=
  match cs with
  | [] => s
  | c :: rest =>
      match heap s !! c with
      | Some cl =>
          if negb (Client.isfloating cl) && ISVISIBLE s cl then
            if i <? u32 (Monitor.nmaster m) then
              (* put it in master area *)
              let h := u32 (Monitor.wh m - my)
                       / u32 (Z.min n (u32 (Monitor.nmaster m)) - i) in
              let s := resize c (Monitor.wx m) (s32 (Monitor.wy m + my))
                         (s32 (mw - 2 * Client.bw cl)) (s32 (h - 2 * Client.bw cl))
                         false s in
              tile_loop m n mw rest (u32 (i + 1)) (u32 (my + height_of s c)) ty s
            else
              (* put it in stack area *)
              let h := u32 (Monitor.wh m - ty) / u32 (n - i) in
              let s := resize c (s32 (Monitor.wx m + mw)) (s32 (Monitor.wy m + ty))
                         (s32 (Monitor.ww m - mw - 2 * Client.bw cl))
                         (s32 (h - 2 * Client.bw cl)) false s in
              tile_loop m n mw rest (u32 (i + 1)) my (u32 (ty + height_of s c)) s
          else tile_loop m n mw rest i my ty s
      | None => tile_loop m n mw rest i my ty s
      end
  end.

(** [tile], for the monitor at position [mi]. *)
Definition tile (mi : nat) (s : State) : State :=
  match mons s !! mi with
  | Some m =>
      (* count the number of tiled windows *)
      let n := u32 (Z.of_nat (length (filter (fun c => istiled s c = true)
                                             (Monitor.clients m)))) in
      if n =? 0 then s
      else
        let mw :=
          if u32 (Monitor.nmaster m) <? n then
            if Monitor.nmaster m =? 0 then 0
            else u32 (trunc_float
                        (f32_mul (f32_of_int (Monitor.ww m)) (Monitor.mfact m)))
          else u32 (Monitor.ww m) in
        tile_loop m n mw (Monitor.clients m) 0 0 0 s
  | None => s
  end.

(** The resizing loop of [monocle]. *)
Fixpoint monocle_loop (m : Monitor.t) (cs : list nat) (s : State) : State :=
  match cs with
  | [] => s
  | c :: rest =>
      match heap s !! c with
      | Some cl =>
          if negb (Client.isfloating cl) && ISVISIBLE s cl then
            monocle_loop m rest
              (resize c (Monitor.wx m) (Monitor.wy m)
                 (Monitor.ww m - 2 * Client.bw cl) (Monitor.wh m - 2 * Client.bw cl)
                 false s)
          else monocle_loop m rest s
      | None => monocle_loop m rest s
      end
  end.

(** [monocle]: the symbol becomes ["[n]"] for [n > 0] visible clients. *)
Definition monocle (mi : nat) (s : State) : State :=
  match mons s !! mi with
  | Some m =>
      let n := u32 (Z.of_nat (length (filter (fun c => visible s c = true)
                                             (Monitor.clients m)))) in
      let s :=
        if 0 <? n
        then updm mi (Monitor.set_ltsymbol ("[" +:+ pretty (s32 n) +:+ "]")) s
        else s in
      monocle_loop m (Monitor.clients m) s
  | None => s
  end.

(** [arrangemon]. *)
Definition arrangemon (mi : nat) (s : State) : State :=
  match mons s !! mi with
  | Some m =>
      let s := updm mi (Monitor.set_ltsymbol
                          (Layout.symbol (lt m (Monitor.sellt m)))) s in
      match cur_arrange m with
      | Some Tile => tile mi s
      | Some Monocle => monocle mi s
      | None => s
      end
  | None => s
  end.

(** [showhide(m->stack)] for the monitor at position [mi]. *)
Definition showhide_mon (mi : nat) (s : State) : State :=
  match mons s !! mi with
  | Some m => showhide (Monitor.stack m) s
  | None => s
  end.

(** [arrange(m)]; [None] is the null pointer, that is all monitors.
    [restack] only draws the bar and orders the X windows. *)
Definition arrange (m : option nat) (s : State) : State :=
  match m with
  | Some mi => arrangemon mi (showhide_mon mi s)
  | None =>
      let all := seq 0 (length (mons s)) in
      foldl (fun s mi => arrangemon mi s) (foldl (fun s mi => showhide_mon mi s) s all) all
  end.

(** ** Client lists and focus *)

(** Unlinking [c] from a chain: the first link that points to [c] is made
    to point to the client after it.  A chain without [c] is left as it
    is: the loops of [detach] and [detachstack] would run to its end and
    write [c]'s own link there, but they are only called on a client that
    is in the chain. *)
Fixpoint unlink (c : nat) (l : list nat) : list nat :=
  match l with
  | [] => []
  | d :: rest => if decide (d = c) then rest else d :: unlink c rest
  end.

(** The chain after [c], that is [c->next] or [c->snext]. *)
Fixpoint after (c : nat) (l : list nat) : list nat :=
  match l with
  | [] => []
  | d :: rest => if decide (d = c) then rest else after c rest
  end.

(** The chain up to [c], without it. *)
Fixpoint before (c : nat) (l : list nat) : list nat :=
  match l with
  | [] => []
  | d :: rest => if decide (d = c) then [] else d :: before c rest
  end.

(** [c->mon], when [c] points to a client. *)
Definition mon_of (s : State) (c : nat) : option nat :=
  Client.mon <$> heap s !! c.

(** The first visible client of a [snext] chain. *)
Definition first_visible (s : State) (l : list nat) : option nat :=
  find (visible s) l.

Definition attach (c : nat) (s : State) : State :=
  match mon_of s c with
  | Some mi => updm mi (fun m => Monitor.set_clients (c :: Monitor.clients m) m) s
  | None => s
  end.

Definition attachstack (c : nat) (s : State) : State :=
  match mon_of s c with
  | Some mi => updm mi (fun m => Monitor.set_stack (c :: Monitor.stack m) m) s
  | None => s
  end.

Definition detach (c : nat) (s : State) : State :=
  match mon_of s c with
  | Some mi =>
      updm mi (fun m => Monitor.set_clients (unlink c (Monitor.clients m)) m) s
  | None => s
  end.

(** [detachstack]: if [c] was selected, the first visible client left in
    the stack is. *)
Definition detachstack (c : nat) (s : State) : State :=
  match mon_of s c with
  | Some mi =>
      let s := updm mi (fun m => Monitor.set_stack (unlink c (Monitor.stack m)) m) s in
      match mons s !! mi with
      | Some m =>
          if decide (Monitor.sel m = Some c)
          then updm mi (Monitor.set_sel (first_visible s (Monitor.stack m))) s
          else s
      | None => s
      end
  | None => s
  end.

(** [seturgent]: the flag of the structure; the WM hints of the window
    are the server's. *)
Definition seturgent (c : nat) (urg : bool) (s : State) : State :=
  updc c (Client.set_isurgent urg) s.

(** [focus(c)]; [None] is the null pointer.  [unfocus], [grabbuttons],
    [setfocus] and [drawbars] act on the X server only. *)
Definition focus (c : option nat) (s : State) : State :=
  let c :=
    match c with
    | Some a =>
        if visible s a then Some a
        else mons s !! selmon s ≫= fun m => first_visible s (Monitor.stack m)
    | None => mons s !! selmon s ≫= fun m => first_visible s (Monitor.stack m)
    end in
  let s :=
    match c with
    | Some a =>
        match heap s !! a with
        | Some cl =>
            let s := if decide (Client.mon cl = selmon s) then s
                     else set_selmon (Client.mon cl) s in
            let s := if Client.isurgent cl then seturgent a false s else s in
            attachstack a (detachstack a s)
        | None => s
        end
    | None => s
    end in
  updm (selmon s) (Monitor.set_sel c) s.

(** ** Tags and views *)

Definition view (ui : Z) (s : State) : State :=
  match mons s !! selmon s with
  | Some m =>
      if Z.land ui TAGMASK =? tagset m (Monitor.seltags m) then s
      else
        let s :=
          updm (selmon s)
            (fun m =>
               (* toggle sel tagset *)
               let m := Monitor.set_seltags (Z.lxor (Monitor.seltags m) 1) m in
               if Z.land ui TAGMASK =? 0 then m
               else set_tagset (Monitor.seltags m) (Z.land ui TAGMASK) m) s in
        let s := focus None s in
        arrange (Some (selmon s)) s
  | None => s
  end.

Definition toggleview (ui : Z) (s : State) : State :=
  match mons s !! selmon s with
  | Some m =>
      let newtagset := Z.lxor (tagset m (Monitor.seltags m)) (Z.land ui TAGMASK) in
      if newtagset =? 0 then s
      else
        let s := updm (selmon s) (set_tagset (Monitor.seltags m) newtagset) s in
        let s := focus None s in
        arrange (Some (selmon s)) s
  | None => s
  end.

Definition tag (ui : Z) (s : State) : State :=
  match mons s !! selmon s with
  | Some m =>
      match Monitor.sel m with
      | Some c =>
          if Z.land ui TAGMASK =? 0 then s
          else
            let s := updc c (Client.set_tags (Z.land ui TAGMASK)) s in
            let s := focus None s in
            arrange (Some (selmon s)) s
      | None => s
      end
  | None => s
  end.

Definition toggletag (ui : Z) (s : State) : State :=
  match mons s !! selmon s with
  | Some m =>
      match Monitor.sel m with
      | Some c =>
          match heap s !! c with
          | Some cl =>
              let newtags := Z.lxor (Client.tags cl) (Z.land ui TAGMASK) in
              if newtags =? 0 then s
              else
                let s := updc c (Client.set_tags newtags) s in
                let s := focus None s in
                arrange (Some (selmon s)) s
          | None => s
          end
      | None => s
      end
  | None => s
  end.

(** ** Master area *)

(** [pop]. *)
Definition pop (c : nat) (s : State) : State :=
  let s := attach c (detach c s) in
  let s := focus (Some c) s in
  arrange (mon_of s c) s.

(** [zoom]. *)
Definition zoom (s : State) : State :=
  match mons s !! selmon s with
  | Some m =>
      let c := Monitor.sel m in
      if negb (bool_decide (is_Some (cur_arrange m)))
         || match c ≫= fun a => heap s !! a with
            | Some cl => Client.isfloating cl
            | None => false
            end
      then s
      else
        match c with
        | Some a =>
            if decide (head (nexttiled s (Monitor.clients m)) = Some a) then
              match head (nexttiled s (after a (Monitor.clients m))) with
              | Some b => pop b s
              | None => s
              end
            else pop a s
        | None => s
        end
  | None => s
  end.

(** ** Fullscreen and floating *)

(** [setfullscreen]. *)
Definition setfullscreen (c : nat) (fullscreen : bool) (s : State) : State :=
  match heap s !! c with
  | Some cl =>
      if fullscreen && negb (Client.isfullscreen cl) then
        (* must become fullscreen *)
        match mons s !! Client.mon cl with
        | Some m =>
            let s :=
              updc c (fun cl =>
                        Client.set_isfloating true
                          (Client.set_bw 0
                             (Client.set_oldbw (Client.bw cl)
                                (Client.set_oldstate (Client.isfloating cl)
                                   (Client.set_isfullscreen true cl))))) s in
            resizeclient c (Monitor.mx m) (Monitor.my m) (Monitor.mw m)
              (Monitor.mh m) s
        | None => s
        end
      else if negb fullscreen && Client.isfullscreen cl then
        (* must stop being fullscreen *)
        let s :=
          updc c (fun cl =>
                    Client.set_geom (Client.oldx cl) (Client.oldy cl)
                      (Client.oldw cl) (Client.oldh cl)
                      (Client.set_bw (Client.oldbw cl)
                         (Client.set_isfloating (Client.oldstate cl)
                            (Client.set_isfullscreen false cl)))) s in
        let s :=
          updc c (fun cl =>
                    resizeclient_rec (Client.x cl) (Client.y cl) (Client.w cl)
                      (Client.h cl) cl) s in
        arrange (Some (Client.mon cl)) s
      else s
  | None => s
  end.

(** [togglefloating]. *)
Definition togglefloating (s : State) : State :=
  match mons s !! selmon s ≫= Monitor.sel with
  | Some c =>
      match heap s !! c with
      | Some cl =>
          if Client.isfullscreen cl then s (* no support for fullscreen windows *)
          else
            let fl := negb (Client.isfloating cl) || Client.isfixed cl in
            let s := updc c (Client.set_isfloating fl) s in
            let s :=
              if fl
              then resize c (Client.x cl) (Client.y cl) (Client.w cl) (Client.h cl)
                     false s
              else s in
            arrange (Some (selmon s)) s
      | None => s
      end
  | None => s
  end.

(** ** Monitors *)

(** [dirtomon]: the monitor after or before the selected one, around the
    list. *)
Definition dirtomon (dir : Z) (s : State) : nat :=
  if 0 <? dir then
    if decide (S (selmon s) < length (mons s))%nat then S (selmon s) else 0%nat
  else if decide (selmon s = 0%nat) then pred (length (mons s))
  else pred (selmon s).

(** [sendmon]. *)
Definition sendmon (c : nat) (mi : nat) (s : State) : State :=
  match heap s !! c, mons s !! mi with
  | Some cl, Some m =>
      if decide (Client.mon cl = mi) then s
      else
        let s := detachstack c (detach c s) in
        let s :=
          updc c (fun cl =>
                    (* assign tags of target monitor *)
                    Client.set_tags (tagset m (Monitor.seltags m))
                      (Client.set_mon mi cl)) s in
        let s := attachstack c (attach c s) in
        arrange None (focus None s)
  | _, _ => s
  end.

Definition tagmon (i : Z) (s : State) : State :=
  match mons s !! selmon s ≫= Monitor.sel with
  | Some c =>
      if decide (length (mons s) <= 1)%nat then s
      else sendmon c (dirtomon i s) s
  | None => s
  end.

Definition focusmon (i : Z) (s : State) : State :=
  if decide (length (mons s) <= 1)%nat then s (* there is only one monitor *)
  else
    let m := dirtomon i s in
    if decide (m = selmon s) then s
    else focus None (set_selmon m s).

(** The last visible client of a [next] chain. *)
Definition last_visible (s : State) (l : list nat) : option nat :=
  last (filter (fun c => visible s c = true) l).

(** [focusstack]. *)
Definition focusstack (i : Z) (s : State) : State :=
  match mons s !! selmon s with
  | Some m =>
      match Monitor.sel m with
      | Some a =>
          let c :=
            if 0 <? i then
              match first_visible s (after a (Monitor.clients m)) with
              | Some c => Some c
              | None => first_visible s (Monitor.clients m)
              end
            else
              match last_visible s (before a (Monitor.clients m)) with
              | Some c => Some c
              | None => last_visible s (a :: after a (Monitor.clients m))
              end in
          match c with
          | Some c => focus (Some c) s
          | None => s
          end
      | None => s
      end
  | None => s
  end.

Definition incnmaster (i : Z) (s : State) : State :=
  let s := updm (selmon s)
             (fun m => Monitor.set_nmaster (Z.max (Monitor.nmaster m + i) 0) m) s in
  arrange (Some (selmon s)) s.

(** [setlayout]; [None] is an absent argument or an absent layout in it. *)
Definition setlayout (v : option Layout.t) (s : State) : State :=
  match mons s !! selmon s with
  | Some m =>
      let toggle :=
        match v with
        | Some l => negb (bool_decide (l = lt m (Monitor.sellt m)))
        | None => true
        end in
      let sellt := if toggle then Z.lxor (Monitor.sellt m) 1 else Monitor.sellt m in
      let s := updm (selmon s) (Monitor.set_sellt sellt) s in
      let s :=
        match v with
        | Some l => updm (selmon s) (set_lt sellt l) s
        | None => s
        end in
      let s :=
        updm (selmon s)
          (fun m => Monitor.set_ltsymbol (Layout.symbol (lt m (Monitor.sellt m))) m)
          s in
      match Monitor.sel m with
      | Some _ => arrange (Some (selmon s)) s
      | None => s
      end
  | None => s
  end.

(** [setmfact]; the argument is [arg->f]. *)
Definition setmfact (af : float32) (s : State) : State :=
  match mons s !! selmon s with
  | Some m =>
      if negb (bool_decide (is_Some (cur_arrange m))) then s
      else
        let f : float32 :=
          if SFltb (f64_of_f32 af) f64_1_0
          then f32_add af (Monitor.mfact m)
          else f32_of_f64 (f64_sub (f64_of_f32 af) f64_1_0) in
        if SFltb (f64_of_f32 f) f64_0_1 || SFltb f64_0_9 (f64_of_f32 f) then s
        else
          let s := updm (selmon s) (Monitor.set_mfact f) s in
          arrange (Some (selmon s)) s
  | None => s
  end.

(** [updatebarpos]. *)
Definition updatebarpos (bh : Z) (m : Monitor.t) : Monitor.t :=
  let m := Monitor.set_wh (Monitor.mh m) (Monitor.set_wy (Monitor.my m) m) in
  if Monitor.showbar m then
    let m := Monitor.set_wh (Monitor.wh m - bh) m in
    let m := Monitor.set_by
               (if Monitor.topbar m then Monitor.wy m
                else Monitor.wy m + Monitor.wh m) m in
    Monitor.set_wy (if Monitor.topbar m then Monitor.wy m + bh else Monitor.wy m) m
  else Monitor.set_by (- bh) m.

Definition togglebar (s : State) : State :=
  let s := updm (selmon s)
             (fun m => updatebarpos (bh s)
                         (Monitor.set_showbar (negb (Monitor.showbar m)) m)) s in
  arrange (Some (selmon s)) s.

Definition quit (s : State) : State := set_running false s.

(** ** What the X server answers *)

Module XWindowAttributes.
Record t := mk {
  x : Z;
  y : Z;
  width : Z;
  height : Z;
  border_width : Z;
  override_redirect : bool
}.
End XWindowAttributes.

Module XSizeHints.
Record t := mk {
  flags : Z;
  min_width : Z;
  min_height : Z;
  max_width : Z;
  max_height : Z;
  width_inc : Z;
  height_inc : Z;
  min_aspect_x : Z;
  min_aspect_y : Z;
  max_aspect_x : Z;
  max_aspect_y : Z;
  base_width : Z;
  base_height : Z
}.
End XSizeHints.

Module XWMHints.
Record t := mk {
  flags : Z;
  input : bool
}.
End XWMHints.

(** The flag bits of Xutil.h. *)
Definition PMinSize : Z := Z.shiftl 1 4.
Definition PMaxSize : Z := Z.shiftl 1 5.
Definition PResizeInc : Z := Z.shiftl 1 6.
Definition PAspect : Z := Z.shiftl 1 7.
Definition PBaseSize : Z := Z.shiftl 1 8.
Definition InputHint : Z := Z.shiftl 1 0.
Definition XUrgencyHint : Z := Z.shiftl 1 8.

(** The properties of a window that [manage] and the property handlers
    read: the text [gettextprop] leaves in the name buffer, the
    [WM_TRANSIENT_FOR] window, the class hint, whether [_NET_WM_STATE] is
    the fullscreen atom and [_NET_WM_WINDOW_TYPE] the dialog atom, the
    normal hints and the WM hints (absent when the request fails). *)
Module WinProps.
Record t := mk {
  title : string;
  transient_for : option Z;
  res_class : option string;
  res_name : option string;
  state_fullscreen : bool;
  type_dialog : bool;
  normal_hints : option XSizeHints.t;
  wm_hints : option XWMHints.t
}.
End WinProps.

(** A window an event names: the root, the bar of a monitor, or another
    window by its identifier. *)
Inductive Window : Type :=
| Root
| BarWin (mi : nat)
| Win (w : Z).

#[global] Instance Window_eq_dec : EqDecision Window.
Proof. solve_decision. Defined.

(** ** Looking windows up *)

(** [wintoclient]. *)
Definition wintoclient (w : Z) (s : State) : option nat :=
  find (fun c => match heap s !! c with
                 | Some cl => Client.win cl =? w
                 | None => false
                 end)
       (concat (Monitor.clients <$> mons s)).

(** [INTERSECT(x,y,w,h,m)]. *)
Definition INTERSECT (x y w h : Z) (m : Monitor.t) : Z :=
  Z.max 0 (Z.min (x + w) (Monitor.wx m + Monitor.ww m) - Z.max x (Monitor.wx m))
  * Z.max 0 (Z.min (y + h) (Monitor.wy m + Monitor.wh m) - Z.max y (Monitor.wy m)).

(** The loop of [recttomon] from position [i], with the locals [r] and
    [area]. *)
Fixpoint recttomon_loop (x y w h : Z) (ms : list Monitor.t) (i r : nat) (area : Z)
    : nat :=
  match ms with
  | [] => r
  | m :: rest =>
      let a := INTERSECT x y w h m in
      if area <? a then recttomon_loop x y w h rest (S i) i a
      else recttomon_loop x y w h rest (S i) r area
  end.

Definition recttomon (x y w h : Z) (s : State) : nat :=
  recttomon_loop x y w h (mons s) 0 (selmon s) 0.

(** [wintomon]; [ptr] is what [getrootptr] gives. *)
Definition wintomon (w : Window) (ptr : option (Z * Z)) (s : State) : nat :=
  match w, ptr with
  | Root, Some (x, y) => recttomon x y 1 1 s
  | Root, None => selmon s
  | BarWin mi, _ => if decide (mi < length (mons s))%nat then mi else selmon s
  | Win w, _ =>
      match wintoclient w s ≫= mon_of s with
      | Some mi => mi
      | None => selmon s
      end
  end.

(** ** Window properties *)

Definition broken : string := "broken".

(** [strstr(hay, needle) != NULL]. *)
Fixpoint strstr (hay needle : string) : bool :=
  String.prefix needle hay
  || match hay with
     | EmptyString => false
     | String _ rest => strstr rest needle
     end.

(** [updatetitle]. *)
Definition updatetitle (c : nat) (title : string) (s : State) : State :=
  updc c (Client.set_name (if decide (title = "") then broken else title)) s.

(** [updatesizehints]. *)
Definition updatesizehints_rec (size : option XSizeHints.t) (c : Client.t)
    : Client.t :=
  let flag (f : Z) :=
    match size with
    | Some sz => negb (Z.land (XSizeHints.flags sz) f =? 0)
    | None => false
    end in
  let get (p : XSizeHints.t -> Z) := from_option p 0 size in
  let c :=
    if flag PBaseSize
    then Client.set_base (get XSizeHints.base_width) (get XSizeHints.base_height) c
    else if flag PMinSize
    then Client.set_base (get XSizeHints.min_width) (get XSizeHints.min_height) c
    else Client.set_base 0 0 c in
  let c :=
    if flag PResizeInc
    then Client.set_inc (get XSizeHints.width_inc) (get XSizeHints.height_inc) c
    else Client.set_inc 0 0 c in
  let c :=
    if flag PMaxSize
    then Client.set_max (get XSizeHints.max_width) (get XSizeHints.max_height) c
    else Client.set_max 0 0 c in
  let c :=
    if flag PMinSize
    then Client.set_min (get XSizeHints.min_width) (get XSizeHints.min_height) c
    else if flag PBaseSize
    then Client.set_min (get XSizeHints.base_width) (get XSizeHints.base_height) c
    else Client.set_min 0 0 c in
  let c :=
    if flag PAspect
    then Client.set_aspect
           (f32_div (f32_of_int (get XSizeHints.min_aspect_y))
                    (f32_of_int (get XSizeHints.min_aspect_x)))
           (f32_div (f32_of_int (get XSizeHints.max_aspect_x))
                    (f32_of_int (get XSizeHints.max_aspect_y))) c
    else Client.set_aspect (S754_zero false) (S754_zero false) c in
  Client.set_isfixed
    (negb (Client.maxw c =? 0) && negb (Client.maxh c =? 0)
     && (Client.maxw c =? Client.minw c) && (Client.maxh c =? Client.minh c)) c.

Definition updatesizehints (c : nat) (size : option XSizeHints.t) (s : State)
    : State :=
  updc c (updatesizehints_rec size) s.

(** [updatewmhints]. *)
Definition updatewmhints (c : nat) (wmh : option XWMHints.t) (s : State) : State :=
  match wmh with
  | Some h =>
      let urgent := negb (Z.land (XWMHints.flags h) XUrgencyHint =? 0) in
      let s :=
        if bool_decide (mons s !! selmon s ≫= Monitor.sel = Some c) && urgent
        then s
        else updc c (Client.set_isurgent urgent) s in
      if negb (Z.land (XWMHints.flags h) InputHint =? 0)
      then updc c (Client.set_neverfocus (negb (XWMHints.input h))) s
      else updc c (Client.set_neverfocus false) s
  | None => s
  end.

(** [updatewindowtype]. *)
Definition updatewindowtype (c : nat) (fullscreen dialog : bool) (s : State)
    : State :=
  let s := if fullscreen then setfullscreen c true s else s in
  if dialog then updc c (Client.set_isfloating true) s else s.

(** One turn of the loop of [applyrules]. *)
Definition applyrule (c : nat) (class instance : string) (s : State) (r : Rule.t)
    : State :=
  match heap s !! c with
  | Some cl =>
      if from_option (strstr (Client.name cl)) true (Rule.title r)
         && from_option (strstr class) true (Rule.class r)
         && from_option (strstr instance) true (Rule.instance r)
      then
        let s :=
          updc c (fun cl =>
                    Client.set_tags (Z.lor (Client.tags cl) (Rule.tags r))
                      (Client.set_isfloating (Rule.isfloating r) cl)) s in
        match list_find (fun m => Monitor.num m = Rule.monitor r) (mons s) with
        | Some (mi, _) => updc c (Client.set_mon mi) s
        | None => s
        end
      else s
  | None => s
  end.

(** [applyrules]. *)
Definition applyrules (c : nat) (res_class res_name : option string) (s : State)
    : State :=
  let s := updc c (fun cl => Client.set_tags 0 (Client.set_isfloating false cl)) s in
  let class := default broken res_class in
  let instance := default broken res_name in
  let s := foldl (applyrule c class instance) s config.rules in
  match heap s !! c ≫= fun cl => mons s !! Client.mon cl with
  | Some m =>
      updc c (fun cl =>
                Client.set_tags
                  (if Z.land (Client.tags cl) TAGMASK =? 0
                   then tagset m (Monitor.seltags m)
                   else Z.land (Client.tags cl) TAGMASK) cl) s
  | None => s
  end.

(** ** Managing and unmanaging windows *)

(** The placement of a new client inside its monitor [m], and its
    border. *)
Definition manage_place (bh : Z) (m : Monitor.t) (c : Client.t) : Client.t :=
  let c :=
    if Monitor.mx m + Monitor.mw m <? Client.x c + WIDTH c
    then Client.set_x (Monitor.mx m + Monitor.mw m - WIDTH c) c else c in
  let c :=
    if Monitor.my m + Monitor.mh m <? Client.y c + HEIGHT c
    then Client.set_y (Monitor.my m + Monitor.mh m - HEIGHT c) c else c in
  let c := Client.set_x (Z.max (Client.x c) (Monitor.mx m)) c in
  (* only fix client y-offset, if the client center might cover the bar *)
  let c :=
    Client.set_y
      (Z.max (Client.y c)
         (if (Monitor.by_ m =? Monitor.my m)
             && (Monitor.wx m <=? Client.x c + Client.w c ÷ 2)
             && (Client.x c + Client.w c ÷ 2 <? Monitor.wx m + Monitor.ww m)
          then bh else Monitor.my m)) c in
  Client.set_bw config.borderpx c.

(** [manage]: [w] is the window, [wa] its attributes and [p] its
    properties. *)
Definition manage (w : Z) (wa : XWindowAttributes.t) (p : WinProps.t) (s0 : State)
    : State :=
  (* create a client for the window *)
  let c := nextaddr s0 in
  let t := WinProps.transient_for p ≫= fun trans =>
           wintoclient trans s0 ≫= fun t => heap s0 !! t in
  let cl :=
    Client.mk "" (S754_zero false) (S754_zero false)
      (XWindowAttributes.x wa) (XWindowAttributes.y wa)
      (XWindowAttributes.width wa) (XWindowAttributes.height wa)
      (XWindowAttributes.x wa) (XWindowAttributes.y wa)
      (XWindowAttributes.width wa) (XWindowAttributes.height wa)
      0 0 0 0 0 0 0 0 0 (XWindowAttributes.border_width wa)
      (from_option Client.tags 0 t)
      false false false false false false
      (from_option Client.mon (selmon s0) t) w in
  let s := set_nextaddr (S c) (set_heap (<[c := cl]> (heap s0)) s0) in
  let s := updatetitle c (WinProps.title p) s in
  let s :=
    match t with
    | Some _ => s
    | None => applyrules c (WinProps.res_class p) (WinProps.res_name p) s
    end in
  match heap s !! c ≫= fun cl => mons s !! Client.mon cl with
  | Some m =>
      let s := updc c (manage_place (bh s) m) s in
      (* get other client values from the client's window *)
      let s := updatewindowtype c (WinProps.state_fullscreen p)
                 (WinProps.type_dialog p) s in
      let s := updatesizehints c (WinProps.normal_hints p) s in
      let s := updatewmhints c (WinProps.wm_hints p) s in
      let s :=
        updc c (fun cl =>
                  if Client.isfloating cl then cl
                  else
                    let f :=
                      match WinProps.transient_for p with
                      | Some trans => negb (trans =? 0)
                      | None => false
                      end || Client.isfixed cl in
                    Client.set_isfloating f (Client.set_oldstate f cl)) s in
      let s := attachstack c (attach c s) in
      match mon_of s c with
      | Some mi =>
          (* and select the new client *)
          let s := updm mi (Monitor.set_sel (Some c)) s in
          let s := arrange (Some mi) s in
          focus None s
      | None => s0
      end
  | None => s0
  end.

(** [unmanage]; whether the window was destroyed matters to the server
    only. *)
Definition unmanage (c : nat) (s : State) : State :=
  match mon_of s c with
  | Some m =>
      let s := detachstack c (detach c s) in
      let s := set_heap (delete c (heap s)) s in
      let s := focus None s in
      arrange (Some m) s
  | None => s
  end.

(** ** Requests and messages of clients *)

(** The bits of a [value_mask]. *)
Definition CWX : Z := Z.shiftl 1 0.
Definition CWY : Z := Z.shiftl 1 1.
Definition CWWidth : Z := Z.shiftl 1 2.
Definition CWHeight : Z := Z.shiftl 1 3.
Definition CWBorderWidth : Z := Z.shiftl 1 4.

Module XConfigureRequestEvent.
Record t := mk {
  window : Z;
  x : Z;
  y : Z;
  width : Z;
  height : Z;
  border_width : Z;
  value_mask : Z
}.
End XConfigureRequestEvent.

(** The branch of [configurerequest] for a floating client on monitor
    [m]. *)
Definition configurerequest_floating (ev : XConfigureRequestEvent.t)
    (m : Monitor.t) (c : Client.t) : Client.t :=
  let has (bit : Z) := negb (Z.land (XConfigureRequestEvent.value_mask ev) bit =? 0) in
  let c :=
    if has CWX
    then Client.set_x (Monitor.mx m + XConfigureRequestEvent.x ev)
           (Client.set_oldx (Client.x c) c)
    else c in
  let c :=
    if has CWY
    then Client.set_y (Monitor.my m + XConfigureRequestEvent.y ev)
           (Client.set_oldy (Client.y c) c)
    else c in
  let c :=
    if has CWWidth
    then Client.set_w (XConfigureRequestEvent.width ev)
           (Client.set_oldw (Client.w c) c)
    else c in
  let c :=
    if has CWHeight
    then Client.set_h (XConfigureRequestEvent.height ev)
           (Client.set_oldh (Client.h c) c)
    else c in
  let c :=
    if (Monitor.mx m + Monitor.mw m <? Client.x c + Client.w c)
       && Client.isfloating c
    then (* center in x direction *)
      Client.set_x (Monitor.mx m + (Monitor.mw m ÷ 2 - WIDTH c ÷ 2)) c
    else c in
  if (Monitor.my m + Monitor.mh m <? Client.y c + Client.h c)
     && Client.isfloating c
  then (* center in y direction *)
    Client.set_y (Monitor.my m + (Monitor.mh m ÷ 2 - HEIGHT c ÷ 2)) c
  else c.

(** [configurerequest]. *)
Definition configurerequest (ev : XConfigureRequestEvent.t) (s : State) : State :=
  match wintoclient (XConfigureRequestEvent.window ev) s with
  | Some c =>
      match heap s !! c with
      | Some cl =>
          if negb (Z.land (XConfigureRequestEvent.value_mask ev) CWBorderWidth =? 0)
          then updc c (Client.set_bw (XConfigureRequestEvent.border_width ev)) s
          else if Client.isfloating cl
                  || match mons s !! selmon s with
                     | Some sm => negb (bool_decide (is_Some (cur_arrange sm)))
                     | None => false
                     end
          then
            match mons s !! Client.mon cl with
            | Some m => updc c (configurerequest_floating ev m) s
            | None => s
            end
          else s
      | None => s
      end
  | None => s
  end.

(** [maprequest]; the attributes are absent when the request for them
    fails. *)
Definition maprequest (w : Z) (wa : option XWindowAttributes.t) (p : WinProps.t)
    (s : State) : State :=
  match wa with
  | Some wa =>
      if XWindowAttributes.override_redirect wa then s
      else
        match wintoclient w s with
        | Some _ => s
        | None => manage w wa p s
        end
  | None => s
  end.

(** The client messages the handler tells apart: [_NET_WM_STATE] with
    [data.l[0]] and whether [data.l[1]] or [data.l[2]] is the fullscreen
    atom, and [_NET_ACTIVE_WINDOW]. *)
Inductive ClientMsg : Type :=
| NetWMState (action : Z) (fullscreen : bool)
| NetActiveWindow
| OtherMsg.

(** [clientmessage]. *)
Definition clientmessage (w : Z) (msg : ClientMsg) (s : State) : State :=
  match wintoclient w s with
  | Some c =>
      match heap s !! c with
      | Some cl =>
          match msg with
          | NetWMState action fullscreen =>
              if fullscreen
              then setfullscreen c
                     ((action =? 1) (* _NET_WM_STATE_ADD *)
                      || ((action =? 2) (* _NET_WM_STATE_TOGGLE *)
                          && negb (Client.isfullscreen cl))) s
              else s
          | NetActiveWindow =>
              if negb (bool_decide (mons s !! selmon s ≫= Monitor.sel = Some c))
                 && negb (Client.isurgent cl)
              then seturgent c true s
              else s
          | OtherMsg => s
          end
      | None => s
      end
  | None => s
  end.

(** The atoms [propertynotify] tells apart. *)
Inductive PropAtom : Type :=
| XA_WM_TRANSIENT_FOR
| XA_WM_NORMAL_HINTS
| XA_WM_HINTS
| XA_WM_NAME
| NetWMName
| NetWMWindowType
| OtherAtom.

(** [propertynotify]; [p] holds the properties as the window has them
    now. *)
Definition propertynotify (w : Window) (atom : PropAtom) (deleted : bool)
    (p : WinProps.t) (s : State) : State :=
  match w, atom with
  | Root, XA_WM_NAME => s (* status text needs to change *)
  | _, _ =>
      if deleted then s
      else
        match match w with Win w => wintoclient w s | _ => None end with
        | Some c =>
            let s :=
              match atom with
              | XA_WM_TRANSIENT_FOR =>
                  match heap s !! c, WinProps.transient_for p with
                  | Some cl, Some trans =>
                      if Client.isfloating cl then s
                      else
                        let f := bool_decide (is_Some (wintoclient trans s)) in
                        let s := updc c (Client.set_isfloating f) s in
                        if f then arrange (Some (Client.mon cl)) s else s
                  | _, _ => s
                  end
              | XA_WM_NORMAL_HINTS => updatesizehints c (WinProps.normal_hints p) s
              | XA_WM_HINTS => updatewmhints c (WinProps.wm_hints p) s
              | _ => s
              end in
            let s :=
              match atom with
              | XA_WM_NAME | NetWMName => updatetitle c (WinProps.title p) s
              | _ => s
              end in
            match atom with
            | NetWMWindowType =>
                updatewindowtype c (WinProps.state_fullscreen p)
                  (WinProps.type_dialog p) s
            | _ => s
            end
        | None => s
        end
  end.

(** [enternotify]. *)
Definition enternotify (w : Window) (normal inferior : bool) (ptr : option (Z * Z))
    (s : State) : State :=
  if (negb normal || inferior) && negb (bool_decide (w = Root)) then s
  else
    let c := match w with Win w => wintoclient w s | _ => None end in
    let m :=
      match c ≫= mon_of s with
      | Some mi => mi
      | None => wintomon w ptr s
      end in
    if negb (bool_decide (m = selmon s)) then focus c (set_selmon m s)
    else
      match c with
      | Some a =>
          if bool_decide (mons s !! selmon s ≫= Monitor.sel = Some a) then s
          else focus c s
      | None => s
      end.

(** [motionnotify]. *)
Definition motionnotify (w : Window) (x_root y_root : Z) (s : State) : State :=
  if negb (bool_decide (w = Root)) then s
  else
    let m := recttomon x_root y_root 1 1 s in
    let s :=
      match motionmon s with
      | Some mon =>
          if negb (bool_decide (m = mon)) then focus None (set_selmon m s) else s
      | None => s
      end in
    set_motionmon (Some m) s.

(** ** Monitor geometry *)

(** [createmon]. *)
Definition createmon : Monitor.t :=
  Monitor.mk (Layout.symbol (default (Layout.mk "" None) (config.layouts !! 0%nat)))
    config.mfact config.nmaster 0 0 0 0 0 0 0 0 0 0 0 0 1 1
    config.showbar config.topbar [] None []
    (default (Layout.mk "" None) (config.layouts !! 0%nat))
    (default (Layout.mk "" None)
       (config.layouts !! (1 mod length config.layouts)%nat)).

(** A Xinerama screen: origin and size. *)
Module XineramaScreenInfo.
Record t := mk {
  x_org : Z;
  y_org : Z;
  width : Z;
  height : Z
}.
End XineramaScreenInfo.

#[global] Instance XineramaScreenInfo_eq_dec : EqDecision XineramaScreenInfo.t.
Proof. solve_decision. Defined.

(** [isuniquegeom]. *)
Definition isuniquegeom (unique : list XineramaScreenInfo.t)
    (info : XineramaScreenInfo.t) : bool :=
  negb (bool_decide (info ∈ unique)).

(** The screens of unique geometry, in the order of the query. *)
Definition unique_screens (info : list XineramaScreenInfo.t)
    : list XineramaScreenInfo.t :=
  foldl (fun unique i => if isuniquegeom unique i then unique ++ [i] else unique)
        [] info.

(** The geometry of screen [u] given to monitor number [i]. *)
Definition setgeom (bh : Z) (i : nat) (u : XineramaScreenInfo.t) (m : Monitor.t)
    : Monitor.t :=
  let m := Monitor.set_num (Z.of_nat i) m in
  let m := Monitor.set_wx (XineramaScreenInfo.x_org u)
             (Monitor.set_mx (XineramaScreenInfo.x_org u) m) in
  let m := Monitor.set_wy (XineramaScreenInfo.y_org u)
             (Monitor.set_my (XineramaScreenInfo.y_org u) m) in
  let m := Monitor.set_ww (XineramaScreenInfo.width u)
             (Monitor.set_mw (XineramaScreenInfo.width u) m) in
  let m := Monitor.set_wh (XineramaScreenInfo.height u)
             (Monitor.set_mh (XineramaScreenInfo.height u) m) in
  updatebarpos bh m.

(** The second loop of the growing branch of [updategeom], from monitor
    [i]; [n] is the number of monitors there were. *)
Fixpoint updategeom_set (bh : Z) (n i : nat) (unique : list XineramaScreenInfo.t)
    (ms : list Monitor.t) : list Monitor.t * bool :=
  match unique, ms with
  | u :: unique', m :: ms' =>
      let '(rest, dirty) := updategeom_set bh n (S i) unique' ms' in
      if bool_decide (n <= i)%nat
         || negb (XineramaScreenInfo.x_org u =? Monitor.mx m)
         || negb (XineramaScreenInfo.y_org u =? Monitor.my m)
         || negb (XineramaScreenInfo.width u =? Monitor.mw m)
         || negb (XineramaScreenInfo.height u =? Monitor.mh m)
      then (setgeom bh i u m :: rest, true)
      else (m :: rest, dirty)
  | _, _ => (ms, false)
  end.

(** Moving the clients [cs] of the monitor [last], about to be removed, to
    the first monitor. *)
Fixpoint migrate (last : nat) (cs : list nat) (s : State) : State :=
  match cs with
  | [] => s
  | c :: rest =>
      let s := updm last (Monitor.set_clients rest) s in
      let s := detachstack c s in
      let s := updc c (Client.set_mon 0%nat) s in (* attach to first available monitor *)
      let s := attachstack c (attach c s) in
      migrate last rest s
  end.

(** The shrinking branch of [updategeom]: the last monitor is removed
    [k] times.  (When the only monitor left still has clients the source
    does not leave its inner loop; the removal stops there.) *)
Fixpoint updategeom_shrink (k : nat) (s : State) : State * bool :=
  match k with
  | O => (s, false)
  | S k' =>
      let last := pred (length (mons s)) in
      match mons s !! last with
      | Some m =>
          if bool_decide (last = 0%nat) && negb (bool_decide (Monitor.clients m = []))
          then (s, true)
          else
            let s1 := migrate last (Monitor.clients m) s in
            let s1 := if bool_decide (selmon s1 = last) then set_selmon 0%nat s1
                      else s1 in
            let s1 := set_mons (take last (mons s1)) s1 in
            let '(s2, dirty) := updategeom_shrink k' s1 in
            (s2, dirty || negb (bool_decide (Monitor.clients m = [])))
      | None => (s, false)
      end
  end.

(** [updategeom]: the state and whether the geometry changed.  [xinerama]
    holds the screens when Xinerama is compiled in and active, [ptr] is
    what [getrootptr] gives. *)
Definition updategeom (xinerama : option (list XineramaScreenInfo.t))
    (ptr : option (Z * Z)) (s : State) : State * bool :=
  let '(s, dirty) :=
    match xinerama with
    | Some info =>
        let n := length (mons s) in
        let unique := unique_screens info in
        let nn := length unique in
        if bool_decide (n <= nn)%nat then
          (* new monitors available *)
          let ms := mons s ++ replicate (nn - n) createmon in
          let '(ms, dirty) := updategeom_set (bh s) n 0 unique ms in
          (set_mons ms s, dirty)
        else (* less monitors available *)
          updategeom_shrink (n - nn) s
    | None =>
        (* default monitor setup *)
        let s := if bool_decide (mons s = []) then set_mons [createmon] s else s in
        match mons s !! 0%nat with
        | Some m =>
            if negb (Monitor.mw m =? sw s) || negb (Monitor.mh m =? sh s)
            then
              (updm 0%nat
                 (fun m =>
                    updatebarpos (bh s)
                      (Monitor.set_wh (sh s)
                         (Monitor.set_mh (sh s)
                            (Monitor.set_ww (sw s) (Monitor.set_mw (sw s) m))))) s,
               true)
            else (s, false)
        | None => (s, false)
        end
    end in
  if dirty
  then (let s := set_selmon 0%nat s in set_selmon (wintomon Root ptr s) s, true)
  else (s, false).

(** The fullscreen clients of all monitors are given the geometry of
    their monitor, as [configurenotify] does. *)
Definition refullscreen (s : State) : State :=
  foldl (fun s m =>
           foldl (fun s c =>
                    match heap s !! c with
                    | Some cl =>
                        if Client.isfullscreen cl
                        then resizeclient c (Monitor.mx m) (Monitor.my m)
                               (Monitor.mw m) (Monitor.mh m) s
                        else s
                    | None => s
                    end) s (Monitor.clients m))
        s (mons s).

(** [configurenotify]; [width] and [height] are those of the event. *)
Definition configurenotify (w : Window) (width height : Z)
    (xinerama : option (list XineramaScreenInfo.t)) (ptr : option (Z * Z))
    (s : State) : State :=
  if bool_decide (w = Root) then
    let dirty := negb (sw s =? width) || negb (sh s =? height) in
    let s := set_screen width height s in
    let '(s, changed) := updategeom xinerama ptr s in
    if changed || dirty
    then arrange None (focus None (refullscreen s))
    else s
  else s.

(** ** Moving and resizing with the mouse *)

(** An event read by the inner loop of [movemouse] and [resizemouse]
    before the button is released. *)
Inductive DragEv : Type :=
| DConfigureRequest (ev : XConfigureRequestEvent.t)
| DExpose
| DMapRequest (w : Z) (wa : option XWindowAttributes.t) (p : WinProps.t)
| DMotion (x y time : Z)
| DOther.

(** What a drag meets: whether the pointer grab succeeds, what
    [getrootptr] gives, and the events up to the release. *)
Module Drag.
Record t := mk {
  grab_ok : bool;
  rootptr : option (Z * Z);
  events : list DragEv
}.
End Drag.

(** Wrap-around of [Time], an [unsigned long]. *)
Definition u64 (z : Z) : Z := z mod 2 ^ 64.

(** One turn of the loop of [movemouse]; [lasttime] goes with the
    state. *)
Definition movemouse_step (c : nat) (ocx ocy x y : Z) (st : Z * State)
    (ev : DragEv) : Z * State :=
  let '(lasttime, s) := st in
  match ev with
  | DConfigureRequest e => (lasttime, configurerequest e s)
  | DMapRequest w wa p => (lasttime, maprequest w wa p s)
  | DMotion ex ey time =>
      if u64 (time - lasttime) <=? 1000 ÷ 60 then st
      else
        match heap s !! c, mons s !! selmon s with
        | Some cl, Some sm =>
            let nx := ocx + (ex - x) in
            let ny := ocy + (ey - y) in
            let nx :=
              if Z.abs (Monitor.wx sm - nx) <? config.snap
              then Monitor.wx sm
              else if Z.abs (Monitor.wx sm + Monitor.ww sm - (nx + WIDTH cl))
                      <? config.snap
              then Monitor.wx sm + Monitor.ww sm - WIDTH cl
              else nx in
            let ny :=
              if Z.abs (Monitor.wy sm - ny) <? config.snap
              then Monitor.wy sm
              else if Z.abs (Monitor.wy sm + Monitor.wh sm - (ny + HEIGHT cl))
                      <? config.snap
              then Monitor.wy sm + Monitor.wh sm - HEIGHT cl
              else ny in
            let s :=
              if negb (Client.isfloating cl)
                 && bool_decide (is_Some (cur_arrange sm))
                 && ((config.snap <? Z.abs (nx - Client.x cl))
                     || (config.snap <? Z.abs (ny - Client.y cl)))
              then togglefloating s
              else s in
            match heap s !! c, mons s !! selmon s with
            | Some cl, Some sm =>
                if negb (bool_decide (is_Some (cur_arrange sm)))
                   || Client.isfloating cl
                then (time, resize c nx ny (Client.w cl) (Client.h cl) true s)
                else (time, s)
            | _, _ => (time, s)
            end
        | _, _ => (time, s)
        end
  | DExpose | DOther => st
  end.

(** The end of both drags: a client that lies mostly on another monitor
    is sent there. *)
Definition drag_release (c : nat) (s : State) : State :=
  match heap s !! c with
  | Some cl =>
      let m := recttomon (Client.x cl) (Client.y cl) (Client.w cl) (Client.h cl) s in
      if bool_decide (m = selmon s) then s
      else focus None (set_selmon m (sendmon c m s))
  | None => s
  end.

(** [movemouse]. *)
Definition movemouse (d : Drag.t) (s : State) : State :=
  match mons s !! selmon s ≫= Monitor.sel with
  | Some c =>
      match heap s !! c with
      | Some cl =>
          if Client.isfullscreen cl then s
          else if negb (Drag.grab_ok d) then s
          else
            match Drag.rootptr d with
            | Some (x, y) =>
                let '(_, s) :=
                  foldl (movemouse_step c (Client.x cl) (Client.y cl) x y) (0, s)
                        (Drag.events d) in
                drag_release c s
            | None => s
            end
      | None => s
      end
  | None => s
  end.

(** One turn of the loop of [resizemouse]. *)
Definition resizemouse_step (c : nat) (ocx ocy : Z) (st : Z * State)
    (ev : DragEv) : Z * State :=
  let '(lasttime, s) := st in
  match ev with
  | DConfigureRequest e => (lasttime, configurerequest e s)
  | DMapRequest w wa p => (lasttime, maprequest w wa p s)
  | DMotion ex ey time =>
      if u64 (time - lasttime) <=? 1000 ÷ 60 then st
      else
        match heap s !! c, mons s !! selmon s with
        | Some cl, Some sm =>
            let nw := Z.max (ex - ocx - 2 * Client.bw cl + 1) 1 in
            let nh := Z.max (ey - ocy - 2 * Client.bw cl + 1) 1 in
            let s :=
              match mons s !! Client.mon cl with
              | Some cm =>
                  if (Monitor.wx sm <=? Monitor.wx cm + nw)
                     && (Monitor.wx cm + nw <=? Monitor.wx sm + Monitor.ww sm)
                     && (Monitor.wy sm <=? Monitor.wy cm + nh)
                     && (Monitor.wy cm + nh <=? Monitor.wy sm + Monitor.wh sm)
                     && negb (Client.isfloating cl)
                     && bool_decide (is_Some (cur_arrange sm))
                     && ((config.snap <? Z.abs (nw - Client.w cl))
                         || (config.snap <? Z.abs (nh - Client.h cl)))
                  then togglefloating s
                  else s
              | None => s
              end in
            match heap s !! c, mons s !! selmon s with
            | Some cl, Some sm =>
                if negb (bool_decide (is_Some (cur_arrange sm)))
                   || Client.isfloating cl
                then (time, resize c (Client.x cl) (Client.y cl) nw nh true s)
                else (time, s)
            | _, _ => (time, s)
            end
        | _, _ => (time, s)
        end
  | DExpose | DOther => st
  end.

(** [resizemouse]. *)
Definition resizemouse (d : Drag.t) (s : State) : State :=
  match mons s !! selmon s ≫= Monitor.sel with
  | Some c =>
      match heap s !! c with
      | Some cl =>
          if Client.isfullscreen cl then s
          else if negb (Drag.grab_ok d) then s
          else
            let '(_, s) :=
              foldl (resizemouse_step c (Client.x cl) (Client.y cl)) (0, s)
                    (Drag.events d) in
            drag_release c s
      | None => s
      end
  | None => s
  end.

(** ** Key and button bindings *)

(** The functions a binding can name. *)
Inductive Func : Type :=
| Fspawn | Ftogglebar | Ffocusstack | Fincnmaster | Fsetmfact | Fzoom | Fview
| Fkillclient | Fsetlayout | Ftogglefloating | Ftag | Ffocusmon | Ftagmon
| Ftoggleview | Ftoggletag | Fquit | Fmovemouse | Fresizemouse.

(** An [Arg] by the member it is initialised through; [Arg0] is [{0}]
    and [ArgCmd] a command for [spawn]. *)
Inductive Arg : Type :=
| Arg0
| ArgI (i : Z)
| ArgUI (ui : Z)
| ArgF (f : float32)
| ArgV (v : Layout.t)
| ArgCmd.

(** The members read back.  The tables read a member other than the one
    written only for [{0}]. *)
Definition arg_i (a : Arg) : Z :=
  match a with ArgI i => i | ArgUI ui => s32 ui | _ => 0 end.
Definition arg_ui (a : Arg) : Z :=
  match a with ArgUI ui => u32 ui | ArgI i => u32 i | _ => 0 end.
Definition arg_f (a : Arg) : float32 :=
  match a with ArgF f => f | _ => S754_zero false end.
Definition arg_v (a : Arg) : option Layout.t :=
  match a with ArgV v => Some v | _ => None end.

(** Calling a bound function.  [killclient] and [spawn] ask the server
    and the system; the structures stay as they are. *)
Definition call (f : Func) (a : Arg) (d : Drag.t) (s : State) : State :=
  match f with
  | Fspawn => s
  | Ftogglebar => togglebar s
  | Ffocusstack => focusstack (arg_i a) s
  | Fincnmaster => incnmaster (arg_i a) s
  | Fsetmfact => setmfact (arg_f a) s
  | Fzoom => zoom s
  | Fview => view (arg_ui a) s
  | Fkillclient => s
  | Fsetlayout => setlayout (arg_v a) s
  | Ftogglefloating => togglefloating s
  | Ftag => tag (arg_ui a) s
  | Ffocusmon => focusmon (arg_i a) s
  | Ftagmon => tagmon (arg_i a) s
  | Ftoggleview => toggleview (arg_ui a) s
  | Ftoggletag => toggletag (arg_ui a) s
  | Fquit => quit s
  | Fmovemouse => movemouse d s
  | Fresizemouse => resizemouse d s
  end.

(** Modifier masks and buttons of X.h, key symbols of keysymdef.h. *)
Definition ShiftMask : Z := 1.
Definition LockMask : Z := 2.
Definition ControlMask : Z := 4.
Definition Mod1Mask : Z := 8.
Definition Mod2Mask : Z := 16.
Definition Mod3Mask : Z := 32.
Definition Mod4Mask : Z := 64.
Definition Mod5Mask : Z := 128.
Definition Button1 : Z := 1.
Definition Button2 : Z := 2.
Definition Button3 : Z := 3.
Definition XK_Return : Z := 0xff0d.
Definition XK_Tab : Z := 0xff09.
Definition XK_space : Z := 0x20.
Definition XK_comma : Z := 0x2c.
Definition XK_period : Z := 0x2e.
Definition XK_0 : Z := 0x30.
Definition XK_1 : Z := 0x31.
Definition XK_b : Z := 0x62.
Definition XK_c : Z := 0x63.
Definition XK_d : Z := 0x64.
Definition XK_f : Z := 0x66.
Definition XK_h : Z := 0x68.
Definition XK_i : Z := 0x69.
Definition XK_j : Z := 0x6a.
Definition XK_k : Z := 0x6b.
Definition XK_l : Z := 0x6c.
Definition XK_m : Z := 0x6d.
Definition XK_p : Z := 0x70.
Definition XK_q : Z := 0x71.
Definition XK_t : Z := 0x74.

(** [CLEANMASK(mask)]. *)
Definition CLEANMASK (numlockmask mask : Z) : Z :=
  Z.land (Z.land mask (Z.lnot (Z.lor numlockmask LockMask)))
    (Z.lor ShiftMask (Z.lor ControlMask (Z.lor Mod1Mask (Z.lor Mod2Mask
       (Z.lor Mod3Mask (Z.lor Mod4Mask Mod5Mask)))))).

Definition MODKEY : Z := Mod1Mask.

(** [TAGKEYS(KEY,TAG)]. *)
Definition TAGKEYS (key : Z) (tag : Z) : list (Z * Z * Func * Arg) :=
  [ (MODKEY, key, Fview, ArgUI (Z.shiftl 1 tag));
    (Z.lor MODKEY ControlMask, key, Ftoggleview, ArgUI (Z.shiftl 1 tag));
    (Z.lor MODKEY ShiftMask, key, Ftag, ArgUI (Z.shiftl 1 tag));
    (Z.lor MODKEY (Z.lor ControlMask ShiftMask), key, Ftoggletag,
     ArgUI (Z.shiftl 1 tag)) ].

(** The layouts of the table by position. *)
Definition layout_at (i : nat) : Layout.t :=
  default (Layout.mk "" None) (config.layouts !! i).

(** [keys]: modifier, key, function, argument. *)
Definition keys : list (Z * Z * Func * Arg) :=
  [ (MODKEY, XK_p, Fspawn, ArgCmd);
    (Z.lor MODKEY ShiftMask, XK_Return, Fspawn, ArgCmd);
    (MODKEY, XK_b, Ftogglebar, Arg0);
    (MODKEY, XK_j, Ffocusstack, ArgI 1);
    (MODKEY, XK_k, Ffocusstack, ArgI (-1));
    (MODKEY, XK_i, Fincnmaster, ArgI 1);
    (MODKEY, XK_d, Fincnmaster, ArgI (-1));
    (MODKEY, XK_h, Fsetmfact, ArgF (S754_finite true 13421773 (-28)));
    (MODKEY, XK_l, Fsetmfact, ArgF (S754_finite false 13421773 (-28)));
    (MODKEY, XK_Return, Fzoom, Arg0);
    (MODKEY, XK_Tab, Fview, Arg0);
    (Z.lor MODKEY ShiftMask, XK_c, Fkillclient, Arg0);
    (MODKEY, XK_t, Fsetlayout, ArgV (layout_at 0));
    (MODKEY, XK_f, Fsetlayout, ArgV (layout_at 1));
    (MODKEY, XK_m, Fsetlayout, ArgV (layout_at 2));
    (MODKEY, XK_space, Fsetlayout, Arg0);
    (Z.lor MODKEY ShiftMask, XK_space, Ftogglefloating, Arg0);
    (MODKEY, XK_0, Fview, ArgUI (Z.lnot 0));
    (Z.lor MODKEY ShiftMask, XK_0, Ftag, ArgUI (Z.lnot 0));
    (MODKEY, XK_comma, Ffocusmon, ArgI (-1));
    (MODKEY, XK_period, Ffocusmon, ArgI 1);
    (Z.lor MODKEY ShiftMask, XK_comma, Ftagmon, ArgI (-1));
    (Z.lor MODKEY ShiftMask, XK_period, Ftagmon, ArgI 1) ]
  ++ TAGKEYS XK_1 0 ++ TAGKEYS (XK_1 + 1) 1 ++ TAGKEYS (XK_1 + 2) 2
  ++ TAGKEYS (XK_1 + 3) 3 ++ TAGKEYS (XK_1 + 4) 4 ++ TAGKEYS (XK_1 + 5) 5
  ++ TAGKEYS (XK_1 + 6) 6 ++ TAGKEYS (XK_1 + 7) 7 ++ TAGKEYS (XK_1 + 8) 8
  ++ [ (Z.lor MODKEY ShiftMask, XK_q, Fquit, Arg0) ].

(** The regions a click can fall in. *)
Inductive Click : Type :=
| ClkTagBar | ClkLtSymbol | ClkStatusText | ClkWinTitle | ClkClientWin | ClkRootWin.

#[global] Instance Click_eq_dec : EqDecision Click.
Proof. solve_decision. Defined.

(** [buttons]: click, event mask, button, function, argument. *)
Definition buttons : list (Click * Z * Z * Func * Arg) :=
  [ (ClkLtSymbol, 0, Button1, Fsetlayout, Arg0);
    (ClkLtSymbol, 0, Button3, Fsetlayout, ArgV (layout_at 2));
    (ClkWinTitle, 0, Button2, Fzoom, Arg0);
    (ClkStatusText, 0, Button2, Fspawn, ArgCmd);
    (ClkClientWin, MODKEY, Button1, Fmovemouse, Arg0);
    (ClkClientWin, MODKEY, Button2, Ftogglefloating, Arg0);
    (ClkClientWin, MODKEY, Button3, Fresizemouse, Arg0);
    (ClkTagBar, 0, Button1, Fview, Arg0);
    (ClkTagBar, 0, Button3, Ftoggleview, Arg0);
    (ClkTagBar, MODKEY, Button1, Ftag, Arg0);
    (ClkTagBar, MODKEY, Button3, Ftoggletag, Arg0) ].

(** [keypress]: [keysym] is the symbol of the key code, [numlockmask] the
    value of the global of that name. *)
Definition keypress (keysym state numlockmask : Z) (d : Drag.t) (s : State)
    : State :=
  foldl (fun s k =>
           let '(mod_, sym, f, a) := k in
           if (keysym =? sym)
              && (CLEANMASK numlockmask mod_ =? CLEANMASK numlockmask state)
           then call f a d s else s)
        s keys.

(** Where a click on the bar falls, by the widths of the texts drawn
    there: on the tag of position [i], on the layout symbol, on the status
    text or on the window title. *)
Inductive BarRegion : Type :=
| OnTag (i : nat)
| OnLtSymbol
| OnStatusText
| OnWinTitle.

(** [buttonpress]. *)
Definition buttonpress (w : Window) (ptr : option (Z * Z)) (region : BarRegion)
    (button state numlockmask : Z) (d : Drag.t) (s : State) : State :=
  (* focus monitor if necessary *)
  let m := wintomon w ptr s in
  let s := if bool_decide (m = selmon s) then s
           else focus None (set_selmon m s) in
  let '(click, arg, s) :=
    if bool_decide (w = BarWin (selmon s)) then
      match region with
      | OnTag i =>
          if bool_decide (i < length config.tags)%nat
          then (ClkTagBar, ArgUI (Z.shiftl 1 (Z.of_nat i)), s)
          else (ClkLtSymbol, Arg0, s)
      | OnLtSymbol => (ClkLtSymbol, Arg0, s)
      | OnStatusText => (ClkStatusText, Arg0, s)
      | OnWinTitle => (ClkWinTitle, Arg0, s)
      end
    else
      match match w with Win w => wintoclient w s | _ => None end with
      | Some c => (ClkClientWin, Arg0, focus (Some c) s)
      | None => (ClkRootWin, Arg0, s)
      end in
  foldl (fun s b =>
           let '(bclick, mask, bbutton, f, a) := b in
           if bool_decide (click = bclick) && (bbutton =? button)
              && (CLEANMASK numlockmask mask =? CLEANMASK numlockmask state)
           then call f (if bool_decide (click = ClkTagBar) && (arg_i a =? 0)
                        then arg else a) d s
           else s)
        s buttons.

(** ** The event loop *)

(** The events with a handler, each with what the handler reads from the
    event and gets from the server while it runs. *)
Inductive Event : Type :=
| ButtonPress (w : Window) (ptr : option (Z * Z)) (region : BarRegion)
    (button state numlockmask : Z) (d : Drag.t)
| ClientMessage (w : Z) (msg : ClientMsg)
| ConfigureRequest (ev : XConfigureRequestEvent.t)
| ConfigureNotify (w : Window) (width height : Z)
    (xinerama : option (list XineramaScreenInfo.t)) (ptr : option (Z * Z))
| DestroyNotify (w : Z)
| EnterNotify (w : Window) (normal inferior : bool) (ptr : option (Z * Z))
| Expose
| FocusIn
| KeyPress (keysym state numlockmask : Z) (d : Drag.t)
| MappingNotify
| MapRequest (w : Z) (wa : option XWindowAttributes.t) (p : WinProps.t)
| MotionNotify (w : Window) (x_root y_root : Z)
| PropertyNotify (w : Window) (atom : PropAtom) (deleted : bool) (p : WinProps.t)
| UnmapNotify (w : Z) (send_event : bool).

(** [handler[ev.type](&ev)]. *)
Definition handler (ev : Event) (s : State) : State :=
  match ev with
  | ButtonPress w ptr region button state nlm d =>
      buttonpress w ptr region button state nlm d s
  | ClientMessage w msg => clientmessage w msg s
  | ConfigureRequest e => configurerequest e s
  | ConfigureNotify w width height xin ptr => configurenotify w width height xin ptr s
  | DestroyNotify w =>
      match wintoclient w s with Some c => unmanage c s | None => s end
  | EnterNotify w normal inferior ptr => enternotify w normal inferior ptr s
  | Expose => s
  | FocusIn => s
  | KeyPress keysym state nlm d => keypress keysym state nlm d s
  | MappingNotify => s
  | MapRequest w wa p => maprequest w wa p s
  | MotionNotify w x y => motionnotify w x y s
  | PropertyNotify w atom deleted p => propertynotify w atom deleted p s
  | UnmapNotify w send_event =>
      match wintoclient w s with
      | Some c => if send_event then s else unmanage c s
      | None => s
      end
  end.

(** The state [setup] leaves: the screen is [sw] by [sh], the first font
    is [fh] high. *)
Definition setup (sw sh fh : Z) (xinerama : option (list XineramaScreenInfo.t))
    (ptr : option (Z * Z)) : State :=
  let s := mkState [] 0%nat ∅ 0%nat sw sh (fh + 2) true None in
  focus None (fst (updategeom xinerama ptr s)).

(** [run]: the events are handled in turn while [running] is set.  The
    windows [scan] finds at startup are managed as by [MapRequest]. *)
Definition run (evs : list Event) (s : State) : State :=
  foldl (fun s ev => if running s then handler ev s else s) s evs.

(** The states the window manager can be in. *)
Inductive reachable : State -> Prop :=
| reachable_setup sw sh fh xinerama ptr :
    reachable (setup sw sh fh xinerama ptr)
| reachable_step s ev :
    reachable s -> running s = true -> reachable (handler ev s).

(** ** Startup *)

(** How the process ends: its exit status and what it wrote to the
    standard error stream. *)
Module Exit.
Record t := mk {
  status : Z;
  stderr : string
}.
End Exit.

(** Modelled from the spec: [die] is defined in util.c, which is not
    among the sources.  The spec has it report to stderr and exit with a
    nonzero status ("nonzero via die", "Report to stderr and exit"); the
    status is written [1] here and only its being nonzero is used. *)
Definition die (msg : string) : Exit.t := Exit.mk 1 msg.

(** What [main] does with its arguments: it ends the process, or goes on
    to open the display and run the window manager. *)
Inductive Startup : Type :=
| Exited (e : Exit.t)
| Started.

(** The argument check of [main]; [VERSION] is the macro the build
    defines and [argv] holds the program name and the arguments. *)
Definition main (VERSION : string) (argv : list string) : Startup :=
  if bool_decide (length argv = 2%nat) && bool_decide (argv !! 1%nat = Some "-v")
  then Exited (die ("dwm-" +:+ VERSION)) (* print version and exit *)
  else if negb (bool_decide (length argv = 1%nat))
  then Exited (die "usage: dwm [-v]") (* print usage and exit *)
  else Started.

(** ** Properties of states *)

(** The client has no aspect hints: the test of [applysizehints] on
    [mina] and [maxa] fails. *)
Definition no_aspect (c : Client.t) : Prop :=
  SFltb (f32_of_int 0) (Client.mina c) && SFltb (f32_of_int 0) (Client.maxa c)
  = false.

(** The geometry of a client. *)
Definition geom (c : Client.t) : Z * Z * Z * Z :=
  (Client.x c, Client.y c, Client.w c, Client.h c).

(** The geometry [applysizehints] computes, without the flag. *)
Definition adjusted (s : State) (m : Monitor.t) (c : Client.t)
    (g : Z * Z * Z * Z) (interact : bool) : Z * Z * Z * Z :=
  let '(x, y, w, h) := g in fst (applysizehints s m c x y w h interact).

(** A size on the increment grid of a dimension: [base] plus a multiple
    of [inc]. *)
Definition on_grid (base inc v : Z) : Prop :=
  inc = 0 \/ Z.rem (v - base) inc = 0.

(** The minimum and maximum sizes of the client, where given, are on its
    increment grid. *)
Definition grid_hints (c : Client.t) : Prop :=
  on_grid (Client.basew c) (Client.incw c) (Client.minw c)
  /\ on_grid (Client.baseh c) (Client.inch c) (Client.minh c)
  /\ (Client.maxw c = 0 \/ on_grid (Client.basew c) (Client.incw c) (Client.maxw c))
  /\ (Client.maxh c = 0 \/ on_grid (Client.baseh c) (Client.inch c) (Client.maxh c)).

(** The window of geometry [g] passes the containment tests of
    [applysizehints] untouched: it is not completely outside the screen
    (for [interact]) or the window area of the monitor. *)
Definition contained (s : State) (m : Monitor.t) (c : Client.t)
    (g : Z * Z * Z * Z) (interact : bool) : Prop :=
  let '(x, y, w, h) := g in
  if interact then
    x <= sw s /\ y <= sh s
    /\ 0 <= x + Z.max 1 w + 2 * Client.bw c
    /\ 0 <= y + Z.max 1 h + 2 * Client.bw c
  else
    x < Monitor.wx m + Monitor.ww m /\ y < Monitor.wy m + Monitor.wh m
    /\ Monitor.wx m < x + Z.max 1 w + 2 * Client.bw c
    /\ Monitor.wy m < y + Z.max 1 h + 2 * Client.bw c.

(** The sizes [applysizehints] computes for a client without aspect
    hints: each dimension goes through the same steps on its own. *)
Definition hint_dim (bh base inc min max v : Z) : Z :=
  let v := Z.max 1 v in
  let v := if v <? bh then bh else v in
  let v := v - base in
  let v := if inc =? 0 then v else v - Z.rem v inc in
  let v := Z.max (v + base) min in
  if max =? 0 then v else Z.min v max.

(** Flooring to increments, as [applysizehints] does it on a size with
    the base removed, and the base added back. *)
Definition rnd (base inc u : Z) : Z := u - base - Z.rem (u - base) inc + base.

(** The position [applysizehints] computes: the containment tests on the
    proposed position and size. *)
Definition hint_pos (s : State) (m : Monitor.t) (c : Client.t) (x y w h : Z)
    (interact : bool) : Z * Z :=
  let w := Z.max 1 w in
  let h := Z.max 1 h in
  if interact then
    let x := if sw s <? x then sw s - WIDTH c else x in
    let y := if sh s <? y then sh s - HEIGHT c else y in
    (if x + w + 2 * Client.bw c <? 0 then 0 else x,
     if y + h + 2 * Client.bw c <? 0 then 0 else y)
  else
    let x := if Monitor.wx m + Monitor.ww m <=? x
             then Monitor.wx m + Monitor.ww m - WIDTH c else x in
    let y := if Monitor.wy m + Monitor.wh m <=? y
             then Monitor.wy m + Monitor.wh m - HEIGHT c else y in
    (if x + w + 2 * Client.bw c <=? Monitor.wx m then Monitor.wx m else x,
     if y + h + 2 * Client.bw c <=? Monitor.wy m then Monitor.wy m else y).

(** The client has no size hints at all, as [updatesizehints] leaves it
    for a window without [WM_NORMAL_HINTS]. *)
Definition unrestricted (c : Client.t) : Prop :=
  Client.basew c = 0 /\ Client.baseh c = 0
  /\ Client.incw c = 0 /\ Client.inch c = 0
  /\ Client.maxw c = 0 /\ Client.maxh c = 0
  /\ Client.minw c = 0 /\ Client.minh c = 0
  /\ no_aspect c.

(** The client is a tiled client of the monitor at position [mi]: it
    belongs to it, is visible there and does not float. *)
Definition tiled_on (s : State) (mi : nat) (c : Client.t) : Prop :=
  Client.mon c = mi /\ Client.isfloating c = false /\ ISVISIBLE s c = true.

(** The tag data of a monitor: both tagsets and which one is selected. *)
Definition mtag (m : Monitor.t) : Z * Z * Z :=
  (Monitor.tagset0 m, Monitor.tagset1 m, Monitor.seltags m).

(** [s'] has the clients of [s] with their tags and monitors, and the
    monitors of [s] with their tag data: what separates them is geometry,
    focus, flags and layout. *)
Definition frame (s s' : State) : Prop :=
  (forall c, (fun cl => (Client.tags cl, Client.mon cl)) <$> heap s' !! c
             = (fun cl => (Client.tags cl, Client.mon cl)) <$> heap s !! c)
  /\ mtag <$> mons s' = mtag <$> mons s.

(** A client with its geometry and saved geometry blanked, a monitor with
    its layout symbol blanked, and a state with all of them so: what
    arranging a monitor does not touch. *)
Definition nogeom (c : Client.t) : Client.t :=
  Client.set_geom 0 0 0 0 (Client.set_oldgeom 0 0 0 0 c).
Definition nosymbol (m : Monitor.t) : Monitor.t := Monitor.set_ltsymbol "" m.
Definition strip (s : State) : State :=
  set_heap (nogeom <$> heap s) (set_mons (nosymbol <$> mons s) s).

(** [s'] differs from [s] in the geometry of clients and the layout
    symbols only. *)
Definition relayout (s s' : State) : Prop := strip s' = strip s.

(** The clients in the focus stack of the selected monitor belong to
    it. *)
Definition stack_owned (s : State) : Prop :=
  forall m a cl,
    mons s !! selmon s = Some m -> a ∈ Monitor.stack m ->
    heap s !! a = Some cl -> Client.mon cl = selmon s.

(** The fields [setfullscreen] saves, set from the current ones. *)
Definition snapshot (c : Client.t) : Client.t :=
  Client.set_oldgeom (Client.x c) (Client.y c) (Client.w c) (Client.h c)
    (Client.set_oldbw (Client.bw c) (Client.set_oldstate (Client.isfloating c) c)).

(** The saved geometry of a client. *)
Definition oldgeom (c : Client.t) : Z * Z * Z * Z :=
  (Client.oldx c, Client.oldy c, Client.oldw c, Client.oldh c).

(** What leaving fullscreen makes of the structure: the flag is cleared,
    and the floating state, the border and the geometry are taken from
    the saved fields. *)
Definition restored (c : Client.t) : Client.t :=
  Client.set_geom (Client.oldx c) (Client.oldy c) (Client.oldw c) (Client.oldh c)
    (Client.set_bw (Client.oldbw c)
       (Client.set_isfloating (Client.oldstate c)
          (Client.set_isfullscreen false c))).

(** A fullscreen client floats, has no border and covers its monitor. *)
Definition fullscreen_inv (s : State) : Prop :=
  forall c cl,
    heap s !! c = Some cl -> Client.isfullscreen cl = true ->
    Client.isfloating cl = true /\ Client.bw cl = 0
    /\ exists m, mons s !! Client.mon cl = Some m
                 /\ geom cl = (Monitor.mx m, Monitor.my m, Monitor.mw m, Monitor.mh m).

(** The selected client of every monitor is in its focus stack and
    visible. *)
Definition sel_inv (s : State) : Prop :=
  forall i m c,
    mons s !! i = Some m -> Monitor.sel m = Some c ->
    c ∈ Monitor.stack m /\ visible s c = true.

(** A tag mask within the tags of the configuration, with at least one
    tag. *)
Definition tagmask_ok (t : Z) : Prop := Z.land t TAGMASK = t /\ t <> 0.

(** Both tagsets of every monitor and the tags of every client are such
    masks. *)
Definition tags_inv (s : State) : Prop :=
  Forall (fun m => tagmask_ok (Monitor.tagset0 m) /\ tagmask_ok (Monitor.tagset1 m))
         (mons s)
  /\ map_Forall (fun _ cl => tagmask_ok (Client.tags cl)) (heap s).

(** The same, but for the client at address [c], which [manage] is
    setting up. *)
Definition tags_inv_but (c : nat) (s : State) : Prop :=
  Forall (fun m => tagmask_ok (Monitor.tagset0 m) /\ tagmask_ok (Monitor.tagset1 m))
         (mons s)
  /\ map_Forall (fun d cl => d <> c -> tagmask_ok (Client.tags cl)) (heap s).

(** Both tagsets of the monitor [m] are such masks. *)
Definition mon_ok (m : Monitor.t) : Prop :=
  tagmask_ok (Monitor.tagset0 m) /\ tagmask_ok (Monitor.tagset1 m).

(** The two tagsets of every monitor and the tags of every client, by
    address: what a refused change leaves as it was. *)
Definition tagsets (s : State) : list (Z * Z) :=
  (fun m => (Monitor.tagset0 m, Monitor.tagset1 m)) <$> mons s.
Definition client_tags (s : State) : gmap nat Z := Client.tags <$> heap s.

(** The focus stacks of the monitors, in the order of the monitors. *)
Definition stacks (s : State) : list (list nat) := Monitor.stack <$> mons s.

(** The focus stacks are well formed: no client is twice in a stack,
    the clients of the stack of a monitor are allocated and belong to
    that monitor, and nothing is allocated from [nextaddr] on.  The client
    [e], if any, is in no stack: it is being set up or moved. *)
Definition stacks_wf_but (e : option nat) (s : State) : Prop :=
  Forall NoDup (stacks s)
  /\ (forall i l a, stacks s !! i = Some l -> a ∈ l ->
        Some a <> e /\ mon_of s a = Some i)
  /\ (forall a, (nextaddr s <= a)%nat -> heap s !! a = None).

Definition stacks_wf (s : State) : Prop := stacks_wf_but None s.

(** ** Example states *)

(** A monitor of 1600 by 1000 at the origin, its bar hidden, in the tile
    layout, with the clients [cs] in both of its lists. *)
Definition ex_monitor (cs : list nat) : Monitor.t :=
  Monitor.mk "[]=" config.mfact 1 0 (-20) 0 0 1600 1000 0 0 1600 1000 0 0 1 1
    false true cs (head cs) cs
    (Layout.mk "[]=" (Some Tile)) (Layout.mk "><>" None).

(** A client of monitor 0 with tag 1 at (10, 20), 300 by 300, of border
    [bw], with the size hints given and no aspect hints. *)
Definition ex_client (floating : bool) (bw basew baseh incw inch maxw maxh minw minh : Z)
    : Client.t :=
  Client.mk "xterm" (S754_zero false) (S754_zero false) 10 20 300 300 10 20 300 300
    basew baseh incw inch maxw maxh minw minh bw bw 1
    false floating false false false false 0%nat 41.

(** The state with [ex_monitor] and the clients [cls], at addresses 0, 1,
    and so on; the bar is 20 high. *)
Definition ex_state (cls : list Client.t) : State :=
  mkState [ex_monitor (seq 0 (length cls))] 0%nat
    (list_to_map (zip (seq 0 (length cls)) cls)) (length cls) 1600 1000 20 true None.

(** Clients with hints that defeat a second application of
    [applysizehints]: a maximum width off the increment grid; a fixed
    aspect of 2:1 with a width increment; a maximum width only, for a
    window proposed half off the screen. *)
Definition ex_maxw : Client.t := ex_client true 1 0 0 7 0 100 0 0 0.
Definition ex_aspect : Client.t :=
  Client.set_aspect (S754_finite false 8388608 (-24))
    (S754_finite false 8388608 (-22)) (ex_client true 1 0 0 7 0 0 0 0 0).
Definition ex_maxonly : Client.t := ex_client true 1 0 0 0 0 100 0 0 0.

(** A display of 1920 by 1080 with one monitor and a font 18 high, and
    one of two such screens side by side with the pointer on the second. *)
Definition ex_setup : State := setup 1920 1080 18 None None.
Definition ex_setup2 : State :=
  setup 3840 1080 18
    (Some [XineramaScreenInfo.mk 0 0 1920 1080;
           XineramaScreenInfo.mk 1920 0 1920 1080])
    (Some (2000, 500)).

(** A window of 640 by 480 at (100, 100) and the properties of a plain
    window, and of a dialog transient for window 41. *)
Definition ex_wa : XWindowAttributes.t := XWindowAttributes.mk 100 100 640 480 0 false.
Definition ex_props : WinProps.t :=
  WinProps.mk "xterm" None None None false false None None.
Definition ex_transient : WinProps.t :=
  WinProps.mk "dialog" (Some 41) None None false false None None.

(** No drag. *)
Definition ex_nodrag : Drag.t := Drag.mk false None [].

(** Window 41 is mapped and asks to be fullscreen. *)
Definition ex_fullscreen : list Event :=
  [ MapRequest 41 (Some ex_wa) ex_props;
    ClientMessage 41 (NetWMState 1 true) ].

(** Window 41 is mapped and asks for a border of 5. *)
Definition ex_border : list Event :=
  [ MapRequest 41 (Some ex_wa) ex_props;
    ConfigureRequest (XConfigureRequestEvent.mk 41 0 0 0 0 5 CWBorderWidth) ].

(** Window 41 is mapped on the second monitor, tag 2 is viewed there
    (Mod-2), the first monitor is focused (Mod-comma) and window 42,
    transient for 41, is mapped. *)
Definition ex_transient_hidden : list Event :=
  [ MapRequest 41 (Some ex_wa) ex_props;
    KeyPress (XK_1 + 1) Mod1Mask 0 ex_nodrag;
    KeyPress XK_comma Mod1Mask 0 ex_nodrag;
    MapRequest 42 (Some ex_wa) ex_transient ].

(** The state after [setup] on one screen and the mapping of window 41. *)
Definition ex_one_client : State := handler (MapRequest 41 (Some ex_wa) ex_props) ex_setup.

(** The state after that and the mapping of window 42. *)
Definition ex_two_clients : State :=
  handler (MapRequest 42 (Some ex_wa) ex_props) ex_one_client.

(** The state after [setup] on two screens and the mapping of window 41,
    on the second monitor. *)
Definition ex_two_monitors : State :=
  handler (MapRequest 41 (Some ex_wa) ex_props) ex_setup2.

(** ** Well-formed states *)

(** The counters of a monitor: [nmaster] is not negative, and [seltags]
    and [sellt] index the two-element arrays [tagset] and [lt]. *)
Definition mon_scalars_ok (m : Monitor.t) : Prop :=
  0 <= Monitor.nmaster m
  /\ (Monitor.seltags m = 0 \/ Monitor.seltags m = 1)
  /\ (Monitor.sellt m = 0 \/ Monitor.sellt m = 1).

(** The client list, the focus stack and the selection of a monitor. *)
Definition lists_of (m : Monitor.t) : list nat * list nat * option nat :=
  (Monitor.clients m, Monitor.stack m, Monitor.sel m).

(** [i] can be [selmon]: a monitor of the list, or the null pointer
    (written 0) when there is none. *)
Definition mon_index_ok (s : State) (i : nat) : Prop :=
  (i < length (mons s))%nat \/ (mons s = [] /\ i = 0%nat).

(** What holds of a monitor at position [i]: no client is twice in its
    client list or twice in its focus stack; the clients of both are
    allocated and have [mon] pointing back to it; its selection is in its
    stack; its counters are in range.  The client [ec], if any, is in no
    client list and [es] in no stack: a client being set up or moved. *)
Definition mon_wf (ec es : option nat) (s : State) (i : nat) (m : Monitor.t)
    : Prop :=
  NoDup (Monitor.clients m) /\ NoDup (Monitor.stack m)
  /\ (forall a, a ∈ Monitor.clients m -> Some a <> ec /\ mon_of s a = Some i)
  /\ (forall a, a ∈ Monitor.stack m -> Some a <> es /\ mon_of s a = Some i)
  /\ (forall c, Monitor.sel m = Some c -> c ∈ Monitor.stack m)
  /\ mon_scalars_ok m.

(** What holds of an allocated client: its monitor is in the list, and
    it is in the client list and in the focus stack of that monitor
    (unless it is [ec], or [es]). *)
Definition client_wf (ec es : option nat) (s : State) (a : nat) (cl : Client.t)
    : Prop :=
  exists m, mons s !! Client.mon cl = Some m
            /\ (Some a <> ec -> a ∈ Monitor.clients m)
            /\ (Some a <> es -> a ∈ Monitor.stack m).

(** What holds of the allocated clients together: nothing is allocated
    from [nextaddr] on, and no two clients have the same window. *)
Definition heap_wf (s : State) : Prop :=
  (forall a, (nextaddr s <= a)%nat -> heap s !! a = None)
  /\ (forall a b cla clb,
        heap s !! a = Some cla -> heap s !! b = Some clb ->
        Client.win cla = Client.win clb -> a = b).

(** The state is well formed: its monitors and its clients are, and
    [selmon] points to a monitor of the list. *)
Definition state_wf_but (ec es : option nat) (s : State) : Prop :=
  (forall i m, mons s !! i = Some m -> mon_wf ec es s i m)
  /\ (forall a cl, heap s !! a = Some cl -> client_wf ec es s a cl)
  /\ heap_wf s
  /\ mon_index_ok s (selmon s).

Definition state_wf (s : State) : Prop := state_wf_but None None s.

(** What [detachstack] does to the monitor of [c]: [c] is unlinked from
    the stack and, if it was selected, another client of the stack or
    none is. *)
Definition detached (c : nat) (m m' : Monitor.t) : Prop :=
  Monitor.clients m' = Monitor.clients m
  /\ Monitor.stack m' = unlink c (Monitor.stack m)
  /\ Monitor.nmaster m' = Monitor.nmaster m
  /\ Monitor.seltags m' = Monitor.seltags m
  /\ Monitor.sellt m' = Monitor.sellt m
  /\ ((Monitor.sel m' = Monitor.sel m /\ Monitor.sel m <> Some c)
      \/ (Monitor.sel m = Some c
          /\ forall d, Monitor.sel m' = Some d -> d ∈ unlink c (Monitor.stack m))).

(** The window of every client, by client. *)
Definition wins (s : State) : gmap nat Z := Client.win <$> heap s.

(** ** The UTF-8 decoder of drw.c *)

Module utf8.

Definition UTF_INVALID : Z := 0xFFFD.
Definition UTF_SIZ : nat := 4.

(** The tables, by index 0 to [UTF_SIZ]. *)
Definition utfbyte : list Z := [0x80; 0; 0xC0; 0xE0; 0xF0].
Definition utfmask : list Z := [0xC0; 0x80; 0xE0; 0xF0; 0xF8].
Definition utfmin : list Z := [0; 0; 0x80; 0x800; 0x10000].
Definition utfmax : list Z := [0x10FFFF; 0x7F; 0x7FF; 0xFFFF; 0x10FFFF].

(** [(unsigned char)c]. *)
Definition uchar (c : Z) : Z := c mod 256.

(** [BETWEEN(x, a, b)], the macro of util.h: [a <= x && x <= b]. *)
Definition BETWEEN (x a b : Z) : bool := (a <=? x) && (x <=? b).

(** The loop of [utf8decodebyte] from index [i], over the entries of the
    two tables that are left. *)
Fixpoint utf8decodebyte_loop (c : Z) (i : nat) (masks bytes : list Z) : Z * nat :=
  match masks, bytes with
  | mask :: masks', byte :: bytes' =>
      if Z.land (uchar c) mask =? byte
      then (Z.land (uchar c) (Z.lnot mask), i)
      else utf8decodebyte_loop c (S i) masks' bytes'
  | _, _ => (0, i)
  end.

(** [utf8decodebyte]: the coding bits of the byte, and what is stored
    through [i]. *)
Definition utf8decodebyte (c : Z) : Z * nat :=
  utf8decodebyte_loop c 0 utfmask utfbyte.

(** The search of [utf8validate] for the size of [u], from index [i] over
    the entries of [utfmax] that are left. *)
Fixpoint utf8validate_loop (u : Z) (i : nat) (maxs : list Z) : nat :=
  match maxs with
  | max :: maxs' => if max <? u then utf8validate_loop u (S i) maxs' else i
  | [] => i
  end.

(** [utf8validate]: the value left in [*u] and the size returned. *)
Definition utf8validate (u : Z) (i : nat) : Z * nat :=
  let u :=
    if negb (BETWEEN u (default 0 (utfmin !! i)) (default 0 (utfmax !! i)))
       || BETWEEN u 0xD800 0xDFFF
    then UTF_INVALID else u in
  (u, utf8validate_loop u 1 (drop 1 utfmax)).

(** The loop of [utf8decode] over the bytes after the first; [i] and [j]
    are equal throughout, and [n] bounds the turns left: the loop is
    entered with [j = 1] and [len] turns at most.  [inl j] is the return
    from inside the loop, [inr (j, udecoded)] the values at its end. *)
Fixpoint utf8decode_loop (c : nat -> Z) (clen len : nat) (n : nat) (j : nat)
    (udecoded : Z) : nat + nat * Z :=
  match n with
  | O => inr (j, udecoded)
  | S n' =>
      if (j <? clen)%nat && (j <? len)%nat then
        let '(b, type) := utf8decodebyte (c j) in
        (* concatenate next 6 bits *)
        let udecoded := Z.lor (Z.shiftl udecoded 6) b in
        if negb (type =? 0)%nat then inl j
        else utf8decode_loop c clen len n' (S j) udecoded
      else inr (j, udecoded)
  end.

(** [utf8decode]: the number of bytes read and the value left in [*u].
    [c] gives the bytes by position. *)
Definition utf8decode (c : nat -> Z) (clen : nat) : nat * Z :=
  if (clen =? 0)%nat then (0%nat, UTF_INVALID)
  else
    let '(udecoded, len) := utf8decodebyte (c 0%nat) in
    if negb (BETWEEN (Z.of_nat len) 1 (Z.of_nat UTF_SIZ)) then (1%nat, UTF_INVALID)
    else
      match utf8decode_loop c clen len len 1 udecoded with
      | inl j => (j, UTF_INVALID)
      | inr (j, udecoded) =>
          if (j <? len)%nat then (0%nat, UTF_INVALID)
          else (len, fst (utf8validate udecoded len))
      end.

End utf8.

(** * Properties *)

(** ** Machine numbers *)

Lemma u32_small z : 0 <= z < 2 ^ 32 -> u32 z = z.
Proof. intros H. unfold u32. apply Z.mod_small. lia. Qed.

Lemma s32_small z : - 2 ^ 31 <= z < 2 ^ 31 -> s32 z = z.
Proof.
  intros H. unfold s32.
  destruct (Z_lt_le_dec z 0) as [Hneg | Hpos].
  - assert (Hm : z mod 2 ^ 32 = z + 2 ^ 32).
    { symmetry. apply (Z.mod_unique z (2 ^ 32) (-1)); lia. }
    rewrite Hm.
    destruct (z + 2 ^ 32 <? 2 ^ 31) eqn:E; [apply Z.ltb_lt in E |]; lia.
  - rewrite Z.mod_small by lia.
    destruct (z <? 2 ^ 31) eqn:E; [reflexivity | apply Z.ltb_ge in E; lia].
Qed.

(** ** Writing through pointers *)

Lemma heap_updc c f s : heap (updc c f s) = alter f c (heap s).
Proof. reflexivity. Qed.

Lemma mons_updc c f s : mons (updc c f s) = mons s.
Proof. reflexivity. Qed.

Lemma heap_updm i f s : heap (updm i f s) = heap s.
Proof. reflexivity. Qed.

Lemma mons_updm i f s : mons (updm i f s) = alter f i (mons s).
Proof. reflexivity. Qed.

Lemma lookup_updc_eq c f s : heap (updc c f s) !! c = f <$> heap s !! c.
Proof. apply lookup_alter_eq. Qed.

Lemma lookup_updc_ne c d f s : c <> d -> heap (updc c f s) !! d = heap s !! d.
Proof. intros H. unfold updc; simpl. by apply lookup_alter_ne. Qed.

(** ** [resize] *)

(** What [resize] leaves in the structure: the geometry [applysizehints]
    computes, whether or not [resizeclient] had to be called. *)
Lemma resize_lookup s c cl m x y w h interact x' y' w' h' ch :
  heap s !! c = Some cl ->
  mons s !! Client.mon cl = Some m ->
  applysizehints s m cl x y w h interact = (x', y', w', h', ch) ->
  exists cl',
    heap (resize c x y w h interact s) !! c = Some cl'
    /\ geom cl' = (x', y', w', h')
    /\ cl' = (if ch then resizeclient_rec x' y' w' h' cl else cl).
Proof.
  intros Hc Hm Ha. unfold resize. rewrite Hc, Hm, Ha.
  destruct ch.
  - eexists. split; [|split; [|reflexivity]].
    + unfold resizeclient. rewrite lookup_updc_eq, Hc. reflexivity.
    + reflexivity.
  - exists cl. split; [assumption|]. split; [|reflexivity].
    unfold applysizehints in Ha.
    repeat match type of Ha with
           | (let '(_, _) := ?e in _) = _ => destruct e
           end.
    injection Ha as <- <- <- <- Hch. unfold geom.
    apply orb_false_elim in Hch as [Hch Hh].
    apply orb_false_elim in Hch as [Hch Hw].
    apply orb_false_elim in Hch as [Hx Hy].
    apply negb_false_iff, Z.eqb_eq in Hx, Hy, Hw, Hh. congruence.
Qed.

Lemma resize_lookup_ne s c d x y w h interact :
  c <> d -> heap (resize c x y w h interact s) !! d = heap s !! d.
Proof.
  intros Hne. unfold resize.
  destruct (heap s !! c) as [cl|]; [|reflexivity].
  destruct (mons s !! Client.mon cl) as [m|]; [|reflexivity].
  destruct (applysizehints s m cl x y w h interact) as [[[[x' y'] w'] h'] []];
    [|reflexivity].
  by apply lookup_updc_ne.
Qed.

Lemma mons_resize s c x y w h interact :
  mons (resize c x y w h interact s) = mons s.
Proof.
  unfold resize.
  destruct (heap s !! c) as [cl|]; [|reflexivity].
  destruct (mons s !! Client.mon cl) as [m|]; [|reflexivity].
  by destruct (applysizehints s m cl x y w h interact) as [[[[x' y'] w'] h'] []].
Qed.

(** ** Size hints *)

Lemma applysizehints_size s m c x y w h interact :
  no_aspect c ->
  let '(_, _, w', h', _) := applysizehints s m c x y w h interact in
  w' = hint_dim (bh s) (Client.basew c) (Client.incw c) (Client.minw c)
         (Client.maxw c) w
  /\ h' = hint_dim (bh s) (Client.baseh c) (Client.inch c) (Client.minh c)
            (Client.maxh c) h.
Proof.
  intros Hna. unfold applysizehints, hint_dim. unfold no_aspect in Hna.
  rewrite Hna. simpl.
  destruct interact;
    destruct ((Client.basew c =? Client.minw c) && (Client.baseh c =? Client.minh c));
    simpl; split; reflexivity.
Qed.

(** C6: with increments 80 and 16, no base, minimum 80 by 16 and neither
    maximum nor aspect hints, a resize with the mouse ([interact] set) to
    837 by 409 leaves the client 800 by 400, the bar being no higher than
    the proposed height. *)
Theorem resize_increment_hints s c cl m px py :
  heap s !! c = Some cl ->
  mons s !! Client.mon cl = Some m ->
  Client.incw cl = 80 -> Client.inch cl = 16 ->
  Client.basew cl = 0 -> Client.baseh cl = 0 ->
  Client.minw cl = 80 -> Client.minh cl = 16 ->
  Client.maxw cl = 0 -> Client.maxh cl = 0 ->
  no_aspect cl ->
  bh s <= 409 ->
  exists cl',
    heap (resize c px py 837 409 true s) !! c = Some cl'
    /\ Client.w cl' = 800 /\ Client.h cl' = 400.
Proof.
  intros Hc Hm Hiw Hih Hbw Hbh Hmw Hmh HMw HMh Hna Hbar.
  destruct (applysizehints s m cl px py 837 409 true)
    as [[[[x' y'] w'] h'] ch] eqn:Ha.
  destruct (resize_lookup _ _ _ _ _ _ _ _ _ _ _ _ _ _ Hc Hm Ha)
    as (cl' & Hl & Hg & _).
  exists cl'. split; [exact Hl|].
  pose proof (applysizehints_size s m cl px py 837 409 true Hna) as Hs.
  rewrite Ha in Hs. destruct Hs as [Hw Hh].
  unfold geom in Hg. injection Hg as _ _ Hgw Hgh.
  rewrite Hgw, Hgh, Hw, Hh, Hiw, Hih, Hbw, Hbh, Hmw, Hmh, HMw, HMh.
  unfold hint_dim.
  change (Z.max 1 837) with 837. change (Z.max 1 409) with 409.
  destruct (837 <? bh s) eqn:E1; [apply Z.ltb_lt in E1; lia|].
  destruct (409 <? bh s) eqn:E2; [apply Z.ltb_lt in E2; lia|].
  split; reflexivity.
Qed.

Lemma resize_increment_hints_witness :
  bh (ex_state [ex_client true 1 0 0 80 16 0 0 80 16]) <= 409
  /\ exists cl',
       heap (resize 0 10 20 837 409 true
               (ex_state [ex_client true 1 0 0 80 16 0 0 80 16])) !! 0%nat
       = Some cl'
       /\ Client.w cl' = 800 /\ Client.h cl' = 400.
Proof.
  split; [vm_compute; discriminate|].
  apply (resize_increment_hints _ 0%nat (ex_client true 1 0 0 80 16 0 0 80 16)
           (ex_monitor [0%nat]));
    try reflexivity.
  vm_compute; discriminate.
Defined.

(** *** Rounding to the increment grid *)

Section Grid.
Variables base inc : Z.
Hypothesis inc_nz : inc <> 0.

Lemma rnd_quot u : rnd base inc u = inc * ((u - base) ÷ inc) + base.
Proof.
  unfold rnd. pose proof (Z.quot_rem' (u - base) inc). lia.
Qed.

Lemma rnd_mono u v : u <= v -> rnd base inc u <= rnd base inc v.
Proof.
  intros Huv. rewrite !rnd_quot.
  destruct (Z_lt_le_dec 0 inc) as [Hpos | Hneg].
  - pose proof (Z.quot_le_mono (u - base) (v - base) inc Hpos). nia.
  - assert (Hpos : 0 < - inc) by lia.
    pose proof (Z.quot_le_mono (u - base) (v - base) (- inc) Hpos) as Hq.
    rewrite !Z.quot_opp_r in Hq by lia. nia.
Qed.

Lemma rnd_fix g : Z.rem (g - base) inc = 0 -> rnd base inc g = g.
Proof. unfold rnd. intros ->. lia. Qed.

Lemma rnd_on_grid u : Z.rem (rnd base inc u - base) inc = 0.
Proof.
  rewrite rnd_quot.
  replace (inc * ((u - base) ÷ inc) + base - base)
    with ((u - base) ÷ inc * inc) by lia.
  apply Z.rem_mul. exact inc_nz.
Qed.
End Grid.

(** With its bounds on the grid, the adjustment of one dimension is
    idempotent. *)
Lemma hint_dim_idem bh base inc min max v :
  on_grid base inc min ->
  max = 0 \/ on_grid base inc max ->
  hint_dim bh base inc min max (hint_dim bh base inc min max v)
  = hint_dim bh base inc min max v.
Proof.
  intros Hmin Hmax. unfold hint_dim.
  destruct (inc =? 0) eqn:Einc.
  - (* no increment: only clamping *)
    destruct (max =? 0) eqn:Emax;
      repeat match goal with
             | |- context [if ?a <? ?b then _ else _] =>
                 destruct (Z.ltb_spec a b)
             end; lia.
  - apply Z.eqb_neq in Einc.
    destruct Hmin as [? | Hmin]; [contradiction|].
    assert (Hmax' : max = 0 \/ Z.rem (max - base) inc = 0).
    { destruct Hmax as [? | [? | ?]]; [by left | contradiction | by right]. }
    clear Hmax.
    set (b1 := if Z.max 1 v <? bh then bh else Z.max 1 v).
    fold (rnd base inc b1).
    set (r := if max =? 0 then Z.max (rnd base inc b1) min
              else Z.min (Z.max (rnd base inc b1) min) max).
    set (b2 := if Z.max 1 r <? bh then bh else Z.max 1 r).
    fold (rnd base inc b2).
    (* the first result is on the grid *)
    assert (Hr : rnd base inc r = r).
    { apply rnd_fix. subst r.
      destruct (max =? 0) eqn:Emax.
      - destruct (Z.max_spec (rnd base inc b1) min) as [[_ ->] | [_ ->]];
          [exact Hmin | by apply rnd_on_grid].
      - apply Z.eqb_neq in Emax. destruct Hmax' as [? | Hmax']; [contradiction|].
        destruct (Z.min_spec (Z.max (rnd base inc b1) min) max) as [[_ ->] | [_ ->]];
          [|exact Hmax'].
        destruct (Z.max_spec (rnd base inc b1) min) as [[_ ->] | [_ ->]];
          [exact Hmin | by apply rnd_on_grid]. }
    assert (Hb1 : Z.max 1 bh <= b1).
    { subst b1. destruct (Z.ltb_spec (Z.max 1 v) bh); lia. }
    assert (Hb2 : b2 = Z.max r (Z.max 1 bh)).
    { subst b2. destruct (Z.ltb_spec (Z.max 1 r) bh); lia. }
    destruct (Z_lt_le_dec r (Z.max 1 bh)) as [Hlt | Hge].
    + (* the result is below the least size: the second pass starts there *)
      assert (Hb2' : b2 = Z.max 1 bh) by lia.
      pose proof (rnd_mono base inc Einc b2 b1 ltac:(lia)) as Hm1.
      pose proof (rnd_mono base inc Einc r b2 ltac:(lia)) as Hm2.
      rewrite Hr in Hm2. subst r.
      destruct (max =? 0) eqn:Emax; [lia|].
      apply Z.eqb_neq in Emax. lia.
    + assert (Hb2' : b2 = r) by lia.
      rewrite Hb2', Hr. subst r.
      destruct (max =? 0) eqn:Emax; lia.
Qed.

Lemma applysizehints_pos s m c x y w h interact :
  let '(x', y', _, _, _) := applysizehints s m c x y w h interact in
  (x', y') = hint_pos s m c x y w h interact.
Proof.
  unfold applysizehints, hint_pos.
  destruct interact; lazy beta iota zeta;
    repeat match goal with
           | |- context [if ?b then (_, _) else _] =>
               destruct b; lazy beta iota zeta
           end; reflexivity.
Qed.

(** The pieces of the adjusted geometry. *)
Lemma adjusted_eq s m c x y w h interact :
  no_aspect c ->
  adjusted s m c (x, y, w, h) interact
  = (fst (hint_pos s m c x y w h interact),
     snd (hint_pos s m c x y w h interact),
     hint_dim (bh s) (Client.basew c) (Client.incw c) (Client.minw c)
       (Client.maxw c) w,
     hint_dim (bh s) (Client.baseh c) (Client.inch c) (Client.minh c)
       (Client.maxh c) h).
Proof.
  intros Hna. unfold adjusted.
  pose proof (applysizehints_size s m c x y w h interact Hna) as Hs.
  pose proof (applysizehints_pos s m c x y w h interact) as Hp.
  destruct (applysizehints s m c x y w h interact) as [[[[x' y'] w'] h'] ch].
  destruct Hs as [-> ->]. rewrite <- Hp. reflexivity.
Qed.

(** A geometry that passes the containment tests keeps its position. *)
Lemma hint_pos_contained s m c x y w h interact :
  contained s m c (x, y, w, h) interact ->
  hint_pos s m c x y w h interact = (x, y).
Proof.
  unfold contained, hint_pos. destruct interact; intros (Hx & Hy & Hw & Hh).
  - destruct (Z.ltb_spec (sw s) x); [lia|].
    destruct (Z.ltb_spec (sh s) y); [lia|].
    destruct (Z.ltb_spec (x + Z.max 1 w + 2 * Client.bw c) 0); [lia|].
    destruct (Z.ltb_spec (y + Z.max 1 h + 2 * Client.bw c) 0); [lia|].
    reflexivity.
  - destruct (Z.leb_spec (Monitor.wx m + Monitor.ww m) x); [lia|].
    destruct (Z.leb_spec (Monitor.wy m + Monitor.wh m) y); [lia|].
    destruct (Z.leb_spec (x + Z.max 1 w + 2 * Client.bw c) (Monitor.wx m)); [lia|].
    destruct (Z.leb_spec (y + Z.max 1 h + 2 * Client.bw c) (Monitor.wy m)); [lia|].
    reflexivity.
Qed.

(** C5, as the code has it: for a client without aspect hints whose
    minimum and maximum sizes are on its increment grid, a second
    application of [applysizehints] to the geometry the first one produced
    gives the same width and height, and the same position too when the
    produced window still passes the containment tests. *)
Theorem applysizehints_idempotent s m c g interact :
  no_aspect c ->
  grid_hints c ->
  let g1 := adjusted s m c g interact in
  let g2 := adjusted s m c g1 interact in
  (snd (fst g2), snd g2) = (snd (fst g1), snd g1)
  /\ (contained s m c g1 interact -> g2 = g1).
Proof.
  intros Hna (Hminw & Hminh & Hmaxw & Hmaxh) g1 g2.
  destruct g as [[[x y] w] h]. subst g2 g1.
  rewrite (adjusted_eq s m c x y w h) by assumption.
  rewrite adjusted_eq by assumption.
  rewrite !hint_dim_idem by assumption.
  split; [reflexivity|].
  intros Hc. apply hint_pos_contained in Hc. rewrite Hc. reflexivity.
Qed.

Lemma applysizehints_idempotent_witness :
  no_aspect (ex_client true 1 0 0 80 16 0 0 80 16)
  /\ grid_hints (ex_client true 1 0 0 80 16 0 0 80 16)
  /\ adjusted (ex_state []) (ex_monitor []) (ex_client true 1 0 0 80 16 0 0 80 16)
       (adjusted (ex_state []) (ex_monitor [])
          (ex_client true 1 0 0 80 16 0 0 80 16) (10, 20, 837, 409) true) true
     = adjusted (ex_state []) (ex_monitor [])
         (ex_client true 1 0 0 80 16 0 0 80 16) (10, 20, 837, 409) true.
Proof.
  assert (Hna : no_aspect (ex_client true 1 0 0 80 16 0 0 80 16)) by reflexivity.
  assert (Hg : grid_hints (ex_client true 1 0 0 80 16 0 0 80 16)).
  { repeat split; try (right; reflexivity); left; reflexivity. }
  split; [exact Hna|]. split; [exact Hg|].
  apply (applysizehints_idempotent (ex_state []) (ex_monitor [])
           (ex_client true 1 0 0 80 16 0 0 80 16) (10, 20, 837, 409) true Hna Hg).
  vm_compute. repeat split; discriminate.
Defined.

(** C5 as stated fails: the second application changes the geometry the
    first one produced for a maximum width off the increment grid (200
    wide becomes 100, then 98), for a fixed aspect with an increment
    (300 by 100 becomes 196 by 100, then 196 by 98), and for a window half
    off the screen that the hints shrink (at -150, 200 wide becomes 100
    wide, then moves to 0). *)
Lemma applysizehints_not_idempotent :
  adjusted (ex_state []) (ex_monitor []) ex_maxw
    (adjusted (ex_state []) (ex_monitor []) ex_maxw (10, 20, 200, 300) true) true
  <> adjusted (ex_state []) (ex_monitor []) ex_maxw (10, 20, 200, 300) true
  /\ adjusted (ex_state []) (ex_monitor []) ex_aspect
       (adjusted (ex_state []) (ex_monitor []) ex_aspect (10, 20, 300, 100) true) true
     <> adjusted (ex_state []) (ex_monitor []) ex_aspect (10, 20, 300, 100) true
  /\ adjusted (ex_state []) (ex_monitor []) ex_maxonly
       (adjusted (ex_state []) (ex_monitor []) ex_maxonly (-150, 20, 200, 300) true)
       true
     <> adjusted (ex_state []) (ex_monitor []) ex_maxonly (-150, 20, 200, 300) true.
Proof. repeat split; vm_compute; discriminate. Qed.

(** ** The tile layout *)

Lemma resizeclient_rec_fields x y w h c :
  geom (resizeclient_rec x y w h c) = (x, y, w, h)
  /\ Client.bw (resizeclient_rec x y w h c) = Client.bw c
  /\ Client.mon (resizeclient_rec x y w h c) = Client.mon c
  /\ Client.tags (resizeclient_rec x y w h c) = Client.tags c
  /\ Client.isfloating (resizeclient_rec x y w h c) = Client.isfloating c.
Proof. repeat split. Qed.

(** [resize] changes the heap only. *)
Lemma resize_globals s c x y w h interact :
  let s' := resize c x y w h interact s in
  mons s' = mons s /\ selmon s' = selmon s /\ bh s' = bh s
  /\ sw s' = sw s /\ sh s' = sh s.
Proof.
  unfold resize.
  destruct (heap s !! c) as [cl|]; [|done].
  destruct (mons s !! Client.mon cl) as [m|]; [|done].
  by destruct (applysizehints s m cl x y w h interact) as [[[[x' y'] w'] h'] []].
Qed.

(** A client without size hints takes a slot of its monitor as it is,
    when the slot lies inside the window area and is at least as large as
    the bar is high. *)
Lemma resize_slot s c cl m x y w h :
  heap s !! c = Some cl ->
  mons s !! Client.mon cl = Some m ->
  unrestricted cl ->
  x < Monitor.wx m + Monitor.ww m -> y < Monitor.wy m + Monitor.wh m ->
  Monitor.wx m < x + w + 2 * Client.bw cl ->
  Monitor.wy m < y + h + 2 * Client.bw cl ->
  Z.max 1 (bh s) <= w -> Z.max 1 (bh s) <= h ->
  exists cl',
    heap (resize c x y w h false s) !! c = Some cl'
    /\ geom cl' = (x, y, w, h)
    /\ Client.bw cl' = Client.bw cl.
Proof.
  intros Hc Hm (Hbw & Hbh & Hiw & Hih & HMw & HMh & Hmw & Hmh & Hna)
    Hx Hy Hx' Hy' Hw Hh.
  assert (Ha : adjusted s m cl (x, y, w, h) false = (x, y, w, h)).
  { rewrite adjusted_eq by assumption.
    rewrite hint_pos_contained
      by (unfold contained; repeat split; lia).
    unfold hint_dim. rewrite Hbw, Hbh, Hiw, Hih, HMw, HMh, Hmw, Hmh. simpl.
    destruct (Z.ltb_spec (Z.max 1 w) (bh s)); [lia|].
    destruct (Z.ltb_spec (Z.max 1 h) (bh s)); [lia|].
    repeat f_equal; lia. }
  unfold adjusted in Ha.
  destruct (applysizehints s m cl x y w h false) as [[[[x' y'] w'] h'] ch] eqn:E.
  simpl in Ha. injection Ha as -> -> -> ->.
  destruct (resize_lookup _ _ _ _ _ _ _ _ _ _ _ _ _ _ Hc Hm E) as (cl' & Hl & Hg & Hcl).
  exists cl'. repeat split; [exact Hl | exact Hg |].
  rewrite Hcl. by destruct ch.
Qed.

Lemma tile_loop_cons m n mw c rest i my ty s cl :
  heap s !! c = Some cl ->
  Client.isfloating cl = false ->
  ISVISIBLE s cl = true ->
  tile_loop m n mw (c :: rest) i my ty s
  = if i <? u32 (Monitor.nmaster m) then
      let s' := resize c (Monitor.wx m) (s32 (Monitor.wy m + my))
                  (s32 (mw - 2 * Client.bw cl))
                  (s32 (u32 (Monitor.wh m - my)
                        / u32 (Z.min n (u32 (Monitor.nmaster m)) - i)
                        - 2 * Client.bw cl)) false s in
      tile_loop m n mw rest (u32 (i + 1)) (u32 (my + height_of s' c)) ty s'
    else
      let s' := resize c (s32 (Monitor.wx m + mw)) (s32 (Monitor.wy m + ty))
                  (s32 (Monitor.ww m - mw - 2 * Client.bw cl))
                  (s32 (u32 (Monitor.wh m - ty) / u32 (n - i) - 2 * Client.bw cl))
                  false s in
      tile_loop m n mw rest (u32 (i + 1)) my (u32 (ty + height_of s' c)) s'.
Proof. intros Hc Hf Hv. simpl. rewrite Hc, Hf, Hv. reflexivity. Qed.

Lemma ISVISIBLE_mons s s' c : mons s' = mons s -> ISVISIBLE s' c = ISVISIBLE s c.
Proof. intros H. unfold ISVISIBLE. by rewrite H. Qed.

Lemma istiled_true s mi c cl :
  heap s !! c = Some cl -> tiled_on s mi cl -> istiled s c = true.
Proof. intros Hc (_ & Hf & Hv). unfold istiled. by rewrite Hc, Hf, Hv. Qed.

(** The state after a client without hints took its slot. *)
Lemma resize_slot_state s c cl m x y w h :
  heap s !! c = Some cl ->
  mons s !! Client.mon cl = Some m ->
  unrestricted cl ->
  x < Monitor.wx m + Monitor.ww m -> y < Monitor.wy m + Monitor.wh m ->
  Monitor.wx m < x + w + 2 * Client.bw cl ->
  Monitor.wy m < y + h + 2 * Client.bw cl ->
  Z.max 1 (bh s) <= w -> Z.max 1 (bh s) <= h ->
  let s' := resize c x y w h false s in
  height_of s' c = h + 2 * Client.bw cl
  /\ mons s' = mons s /\ bh s' = bh s
  /\ (forall d, c <> d -> heap s' !! d = heap s !! d).
Proof.
  intros Hc Hm Hu Hx Hy Hx' Hy' Hw Hh s'.
  destruct (resize_slot s c cl m x y w h Hc Hm Hu Hx Hy Hx' Hy' Hw Hh)
    as (cl' & Hl & Hg & Hbw).
  destruct (resize_globals s c x y w h false) as (Hmons & _ & Hbar & _).
  repeat split; try assumption.
  - unfold height_of. subst s'. rewrite Hl. unfold HEIGHT.
    unfold geom in Hg. injection Hg as _ _ _ ->. by rewrite Hbw.
  - intros d Hd. by apply resize_lookup_ne.
Qed.

(** The clients of the example of C2, one resize after the other. *)
Lemma tile_four_eq s mi m c1 c2 c3 c4 cl1 cl2 cl3 cl4 :
  mons s !! mi = Some m ->
  Monitor.wx m = 0 -> Monitor.wy m = 0 ->
  Monitor.ww m = 1600 -> Monitor.wh m = 1000 ->
  Monitor.mfact m = config.mfact -> Monitor.nmaster m = 1 ->
  Monitor.clients m = [c1; c2; c3; c4] ->
  NoDup [c1; c2; c3; c4] ->
  heap s !! c1 = Some cl1 -> heap s !! c2 = Some cl2 ->
  heap s !! c3 = Some cl3 -> heap s !! c4 = Some cl4 ->
  Forall (fun cl => tiled_on s mi cl /\ unrestricted cl
                    /\ 0 <= Client.bw cl
                    /\ 2 * Client.bw cl + Z.max 1 (bh s) <= 333)
         [cl1; cl2; cl3; cl4] ->
  tile mi s
  = resize c4 880 666 (720 - 2 * Client.bw cl4) (334 - 2 * Client.bw cl4) false
      (resize c3 880 333 (720 - 2 * Client.bw cl3) (333 - 2 * Client.bw cl3) false
         (resize c2 880 0 (720 - 2 * Client.bw cl2) (333 - 2 * Client.bw cl2) false
            (resize c1 0 0 (880 - 2 * Client.bw cl1) (1000 - 2 * Client.bw cl1)
               false s))).
Proof.
  intros Hm Hwx Hwy Hww Hwh Hmf Hnm Hcs Hnd Hc1 Hc2 Hc3 Hc4 Hall.
  apply Forall_cons in Hall as [(Ht1 & Hu1 & Hb1 & Hs1) Hall].
  apply Forall_cons in Hall as [(Ht2 & Hu2 & Hb2 & Hs2) Hall].
  apply Forall_cons in Hall as [(Ht3 & Hu3 & Hb3 & Hs3) Hall].
  apply Forall_cons in Hall as [(Ht4 & Hu4 & Hb4 & Hs4) _].
  apply NoDup_cons in Hnd as [Hn1 Hnd].
  apply NoDup_cons in Hnd as [Hn2 Hnd].
  apply NoDup_cons in Hnd as [Hn3 _].
  assert (Hne : c1 <> c2 /\ c1 <> c3 /\ c1 <> c4 /\ c2 <> c3 /\ c2 <> c4 /\ c3 <> c4).
  { set_solver. }
  destruct Hne as (H12 & H13 & H14 & H23 & H24 & H34).
  unfold tile. rewrite Hm, Hcs.
  rewrite !filter_cons_True, filter_nil
    by (eapply istiled_true; eassumption).
  rewrite Hnm, Hww, Hmf.
  change (u32 (Z.of_nat (length [c1; c2; c3; c4]))) with 4.
  replace (u32 (trunc_float (f32_mul (f32_of_int 1600) config.mfact))) with 880
    by (vm_compute; reflexivity).
  change (if 4 =? 0 then s else ?t) with t.
  change (if u32 1 <? 4 then if 1 =? 0 then 0 else 880 else u32 1600) with 880.
  destruct Ht1 as (Hmon1 & Hf1 & Hv1). destruct Ht2 as (Hmon2 & Hf2 & Hv2).
  destruct Ht3 as (Hmon3 & Hf3 & Hv3). destruct Ht4 as (Hmon4 & Hf4 & Hv4).
  (* the master *)
  rewrite (tile_loop_cons _ _ _ _ _ _ _ _ _ _ Hc1 Hf1 Hv1).
  rewrite Hnm, Hwx, Hwy, Hwh.
  change (if 0 <? u32 1 then ?a else ?b) with a. cbv zeta.
  change (u32 (1000 - 0) / u32 (Z.min 4 (u32 1) - 0)) with 1000.
  change (s32 (0 + 0)) with 0. rewrite !s32_small by lia.
  set (s1 := resize c1 0 0 (880 - 2 * Client.bw cl1) (1000 - 2 * Client.bw cl1)
               false s).
  destruct (resize_slot_state s c1 cl1 m 0 0 (880 - 2 * Client.bw cl1)
              (1000 - 2 * Client.bw cl1) Hc1 ltac:(by rewrite Hmon1) Hu1
              ltac:(lia) ltac:(lia) ltac:(lia) ltac:(lia)
              ltac:(rewrite ?Hbh3, ?Hbh2, ?Hbh1; lia) ltac:(rewrite ?Hbh3, ?Hbh2, ?Hbh1; lia))
    as (Hh1 & Hm1 & Hbh1 & Hfr1).
  fold s1 in Hh1, Hm1, Hbh1, Hfr1.
  rewrite Hh1. replace (0 + (1000 - 2 * Client.bw cl1 + 2 * Client.bw cl1)) with 1000
    by lia.
  change (u32 (0 + 1)) with 1. change (u32 1000) with 1000.
  (* the stack, from the top *)
  rewrite (tile_loop_cons _ _ _ _ _ _ _ _ s1 cl2)
    by (rewrite ?Hfr1 by done; rewrite ?(ISVISIBLE_mons s s1) by done; done).
  rewrite Hnm, Hwx, Hwy, Hww, Hwh.
  change (if 1 <? u32 1 then ?a else ?b) with b. cbv zeta.
  change (u32 (1000 - 0) / u32 (4 - 1)) with 333.
  change (s32 (0 + 880)) with 880. change (s32 (0 + 0)) with 0.
  rewrite !s32_small by lia.
  replace (1600 - 880 - 2 * Client.bw cl2) with (720 - 2 * Client.bw cl2) by lia.
  set (s2 := resize c2 880 0 (720 - 2 * Client.bw cl2) (333 - 2 * Client.bw cl2)
               false s1).
  destruct (resize_slot_state s1 c2 cl2 m 880 0 (720 - 2 * Client.bw cl2)
              (333 - 2 * Client.bw cl2)
              ltac:(by rewrite Hfr1) ltac:(by rewrite Hm1, Hmon2) Hu2
              ltac:(lia) ltac:(lia) ltac:(lia) ltac:(lia)
              ltac:(rewrite ?Hbh3, ?Hbh2, ?Hbh1; lia) ltac:(rewrite ?Hbh3, ?Hbh2, ?Hbh1; lia))
    as (Hh2 & Hm2 & Hbh2 & Hfr2).
  fold s2 in Hh2, Hm2, Hbh2, Hfr2.
  rewrite Hh2. replace (0 + (333 - 2 * Client.bw cl2 + 2 * Client.bw cl2)) with 333
    by lia.
  change (u32 (1 + 1)) with 2. change (u32 333) with 333.
  rewrite (tile_loop_cons _ _ _ _ _ _ _ _ s2 cl3)
    by (rewrite ?Hfr2, ?Hfr1 by done;
        rewrite ?(ISVISIBLE_mons s s2) by congruence; done).
  rewrite Hnm, Hwx, Hwy, Hww, Hwh.
  change (if 2 <? u32 1 then ?a else ?b) with b. cbv zeta.
  change (u32 (1000 - 333) / u32 (4 - 2)) with 333.
  change (s32 (0 + 880)) with 880. change (s32 (0 + 333)) with 333.
  rewrite !s32_small by lia.
  replace (1600 - 880 - 2 * Client.bw cl3) with (720 - 2 * Client.bw cl3) by lia.
  set (s3 := resize c3 880 333 (720 - 2 * Client.bw cl3) (333 - 2 * Client.bw cl3)
               false s2).
  destruct (resize_slot_state s2 c3 cl3 m 880 333 (720 - 2 * Client.bw cl3)
              (333 - 2 * Client.bw cl3)
              ltac:(by rewrite Hfr2, Hfr1) ltac:(by rewrite Hm2, Hm1, Hmon3) Hu3
              ltac:(lia) ltac:(lia) ltac:(lia) ltac:(lia)
              ltac:(rewrite ?Hbh3, ?Hbh2, ?Hbh1; lia) ltac:(rewrite ?Hbh3, ?Hbh2, ?Hbh1; lia))
    as (Hh3 & Hm3 & Hbh3 & Hfr3).
  fold s3 in Hh3, Hm3, Hbh3, Hfr3.
  rewrite Hh3.
  replace (333 + (333 - 2 * Client.bw cl3 + 2 * Client.bw cl3)) with 666 by lia.
  change (u32 (2 + 1)) with 3. change (u32 666) with 666.
  rewrite (tile_loop_cons _ _ _ _ _ _ _ _ s3 cl4)
    by (rewrite ?Hfr3, ?Hfr2, ?Hfr1 by done;
        rewrite ?(ISVISIBLE_mons s s3) by congruence; done).
  rewrite Hnm, Hwx, Hwy, Hww, Hwh.
  change (if 3 <? u32 1 then ?a else ?b) with b. cbv zeta.
  change (u32 (1000 - 666) / u32 (4 - 3)) with 334.
  change (s32 (0 + 880)) with 880. change (s32 (0 + 666)) with 666.
  rewrite !s32_small by lia.
  replace (1600 - 880 - 2 * Client.bw cl4) with (720 - 2 * Client.bw cl4) by lia.
  reflexivity.
Qed.

(** C2: on a monitor whose window area is 1600 by 1000 at the origin,
    with [mfact] 0.55 and [nmaster] 1, [tile] gives the first of four
    tiled clients without size hints the geometry (0, 0, 880 - 2 bw,
    1000 - 2 bw) and stacks the other three at x = 880 from the top, 333,
    333 and 334 high with their borders (each border fitting its slot). *)
Theorem tile_four_clients s mi m c1 c2 c3 c4 cl1 cl2 cl3 cl4 :
  mons s !! mi = Some m ->
  Monitor.wx m = 0 -> Monitor.wy m = 0 ->
  Monitor.ww m = 1600 -> Monitor.wh m = 1000 ->
  Monitor.mfact m = config.mfact -> Monitor.nmaster m = 1 ->
  Monitor.clients m = [c1; c2; c3; c4] ->
  NoDup [c1; c2; c3; c4] ->
  heap s !! c1 = Some cl1 -> heap s !! c2 = Some cl2 ->
  heap s !! c3 = Some cl3 -> heap s !! c4 = Some cl4 ->
  Forall (fun cl => tiled_on s mi cl /\ unrestricted cl
                    /\ 0 <= Client.bw cl
                    /\ 2 * Client.bw cl + Z.max 1 (bh s) <= 333)
         [cl1; cl2; cl3; cl4] ->
  exists cl1' cl2' cl3' cl4',
    heap (tile mi s) !! c1 = Some cl1'
    /\ heap (tile mi s) !! c2 = Some cl2'
    /\ heap (tile mi s) !! c3 = Some cl3'
    /\ heap (tile mi s) !! c4 = Some cl4'
    /\ geom cl1' = (0, 0, 880 - 2 * Client.bw cl1, 1000 - 2 * Client.bw cl1)
    /\ (Client.x cl2', Client.y cl2', WIDTH cl2', HEIGHT cl2') = (880, 0, 720, 333)
    /\ (Client.x cl3', Client.y cl3', WIDTH cl3', HEIGHT cl3') = (880, 333, 720, 333)
    /\ (Client.x cl4', Client.y cl4', WIDTH cl4', HEIGHT cl4') = (880, 666, 720, 334).
Proof.
  intros Hm Hwx Hwy Hww Hwh Hmf Hnm Hcs Hnd Hc1 Hc2 Hc3 Hc4 Hall.
  rewrite (tile_four_eq s mi m c1 c2 c3 c4 cl1 cl2 cl3 cl4) by assumption.
  apply Forall_cons in Hall as [((Hmon1 & _) & Hu1 & Hb1 & Hs1) Hall].
  apply Forall_cons in Hall as [((Hmon2 & _) & Hu2 & Hb2 & Hs2) Hall].
  apply Forall_cons in Hall as [((Hmon3 & _) & Hu3 & Hb3 & Hs3) Hall].
  apply Forall_cons in Hall as [((Hmon4 & _) & Hu4 & Hb4 & Hs4) _].
  apply NoDup_cons in Hnd as [Hn1 Hnd].
  apply NoDup_cons in Hnd as [Hn2 Hnd].
  apply NoDup_cons in Hnd as [Hn3 _].
  assert (Hne : c1 <> c2 /\ c1 <> c3 /\ c1 <> c4 /\ c2 <> c3 /\ c2 <> c4 /\ c3 <> c4).
  { set_solver. }
  destruct Hne as (H12 & H13 & H14 & H23 & H24 & H34).
  set (s1 := resize c1 0 0 (880 - 2 * Client.bw cl1) (1000 - 2 * Client.bw cl1)
               false s).
  set (s2 := resize c2 880 0 (720 - 2 * Client.bw cl2) (333 - 2 * Client.bw cl2)
               false s1).
  set (s3 := resize c3 880 333 (720 - 2 * Client.bw cl3) (333 - 2 * Client.bw cl3)
               false s2).
  destruct (resize_slot s c1 cl1 m 0 0 (880 - 2 * Client.bw cl1)
              (1000 - 2 * Client.bw cl1) Hc1 ltac:(by rewrite Hmon1) Hu1
              ltac:(lia) ltac:(lia) ltac:(lia) ltac:(lia) ltac:(lia) ltac:(lia))
    as (cl1' & Hl1 & Hg1 & Hbw1).
  destruct (resize_globals s c1 0 0 (880 - 2 * Client.bw cl1)
              (1000 - 2 * Client.bw cl1) false) as (Hm1 & _ & Hbh1 & _).
  fold s1 in Hl1, Hm1, Hbh1.
  destruct (resize_slot s1 c2 cl2 m 880 0 (720 - 2 * Client.bw cl2)
              (333 - 2 * Client.bw cl2)
              ltac:(by unfold s1; rewrite resize_lookup_ne)
              ltac:(by rewrite Hm1, Hmon2) Hu2
              ltac:(lia) ltac:(lia) ltac:(lia) ltac:(lia)
              ltac:(rewrite Hbh1; lia) ltac:(rewrite Hbh1; lia))
    as (cl2' & Hl2 & Hg2 & Hbw2).
  destruct (resize_globals s1 c2 880 0 (720 - 2 * Client.bw cl2)
              (333 - 2 * Client.bw cl2) false) as (Hm2 & _ & Hbh2 & _).
  fold s2 in Hl2, Hm2, Hbh2.
  destruct (resize_slot s2 c3 cl3 m 880 333 (720 - 2 * Client.bw cl3)
              (333 - 2 * Client.bw cl3)
              ltac:(by unfold s2, s1; rewrite !resize_lookup_ne)
              ltac:(by rewrite Hm2, Hm1, Hmon3) Hu3
              ltac:(lia) ltac:(lia) ltac:(lia) ltac:(lia)
              ltac:(rewrite Hbh2, Hbh1; lia) ltac:(rewrite Hbh2, Hbh1; lia))
    as (cl3' & Hl3 & Hg3 & Hbw3).
  destruct (resize_globals s2 c3 880 333 (720 - 2 * Client.bw cl3)
              (333 - 2 * Client.bw cl3) false) as (Hm3 & _ & Hbh3 & _).
  fold s3 in Hl3, Hm3, Hbh3.
  destruct (resize_slot s3 c4 cl4 m 880 666 (720 - 2 * Client.bw cl4)
              (334 - 2 * Client.bw cl4)
              ltac:(by unfold s3, s2, s1; rewrite !resize_lookup_ne)
              ltac:(by rewrite Hm3, Hm2, Hm1, Hmon4) Hu4
              ltac:(lia) ltac:(lia) ltac:(lia) ltac:(lia)
              ltac:(rewrite Hbh3, Hbh2, Hbh1; lia)
              ltac:(rewrite Hbh3, Hbh2, Hbh1; lia))
    as (cl4' & Hl4 & Hg4 & Hbw4).
  exists cl1', cl2', cl3', cl4'.
  unfold geom in Hg1, Hg2, Hg3, Hg4.
  injection Hg2 as Hx2 Hy2 Hw2 Hh2. injection Hg3 as Hx3 Hy3 Hw3 Hh3.
  injection Hg4 as Hx4 Hy4 Hw4 Hh4.
  repeat split.
  - unfold s3, s2. rewrite !resize_lookup_ne by congruence. exact Hl1.
  - unfold s3. rewrite !resize_lookup_ne by congruence. exact Hl2.
  - rewrite !resize_lookup_ne by congruence. exact Hl3.
  - exact Hl4.
  - exact Hg1.
  - unfold WIDTH, HEIGHT. rewrite Hx2, Hy2, Hw2, Hh2, Hbw2. repeat f_equal; lia.
  - unfold WIDTH, HEIGHT. rewrite Hx3, Hy3, Hw3, Hh3, Hbw3. repeat f_equal; lia.
  - unfold WIDTH, HEIGHT. rewrite Hx4, Hy4, Hw4, Hh4, Hbw4. repeat f_equal; lia.
Qed.

Lemma tile_four_clients_witness :
  exists cl1' cl2' cl3' cl4',
    heap (tile 0 (ex_state (replicate 4 (ex_client false 1 0 0 0 0 0 0 0 0)))) !! 0%nat
    = Some cl1'
    /\ heap (tile 0 (ex_state (replicate 4 (ex_client false 1 0 0 0 0 0 0 0 0))))
       !! 1%nat = Some cl2'
    /\ heap (tile 0 (ex_state (replicate 4 (ex_client false 1 0 0 0 0 0 0 0 0))))
       !! 2%nat = Some cl3'
    /\ heap (tile 0 (ex_state (replicate 4 (ex_client false 1 0 0 0 0 0 0 0 0))))
       !! 3%nat = Some cl4'
    /\ geom cl1' = (0, 0, 878, 998)
    /\ (Client.x cl2', Client.y cl2', WIDTH cl2', HEIGHT cl2') = (880, 0, 720, 333)
    /\ (Client.x cl3', Client.y cl3', WIDTH cl3', HEIGHT cl3') = (880, 333, 720, 333)
    /\ (Client.x cl4', Client.y cl4', WIDTH cl4', HEIGHT cl4') = (880, 666, 720, 334).
Proof.
  apply (tile_four_clients
           (ex_state (replicate 4 (ex_client false 1 0 0 0 0 0 0 0 0))) 0%nat
           (ex_monitor [0; 1; 2; 3]%nat) 0%nat 1%nat 2%nat 3%nat
           (ex_client false 1 0 0 0 0 0 0 0 0) (ex_client false 1 0 0 0 0 0 0 0 0)
           (ex_client false 1 0 0 0 0 0 0 0 0) (ex_client false 1 0 0 0 0 0 0 0 0));
    try reflexivity.
  - repeat (apply NoDup_cons_2;
            [intros H; repeat (apply elem_of_cons in H as [H|H]; [discriminate|]);
             by apply elem_of_nil in H |]).
    apply NoDup_nil_2.
  - repeat constructor; vm_compute; congruence.
Defined.

(** ** What the geometry and focus code leaves alone *)

Lemma frame_refl s : frame s s.
Proof. by split. Qed.

Lemma frame_trans s1 s2 s3 : frame s1 s2 -> frame s2 s3 -> frame s1 s3.
Proof.
  intros [Hc1 Hm1] [Hc2 Hm2]. split.
  - intros c. by rewrite Hc2, Hc1.
  - by rewrite Hm2, Hm1.
Qed.

Lemma frame_updc s s' c f :
  (forall cl, Client.tags (f cl) = Client.tags cl
              /\ Client.mon (f cl) = Client.mon cl) ->
  frame s s' -> frame s (updc c f s').
Proof.
  intros Hf Hs. eapply frame_trans; [exact Hs|]. split; [|reflexivity].
  intros d. unfold updc; simpl. destruct (decide (c = d)) as [<-|Hne].
  - rewrite lookup_alter_eq. destruct (heap s' !! c) as [cl|]; [|reflexivity].
    simpl. by destruct (Hf cl) as [-> ->].
  - by rewrite lookup_alter_ne.
Qed.

Lemma frame_updm s s' i f :
  (forall m, mtag (f m) = mtag m) -> frame s s' -> frame s (updm i f s').
Proof.
  intros Hf Hs. eapply frame_trans; [exact Hs|]. split; [reflexivity|].
  unfold updm; simpl.
  rewrite (list_fmap_alter mtag f id).
  - apply list_alter_id. reflexivity.
  - apply Forall_forall. intros m _. apply Hf.
Qed.

Lemma frame_set_selmon s s' v : frame s s' -> frame s (set_selmon v s').
Proof. intros H. exact H. Qed.

Lemma frame_set_motionmon s s' v : frame s s' -> frame s (set_motionmon v s').
Proof. intros H. exact H. Qed.

Lemma frame_set_running s s' v : frame s s' -> frame s (set_running v s').
Proof. intros H. exact H. Qed.

Lemma frame_set_screen s s' a b : frame s s' -> frame s (set_screen a b s').
Proof. intros H. exact H. Qed.

Lemma mtag_set_lt i v m : mtag (set_lt i v m) = mtag m.
Proof. unfold set_lt. by destruct (i =? 0). Qed.

Lemma mtag_updatebarpos b m : mtag (updatebarpos b m) = mtag m.
Proof.
  unfold updatebarpos. simpl.
  destruct (Monitor.showbar m); [|reflexivity].
  reflexivity.
Qed.

Create HintDb frame discriminated.

#[local] Hint Resolve frame_refl frame_updc frame_updm frame_set_selmon
  frame_set_motionmon frame_set_running frame_set_screen : frame.
#[local] Hint Extern 1 (forall cl : Client.t, _ /\ _) =>
  (intros; split; reflexivity) : frame.
#[local] Hint Extern 1 (forall m : Monitor.t, mtag _ = mtag _) =>
  (intros; rewrite ?mtag_updatebarpos, ?mtag_set_lt; reflexivity) : frame.

(** Case analysis on the state a handler computes, down to its writes. *)
Ltac frame_cases :=
  repeat first
    [ progress cbv zeta
    | match goal with
      | |- frame _ (match ?x with _ => _ end) => destruct x eqn:?
      | |- frame _ (let '(_, _) := ?x in _) => destruct x eqn:?
      | |- frame _ ?t =>
          match t with
          | context [if ?b then _ else _] => destruct b eqn:?
          | context [match ?x with Some _ => _ | None => _ end] => destruct x eqn:?
          end
      end ];
  eauto 12 with frame.

Lemma frame_resizeclient s s' c x y w h :
  frame s s' -> frame s (resizeclient c x y w h s').
Proof. intros H. unfold resizeclient. frame_cases. Qed.
#[local] Hint Resolve frame_resizeclient : frame.

Lemma frame_resize s s' c x y w h interact :
  frame s s' -> frame s (resize c x y w h interact s').
Proof. intros H. unfold resize. frame_cases. Qed.
#[local] Hint Resolve frame_resize : frame.

Lemma frame_showhide cs : forall s s', frame s s' -> frame s (showhide cs s').
Proof.
  induction cs as [|c cs IH]; intros s s' H; simpl; [exact H|].
  destruct (heap s' !! c) as [cl|]; [|exact H].
  destruct (ISVISIBLE s' cl); [|by apply IH].
  apply IH. frame_cases.
Qed.
#[local] Hint Resolve frame_showhide : frame.

Lemma frame_tile_loop m n mw cs :
  forall i my ty s s', frame s s' -> frame s (tile_loop m n mw cs i my ty s').
Proof.
  induction cs as [|c cs IH]; intros i my ty s s' H; simpl; [exact H|].
  destruct (heap s' !! c) as [cl|]; [|by apply IH].
  destruct (negb (Client.isfloating cl) && ISVISIBLE s' cl); [|by apply IH].
  destruct (i <? u32 (Monitor.nmaster m)); apply IH; frame_cases.
Qed.
#[local] Hint Resolve frame_tile_loop : frame.

Lemma frame_tile s s' mi : frame s s' -> frame s (tile mi s').
Proof. intros H. unfold tile. frame_cases. Qed.
#[local] Hint Resolve frame_tile : frame.

Lemma frame_monocle_loop m cs :
  forall s s', frame s s' -> frame s (monocle_loop m cs s').
Proof.
  induction cs as [|c cs IH]; intros s s' H; simpl; [exact H|].
  destruct (heap s' !! c) as [cl|]; [|by apply IH].
  destruct (negb (Client.isfloating cl) && ISVISIBLE s' cl); apply IH; frame_cases.
Qed.
#[local] Hint Resolve frame_monocle_loop : frame.

Lemma frame_monocle s s' mi : frame s s' -> frame s (monocle mi s').
Proof. intros H. unfold monocle. frame_cases. Qed.
#[local] Hint Resolve frame_monocle : frame.

Lemma frame_arrangemon s s' mi : frame s s' -> frame s (arrangemon mi s').
Proof. intros H. unfold arrangemon. frame_cases. Qed.
#[local] Hint Resolve frame_arrangemon : frame.

Lemma frame_showhide_mon s s' mi : frame s s' -> frame s (showhide_mon mi s').
Proof. intros H. unfold showhide_mon. frame_cases. Qed.
#[local] Hint Resolve frame_showhide_mon : frame.

Lemma frame_foldl {A} (f : State -> A -> State) (l : list A) :
  (forall s s' a, frame s s' -> frame s (f s' a)) ->
  forall s s', frame s s' -> frame s (foldl f s' l).
Proof.
  intros Hf. induction l as [|a l IH]; intros s s' H; simpl; [exact H|].
  apply IH, Hf, H.
Qed.

Lemma frame_arrange s s' m : frame s s' -> frame s (arrange m s').
Proof.
  intros H. unfold arrange. destruct m as [mi|]; [frame_cases|].
  apply frame_foldl; [intros; frame_cases|].
  apply frame_foldl; [intros; frame_cases|]. exact H.
Qed.
#[local] Hint Resolve frame_arrange : frame.

Lemma frame_attach s s' c : frame s s' -> frame s (attach c s').
Proof. intros H. unfold attach. frame_cases. Qed.

Lemma frame_attachstack s s' c : frame s s' -> frame s (attachstack c s').
Proof. intros H. unfold attachstack. frame_cases. Qed.

Lemma frame_detach s s' c : frame s s' -> frame s (detach c s').
Proof. intros H. unfold detach. frame_cases. Qed.

Lemma frame_detachstack s s' c : frame s s' -> frame s (detachstack c s').
Proof. intros H. unfold detachstack. frame_cases. Qed.

Lemma frame_seturgent s s' c u : frame s s' -> frame s (seturgent c u s').
Proof. intros H. unfold seturgent. frame_cases. Qed.
#[local] Hint Resolve frame_attach frame_attachstack frame_detach
  frame_detachstack frame_seturgent : frame.

Lemma frame_focus s s' c : frame s s' -> frame s (focus c s').
Proof. intros H. unfold focus. frame_cases. Qed.
#[local] Hint Resolve frame_focus : frame.

(** ** What arranging leaves alone *)

Lemma relayout_refl s : relayout s s.
Proof. reflexivity. Qed.

Lemma relayout_trans s1 s2 s3 : relayout s1 s2 -> relayout s2 s3 -> relayout s1 s3.
Proof. unfold relayout. congruence. Qed.

Lemma strip_eq s :
  strip s = mkState (nosymbol <$> mons s) (selmon s) (nogeom <$> heap s)
              (nextaddr s) (sw s) (sh s) (bh s) (running s) (motionmon s).
Proof. reflexivity. Qed.

Lemma relayout_updc s s' c f :
  (forall cl, nogeom (f cl) = nogeom cl) -> relayout s s' -> relayout s (updc c f s').
Proof.
  intros Hf Hs. eapply relayout_trans; [exact Hs|].
  unfold relayout. rewrite !strip_eq. unfold updc; simpl. f_equal.
  apply map_eq. intros d. rewrite !lookup_fmap.
  destruct (decide (c = d)) as [<-|Hne].
  - rewrite lookup_alter_eq. destruct (heap s' !! c); simpl; [|reflexivity].
    by rewrite Hf.
  - by rewrite lookup_alter_ne.
Qed.

Lemma relayout_updm s s' i f :
  (forall m, nosymbol (f m) = nosymbol m) -> relayout s s' ->
  relayout s (updm i f s').
Proof.
  intros Hf Hs. eapply relayout_trans; [exact Hs|].
  unfold relayout. rewrite !strip_eq. unfold updm; simpl. f_equal.
  rewrite (list_fmap_alter nosymbol f id).
  - apply list_alter_id. reflexivity.
  - apply Forall_forall. intros m _. apply Hf.
Qed.

Create HintDb relayout discriminated.

#[local] Hint Resolve relayout_refl relayout_updc relayout_updm : relayout.
#[local] Hint Extern 1 (forall cl : Client.t, nogeom _ = nogeom _) =>
  (intros; reflexivity) : relayout.
#[local] Hint Extern 1 (forall m : Monitor.t, nosymbol _ = nosymbol _) =>
  (intros; reflexivity) : relayout.

Ltac relayout_cases :=
  repeat first
    [ progress cbv zeta
    | match goal with
      | |- relayout _ (match ?x with _ => _ end) => destruct x eqn:?
      | |- relayout _ (let '(_, _) := ?x in _) => destruct x eqn:?
      | |- relayout _ ?t =>
          match t with
          | context [if ?b then _ else _] => destruct b eqn:?
          | context [match ?x with Some _ => _ | None => _ end] => destruct x eqn:?
          end
      end ];
  eauto 12 with relayout.

Lemma relayout_resizeclient s s' c x y w h :
  relayout s s' -> relayout s (resizeclient c x y w h s').
Proof. intros H. unfold resizeclient. relayout_cases. Qed.
#[local] Hint Resolve relayout_resizeclient : relayout.

Lemma relayout_resize s s' c x y w h interact :
  relayout s s' -> relayout s (resize c x y w h interact s').
Proof. intros H. unfold resize. relayout_cases. Qed.
#[local] Hint Resolve relayout_resize : relayout.

Lemma relayout_showhide cs :
  forall s s', relayout s s' -> relayout s (showhide cs s').
Proof.
  induction cs as [|c cs IH]; intros s s' H; simpl; [exact H|].
  destruct (heap s' !! c) as [cl|]; [|exact H].
  destruct (ISVISIBLE s' cl); [|by apply IH].
  apply IH. relayout_cases.
Qed.
#[local] Hint Resolve relayout_showhide : relayout.

Lemma relayout_tile_loop m n mw cs :
  forall i my ty s s',
    relayout s s' -> relayout s (tile_loop m n mw cs i my ty s').
Proof.
  induction cs as [|c cs IH]; intros i my ty s s' H; simpl; [exact H|].
  destruct (heap s' !! c) as [cl|]; [|by apply IH].
  destruct (negb (Client.isfloating cl) && ISVISIBLE s' cl); [|by apply IH].
  destruct (i <? u32 (Monitor.nmaster m)); apply IH; relayout_cases.
Qed.
#[local] Hint Resolve relayout_tile_loop : relayout.

Lemma relayout_tile s s' mi : relayout s s' -> relayout s (tile mi s').
Proof. intros H. unfold tile. relayout_cases. Qed.
#[local] Hint Resolve relayout_tile : relayout.

Lemma relayout_monocle_loop m cs :
  forall s s', relayout s s' -> relayout s (monocle_loop m cs s').
Proof.
  induction cs as [|c cs IH]; intros s s' H; simpl; [exact H|].
  destruct (heap s' !! c) as [cl|]; [|by apply IH].
  destruct (negb (Client.isfloating cl) && ISVISIBLE s' cl); apply IH;
    relayout_cases.
Qed.
#[local] Hint Resolve relayout_monocle_loop : relayout.

Lemma relayout_monocle s s' mi : relayout s s' -> relayout s (monocle mi s').
Proof. intros H. unfold monocle. relayout_cases. Qed.
#[local] Hint Resolve relayout_monocle : relayout.

Lemma relayout_arrangemon s s' mi : relayout s s' -> relayout s (arrangemon mi s').
Proof. intros H. unfold arrangemon. relayout_cases. Qed.
#[local] Hint Resolve relayout_arrangemon : relayout.

Lemma relayout_showhide_mon s s' mi :
  relayout s s' -> relayout s (showhide_mon mi s').
Proof. intros H. unfold showhide_mon. relayout_cases. Qed.
#[local] Hint Resolve relayout_showhide_mon : relayout.

Lemma relayout_foldl {A} (f : State -> A -> State) (l : list A) :
  (forall s s' a, relayout s s' -> relayout s (f s' a)) ->
  forall s s', relayout s s' -> relayout s (foldl f s' l).
Proof.
  intros Hf. induction l as [|a l IH]; intros s s' H; simpl; [exact H|].
  apply IH, Hf, H.
Qed.

(** [arrange] changes the geometry of clients and the layout symbols
    only. *)
Lemma relayout_arrange s s' m : relayout s s' -> relayout s (arrange m s').
Proof.
  intros H. unfold arrange. destruct m as [mi|]; [relayout_cases|].
  apply relayout_foldl; [intros; relayout_cases|].
  apply relayout_foldl; [intros; relayout_cases|]. exact H.
Qed.
#[local] Hint Resolve relayout_arrange : relayout.

Lemma relayout_selmon s s' : relayout s s' -> selmon s' = selmon s.
Proof. unfold relayout. rewrite !strip_eq. intros H. exact (f_equal selmon H). Qed.

Lemma relayout_mons s s' i m :
  relayout s s' -> mons s !! i = Some m ->
  exists m', mons s' !! i = Some m' /\ nosymbol m' = nosymbol m.
Proof.
  unfold relayout. rewrite !strip_eq. intros H Hm.
  pose proof (f_equal mons H) as Hmons. simpl in Hmons.
  assert (Hl : (nosymbol <$> mons s') !! i = Some (nosymbol m)).
  { rewrite Hmons, list_lookup_fmap, Hm. reflexivity. }
  rewrite list_lookup_fmap in Hl.
  destruct (mons s' !! i) as [m'|]; [|discriminate].
  exists m'. split; [reflexivity|]. simpl in Hl. congruence.
Qed.

Lemma nosymbol_mtag m m' : nosymbol m' = nosymbol m -> mtag m' = mtag m.
Proof.
  intros H. change (mtag (nosymbol m') = mtag (nosymbol m)). by rewrite H.
Qed.

(** ** Views *)

Lemma frame_mons s s' i m :
  frame s s' -> mons s !! i = Some m ->
  exists m', mons s' !! i = Some m' /\ mtag m' = mtag m.
Proof.
  intros [_ Hmons] Hm.
  assert (Hl : (mtag <$> mons s') !! i = Some (mtag m)).
  { rewrite Hmons, list_lookup_fmap, Hm. reflexivity. }
  rewrite list_lookup_fmap in Hl.
  destruct (mons s' !! i) as [m'|]; [|discriminate].
  exists m'. split; [reflexivity|]. simpl in Hl. congruence.
Qed.

Lemma tagset_mtag m m' :
  mtag m' = mtag m -> tagset m' (Monitor.seltags m') = tagset m (Monitor.seltags m).
Proof.
  unfold mtag, tagset. intros H. injection H as H0 H1 Hs. by rewrite H0, H1, Hs.
Qed.

Lemma tagset_set_tagset i v m :
  tagset (set_tagset i v m) i = v
  /\ Monitor.seltags (set_tagset i v m) = Monitor.seltags m
  /\ Monitor.stack (set_tagset i v m) = Monitor.stack m.
Proof. unfold tagset, set_tagset. by destruct (i =? 0). Qed.

Lemma selmon_detachstack c s : selmon (detachstack c s) = selmon s.
Proof.
  unfold detachstack. destruct (mon_of s c) as [mi|]; [|reflexivity].
  destruct (mons _ !! mi) as [m|]; [|reflexivity].
  by destruct (decide (Monitor.sel m = Some c)).
Qed.

Lemma selmon_attachstack c s : selmon (attachstack c s) = selmon s.
Proof. unfold attachstack. by destruct (mon_of s c). Qed.

(** Focusing the first visible client of the selected monitor keeps that
    monitor selected. *)
Lemma selmon_focus_None s : stack_owned s -> selmon (focus None s) = selmon s.
Proof.
  intros Hown. unfold focus.
  destruct (mons s !! selmon s) as [m|] eqn:Hm; simpl; [|reflexivity].
  destruct (first_visible s (Monitor.stack m)) as [a|] eqn:Hfv; [|reflexivity].
  simpl. destruct (heap s !! a) as [cl|] eqn:Ha; [|reflexivity].
  apply find_some in Hfv as [Hin _].
  apply list_elem_of_In in Hin.
  rewrite (Hown m a cl Hm Hin Ha).
  destruct (decide (selmon s = selmon s)) as [_|]; [|done].
  rewrite selmon_attachstack, selmon_detachstack.
  by destruct (Client.isurgent cl).
Qed.

(** After [view] of a mask with a tag in it, that mask is the active
    tagset of the selected monitor. *)
Lemma view_active s M m :
  stack_owned s ->
  Z.land M TAGMASK <> 0 ->
  mons s !! selmon s = Some m ->
  exists m',
    mons (view M s) !! selmon (view M s) = Some m'
    /\ tagset m' (Monitor.seltags m') = Z.land M TAGMASK.
Proof.
  intros Hown HM Hm. unfold view. rewrite Hm.
  destruct (Z.land M TAGMASK =? tagset m (Monitor.seltags m)) eqn:E.
  { apply Z.eqb_eq in E. exists m. by split. }
  apply Z.eqb_neq in HM as HM'. rewrite HM'.
  set (m1 := set_tagset (Monitor.seltags
                           (Monitor.set_seltags (Z.lxor (Monitor.seltags m) 1) m))
               (Z.land M TAGMASK)
               (Monitor.set_seltags (Z.lxor (Monitor.seltags m) 1) m)).
  set (s1 := updm (selmon s) _ s).
  assert (Hm1 : mons s1 !! selmon s1 = Some m1).
  { unfold s1, updm; simpl. rewrite list_lookup_alter_eq, Hm. reflexivity. }
  assert (Ht1 : tagset m1 (Monitor.seltags m1) = Z.land M TAGMASK).
  { unfold m1.
    destruct (tagset_set_tagset
                (Monitor.seltags (Monitor.set_seltags (Z.lxor (Monitor.seltags m) 1) m))
                (Z.land M TAGMASK)
                (Monitor.set_seltags (Z.lxor (Monitor.seltags m) 1) m))
      as (Ht & Hs & _).
    rewrite Hs. exact Ht. }
  assert (Hown1 : stack_owned s1).
  { intros m0 a cl Hm0 Ha Hcl. rewrite Hm1 in Hm0. injection Hm0 as <-.
    apply (Hown m a cl Hm); [|exact Hcl].
    unfold m1 in Ha.
    destruct (tagset_set_tagset
                (Monitor.seltags (Monitor.set_seltags (Z.lxor (Monitor.seltags m) 1) m))
                (Z.land M TAGMASK)
                (Monitor.set_seltags (Z.lxor (Monitor.seltags m) 1) m))
      as (_ & _ & Hst).
    rewrite Hst in Ha. exact Ha. }
  set (s2 := focus None s1).
  assert (Hsel2 : selmon s2 = selmon s1) by (by apply selmon_focus_None).
  destruct (frame_mons s1 s2 (selmon s1) m1 (frame_focus _ _ _ (frame_refl s1)) Hm1)
    as (m2 & Hm2 & Ht2).
  pose proof (relayout_arrange s2 s2 (Some (selmon s2)) (relayout_refl s2)) as Hr.
  rewrite (relayout_selmon _ _ Hr).
  rewrite <- Hsel2 in Hm2.
  destruct (relayout_mons _ _ _ _ Hr Hm2) as (m3 & Hm3 & Ht3).
  exists m3. split; [exact Hm3|].
  rewrite (tagset_mtag m2 m3 (nosymbol_mtag _ _ Ht3)).
  rewrite (tagset_mtag m1 m2 Ht2). exact Ht1.
Qed.

(** With the stack of the selected monitor owned by it, a second [view]
    of the same mask finds it active. *)
Lemma view_twice_owned s M :
  stack_owned s ->
  Z.land M TAGMASK <> 0 ->
  view M (view M s) = view M s.
Proof.
  intros Hown HM.
  destruct (mons s !! selmon s) as [m|] eqn:Hm.
  - destruct (view_active s M m Hown HM Hm) as (m' & Hm' & Ht).
    unfold view at 1. rewrite Hm', Ht, Z.eqb_refl. reflexivity.
  - assert (Hv : view M s = s) by (unfold view; by rewrite Hm).
    by rewrite !Hv.
Qed.

(** ** [zoom] *)

(** C10: [zoom] returns the state as it is when the layout of the
    selected monitor has no arrange function or the selected client
    floats. *)
Theorem zoom_floating_noop s m :
  mons s !! selmon s = Some m ->
  cur_arrange m = None
  \/ (exists c cl, Monitor.sel m = Some c /\ heap s !! c = Some cl
                   /\ Client.isfloating cl = true) ->
  zoom s = s.
Proof.
  intros Hm H. unfold zoom. rewrite Hm.
  destruct H as [Harr | (c & cl & Hsel & Hc & Hf)].
  - rewrite Harr. reflexivity.
  - rewrite Hsel. simpl. rewrite Hc, Hf. by rewrite orb_true_r.
Qed.

Lemma zoom_floating_noop_witness :
  zoom (ex_state [ex_client true 1 0 0 0 0 0 0 0 0])
  = ex_state [ex_client true 1 0 0 0 0 0 0 0 0].
Proof.
  apply (zoom_floating_noop _ (ex_monitor [0%nat])); [reflexivity|].
  right. exists 0%nat, (ex_client true 1 0 0 0 0 0 0 0 0). by repeat split.
Defined.

(** ** [main] *)

(** C9, as the code has it: both the version request and any other
    arguments end in [die], which reports to stderr and exits with a
    nonzero status; they differ in the message only. *)
Theorem main_arguments VERSION argv :
  (forall prog, argv = [prog; "-v"%string] ->
     exists e, main VERSION argv = Exited e
               /\ Exit.stderr e = ("dwm-" +:+ VERSION)%string /\ Exit.status e <> 0)
  /\ (length argv <> 1%nat -> (forall prog, argv <> [prog; "-v"%string]) ->
      exists e, main VERSION argv = Exited e
                /\ Exit.stderr e = "usage: dwm [-v]"%string /\ Exit.status e <> 0).
Proof.
  split.
  - intros prog ->. eexists. split; [reflexivity|]. by split.
  - intros Hlen Hnv. unfold main.
    destruct (bool_decide (length argv = 2%nat) && bool_decide (argv !! 1%nat = Some "-v"%string))
      eqn:E.
    + apply andb_true_iff in E as [E1 E2].
      apply bool_decide_eq_true in E1, E2.
      destruct argv as [|prog [|a [|? ?]]]; try discriminate.
      simpl in E2. injection E2 as ->. by destruct (Hnv prog).
    + rewrite bool_decide_eq_false_2 by exact Hlen. simpl.
      eexists. split; [reflexivity|]. by split.
Qed.

Lemma main_arguments_witness :
  (exists e, main "6.2" ["dwm"; "-v"]%string = Exited e
             /\ Exit.stderr e = "dwm-6.2"%string /\ Exit.status e <> 0)
  /\ (exists e, main "6.2" ["dwm"; "-x"]%string = Exited e
                /\ Exit.stderr e = "usage: dwm [-v]"%string /\ Exit.status e <> 0).
Proof.
  split.
  - apply (proj1 (main_arguments "6.2" ["dwm"; "-v"]%string) "dwm"%string).
    reflexivity.
  - apply (proj2 (main_arguments "6.2" ["dwm"; "-x"]%string)).
    + discriminate.
    + intros prog. discriminate.
Defined.

(** C9 as stated fails: the version request does not exit with status
    0. *)
Lemma main_version_status_nonzero :
  ~ (exists e, main "6.2" ["dwm"; "-v"]%string = Exited e /\ Exit.status e = 0).
Proof. intros (e & He & Hs). vm_compute in He. injection He as <-. discriminate. Qed.

(** ** Reachable states *)

Lemma reachable_run evs : forall s, reachable s -> reachable (run evs s).
Proof.
  unfold run. induction evs as [|ev evs IH]; intros s Hs; simpl; [exact Hs|].
  apply IH. destruct (running s) eqn:Hr; [|exact Hs].
  by apply reachable_step.
Qed.

(** ** Fullscreen *)

(** C3 as stated fails for a client that is fullscreen already: the first
    call does nothing and the second brings back the saved geometry and
    border.  It also fails for the tiled client whose border a
    ConfigureRequest has changed: the arrange that ends the second call
    tiles it anew. *)
Lemma setfullscreen_roundtrip_fails :
  ((fun cl => (geom cl, Client.bw cl))
   <$> heap (setfullscreen 0 false
               (setfullscreen 0 true (run ex_fullscreen ex_setup))) !! 0%nat)
  <> ((fun cl => (geom cl, Client.bw cl))
      <$> heap (run ex_fullscreen ex_setup) !! 0%nat)
  /\ ((fun cl => (geom cl, Client.bw cl))
      <$> heap (setfullscreen 0 false
                  (setfullscreen 0 true (run ex_border ex_setup))) !! 0%nat)
     <> ((fun cl => (geom cl, Client.bw cl))
         <$> heap (run ex_border ex_setup) !! 0%nat).
Proof. split; vm_compute; discriminate. Qed.

(** C4 fails on the code: the client of window 41 is fullscreen, with no
    border, when its ConfigureRequest for a border of 5 arrives; the
    handler sets the border all the same. *)
Theorem configurerequest_breaks_fullscreen :
  reachable (run ex_fullscreen ex_setup)
  /\ fullscreen_inv (run ex_fullscreen ex_setup)
  /\ reachable
       (handler (ConfigureRequest (XConfigureRequestEvent.mk 41 0 0 0 0 5 CWBorderWidth))
          (run ex_fullscreen ex_setup))
  /\ ~ fullscreen_inv
         (handler (ConfigureRequest (XConfigureRequestEvent.mk 41 0 0 0 0 5 CWBorderWidth))
            (run ex_fullscreen ex_setup)).
Proof.
  assert (Hr : reachable (run ex_fullscreen ex_setup)).
  { apply reachable_run. constructor. }
  split; [exact Hr|]. split; [|split].
  - intros c cl Hc Hfs.
    assert (Hh : heap (run ex_fullscreen ex_setup)
                 = {[ 0%nat := Client.mk "xterm" (S754_zero false) (S754_zero false)
                                 0 0 1920 1080 0 20 1918 1058 0 0 0 0 0 0 0 0 0 1 1
                                 false true false false false true 0%nat 41 ]}).
    { vm_compute. reflexivity. }
    rewrite Hh in Hc. apply lookup_singleton_Some in Hc as [<- <-].
    repeat split. eexists. split; [vm_compute; reflexivity|]. reflexivity.
  - apply reachable_step; [exact Hr | reflexivity].
  - intros H.
    assert (Hl : exists cl,
               heap (handler (ConfigureRequest
                                (XConfigureRequestEvent.mk 41 0 0 0 0 5 CWBorderWidth))
                       (run ex_fullscreen ex_setup)) !! 0%nat = Some cl
               /\ Client.isfullscreen cl = true /\ Client.bw cl = 5).
    { eexists. split; [vm_compute; reflexivity|]. by split. }
    destruct Hl as (cl & Hc & Hfs & Hbw).
    destruct (H _ _ Hc Hfs) as (_ & Hbw0 & _). lia.
Qed.

(** ** The selected client *)

(** Visibility is a matter of tags and tagsets. *)
Lemma visible_frame s s' c : frame s s' -> visible s' c = visible s c.
Proof.
  intros [Hh Hm]. unfold visible. specialize (Hh c).
  destruct (heap s' !! c) as [cl'|], (heap s !! c) as [cl|]; try discriminate;
    [|reflexivity].
  simpl in Hh. injection Hh as Ht Hmon. unfold ISVISIBLE. rewrite Ht, Hmon.
  assert (Hl : mtag <$> mons s' !! Client.mon cl = mtag <$> mons s !! Client.mon cl).
  { by rewrite <- !list_lookup_fmap, Hm. }
  destruct (mons s' !! Client.mon cl) as [m'|], (mons s !! Client.mon cl) as [m|];
    try discriminate; [|reflexivity].
  simpl in Hl. assert (Hl' : mtag m' = mtag m) by congruence.
  by rewrite (tagset_mtag m m' Hl').
Qed.

Lemma first_visible_frame s s' l :
  frame s s' -> first_visible s' l = first_visible s l.
Proof.
  intros H. unfold first_visible. induction l as [|c l IH]; simpl; [reflexivity|].
  by rewrite (visible_frame s s' c H), IH.
Qed.

(** [detachstack] of the selected client of a monitor selects the first
    visible client left in its stack. *)
Lemma detachstack_reselects s c cl m :
  heap s !! c = Some cl ->
  mons s !! Client.mon cl = Some m ->
  Monitor.sel m = Some c ->
  exists m',
    mons (detachstack c s) !! Client.mon cl = Some m'
    /\ Monitor.stack m' = unlink c (Monitor.stack m)
    /\ Monitor.sel m' = first_visible (detachstack c s) (Monitor.stack m').
Proof.
  intros Hc Hm Hsel.
  assert (Hf : frame s (detachstack c s)) by apply frame_detachstack, frame_refl.
  set (s1 := updm (Client.mon cl)
               (fun m0 => Monitor.set_stack (unlink c (Monitor.stack m0)) m0) s).
  assert (He : detachstack c s
               = updm (Client.mon cl)
                   (Monitor.set_sel (first_visible s1 (unlink c (Monitor.stack m)))) s1).
  { unfold detachstack, mon_of. rewrite Hc. simpl. fold s1.
    unfold s1 at 1. unfold updm at 1. simpl.
    rewrite list_lookup_alter_eq, Hm. simpl.
    rewrite Hsel. by destruct (decide (Some c = Some c)). }
  exists (Monitor.set_sel (first_visible s1 (unlink c (Monitor.stack m)))
            (Monitor.set_stack (unlink c (Monitor.stack m)) m)).
  split; [|split].
  - rewrite He. unfold s1, updm; simpl.
    by rewrite !list_lookup_alter_eq, Hm.
  - reflexivity.
  - simpl. rewrite (first_visible_frame _ _ _ Hf).
    apply first_visible_frame.
    unfold s1. apply frame_updm; [reflexivity | apply frame_refl].
Qed.

(** C8 fails on the code: [manage] selects the new client on its monitor
    whatever its tags, and [focus(NULL)] only repairs the selected
    monitor.  Window 42 is transient for window 41, which sits hidden on
    the second monitor while the first one is selected; once managed it
    is the selected client of the second monitor and is not visible
    there. *)
Theorem manage_selects_hidden_client :
  reachable (run ex_transient_hidden ex_setup2)
  /\ sel_inv (run (take 3 ex_transient_hidden) ex_setup2)
  /\ ~ sel_inv (run ex_transient_hidden ex_setup2).
Proof.
  split; [apply reachable_run; constructor|]. split.
  - intros i m c Hm Hsel.
    assert (Hs : Monitor.sel <$> mons (run (take 3 ex_transient_hidden) ex_setup2)
                 = [None; None]) by (vm_compute; reflexivity).
    assert (Hl : (Monitor.sel <$> mons (run (take 3 ex_transient_hidden) ex_setup2))
                 !! i = Some (Some c)).
    { by rewrite list_lookup_fmap, Hm; simpl; rewrite Hsel. }
    rewrite Hs in Hl. destruct i as [|[|i]]; discriminate.
  - intros H.
    assert (Hl : exists m,
               mons (run ex_transient_hidden ex_setup2) !! 1%nat = Some m
               /\ Monitor.sel m = Some 1%nat).
    { eexists. split; [vm_compute; reflexivity|]. reflexivity. }
    destruct Hl as (m & Hm & Hsel).
    destruct (H _ _ _ Hm Hsel) as [_ Hv]. vm_compute in Hv. discriminate.
Qed.

(** ** Handlers that leave tags and tagsets alone *)

Create HintDb recfuns discriminated.
#[local] Hint Unfold configurerequest_floating updatesizehints_rec manage_place
  snapshot resizeclient_rec : recfuns.

(** A function on a structure keeps the fields looked at, whatever
    branches it takes. *)
Ltac record_fields :=
  intros; autounfold with recfuns;
  repeat (cbv zeta;
          match goal with
          | |- context [if ?b then _ else _] => destruct b
          end);
  first [reflexivity | split; reflexivity].

#[local] Hint Extern 2 (forall cl : Client.t, _ /\ _) => record_fields : frame.

Lemma frame_setfullscreen s s' c f : frame s s' -> frame s (setfullscreen c f s').
Proof. intros H. unfold setfullscreen. frame_cases. Qed.
#[local] Hint Resolve frame_setfullscreen : frame.

Lemma frame_togglefloating s s' : frame s s' -> frame s (togglefloating s').
Proof. intros H. unfold togglefloating. frame_cases. Qed.

Lemma frame_focusmon s s' i : frame s s' -> frame s (focusmon i s').
Proof. intros H. unfold focusmon. frame_cases. Qed.

Lemma frame_focusstack s s' i : frame s s' -> frame s (focusstack i s').
Proof. intros H. unfold focusstack. frame_cases. Qed.

Lemma frame_incnmaster s s' i : frame s s' -> frame s (incnmaster i s').
Proof. intros H. unfold incnmaster. frame_cases. Qed.

Lemma frame_setlayout s s' v : frame s s' -> frame s (setlayout v s').
Proof. intros H. unfold setlayout. frame_cases. Qed.

Lemma frame_setmfact s s' f : frame s s' -> frame s (setmfact f s').
Proof. intros H. unfold setmfact. frame_cases. Qed.

Lemma frame_togglebar s s' : frame s s' -> frame s (togglebar s').
Proof. intros H. unfold togglebar. frame_cases. Qed.

Lemma frame_quit s s' : frame s s' -> frame s (quit s').
Proof. intros H. unfold quit. frame_cases. Qed.

Lemma frame_pop s s' c : frame s s' -> frame s (pop c s').
Proof. intros H. unfold pop. frame_cases. Qed.
#[local] Hint Resolve frame_pop : frame.

Lemma frame_zoom s s' : frame s s' -> frame s (zoom s').
Proof. intros H. unfold zoom. frame_cases. Qed.

#[local] Hint Resolve frame_togglefloating frame_focusmon frame_focusstack
  frame_incnmaster frame_setlayout frame_setmfact frame_togglebar frame_quit
  frame_zoom : frame.

Lemma frame_updatetitle s s' c t : frame s s' -> frame s (updatetitle c t s').
Proof. intros H. unfold updatetitle. frame_cases. Qed.

Lemma frame_updatesizehints s s' c sz :
  frame s s' -> frame s (updatesizehints c sz s').
Proof. intros H. unfold updatesizehints. frame_cases. Qed.

Lemma frame_updatewmhints s s' c h : frame s s' -> frame s (updatewmhints c h s').
Proof. intros H. unfold updatewmhints. frame_cases. Qed.

Lemma frame_updatewindowtype s s' c f d :
  frame s s' -> frame s (updatewindowtype c f d s').
Proof. intros H. unfold updatewindowtype. frame_cases. Qed.

#[local] Hint Resolve frame_updatetitle frame_updatesizehints frame_updatewmhints
  frame_updatewindowtype : frame.

Lemma frame_configurerequest s s' ev :
  frame s s' -> frame s (configurerequest ev s').
Proof. intros H. unfold configurerequest. frame_cases. Qed.

Lemma frame_clientmessage s s' w msg :
  frame s s' -> frame s (clientmessage w msg s').
Proof. intros H. unfold clientmessage. frame_cases. Qed.

Lemma frame_propertynotify s s' w atom deleted p :
  frame s s' -> frame s (propertynotify w atom deleted p s').
Proof.
  intros H. unfold propertynotify.
  destruct w, atom, deleted; frame_cases.
Qed.

Lemma frame_enternotify s s' w normal inferior ptr :
  frame s s' -> frame s (enternotify w normal inferior ptr s').
Proof. intros H. unfold enternotify. frame_cases. Qed.

Lemma frame_motionnotify s s' w x y :
  frame s s' -> frame s (motionnotify w x y s').
Proof. intros H. unfold motionnotify. frame_cases. Qed.

#[local] Hint Resolve frame_configurerequest frame_clientmessage
  frame_propertynotify frame_enternotify frame_motionnotify : frame.

Lemma frame_refullscreen s s' : frame s s' -> frame s (refullscreen s').
Proof.
  intros H. unfold refullscreen.
  apply frame_foldl; [|exact H]. intros s1 s2 m H2.
  apply frame_foldl; [|exact H2]. intros s3 s4 c H4. frame_cases.
Qed.
#[local] Hint Resolve frame_refullscreen : frame.

(** ** Tags and tagsets are never empty *)

Lemma inv_frame s s' : frame s s' -> tags_inv s -> tags_inv s'.
Proof.
  intros [Hh Hm] [Hms Hcs]. split.
  - apply (Forall_fmap mtag
             (fun t => tagmask_ok (fst (fst t)) /\ tagmask_ok (snd (fst t)))).
    rewrite Hm. by apply Forall_fmap.
  - intros c cl' Hc'. specialize (Hh c). rewrite Hc' in Hh.
    destruct (heap s !! c) as [cl|] eqn:Hc; [|discriminate].
    simpl in Hh. injection Hh as -> _. exact (Hcs c cl Hc).
Qed.

Lemma inv_but_frame c s s' : frame s s' -> tags_inv_but c s -> tags_inv_but c s'.
Proof.
  intros [Hh Hm] [Hms Hcs]. split.
  - apply (Forall_fmap mtag
             (fun t => tagmask_ok (fst (fst t)) /\ tagmask_ok (snd (fst t)))).
    rewrite Hm. by apply Forall_fmap.
  - intros d cl' Hd' Hne. specialize (Hh d). rewrite Hd' in Hh.
    destruct (heap s !! d) as [cl|] eqn:Hd; [|discriminate].
    simpl in Hh. injection Hh as -> _. exact (Hcs d cl Hd Hne).
Qed.

Lemma inv_inv_but c s : tags_inv s -> tags_inv_but c s.
Proof. intros [Hms Hcs]. split; [exact Hms|]. intros d cl Hd _. exact (Hcs d cl Hd). Qed.

(** The state a handler computes from a state with the invariant, when
    it only changes what [frame] leaves free. *)
Ltac by_frame :=
  let H := fresh in
  intros H; eapply inv_frame; [|exact H]; eauto 14 with frame.

Lemma tagmask_ok_land ui : Z.land ui TAGMASK <> 0 -> tagmask_ok (Z.land ui TAGMASK).
Proof.
  intros H. split; [|exact H].
  by rewrite <- Z.land_assoc, Z.land_diag.
Qed.

Lemma land_lxor_distr a b t :
  Z.land (Z.lxor a b) t = Z.lxor (Z.land a t) (Z.land b t).
Proof.
  apply Z.bits_inj'. intros n Hn.
  rewrite Z.land_spec, !Z.lxor_spec, !Z.land_spec.
  by destruct (Z.testbit a n), (Z.testbit b n), (Z.testbit t n).
Qed.

Lemma tagmask_ok_lxor t ui :
  tagmask_ok t -> Z.lxor t (Z.land ui TAGMASK) <> 0 ->
  tagmask_ok (Z.lxor t (Z.land ui TAGMASK)).
Proof.
  intros [Ht _] H. split; [|exact H].
  rewrite land_lxor_distr, Ht.
  by rewrite <- Z.land_assoc, Z.land_diag.
Qed.

Lemma inv_updm_tagset s i j v :
  tagmask_ok v -> tags_inv s -> tags_inv (updm i (set_tagset j v) s).
Proof.
  intros Hv [Hms Hcs]. split; [|exact Hcs].
  unfold updm; simpl. apply Forall_alter; [exact Hms|].
  intros m _ [H0 H1]. unfold set_tagset. destruct (j =? 0); by split.
Qed.

Lemma inv_updc_tags s c v :
  tagmask_ok v -> tags_inv s -> tags_inv (updc c (Client.set_tags v) s).
Proof.
  intros Hv [Hms Hcs]. split; [exact Hms|].
  unfold updc; simpl. intros d cl Hd.
  apply lookup_alter_Some in Hd as [(-> & cl0 & Hc0 & ->) | [_ Hd]].
  - exact Hv.
  - exact (Hcs d cl Hd).
Qed.

Lemma inv_tagset s i m j :
  tags_inv s -> mons s !! i = Some m -> tagmask_ok (tagset m j).
Proof.
  intros [Hms _] Hm.
  destruct (proj1 (Forall_lookup _ _) Hms i m Hm) as [H0 H1].
  unfold tagset. by destruct (j =? 0).
Qed.

Lemma inv_tags s c cl :
  tags_inv s -> heap s !! c = Some cl -> tagmask_ok (Client.tags cl).
Proof. intros [_ Hcs] Hc. exact (Hcs c cl Hc). Qed.

Lemma inv_view ui s : tags_inv s -> tags_inv (view ui s).
Proof.
  intros H. unfold view.
  destruct (mons s !! selmon s) as [m|] eqn:Hm; [|exact H].
  destruct (Z.land ui TAGMASK =? tagset m (Monitor.seltags m)); [exact H|].
  cbv zeta.
  eapply inv_frame; [apply frame_arrange, frame_focus, frame_refl|].
  destruct H as [Hms Hcs]. split; [|exact Hcs].
  unfold updm; simpl. apply Forall_alter; [exact Hms|].
  intros m0 _ [H0 H1].
  destruct (Z.land ui TAGMASK =? 0) eqn:E; [by split|].
  apply Z.eqb_neq, tagmask_ok_land in E.
  unfold set_tagset. by destruct (_ =? 0); split.
Qed.

Lemma inv_toggleview ui s : tags_inv s -> tags_inv (toggleview ui s).
Proof.
  intros H. unfold toggleview.
  destruct (mons s !! selmon s) as [m|] eqn:Hm; [|exact H].
  cbv zeta.
  destruct (Z.lxor (tagset m (Monitor.seltags m)) (Z.land ui TAGMASK) =? 0) eqn:E;
    [exact H|].
  eapply inv_frame; [apply frame_arrange, frame_focus, frame_refl|].
  apply inv_updm_tagset; [|exact H].
  apply tagmask_ok_lxor; [by eapply inv_tagset | by apply Z.eqb_neq].
Qed.

Lemma inv_tag ui s : tags_inv s -> tags_inv (tag ui s).
Proof.
  intros H. unfold tag.
  destruct (mons s !! selmon s) as [m|] eqn:Hm; [|exact H].
  destruct (Monitor.sel m) as [c|]; [|exact H].
  destruct (Z.land ui TAGMASK =? 0) eqn:E; [exact H|].
  cbv zeta.
  eapply inv_frame; [apply frame_arrange, frame_focus, frame_refl|].
  apply inv_updc_tags; [|exact H].
  by apply tagmask_ok_land, Z.eqb_neq.
Qed.

Lemma inv_toggletag ui s : tags_inv s -> tags_inv (toggletag ui s).
Proof.
  intros H. unfold toggletag.
  destruct (mons s !! selmon s) as [m|] eqn:Hm; [|exact H].
  destruct (Monitor.sel m) as [c|]; [|exact H].
  destruct (heap s !! c) as [cl|] eqn:Hc; [|exact H].
  cbv zeta.
  destruct (Z.lxor (Client.tags cl) (Z.land ui TAGMASK) =? 0) eqn:E; [exact H|].
  eapply inv_frame; [apply frame_arrange, frame_focus, frame_refl|].
  apply inv_updc_tags; [|exact H].
  apply tagmask_ok_lxor; [by eapply inv_tags | by apply Z.eqb_neq].
Qed.

Lemma inv_sendmon c mi s : tags_inv s -> tags_inv (sendmon c mi s).
Proof.
  intros H. unfold sendmon.
  destruct (heap s !! c) as [cl|] eqn:Hc; [|exact H].
  destruct (mons s !! mi) as [m|] eqn:Hm; [|exact H].
  destruct (decide (Client.mon cl = mi)); [exact H|].
  cbv zeta.
  eapply inv_frame;
    [apply frame_arrange, frame_focus, frame_attachstack, frame_attach, frame_refl|].
  assert (Hd : tags_inv (detachstack c (detach c s))) by (revert H; by_frame).
  destruct Hd as [Hms Hcs]. split; [exact Hms|].
  unfold updc; simpl. intros d cl' Hd.
  apply lookup_alter_Some in Hd as [(-> & cl0 & Hc0 & ->) | [_ Hd]].
  - simpl. by eapply inv_tagset.
  - exact (Hcs d cl' Hd).
Qed.

Lemma inv_tagmon i s : tags_inv s -> tags_inv (tagmon i s).
Proof.
  intros H. unfold tagmon.
  destruct (mons s !! selmon s ≫= Monitor.sel) as [c|]; [|exact H].
  destruct (decide _); [exact H|]. by apply inv_sendmon.
Qed.

(** *** Managing a window *)

Lemma inv_but_updc c f s : tags_inv_but c s -> tags_inv_but c (updc c f s).
Proof.
  intros [Hms Hcs]. split; [exact Hms|].
  unfold updc; simpl. intros d cl Hd Hne.
  rewrite lookup_alter_ne in Hd by congruence. exact (Hcs d cl Hd Hne).
Qed.

Lemma inv_but_applyrule c class instance r s :
  tags_inv_but c s -> tags_inv_but c (applyrule c class instance s r).
Proof.
  intros H. unfold applyrule.
  destruct (heap s !! c) as [cl|]; [|exact H].
  destruct (_ && _); [|exact H]. cbv zeta.
  destruct (list_find _ _) as [[mi ?]|]; repeat apply inv_but_updc; exact H.
Qed.

(** After [applyrules] the new client has tags of its own, or those of
    its monitor. *)
Lemma inv_applyrules c res_class res_name s :
  tags_inv_but c s ->
  is_Some (heap (applyrules c res_class res_name s) !! c
           ≫= fun cl => mons (applyrules c res_class res_name s) !! Client.mon cl) ->
  tags_inv (applyrules c res_class res_name s).
Proof.
  intros H. unfold applyrules. cbv zeta.
  set (s1 := foldl _ _ _).
  assert (H1 : tags_inv_but c s1).
  { unfold s1. generalize config.rules. intros rules.
    assert (H0 : tags_inv_but c
                   (updc c (fun cl => Client.set_tags 0 (Client.set_isfloating false cl)) s))
      by (by apply inv_but_updc).
    revert H0. generalize (updc c (fun cl => Client.set_tags 0
                                               (Client.set_isfloating false cl)) s).
    induction rules as [|r rules IH]; intros s0 H0; simpl; [exact H0|].
    apply IH. by apply inv_but_applyrule. }
  clearbody s1.
  destruct (heap s1 !! c ≫= fun cl => mons s1 !! Client.mon cl) as [m|] eqn:Hm.
  - intros _. destruct H1 as [Hms Hcs]. split; [exact Hms|].
    unfold updc; simpl. intros d cl Hd.
    apply lookup_alter_Some in Hd as [(-> & cl0 & Hc0 & ->) | [Hne Hd]].
    + simpl. rewrite Hc0 in Hm. simpl in Hm.
      destruct (Z.land (Client.tags cl0) TAGMASK =? 0) eqn:E.
      * destruct (proj1 (Forall_lookup _ _) Hms _ m Hm) as [H0 H1'].
        unfold tagset. destruct (Monitor.seltags m =? 0); assumption.
      * by apply tagmask_ok_land, Z.eqb_neq.
    + apply (Hcs d cl Hd). congruence.
  - rewrite Hm. intros [? Hx]. discriminate.
Qed.

Lemma inv_manage w wa p s : tags_inv s -> tags_inv (manage w wa p s).
Proof.
  intros H. unfold manage. cbv zeta.
  set (c := nextaddr s).
  set (t := WinProps.transient_for p ≫= _).
  set (cl := Client.mk _ _ _ _ _ _ _ _ _ _ _ _ _ _ _ _ _ _ _ _ _ _ _ _ _ _ _ _ _ _).
  set (s1 := set_nextaddr (S c) (set_heap (<[c:=cl]> (heap s)) s)).
  assert (Hbut : tags_inv_but c s1).
  { destruct H as [Hms Hcs]. split; [exact Hms|].
    unfold s1; simpl. intros d cl' Hd Hne.
    rewrite lookup_insert_ne in Hd by congruence. exact (Hcs d cl' Hd). }
  set (s2 := updatetitle c (WinProps.title p) s1).
  assert (Hbut2 : tags_inv_but c s2).
  { eapply inv_but_frame; [|exact Hbut]. apply frame_updatetitle, frame_refl. }
  set (s3 := match t with Some _ => s2 | None => _ end).
  destruct (heap s3 !! c ≫= fun cl0 => mons s3 !! Client.mon cl0) as [m|] eqn:Hm;
    [|exact H].
  assert (H3 : tags_inv s3).
  { unfold s3 in *. destruct t as [tcl|] eqn:Ht.
    - (* transient: the tags of the owner *)
      destruct Hbut2 as [Hms Hcs]. split; [exact Hms|].
      intros d cl' Hd. destruct (decide (d = c)) as [->|Hne]; [|by apply (Hcs d cl' Hd)].
      unfold s2, updatetitle, updc in Hd; simpl in Hd.
      rewrite lookup_alter_eq, lookup_insert_eq in Hd. simpl in Hd.
      injection Hd as <-. simpl.
      unfold t in Ht.
      destruct (WinProps.transient_for p) as [trans|]; [|discriminate].
      simpl in Ht. destruct (wintoclient trans s) as [ta|]; [|discriminate].
      simpl in Ht. by eapply inv_tags.
    - apply inv_applyrules; [exact Hbut2|]. rewrite Hm. by eexists. }
  clearbody s3.
  destruct (mon_of _ c) as [mi|]; [|exact H].
  revert H3. by_frame.
Qed.

Lemma inv_unmanage c s : tags_inv s -> tags_inv (unmanage c s).
Proof.
  intros H. unfold unmanage.
  destruct (mon_of s c) as [m|]; [|exact H]. cbv zeta.
  eapply inv_frame; [apply frame_arrange, frame_focus, frame_refl|].
  assert (Hd : tags_inv (detachstack c (detach c s))) by (revert H; by_frame).
  destruct Hd as [Hms Hcs]. split; [exact Hms|].
  simpl. by apply map_Forall_delete.
Qed.

Lemma inv_maprequest w wa p s : tags_inv s -> tags_inv (maprequest w wa p s).
Proof.
  intros H. unfold maprequest.
  destruct wa as [wa|]; [|exact H].
  destruct (XWindowAttributes.override_redirect wa); [exact H|].
  destruct (wintoclient w s); [exact H|]. by apply inv_manage.
Qed.

(** *** The other handlers *)

Lemma inv_updc_keep c f s :
  (forall cl, Client.tags (f cl) = Client.tags cl) ->
  tags_inv s -> tags_inv (updc c f s).
Proof.
  intros Hf [Hms Hcs]. split; [exact Hms|].
  unfold updc; simpl. intros d cl Hd.
  apply lookup_alter_Some in Hd as [(-> & cl0 & Hc0 & ->) | [_ Hd]].
  - rewrite Hf. exact (Hcs d cl0 Hc0).
  - exact (Hcs d cl Hd).
Qed.

Lemma inv_updm_keep i f s :
  (forall m, mtag (f m) = mtag m) -> tags_inv s -> tags_inv (updm i f s).
Proof. intros Hf. by_frame. Qed.

Lemma inv_set_selmon v s : tags_inv s -> tags_inv (set_selmon v s).
Proof. intros H. exact H. Qed.

Lemma inv_set_motionmon v s : tags_inv s -> tags_inv (set_motionmon v s).
Proof. intros H. exact H. Qed.

Lemma inv_set_screen a b s : tags_inv s -> tags_inv (set_screen a b s).
Proof. intros H. exact H. Qed.

Lemma inv_focus c s : tags_inv s -> tags_inv (focus c s).
Proof. by_frame. Qed.

Lemma inv_arrange m s : tags_inv s -> tags_inv (arrange m s).
Proof. by_frame. Qed.

Lemma inv_resize c x y w h i s : tags_inv s -> tags_inv (resize c x y w h i s).
Proof. by_frame. Qed.

Lemma inv_attach c s : tags_inv s -> tags_inv (attach c s).
Proof. by_frame. Qed.

Lemma inv_attachstack c s : tags_inv s -> tags_inv (attachstack c s).
Proof. by_frame. Qed.

Lemma inv_detachstack c s : tags_inv s -> tags_inv (detachstack c s).
Proof. by_frame. Qed.

Lemma inv_setfullscreen c f s : tags_inv s -> tags_inv (setfullscreen c f s).
Proof. by_frame. Qed.

Lemma inv_togglefloating s : tags_inv s -> tags_inv (togglefloating s).
Proof. by_frame. Qed.

Lemma inv_focusmon i s : tags_inv s -> tags_inv (focusmon i s).
Proof. by_frame. Qed.

Lemma inv_focusstack i s : tags_inv s -> tags_inv (focusstack i s).
Proof. by_frame. Qed.

Lemma inv_incnmaster i s : tags_inv s -> tags_inv (incnmaster i s).
Proof. by_frame. Qed.

Lemma inv_setlayout v s : tags_inv s -> tags_inv (setlayout v s).
Proof. by_frame. Qed.

Lemma inv_setmfact f s : tags_inv s -> tags_inv (setmfact f s).
Proof. by_frame. Qed.

Lemma inv_togglebar s : tags_inv s -> tags_inv (togglebar s).
Proof. by_frame. Qed.

Lemma inv_quit s : tags_inv s -> tags_inv (quit s).
Proof. by_frame. Qed.

Lemma inv_zoom s : tags_inv s -> tags_inv (zoom s).
Proof. by_frame. Qed.

Lemma inv_configurerequest ev s : tags_inv s -> tags_inv (configurerequest ev s).
Proof. by_frame. Qed.

Lemma inv_clientmessage w msg s : tags_inv s -> tags_inv (clientmessage w msg s).
Proof. by_frame. Qed.

Lemma inv_propertynotify w a d p s :
  tags_inv s -> tags_inv (propertynotify w a d p s).
Proof. by_frame. Qed.

Lemma inv_enternotify w n i ptr s : tags_inv s -> tags_inv (enternotify w n i ptr s).
Proof. by_frame. Qed.

Lemma inv_motionnotify w x y s : tags_inv s -> tags_inv (motionnotify w x y s).
Proof. by_frame. Qed.

Lemma inv_refullscreen s : tags_inv s -> tags_inv (refullscreen s).
Proof. by_frame. Qed.

Create HintDb inv discriminated.
#[local] Hint Resolve inv_view inv_toggleview inv_tag inv_toggletag inv_sendmon
  inv_tagmon inv_manage inv_unmanage inv_maprequest inv_set_selmon
  inv_set_motionmon inv_set_screen inv_focus inv_arrange inv_resize inv_attach
  inv_attachstack inv_detachstack inv_setfullscreen inv_togglefloating
  inv_focusmon inv_focusstack inv_incnmaster inv_setlayout inv_setmfact
  inv_togglebar inv_quit inv_zoom inv_configurerequest inv_clientmessage
  inv_propertynotify inv_enternotify inv_motionnotify inv_refullscreen : inv.

Ltac inv_cases :=
  repeat first
    [ progress cbv zeta
    | match goal with
      | |- tags_inv (match ?x with _ => _ end) => destruct x eqn:?
      | |- tags_inv (let '(_, _) := ?x in _) => destruct x eqn:?
      | |- tags_inv ?t =>
          match t with
          | context [if ?b then _ else _] => destruct b eqn:?
          | context [match ?x with Some _ => _ | None => _ end] => destruct x eqn:?
          end
      end ];
  eauto 12 with inv.

Lemma inv_foldl {A} (f : State -> A -> State) (l : list A) :
  (forall s a, tags_inv s -> tags_inv (f s a)) ->
  forall s, tags_inv s -> tags_inv (foldl f s l).
Proof.
  intros Hf. induction l as [|a l IH]; intros s H; simpl; [exact H|].
  apply IH, Hf, H.
Qed.

(** The drags. *)
Lemma inv_drag_release c s : tags_inv s -> tags_inv (drag_release c s).
Proof. intros H. unfold drag_release. inv_cases. Qed.
#[local] Hint Resolve inv_drag_release : inv.

Lemma inv_movemouse_step c ocx ocy x y st ev :
  tags_inv (snd st) -> tags_inv (snd (movemouse_step c ocx ocy x y st ev)).
Proof.
  destruct st as [lasttime s]. simpl. intros H. unfold movemouse_step.
  destruct ev; simpl; try exact H; [by apply inv_configurerequest
                                   | by apply inv_maprequest |].
  repeat match goal with
         | |- context [if ?b then _ else _] => destruct b eqn:?; simpl
         | |- context [match ?x with Some _ => _ | None => _ end] =>
             destruct x eqn:?; simpl
         end; eauto 6 with inv.
Qed.

Lemma inv_resizemouse_step c ocx ocy st ev :
  tags_inv (snd st) -> tags_inv (snd (resizemouse_step c ocx ocy st ev)).
Proof.
  destruct st as [lasttime s]. simpl. intros H. unfold resizemouse_step.
  destruct ev; simpl; try exact H; [by apply inv_configurerequest
                                   | by apply inv_maprequest |].
  repeat match goal with
         | |- context [if ?b then _ else _] => destruct b eqn:?; simpl
         | |- context [match ?x with Some _ => _ | None => _ end] =>
             destruct x eqn:?; simpl
         end; eauto 6 with inv.
Qed.

Lemma inv_foldl_snd {A} (f : Z * State -> A -> Z * State) (l : list A) :
  (forall st a, tags_inv (snd st) -> tags_inv (snd (f st a))) ->
  forall st, tags_inv (snd st) -> tags_inv (snd (foldl f st l)).
Proof.
  intros Hf. induction l as [|a l IH]; intros st H; simpl; [exact H|].
  apply IH, Hf, H.
Qed.

Lemma inv_movemouse d s : tags_inv s -> tags_inv (movemouse d s).
Proof.
  intros H. unfold movemouse.
  destruct (mons s !! selmon s ≫= Monitor.sel) as [c|]; [|exact H].
  destruct (heap s !! c) as [cl|]; [|exact H].
  destruct (Client.isfullscreen cl); [exact H|].
  destruct (negb (Drag.grab_ok d)); [exact H|].
  destruct (Drag.rootptr d) as [[x y]|]; [|exact H].
  pose proof (inv_foldl_snd (movemouse_step c (Client.x cl) (Client.y cl) x y)
                (Drag.events d)
                (fun st a => inv_movemouse_step c _ _ x y st a) (0, s) H) as Hf.
  destruct (foldl _ _ _) as [t s']. simpl in Hf. by apply inv_drag_release.
Qed.

Lemma inv_resizemouse d s : tags_inv s -> tags_inv (resizemouse d s).
Proof.
  intros H. unfold resizemouse.
  destruct (mons s !! selmon s ≫= Monitor.sel) as [c|]; [|exact H].
  destruct (heap s !! c) as [cl|]; [|exact H].
  destruct (Client.isfullscreen cl); [exact H|].
  destruct (negb (Drag.grab_ok d)); [exact H|].
  pose proof (inv_foldl_snd (resizemouse_step c (Client.x cl) (Client.y cl))
                (Drag.events d)
                (fun st a => inv_resizemouse_step c _ _ st a) (0, s) H) as Hf.
  destruct (foldl _ _ _) as [t s']. simpl in Hf. by apply inv_drag_release.
Qed.
#[local] Hint Resolve inv_movemouse inv_resizemouse : inv.

Lemma inv_call f a d s : tags_inv s -> tags_inv (call f a d s).
Proof. intros H. destruct f; simpl; eauto with inv. Qed.
#[local] Hint Resolve inv_call : inv.

Lemma inv_keypress keysym state nlm d s :
  tags_inv s -> tags_inv (keypress keysym state nlm d s).
Proof.
  intros H. unfold keypress. apply inv_foldl; [|exact H].
  intros s0 [[[mod_ sym] f] a] H0. destruct (_ && _); [by apply inv_call|exact H0].
Qed.

Lemma inv_buttonpress w ptr region button state nlm d s :
  tags_inv s -> tags_inv (buttonpress w ptr region button state nlm d s).
Proof.
  intros H. unfold buttonpress. cbv zeta.
  set (s1 := if bool_decide _ then s else _).
  assert (H1 : tags_inv s1) by (unfold s1; inv_cases).
  clearbody s1.
  destruct (if bool_decide (w = BarWin (selmon s1)) then _ else _)
    as [[click arg] s2] eqn:E.
  assert (H2 : tags_inv s2).
  { destruct (bool_decide (w = BarWin (selmon s1))).
    - destruct region; [destruct (bool_decide _)|..]; by injection E as _ _ <-.
    - destruct (match w with Win w0 => wintoclient w0 s1 | _ => None end);
        injection E as _ _ <-; eauto with inv. }
  apply inv_foldl; [|exact H2].
  intros s0 [[[[bclick mask] bbutton] f] a] H0.
  destruct (_ && _); [by apply inv_call|exact H0].
Qed.

(** *** Monitors coming and going *)

Lemma mon_ok_createmon : mon_ok createmon.
Proof. repeat split; by vm_compute. Qed.

Lemma mon_ok_mtag m m' : mtag m' = mtag m -> mon_ok m -> mon_ok m'.
Proof. unfold mtag, mon_ok. intros H. by injection H as -> -> _. Qed.

Lemma mtag_setgeom bh i u m : mtag (setgeom bh i u m) = mtag m.
Proof. unfold setgeom. cbv zeta. rewrite mtag_updatebarpos. by destruct m. Qed.

Lemma updategeom_set_ok bh n unique :
  forall ms i, Forall mon_ok ms ->
    Forall mon_ok (fst (updategeom_set bh n i unique ms)).
Proof.
  induction unique as [|u unique IH]; intros ms i Hms; [by destruct ms|].
  destruct ms as [|m ms]; [exact Hms|]. simpl.
  apply Forall_cons in Hms as [Hm Hms]. specialize (IH ms (S i) Hms).
  destruct (updategeom_set bh n (S i) unique ms) as [rest dirty]. simpl in IH.
  destruct (_ || _); simpl; apply Forall_cons; split; try assumption.
  eapply mon_ok_mtag; [apply mtag_setgeom|exact Hm].
Qed.

Lemma inv_set_mons ms s :
  Forall mon_ok ms -> tags_inv s -> tags_inv (set_mons ms s).
Proof. intros Hms [_ Hcs]. split; [exact Hms|exact Hcs]. Qed.

Lemma inv_migrate last cs :
  forall s, tags_inv s -> tags_inv (migrate last cs s).
Proof.
  induction cs as [|c rest IH]; intros s H; simpl; [exact H|].
  apply IH, inv_attachstack, inv_attach, inv_updc_keep; [by intros []|].
  apply inv_detachstack, inv_updm_keep; [by intros []|exact H].
Qed.

Lemma inv_updategeom_shrink k :
  forall s, tags_inv s -> tags_inv (fst (updategeom_shrink k s)).
Proof.
  induction k as [|k IH]; intros s H; simpl; [exact H|].
  destruct (mons s !! pred (length (mons s))) as [m|]; [|exact H].
  destruct (_ && _); [exact H|].
  match goal with
  | |- context [updategeom_shrink k ?s1] =>
      assert (H1 : tags_inv s1); [|specialize (IH s1 H1);
                                   destruct (updategeom_shrink k s1); exact IH]
  end.
  apply inv_set_mons.
  - apply Forall_take.
    assert (H1 : tags_inv (migrate (pred (length (mons s))) (Monitor.clients m) s))
      by apply inv_migrate, H.
    by destruct (bool_decide _); apply H1.
  - destruct (bool_decide _); [apply inv_set_selmon|]; apply inv_migrate, H.
Qed.

Lemma inv_updategeom xinerama ptr s :
  tags_inv s -> tags_inv (fst (updategeom xinerama ptr s)).
Proof.
  intros H. unfold updategeom.
  match goal with
  | |- context [let '(_, _) := ?e in _] =>
      assert (H1 : tags_inv (fst e)); [|destruct e as [? []]; exact H1]
  end.
  destruct xinerama as [info|].
  - cbv zeta. destruct (bool_decide _); [|by apply inv_updategeom_shrink].
    match goal with
    | |- context [updategeom_set ?a ?b ?c ?d ?e] =>
        pose proof (updategeom_set_ok a b d e c) as Hs;
        destruct (updategeom_set a b c d e) as [ms dirty]
    end.
    simpl in *. apply inv_set_mons; [|exact H]. apply Hs, Forall_app. split.
    + apply H.
    + apply Forall_replicate, mon_ok_createmon.
  - cbv zeta.
    set (s0 := if bool_decide (mons s = []) then _ else s).
    assert (H0 : tags_inv s0).
    { unfold s0. destruct (bool_decide _); [|exact H].
      apply inv_set_mons; [|exact H]. apply Forall_singleton, mon_ok_createmon. }
    clearbody s0. destruct (mons s0 !! 0%nat) as [m|]; [|exact H0].
    destruct (_ || _); [|exact H0]. simpl.
    apply inv_updm_keep; [|exact H0].
    intros m0. rewrite mtag_updatebarpos. by destruct m0.
Qed.

Lemma inv_configurenotify w width height xinerama ptr s :
  tags_inv s -> tags_inv (configurenotify w width height xinerama ptr s).
Proof.
  intros H. unfold configurenotify. destruct (bool_decide _); [|exact H].
  cbv zeta.
  pose proof (inv_updategeom xinerama ptr (set_screen width height s) H) as H1.
  destruct (updategeom _ _ _) as [s1 changed]. simpl in H1.
  destruct (_ || _); [|exact H1].
  by apply inv_arrange, inv_focus, inv_refullscreen.
Qed.

Lemma inv_handler ev s : tags_inv s -> tags_inv (handler ev s).
Proof.
  intros H. destruct ev; simpl; try exact H.
  - by apply inv_buttonpress.
  - by apply inv_clientmessage.
  - by apply inv_configurerequest.
  - by apply inv_configurenotify.
  - destruct (wintoclient _ _); [by apply inv_unmanage|exact H].
  - by apply inv_enternotify.
  - by apply inv_keypress.
  - by apply inv_maprequest.
  - by apply inv_motionnotify.
  - by apply inv_propertynotify.
  - destruct (wintoclient _ _); [|exact H].
    destruct send_event; [exact H|by apply inv_unmanage].
Qed.

Lemma inv_setup sw sh fh xinerama ptr : tags_inv (setup sw sh fh xinerama ptr).
Proof.
  unfold setup. cbv zeta. apply inv_focus, inv_updategeom.
  split; [apply Forall_nil_2|apply map_Forall_empty].
Qed.

Lemma inv_reachable s : reachable s -> tags_inv s.
Proof.
  induction 1 as [|s ev _ IH _]; [apply inv_setup|by apply inv_handler].
Qed.

(** *** What a refused change leaves *)

Lemma frame_tagsets s s' : frame s s' -> tagsets s' = tagsets s.
Proof.
  intros [_ Hm]. unfold tagsets.
  change (fun m => (Monitor.tagset0 m, Monitor.tagset1 m)) with (fst ∘ mtag).
  by rewrite !list_fmap_compose, Hm.
Qed.

Lemma frame_client_tags s s' : frame s s' -> client_tags s' = client_tags s.
Proof.
  intros [Hh _]. apply map_eq. intros c. unfold client_tags.
  rewrite !lookup_fmap. specialize (Hh c).
  destruct (heap s' !! c), (heap s !! c); simpl in *; congruence.
Qed.

Lemma tagsets_updm_seltags i v s :
  tagsets (updm i (fun m => Monitor.set_seltags (v m) m) s) = tagsets s.
Proof.
  unfold tagsets, updm. simpl.
  rewrite (list_fmap_alter _ _ id).
  - apply list_alter_id. reflexivity.
  - apply Forall_forall. by intros [] _.
Qed.

Lemma view_empty ui s :
  Z.land ui TAGMASK = 0 ->
  tagsets (view ui s) = tagsets s /\ client_tags (view ui s) = client_tags s.
Proof.
  intros Hui. unfold view. rewrite Hui.
  destruct (mons s !! selmon s) as [m|]; [|done].
  destruct (0 =? _); [done|]. cbv zeta.
  change (0 =? 0) with true. cbv iota.
  split.
  - rewrite (frame_tagsets (updm (selmon s)
               (fun m => Monitor.set_seltags (Z.lxor (Monitor.seltags m) 1) m) s)).
    + apply tagsets_updm_seltags.
    + eauto 6 with frame.
  - rewrite (frame_client_tags (updm (selmon s)
               (fun m => Monitor.set_seltags (Z.lxor (Monitor.seltags m) 1) m) s)).
    + reflexivity.
    + eauto 6 with frame.
Qed.

Lemma tagset_ok m i : mon_ok m -> tagset m i <> 0.
Proof. intros [[_ H0] [_ H1]]. unfold tagset. by destruct (i =? 0). Qed.

(** C1: in every state the window manager can reach, the active tagset of
    every monitor is not empty and no client has an empty tag mask within
    [TAGMASK].  The user actions refuse what would empty them: [view] with
    a mask that has no tag of the configuration leaves the tagsets of all
    monitors and the tags of all clients as they are; [toggleview] leaves
    the state as it is when the toggled tagset would be empty; so does
    [tag] with such a mask; so does [toggletag] when the toggled tags of
    the selected client would be empty. *)
Theorem tags_never_empty s :
  reachable s ->
  (forall m, m ∈ mons s -> tagset m (Monitor.seltags m) <> 0)
  /\ (forall c cl, heap s !! c = Some cl -> Z.land (Client.tags cl) TAGMASK <> 0)
  /\ (forall ui, Z.land ui TAGMASK = 0 ->
        tagsets (view ui s) = tagsets s
        /\ client_tags (view ui s) = client_tags s)
  /\ (forall ui m, mons s !! selmon s = Some m ->
        Z.lxor (tagset m (Monitor.seltags m)) (Z.land ui TAGMASK) = 0 ->
        toggleview ui s = s)
  /\ (forall ui, Z.land ui TAGMASK = 0 -> tag ui s = s)
  /\ (forall ui m c cl,
        mons s !! selmon s = Some m -> Monitor.sel m = Some c ->
        heap s !! c = Some cl ->
        Z.lxor (Client.tags cl) (Z.land ui TAGMASK) = 0 ->
        toggletag ui s = s).
Proof.
  intros Hr. destruct (inv_reachable s Hr) as [Hms Hcs].
  split; [|split; [|split; [|split; [|split]]]].
  - intros m Hm. apply tagset_ok. by apply (proj1 (Forall_forall _ _) Hms).
  - intros c cl Hc. destruct (Hcs c cl Hc) as [-> Hne]. exact Hne.
  - intros ui. apply view_empty.
  - intros ui m Hm H0. unfold toggleview. rewrite Hm. cbv zeta. by rewrite H0.
  - intros ui H0. unfold tag. rewrite H0.
    destruct (mons s !! selmon s) as [m|]; [|done]. by destruct (Monitor.sel m).
  - intros ui m c cl Hm Hsel Hc H0. unfold toggletag.
    rewrite Hm, Hsel, Hc. cbv zeta. by rewrite H0.
Qed.

Lemma tags_never_empty_witness :
  reachable ex_one_client
  /\ (forall m, m ∈ mons ex_one_client -> tagset m (Monitor.seltags m) <> 0)
  /\ (forall c cl, heap ex_one_client !! c = Some cl ->
        Z.land (Client.tags cl) TAGMASK <> 0).
Proof.
  assert (Hr : reachable ex_one_client).
  { apply reachable_step; [apply reachable_setup|reflexivity]. }
  split; [exact Hr|].
  split; [exact (proj1 (tags_never_empty ex_one_client Hr))
         |exact (proj1 (proj2 (tags_never_empty ex_one_client Hr)))].
Defined.


(** ** Unlinking *)

Lemma unlink_subseteq c l a : a ∈ unlink c l -> a ∈ l.
Proof.
  induction l as [|d l IH]; simpl; [done|].
  destruct (decide (d = c)); rewrite ?elem_of_cons; intuition.
Qed.

Lemma unlink_NoDup c l : NoDup l -> NoDup (unlink c l).
Proof.
  induction 1 as [|d l Hd Hl IH]; simpl; [constructor|].
  destruct (decide (d = c)); [exact Hl|].
  constructor; [|exact IH]. intros H. by apply Hd, (unlink_subseteq c).
Qed.

Lemma unlink_not_elem c l : NoDup l -> c ∉ unlink c l.
Proof.
  induction 1 as [|d l Hd Hl IH]; simpl; [apply not_elem_of_nil|].
  destruct (decide (d = c)) as [->|Hne]; [exact Hd|].
  rewrite elem_of_cons. intros [->|H]; [done|by apply IH].
Qed.

Lemma mon_of_updc_keep c f s a :
  (forall cl, Client.mon (f cl) = Client.mon cl) ->
  mon_of (updc c f s) a = mon_of s a.
Proof.
  intros Hf. unfold mon_of, updc; simpl.
  destruct (decide (c = a)) as [<-|Hne].
  - rewrite lookup_alter_eq. destruct (heap s !! c) as [cl|]; [|reflexivity].
    simpl. by rewrite Hf.
  - by rewrite lookup_alter_ne.
Qed.

Lemma heap_updc_None c f s a : heap (updc c f s) !! a = None <-> heap s !! a = None.
Proof.
  unfold updc; simpl. destruct (decide (c = a)) as [<-|Hne].
  - rewrite lookup_alter_eq. by destruct (heap s !! c).
  - by rewrite lookup_alter_ne.
Qed.


(** ** The states the window manager reaches are well formed *)

Lemma unlink_elem_ne c l a : a ∈ l -> a <> c -> a ∈ unlink c l.
Proof.
  induction l as [|d l IH]; simpl; [done|].
  intros Ha Hne. apply elem_of_cons in Ha as [->|Ha].
  - destruct (decide (d = c)); [done|]. apply elem_of_cons. by left.
  - destruct (decide (d = c)); [exact Ha|]. apply elem_of_cons. right. by apply IH.
Qed.

Lemma lookup_mons_updm i f s j m' :
  mons (updm i f s) !! j = Some m' ->
  exists m, mons s !! j = Some m
            /\ ((j <> i /\ m' = m) \/ (j = i /\ m' = f m)).
Proof.
  unfold updm; simpl. intros H. destruct (decide (j = i)) as [->|Hne].
  - rewrite list_lookup_alter_eq in H.
    destruct (mons s !! i) as [m|]; [|discriminate]. simpl in H.
    exists m. split; [reflexivity|]. right. split; [reflexivity|congruence].
  - rewrite list_lookup_alter_ne in H by done. exists m'. by split; [|left].
Qed.

Lemma lookup_mons_updm_Some i f s j m :
  mons s !! j = Some m ->
  mons (updm i f s) !! j = Some (if decide (j = i) then f m else m).
Proof.
  unfold updm; simpl. intros H. destruct (decide (j = i)) as [->|Hne].
  - by rewrite list_lookup_alter_eq, H.
  - by rewrite list_lookup_alter_ne.
Qed.

Lemma length_mons_updm i f s : length (mons (updm i f s)) = length (mons s).
Proof. unfold updm; simpl. apply length_alter. Qed.

Lemma mon_index_ok_updm i f s v : mon_index_ok s v -> mon_index_ok (updm i f s) v.
Proof.
  unfold mon_index_ok. rewrite length_mons_updm. intros [H|[H ->]]; [by left|right].
  split; [|reflexivity]. unfold updm; simpl. by rewrite H.
Qed.

Lemma mon_of_updm i f s a : mon_of (updm i f s) a = mon_of s a.
Proof. reflexivity. Qed.

Lemma lookup_heap_updc c f s a cl' :
  heap (updc c f s) !! a = Some cl' ->
  exists cl, heap s !! a = Some cl /\ (cl' = cl \/ (a = c /\ cl' = f cl)).
Proof.
  unfold updc; simpl. intros H.
  apply lookup_alter_Some in H as [(-> & cl & Hc & ->)|[Hne H]].
  - exists cl. split; [exact Hc|]. by right.
  - exists cl'. by split; [|left].
Qed.

(** Writes that keep the monitor of the client. *)
Lemma heap_wf_updc c f s :
  (forall cl, Client.win (f cl) = Client.win cl) ->
  heap_wf s -> heap_wf (updc c f s).
Proof.
  intros Hf [Hfresh Hwin]. split.
  - intros a Ha. apply heap_updc_None, Hfresh, Ha.
  - intros a b cla clb Ha Hb.
    apply lookup_heap_updc in Ha as (cla0 & Ha & Hea).
    apply lookup_heap_updc in Hb as (clb0 & Hb & Heb).
    assert (Client.win cla = Client.win cla0) as ->
      by (destruct Hea as [->|[_ ->]]; [reflexivity|apply Hf]).
    assert (Client.win clb = Client.win clb0) as ->
      by (destruct Heb as [->|[_ ->]]; [reflexivity|apply Hf]).
    by apply Hwin.
Qed.

Lemma swf_updc_keep ec es c f s :
  (forall cl, Client.mon (f cl) = Client.mon cl
              /\ Client.win (f cl) = Client.win cl) ->
  state_wf_but ec es s -> state_wf_but ec es (updc c f s).
Proof.
  intros Hf' (Hm & Hc & Hfresh & Hsel).
  assert (Hf : forall cl, Client.mon (f cl) = Client.mon cl) by (intros; apply Hf').
  split; [|split; [|split]].
  - intros i m Hi. destruct (Hm i m Hi) as (H1 & H2 & H3 & H4 & H5 & H6).
    split; [exact H1|split; [exact H2|split; [|split; [|split; [exact H5|exact H6]]]]].
    + intros a Ha. rewrite mon_of_updc_keep by exact Hf. by apply H3.
    + intros a Ha. rewrite mon_of_updc_keep by exact Hf. by apply H4.
  - intros a cl' Ha.
    apply lookup_heap_updc in Ha as (cl & Ha & [->|[-> ->]]).
    + exact (Hc a cl Ha).
    + unfold client_wf. rewrite Hf. exact (Hc c cl Ha).
  - apply heap_wf_updc; [intros; apply Hf'|exact Hfresh].
  - exact Hsel.
Qed.

(** Writes that keep the lists and the selection of the monitor. *)
Lemma swf_updm_keep ec es i f s :
  (forall m, lists_of (f m) = lists_of m) ->
  (forall m, mon_scalars_ok m -> mon_scalars_ok (f m)) ->
  state_wf_but ec es s -> state_wf_but ec es (updm i f s).
Proof.
  intros Hf Hq (Hm & Hc & Hfresh & Hsel). split; [|split; [|split]].
  - intros j m' Hj.
    apply lookup_mons_updm in Hj as (m & Hj & Hm').
    destruct (Hm j m Hj) as (H1 & H2 & H3 & H4 & H5 & H6).
    destruct Hm' as [[_ ->]|[-> ->]];
      [exact (conj H1 (conj H2 (conj H3 (conj H4 (conj H5 H6)))))|].
    specialize (Hf m). unfold lists_of in Hf. injection Hf as Hf1 Hf2 Hf3.
    unfold mon_wf. rewrite Hf1, Hf2, Hf3.
    exact (conj H1 (conj H2 (conj H3 (conj H4 (conj H5 (Hq m H6)))))).
  - intros a cl Ha. destruct (Hc a cl Ha) as (m & Hmon & H1 & H2).
    pose proof (lookup_mons_updm_Some i f s _ m Hmon) as Hl.
    destruct (decide (Client.mon cl = i)); [|by exists m].
    exists (f m). specialize (Hf m). unfold lists_of in Hf.
    injection Hf as Hf1 Hf2 _. rewrite Hf1, Hf2. by split.
  - exact Hfresh.
  - by apply mon_index_ok_updm.
Qed.

Lemma swf_set_selmon ec es v s :
  mon_index_ok s v -> state_wf_but ec es s -> state_wf_but ec es (set_selmon v s).
Proof. intros Hv (Hm & Hc & Hfresh & _). by split; [|split; [|split]]. Qed.

Lemma swf_set_motionmon ec es v s :
  state_wf_but ec es s -> state_wf_but ec es (set_motionmon v s).
Proof. intros H. exact H. Qed.

Lemma swf_set_running ec es v s :
  state_wf_but ec es s -> state_wf_but ec es (set_running v s).
Proof. intros H. exact H. Qed.

Lemma swf_set_screen ec es a b s :
  state_wf_but ec es s -> state_wf_but ec es (set_screen a b s).
Proof. intros H. exact H. Qed.

(** *** The two lists *)

Lemma swf_detach es c s :
  state_wf_but None es s -> state_wf_but (Some c) es (detach c s).
Proof.
  intros (Hm & Hc & Hfresh & Hsel). unfold detach.
  destruct (mon_of s c) as [mi|] eqn:Hmc.
  - split; [|split; [|split]].
    + intros j m' Hj. apply lookup_mons_updm in Hj as (m & Hj & Hm').
      destruct (Hm j m Hj) as (H1 & H2 & H3 & H4 & H5 & H6).
      destruct Hm' as [[Hne ->]|[-> ->]].
      * split; [exact H1|split; [exact H2|split; [|exact (conj H4 (conj H5 H6))]]].
        intros a Ha. destruct (H3 a Ha) as [_ Hma]. split; [|exact Hma].
        intros [= ->]. congruence.
      * simpl. split; [by apply unlink_NoDup|split; [exact H2|split; [|exact (conj H4 (conj H5 H6))]]].
        intros a Ha. split; [|exact (proj2 (H3 a (unlink_subseteq c _ a Ha)))].
        intros [= ->]. by apply (unlink_not_elem c (Monitor.clients m)).
    + intros a cl Ha. change (heap s !! a = Some cl) in Ha.
      destruct (Hc a cl Ha) as (m & Hmon & H1 & H2).
      pose proof (lookup_mons_updm_Some mi
                    (fun m => Monitor.set_clients (unlink c (Monitor.clients m)) m)
                    s _ m Hmon) as Hl.
      eexists. split; [exact Hl|]. destruct (decide (Client.mon cl = mi)); simpl.
      * split; [|exact H2]. intros Hne. apply unlink_elem_ne; [by apply H1|congruence].
      * split; [|exact H2]. intros _. by apply H1.
    + exact Hfresh.
    + by apply mon_index_ok_updm.
  - split; [|split; [|split]]; [| |exact Hfresh|exact Hsel].
    + intros j m Hj. destruct (Hm j m Hj) as (H1 & H2 & H3 & H4 & H5 & H6).
      split; [exact H1|split; [exact H2|split; [|exact (conj H4 (conj H5 H6))]]].
      intros a Ha. destruct (H3 a Ha) as [_ Hma]. split; [|exact Hma].
      intros [= ->]. congruence.
    + intros a cl Ha. destruct (Hc a cl Ha) as (m & Hmon & H1 & H2).
      exists m. split; [exact Hmon|split; [|exact H2]]. intros _. by apply H1.
Qed.

Lemma swf_attach es c s :
  state_wf_but (Some c) es s -> state_wf_but None es (attach c s).
Proof.
  intros (Hm & Hc & Hfresh & Hsel). unfold attach.
  destruct (mon_of s c) as [mi|] eqn:Hmc.
  - split; [|split; [|split]].
    + intros j m' Hj. apply lookup_mons_updm in Hj as (m & Hj & Hm').
      destruct (Hm j m Hj) as (H1 & H2 & H3 & H4 & H5 & H6).
      destruct Hm' as [[Hne ->]|[-> ->]].
      * split; [exact H1|split; [exact H2|split; [|exact (conj H4 (conj H5 H6))]]].
        intros a Ha. split; [done|exact (proj2 (H3 a Ha))].
      * simpl. split; [|split; [exact H2|split; [|exact (conj H4 (conj H5 H6))]]].
        -- apply NoDup_cons_2; [|exact H1]. intros Hin. by destruct (H3 c Hin).
        -- intros a Ha. split; [done|].
           apply elem_of_cons in Ha as [->|Ha]; [exact Hmc|exact (proj2 (H3 a Ha))].
    + intros a cl Ha. change (heap s !! a = Some cl) in Ha.
      destruct (Hc a cl Ha) as (m & Hmon & H1 & H2).
      pose proof (lookup_mons_updm_Some mi
                    (fun m => Monitor.set_clients (c :: Monitor.clients m) m)
                    s _ m Hmon) as Hl.
      eexists. split; [exact Hl|]. destruct (decide (Client.mon cl = mi)) as [He|He]; simpl.
      * split; [|exact H2]. intros _. apply elem_of_cons.
        destruct (decide (a = c)) as [->|Hne]; [by left|right].
        apply H1. congruence.
      * split; [|exact H2]. intros _. apply H1. intros [= ->].
        unfold mon_of in Hmc. rewrite Ha in Hmc. simpl in Hmc. congruence.
    + exact Hfresh.
    + by apply mon_index_ok_updm.
  - split; [|split; [|split]]; [| |exact Hfresh|exact Hsel].
    + intros j m Hj. destruct (Hm j m Hj) as (H1 & H2 & H3 & H4 & H5 & H6).
      split; [exact H1|split; [exact H2|split; [|exact (conj H4 (conj H5 H6))]]].
      intros a Ha. split; [done|exact (proj2 (H3 a Ha))].
    + intros a cl Ha. destruct (Hc a cl Ha) as (m & Hmon & H1 & H2).
      exists m. split; [exact Hmon|split; [|exact H2]]. intros _. apply H1.
      intros [= ->]. unfold mon_of in Hmc. by rewrite Ha in Hmc.
Qed.

Lemma first_visible_elem s l d : first_visible s l = Some d -> d ∈ l.
Proof.
  unfold first_visible. intros H. apply find_some in H as [H _].
  by apply list_elem_of_In.
Qed.

Lemma first_visible_visible s l d : first_visible s l = Some d -> visible s d = true.
Proof. unfold first_visible. intros H. by apply find_some in H as [_ H]. Qed.

Lemma detachstack_updm c s mi :
  mon_of s c = Some mi ->
  exists g, (forall m, detached c m (g m)) /\ detachstack c s = updm mi g s.
Proof.
  intros Hmc.
  set (s1 := updm mi (fun m => Monitor.set_stack (unlink c (Monitor.stack m)) m) s).
  exists (fun m =>
            let m1 := Monitor.set_stack (unlink c (Monitor.stack m)) m in
            if decide (Monitor.sel m = Some c)
            then Monitor.set_sel (first_visible s1 (Monitor.stack m1)) m1 else m1).
  split.
  - intros m. cbv zeta. unfold detached.
    destruct (decide (Monitor.sel m = Some c)) as [He|Hne]; simpl.
    + repeat split. right. split; [exact He|]. apply first_visible_elem.
    + repeat split. left. by split.
  - unfold detachstack. rewrite Hmc. cbv zeta. fold s1.
    destruct (mons s !! mi) as [m0|] eqn:Hm0.
    + unfold s1 at 1. rewrite (lookup_mons_updm_Some mi _ s mi m0 Hm0).
      destruct (decide (mi = mi)); [|done]. simpl.
      destruct (decide (Monitor.sel m0 = Some c)) as [He|Hne].
      * unfold s1 at 2. unfold updm, set_mons; simpl. f_equal.
        rewrite list_alter_alter_eq. apply list_alter_ext; [|done..].
        intros m Hm. rewrite Hm0 in Hm. injection Hm as <-. simpl.
        by rewrite decide_True.
      * unfold s1, updm, set_mons; simpl. f_equal.
        apply list_alter_ext; [|done..].
        intros m Hm. rewrite Hm0 in Hm. injection Hm as <-. by rewrite decide_False.
    + assert (Hn : mons s1 !! mi = None).
      { unfold s1, updm; simpl. by rewrite list_lookup_alter_eq, Hm0. }
      rewrite Hn. unfold s1, updm, set_mons; simpl. f_equal.
      apply list_alter_ext; [|done..]. intros m Hm. congruence.
Qed.

Lemma swf_detachstack ec c s :
  state_wf_but ec None s -> state_wf_but ec (Some c) (detachstack c s).
Proof.
  intros (Hm & Hc & Hfresh & Hsel).
  destruct (mon_of s c) as [mi|] eqn:Hmc.
  - destruct (detachstack_updm c s mi Hmc) as (g & Hg & ->).
    split; [|split; [|split]].
    + intros j m' Hj. apply lookup_mons_updm in Hj as (m & Hj & Hm').
      destruct (Hm j m Hj) as (H1 & H2 & H3 & H4 & H5 & H6).
      destruct Hm' as [[Hne ->]|[-> ->]].
      * split; [exact H1|split; [exact H2|split; [exact H3|split; [|by split]]]].
        intros a Ha. destruct (H4 a Ha) as [_ Hma]. split; [|exact Hma].
        intros [= ->]. congruence.
      * destruct (Hg m) as (G1 & G2 & G3 & G4 & G5 & G6).
        unfold mon_wf, mon_scalars_ok. rewrite G1, G2, G3, G4, G5.
        split; [exact H1|split; [by apply unlink_NoDup|split; [exact H3|split; [|split]]]].
        -- intros a Ha. split; [|exact (proj2 (H4 a (unlink_subseteq c _ a Ha)))].
           intros [= ->]. by apply (unlink_not_elem c (Monitor.stack m)).
        -- intros d Hd. destruct G6 as [[Gs Gne]|[_ Gs]]; [|by apply Gs].
           rewrite Gs in Hd. apply unlink_elem_ne; [by apply H5|congruence].
        -- exact H6.
    + intros a cl Ha. change (heap s !! a = Some cl) in Ha.
      destruct (Hc a cl Ha) as (m & Hmon & H1 & H2).
      pose proof (lookup_mons_updm_Some mi g s _ m Hmon) as Hl.
      eexists. split; [exact Hl|]. destruct (decide (Client.mon cl = mi)).
      * destruct (Hg m) as (G1 & G2 & _). rewrite G1, G2. split; [exact H1|].
        intros Hne. apply unlink_elem_ne; [by apply H2|congruence].
      * split; [exact H1|]. intros _. by apply H2.
    + exact Hfresh.
    + by apply mon_index_ok_updm.
  - unfold detachstack. rewrite Hmc.
    split; [|split; [|split]]; [| |exact Hfresh|exact Hsel].
    + intros j m Hj. destruct (Hm j m Hj) as (H1 & H2 & H3 & H4 & H5 & H6).
      split; [exact H1|split; [exact H2|split; [exact H3|split; [|by split]]]].
      intros a Ha. destruct (H4 a Ha) as [_ Hma]. split; [|exact Hma].
      intros [= ->]. congruence.
    + intros a cl Ha. destruct (Hc a cl Ha) as (m & Hmon & H1 & H2).
      exists m. split; [exact Hmon|split; [exact H1|]]. intros _. by apply H2.
Qed.

Lemma swf_attachstack ec c s :
  state_wf_but ec (Some c) s -> state_wf_but ec None (attachstack c s).
Proof.
  intros (Hm & Hc & Hfresh & Hsel). unfold attachstack.
  destruct (mon_of s c) as [mi|] eqn:Hmc.
  - split; [|split; [|split]].
    + intros j m' Hj. apply lookup_mons_updm in Hj as (m & Hj & Hm').
      destruct (Hm j m Hj) as (H1 & H2 & H3 & H4 & H5 & H6).
      destruct Hm' as [[Hne ->]|[-> ->]].
      * split; [exact H1|split; [exact H2|split; [exact H3|split; [|by split]]]].
        intros a Ha. split; [done|exact (proj2 (H4 a Ha))].
      * simpl. split; [exact H1|split; [|split; [exact H3|split; [|split]]]].
        -- apply NoDup_cons_2; [|exact H2]. intros Hin. by destruct (H4 c Hin).
        -- intros a Ha. split; [done|].
           apply elem_of_cons in Ha as [->|Ha]; [exact Hmc|exact (proj2 (H4 a Ha))].
        -- intros d Hd. apply elem_of_cons. right. by apply H5.
        -- exact H6.
    + intros a cl Ha. change (heap s !! a = Some cl) in Ha.
      destruct (Hc a cl Ha) as (m & Hmon & H1 & H2).
      pose proof (lookup_mons_updm_Some mi
                    (fun m => Monitor.set_stack (c :: Monitor.stack m) m)
                    s _ m Hmon) as Hl.
      eexists. split; [exact Hl|]. destruct (decide (Client.mon cl = mi)) as [He|He]; simpl.
      * split; [exact H1|]. intros _. apply elem_of_cons.
        destruct (decide (a = c)) as [->|Hne]; [by left|right].
        apply H2. congruence.
      * split; [exact H1|]. intros _. apply H2. intros [= ->].
        unfold mon_of in Hmc. rewrite Ha in Hmc. simpl in Hmc. congruence.
    + exact Hfresh.
    + by apply mon_index_ok_updm.
  - split; [|split; [|split]]; [| |exact Hfresh|exact Hsel].
    + intros j m Hj. destruct (Hm j m Hj) as (H1 & H2 & H3 & H4 & H5 & H6).
      split; [exact H1|split; [exact H2|split; [exact H3|split; [|by split]]]].
      intros a Ha. split; [done|exact (proj2 (H4 a Ha))].
    + intros a cl Ha. destruct (Hc a cl Ha) as (m & Hmon & H1 & H2).
      exists m. split; [exact Hmon|split; [exact H1|]]. intros _. apply H2.
      intros [= ->]. unfold mon_of in Hmc. by rewrite Ha in Hmc.
Qed.

(** *** Indices of monitors *)

Lemma mon_of_index_ok ec es s a mi :
  state_wf_but ec es s -> mon_of s a = Some mi -> mon_index_ok s mi.
Proof.
  intros (_ & Hc & _) Ha. unfold mon_of in Ha.
  destruct (heap s !! a) as [cl|] eqn:E; [|discriminate]. injection Ha as <-.
  destruct (Hc a cl E) as (m & Hm & _). left. by apply lookup_lt_Some in Hm.
Qed.

Lemma bind_mon_of_index_ok ec es s (c : option nat) mi :
  state_wf_but ec es s -> c ≫= mon_of s = Some mi -> mon_index_ok s mi.
Proof. intros H Hc. destruct c as [a|]; [|discriminate]. by eapply mon_of_index_ok. Qed.

Lemma recttomon_loop_index_ok x y w h ms :
  forall i r area,
    (r < i + length ms)%nat \/ (ms = [] /\ r = 0%nat /\ i = 0%nat) ->
    (recttomon_loop x y w h ms i r area < i + length ms)%nat
    \/ (ms = [] /\ recttomon_loop x y w h ms i r area = 0%nat /\ i = 0%nat).
Proof.
  induction ms as [|m ms IH]; intros i r area Hr; simpl in *; [exact Hr|].
  left. destruct (area <? INTERSECT x y w h m).
  - assert (Hi : (i < S i + length ms)%nat) by lia.
    destruct (IH (S i) i (INTERSECT x y w h m) (or_introl Hi)) as [H|[_ [_ H]]]; lia.
  - assert (Hr' : (r < S i + length ms)%nat)
      by (destruct Hr as [Hr|[Hr _]]; [lia|discriminate]).
    destruct (IH (S i) r area (or_introl Hr')) as [H|[_ [_ H]]]; lia.
Qed.

Lemma recttomon_index_ok ec es x y w h s :
  state_wf_but ec es s -> mon_index_ok s (recttomon x y w h s).
Proof.
  intros (_ & _ & _ & Hsel). unfold recttomon, mon_index_ok.
  destruct (recttomon_loop_index_ok x y w h (mons s) 0 (selmon s) 0)
    as [H|(H1 & H2 & _)]; [|by left|by right].
  destruct Hsel as [Hs|[Hs ->]]; [by left|right]. by rewrite Hs.
Qed.

Lemma wintomon_index_ok ec es w ptr s :
  state_wf_but ec es s -> mon_index_ok s (wintomon w ptr s).
Proof.
  intros H. unfold wintomon. destruct w as [|mi|w].
  - destruct ptr as [[x y]|]; [by eapply recttomon_index_ok|apply H].
  - destruct (decide _); [by left|apply H].
  - destruct (wintoclient w s ≫= mon_of s) as [mi|] eqn:E; [|apply H].
    by eapply bind_mon_of_index_ok.
Qed.

Lemma dirtomon_index_ok ec es i s :
  state_wf_but ec es s -> ~ (length (mons s) <= 1)%nat ->
  mon_index_ok s (dirtomon i s).
Proof.
  intros (_ & _ & _ & Hsel) Hn. left. unfold dirtomon.
  destruct Hsel as [Hs|[Hs _]]; [|rewrite Hs in Hn; simpl in Hn; lia].
  destruct (0 <? i); repeat destruct (decide _); lia.
Qed.

(** *** The handlers *)

Create HintDb swf discriminated.
#[local] Hint Resolve swf_updc_keep swf_updm_keep swf_set_selmon swf_set_motionmon
  swf_set_running swf_set_screen swf_attachstack swf_detachstack swf_attach
  swf_detach mon_of_index_ok bind_mon_of_index_ok recttomon_index_ok
  wintomon_index_ok dirtomon_index_ok : swf.
#[local] Hint Extern 1 (forall cl : Client.t, _ /\ _) => record_fields : swf.
#[local] Hint Extern 1 (forall m : Monitor.t, lists_of _ = lists_of _) =>
  (intros; unfold set_lt, set_tagset, updatebarpos;
   repeat (cbv zeta;
           match goal with
           | |- context [if ?b then _ else _] => destruct b
           end);
   reflexivity) : swf.
#[local] Hint Extern 1 (forall m : Monitor.t, mon_scalars_ok _ -> mon_scalars_ok _) =>
  (let Hn := fresh in let Ht := fresh in let Hl := fresh in
   intros ? (Hn & Ht & Hl); unfold set_lt, set_tagset, updatebarpos;
   repeat (cbv zeta;
           match goal with
           | |- context [if ?b then _ else _] => destruct b
           end);
   unfold mon_scalars_ok; simpl;
   (split; [lia|split; [first [exact Ht|destruct Ht as [-> | ->]; by auto]|exact Hl]]))
  : swf.

(** Case analysis on the state a handler computes, down to its writes. *)
Ltac swf_cases :=
  repeat first
    [ progress cbv zeta
    | match goal with
      | |- state_wf_but _ _ (match ?x with _ => _ end) => destruct x eqn:?
      | |- state_wf_but _ _ (let '(_, _) := ?x in _) => destruct x eqn:?
      | |- state_wf_but _ _ ?t =>
          match t with
          | context [if ?b then _ else _] => destruct b eqn:?
          | context [match ?x with Some _ => _ | None => _ end] => destruct x eqn:?
          end
      end ];
  eauto 14 with swf.

Lemma swf_foldl {A} ec es (f : State -> A -> State) (l : list A) :
  (forall s a, state_wf_but ec es s -> state_wf_but ec es (f s a)) ->
  forall s, state_wf_but ec es s -> state_wf_but ec es (foldl f s l).
Proof.
  intros Hf. induction l as [|a l IH]; intros s H; simpl; [exact H|].
  apply IH, Hf, H.
Qed.

Lemma swf_resizeclient ec es c x y w h s :
  state_wf_but ec es s -> state_wf_but ec es (resizeclient c x y w h s).
Proof. intros H. unfold resizeclient. swf_cases. Qed.
#[local] Hint Resolve swf_resizeclient : swf.

Lemma swf_resize ec es c x y w h interact s :
  state_wf_but ec es s -> state_wf_but ec es (resize c x y w h interact s).
Proof. intros H. unfold resize. swf_cases. Qed.
#[local] Hint Resolve swf_resize : swf.

Lemma swf_showhide ec es cs : forall s, state_wf_but ec es s -> state_wf_but ec es (showhide cs s).
Proof.
  induction cs as [|c cs IH]; intros s H; simpl; [exact H|].
  destruct (heap s !! c) as [cl|]; [|exact H].
  destruct (ISVISIBLE s cl); [|by apply IH].
  apply IH. swf_cases.
Qed.
#[local] Hint Resolve swf_showhide : swf.

Lemma swf_tile_loop ec es m n mw cs :
  forall i my ty s,
    state_wf_but ec es s -> state_wf_but ec es (tile_loop m n mw cs i my ty s).
Proof.
  induction cs as [|c cs IH]; intros i my ty s H; simpl; [exact H|].
  destruct (heap s !! c) as [cl|]; [|by apply IH].
  destruct (negb (Client.isfloating cl) && ISVISIBLE s cl); [|by apply IH].
  destruct (i <? u32 (Monitor.nmaster m)); apply IH; swf_cases.
Qed.
#[local] Hint Resolve swf_tile_loop : swf.

Lemma swf_tile ec es mi s : state_wf_but ec es s -> state_wf_but ec es (tile mi s).
Proof. intros H. unfold tile. swf_cases. Qed.
#[local] Hint Resolve swf_tile : swf.

Lemma swf_monocle_loop ec es m cs :
  forall s, state_wf_but ec es s -> state_wf_but ec es (monocle_loop m cs s).
Proof.
  induction cs as [|c cs IH]; intros s H; simpl; [exact H|].
  destruct (heap s !! c) as [cl|]; [|by apply IH].
  destruct (negb (Client.isfloating cl) && ISVISIBLE s cl); apply IH; swf_cases.
Qed.
#[local] Hint Resolve swf_monocle_loop : swf.

Lemma swf_monocle ec es mi s : state_wf_but ec es s -> state_wf_but ec es (monocle mi s).
Proof. intros H. unfold monocle. swf_cases. Qed.
#[local] Hint Resolve swf_monocle : swf.

Lemma swf_arrangemon ec es mi s : state_wf_but ec es s -> state_wf_but ec es (arrangemon mi s).
Proof. intros H. unfold arrangemon. swf_cases. Qed.
#[local] Hint Resolve swf_arrangemon : swf.

Lemma swf_showhide_mon ec es mi s :
  state_wf_but ec es s -> state_wf_but ec es (showhide_mon mi s).
Proof. intros H. unfold showhide_mon. swf_cases. Qed.
#[local] Hint Resolve swf_showhide_mon : swf.

Lemma swf_arrange ec es m s : state_wf_but ec es s -> state_wf_but ec es (arrange m s).
Proof.
  intros H. unfold arrange. destruct m as [mi|]; [swf_cases|].
  apply swf_foldl; [intros; swf_cases|].
  apply swf_foldl; [intros; swf_cases|]. exact H.
Qed.
#[local] Hint Resolve swf_arrange : swf.

Lemma swf_seturgent ec es c u s : state_wf_but ec es s -> state_wf_but ec es (seturgent c u s).
Proof. intros H. unfold seturgent. swf_cases. Qed.
#[local] Hint Resolve swf_seturgent : swf.


(** Selecting a client of the stack, or none. *)
Lemma swf_set_sel ec es i v s :
  (forall m a, mons s !! i = Some m -> v = Some a -> a ∈ Monitor.stack m) ->
  state_wf_but ec es s -> state_wf_but ec es (updm i (Monitor.set_sel v) s).
Proof.
  intros Hv (Hm & Hc & Hfresh & Hsel). split; [|split; [|split]].
  - intros j m' Hj. apply lookup_mons_updm in Hj as (m & Hj & Hm').
    destruct (Hm j m Hj) as (H1 & H2 & H3 & H4 & H5 & H6).
    destruct Hm' as [[Hne ->]|[-> ->]];
      [exact (conj H1 (conj H2 (conj H3 (conj H4 (conj H5 H6)))))|].
    split; [exact H1|split; [exact H2|split; [exact H3|split; [exact H4|split]]]];
      [|exact H6].
    simpl. intros a Ha. by apply (Hv m a).
  - intros a cl Ha. change (heap s !! a = Some cl) in Ha.
    destruct (Hc a cl Ha) as (m & Hmon & H1 & H2).
    pose proof (lookup_mons_updm_Some i (Monitor.set_sel v) s _ m Hmon) as Hl.
    eexists. split; [exact Hl|]. by destruct (decide (Client.mon cl = i)).
  - exact Hfresh.
  - by apply mon_index_ok_updm.
Qed.

Lemma heap_detachstack c s : heap (detachstack c s) = heap s.
Proof.
  unfold detachstack. destruct (mon_of s c) as [mi|]; [|reflexivity]. cbv zeta.
  destruct (mons _ !! mi) as [m|]; [|reflexivity].
  by destruct (decide _).
Qed.

Lemma heap_attachstack c s : heap (attachstack c s) = heap s.
Proof. unfold attachstack. by destruct (mon_of s c). Qed.

Lemma visible_allocated s a : visible s a = true -> is_Some (heap s !! a).
Proof. unfold visible. by destruct (heap s !! a). Qed.

Lemma swf_focus c s : state_wf_but None None s -> state_wf_but None None (focus c s).
Proof.
  intros H. unfold focus.
  match goal with
  | |- context [Monitor.set_sel ?x] => set (c' := x)
  end.
  assert (Hvis : forall a, c' = Some a -> visible s a = true).
  { unfold c'. intros a Ha. destruct c as [a0|].
    - destruct (visible s a0) eqn:E; [by injection Ha as <-|].
      destruct (mons s !! selmon s) as [m|]; [|discriminate].
      by apply first_visible_visible in Ha.
    - destruct (mons s !! selmon s) as [m|]; [|discriminate].
      by apply first_visible_visible in Ha. }
  clearbody c'. cbv zeta. destruct c' as [a|]; [|by apply swf_set_sel].
  destruct (visible_allocated s a (Hvis a eq_refl)) as [cl Ha]. rewrite Ha.
  set (s1 := if decide (Client.mon cl = selmon s) then s
             else set_selmon (Client.mon cl) s).
  assert (H1 : state_wf_but None None s1 /\ selmon s1 = Client.mon cl
               /\ heap s1 !! a = Some cl).
  { unfold s1. destruct (decide _) as [He|Hne];
      [split; [exact H|split; [by symmetry|exact Ha]]|].
    split; [|split; [reflexivity|exact Ha]]. apply swf_set_selmon; [|exact H].
    eapply (mon_of_index_ok _ _ s a); [exact H|]. unfold mon_of. by rewrite Ha. }
  clearbody s1. destruct H1 as (H1 & Hs1 & Ha1).
  set (s2 := if Client.isurgent cl then seturgent a false s1 else s1).
  assert (H2 : state_wf_but None None s2 /\ selmon s2 = Client.mon cl
               /\ exists cl', heap s2 !! a = Some cl' /\ Client.mon cl' = Client.mon cl).
  { unfold s2. destruct (Client.isurgent cl);
      [|split; [exact H1|split; [exact Hs1|by exists cl]]].
    split; [by apply swf_updc_keep|split; [exact Hs1|]].
    unfold seturgent. rewrite lookup_updc_eq, Ha1. simpl. by eexists. }
  clearbody s2. destruct H2 as (H2 & Hs2 & cl' & Ha2 & Hmon).
  assert (H3 : state_wf_but None None (attachstack a (detachstack a s2)))
    by (by apply swf_attachstack, swf_detachstack).
  apply swf_set_sel; [|exact H3].
  rewrite selmon_attachstack, selmon_detachstack, Hs2. intros m a' Hm [= <-].
  destruct H3 as (_ & Hc3 & _).
  destruct (Hc3 a cl') as (m' & Hm' & _ & Hst).
  { by rewrite heap_attachstack, heap_detachstack. }
  rewrite Hmon, Hm in Hm'. injection Hm' as <-. by apply Hst.
Qed.
#[local] Hint Resolve swf_focus : swf.


Lemma swf_view ui s : state_wf_but None None s -> state_wf_but None None (view ui s).
Proof. intros H. unfold view. swf_cases. Qed.

Lemma swf_toggleview ui s : state_wf_but None None s -> state_wf_but None None (toggleview ui s).
Proof. intros H. unfold toggleview. swf_cases. Qed.

Lemma swf_tag ui s : state_wf_but None None s -> state_wf_but None None (tag ui s).
Proof. intros H. unfold tag. swf_cases. Qed.

Lemma swf_toggletag ui s : state_wf_but None None s -> state_wf_but None None (toggletag ui s).
Proof. intros H. unfold toggletag. swf_cases. Qed.

Lemma swf_pop c s : state_wf_but None None s -> state_wf_but None None (pop c s).
Proof. intros H. unfold pop. swf_cases. Qed.
#[local] Hint Resolve swf_view swf_toggleview swf_tag swf_toggletag swf_pop : swf.

Lemma swf_zoom s : state_wf_but None None s -> state_wf_but None None (zoom s).
Proof. intros H. unfold zoom. swf_cases. Qed.

Lemma swf_setfullscreen ec es c f s :
  state_wf_but ec es s -> state_wf_but ec es (setfullscreen c f s).
Proof. intros H. unfold setfullscreen. swf_cases. Qed.
#[local] Hint Resolve swf_zoom swf_setfullscreen : swf.

Lemma swf_togglefloating s :
  state_wf_but None None s -> state_wf_but None None (togglefloating s).
Proof. intros H. unfold togglefloating. swf_cases. Qed.

Lemma length_mons_detach c s : length (mons (detach c s)) = length (mons s).
Proof. unfold detach. destruct (mon_of s c); [apply length_mons_updm|reflexivity]. Qed.

Lemma length_mons_attach c s : length (mons (attach c s)) = length (mons s).
Proof. unfold attach. destruct (mon_of s c); [apply length_mons_updm|reflexivity]. Qed.

Lemma length_mons_attachstack c s :
  length (mons (attachstack c s)) = length (mons s).
Proof.
  unfold attachstack. destruct (mon_of s c); [apply length_mons_updm|reflexivity].
Qed.

Lemma length_mons_detachstack c s :
  length (mons (detachstack c s)) = length (mons s).
Proof.
  destruct (mon_of s c) as [mi|] eqn:Hmc.
  - destruct (detachstack_updm c s mi Hmc) as (g & _ & ->). apply length_mons_updm.
  - unfold detachstack. by rewrite Hmc.
Qed.

(** Any write to the client that is in no list, as long as its monitor
    is one of the list. *)
Lemma swf_updc_but c f s :
  (forall cl, heap s !! c = Some cl -> is_Some (mons s !! Client.mon (f cl))) ->
  (forall cl, Client.win (f cl) = Client.win cl) ->
  state_wf_but (Some c) (Some c) s -> state_wf_but (Some c) (Some c) (updc c f s).
Proof.
  intros Hf Hw (Hm & Hc & Hfresh & Hsel). split; [|split; [|split]].
  - intros i m Hi. destruct (Hm i m Hi) as (H1 & H2 & H3 & H4 & H5 & H6).
    split; [exact H1|split; [exact H2|split; [|split; [|split; [exact H5|exact H6]]]]].
    + intros a Ha. destruct (H3 a Ha) as [Hne Hma]. split; [exact Hne|].
      unfold mon_of, updc; simpl. rewrite lookup_alter_ne by congruence. exact Hma.
    + intros a Ha. destruct (H4 a Ha) as [Hne Hma]. split; [exact Hne|].
      unfold mon_of, updc; simpl. rewrite lookup_alter_ne by congruence. exact Hma.
  - intros a cl' Ha.
    apply lookup_heap_updc in Ha as (cl & Ha & [->|[-> ->]]).
    + exact (Hc a cl Ha).
    + destruct (Hf cl Ha) as [m Hmon]. exists m. by split.
  - by apply heap_wf_updc.
  - exact Hsel.
Qed.

Lemma swf_sendmon c mi s :
  state_wf_but None None s -> state_wf_but None None (sendmon c mi s).
Proof.
  intros H. unfold sendmon.
  destruct (heap s !! c) as [cl|]; [|exact H].
  destruct (mons s !! mi) as [m|] eqn:Hmi; [|exact H].
  destruct (decide _); [exact H|]. cbv zeta.
  assert (H1 : state_wf_but (Some c) (Some c) (detachstack c (detach c s)))
    by eauto with swf.
  assert (Hl : is_Some (mons (detachstack c (detach c s)) !! mi)).
  { apply lookup_lt_is_Some. rewrite length_mons_detachstack, length_mons_detach.
    by apply lookup_lt_Some in Hmi. }
  assert (H2 : state_wf_but (Some c) (Some c)
                 (updc c (fun cl => Client.set_tags (tagset m (Monitor.seltags m))
                                      (Client.set_mon mi cl))
                    (detachstack c (detach c s))))
    by (by apply swf_updc_but).
  eauto 8 with swf.
Qed.
#[local] Hint Resolve swf_togglefloating swf_sendmon : swf.

Lemma swf_tagmon i s : state_wf_but None None s -> state_wf_but None None (tagmon i s).
Proof. intros H. unfold tagmon. swf_cases. Qed.

Lemma swf_focusmon i s : state_wf_but None None s -> state_wf_but None None (focusmon i s).
Proof. intros H. unfold focusmon. swf_cases. Qed.

Lemma swf_focusstack i s : state_wf_but None None s -> state_wf_but None None (focusstack i s).
Proof. intros H. unfold focusstack. swf_cases. Qed.

Lemma swf_incnmaster i s : state_wf_but None None s -> state_wf_but None None (incnmaster i s).
Proof. intros H. unfold incnmaster. swf_cases. Qed.

Lemma swf_set_sellt ec es i v s :
  v = 0 \/ v = 1 ->
  state_wf_but ec es s -> state_wf_but ec es (updm i (Monitor.set_sellt v) s).
Proof.
  intros Hv. apply swf_updm_keep; [reflexivity|].
  intros m (Hn & Ht & _). by repeat split.
Qed.

Lemma swf_setlayout v s :
  state_wf_but None None s -> state_wf_but None None (setlayout v s).
Proof.
  intros H. unfold setlayout.
  destruct (mons s !! selmon s) as [m|] eqn:Hm; [|exact H]. cbv zeta.
  match goal with
  | |- context [Monitor.set_sellt ?x] => set (sellt := x)
  end.
  assert (Hv : sellt = 0 \/ sellt = 1).
  { destruct H as (Hmw & _). destruct (Hmw _ m Hm) as (_ & _ & _ & _ & _ & _ & _ & Hl).
    unfold sellt.
    match goal with
    | |- context [if ?b then _ else _] => destruct b
    end; [|exact Hl]. destruct Hl as [-> | ->]; by auto. }
  clearbody sellt.
  assert (H1 : state_wf_but None None (updm (selmon s) (Monitor.set_sellt sellt) s))
    by (by apply swf_set_sellt).
  swf_cases.
Qed.

Lemma swf_setmfact f s : state_wf_but None None s -> state_wf_but None None (setmfact f s).
Proof. intros H. unfold setmfact. swf_cases. Qed.

Lemma swf_togglebar s : state_wf_but None None s -> state_wf_but None None (togglebar s).
Proof. intros H. unfold togglebar. swf_cases. Qed.

Lemma swf_quit s : state_wf_but None None s -> state_wf_but None None (quit s).
Proof. intros H. unfold quit. swf_cases. Qed.
#[local] Hint Resolve swf_tagmon swf_focusmon swf_focusstack swf_incnmaster
  swf_setlayout swf_setmfact swf_togglebar swf_quit : swf.

Lemma swf_updatetitle ec es c t s :
  state_wf_but ec es s -> state_wf_but ec es (updatetitle c t s).
Proof. intros H. unfold updatetitle. swf_cases. Qed.

Lemma swf_updatesizehints ec es c sz s :
  state_wf_but ec es s -> state_wf_but ec es (updatesizehints c sz s).
Proof. intros H. unfold updatesizehints. swf_cases. Qed.

Lemma swf_updatewmhints ec es c h s :
  state_wf_but ec es s -> state_wf_but ec es (updatewmhints c h s).
Proof. intros H. unfold updatewmhints. swf_cases. Qed.

Lemma swf_updatewindowtype ec es c f d s :
  state_wf_but ec es s -> state_wf_but ec es (updatewindowtype c f d s).
Proof. intros H. unfold updatewindowtype. swf_cases. Qed.
#[local] Hint Resolve swf_updatetitle swf_updatesizehints swf_updatewmhints
  swf_updatewindowtype : swf.

Lemma swf_configurerequest ev s :
  state_wf_but None None s -> state_wf_but None None (configurerequest ev s).
Proof. intros H. unfold configurerequest. swf_cases. Qed.

Lemma swf_clientmessage w msg s :
  state_wf_but None None s -> state_wf_but None None (clientmessage w msg s).
Proof. intros H. unfold clientmessage. swf_cases. Qed.

Lemma swf_propertynotify w atom deleted p s :
  state_wf_but None None s -> state_wf_but None None (propertynotify w atom deleted p s).
Proof. intros H. unfold propertynotify. destruct w, atom, deleted; swf_cases. Qed.

Lemma swf_enternotify w normal inferior ptr s :
  state_wf_but None None s -> state_wf_but None None (enternotify w normal inferior ptr s).
Proof. intros H. unfold enternotify. swf_cases. Qed.

Lemma swf_motionnotify w x y s :
  state_wf_but None None s -> state_wf_but None None (motionnotify w x y s).
Proof. intros H. unfold motionnotify. swf_cases. Qed.

Lemma swf_refullscreen s : state_wf_but None None s -> state_wf_but None None (refullscreen s).
Proof.
  intros H. unfold refullscreen.
  apply swf_foldl; [|exact H]. intros s1 m H1.
  apply swf_foldl; [|exact H1]. intros s2 c H2. swf_cases.
Qed.
#[local] Hint Resolve swf_configurerequest swf_clientmessage swf_propertynotify
  swf_enternotify swf_motionnotify swf_refullscreen : swf.


(** *** Managing and unmanaging *)

(** A new client is in no list. *)
Lemma swf_alloc cl s :
  is_Some (mons s !! Client.mon cl) ->
  (forall a cl', heap s !! a = Some cl' -> Client.win cl' <> Client.win cl) ->
  state_wf_but None None s ->
  state_wf_but (Some (nextaddr s)) (Some (nextaddr s))
    (set_nextaddr (S (nextaddr s)) (set_heap (<[nextaddr s := cl]> (heap s)) s)).
Proof.
  intros [m0 Hm0] Hw (Hm & Hc & [Hfresh Hwin] & Hsel).
  assert (Hnew : forall a i, mon_of s a = Some i -> a <> nextaddr s).
  { intros a i Ha ->. unfold mon_of in Ha.
    rewrite (Hfresh (nextaddr s)) in Ha by lia. discriminate. }
  split; [|split; [|split]].
  - intros i m Hi. destruct (Hm i m Hi) as (H1 & H2 & H3 & H4 & H5 & H6).
    split; [exact H1|split; [exact H2|split; [|split; [|split; [exact H5|exact H6]]]]].
    + intros a Ha. destruct (H3 a Ha) as [_ Hma]. pose proof (Hnew a i Hma).
      split; [congruence|]. unfold mon_of; simpl.
      rewrite lookup_insert_ne by congruence. exact Hma.
    + intros a Ha. destruct (H4 a Ha) as [_ Hma]. pose proof (Hnew a i Hma).
      split; [congruence|]. unfold mon_of; simpl.
      rewrite lookup_insert_ne by congruence. exact Hma.
  - simpl. intros a cl' Ha. apply lookup_insert_Some in Ha as [[<- <-]|[Hne Ha]].
    + exists m0. by split.
    + destruct (Hc a cl' Ha) as (m & Hmon & H1 & H2).
      exists m. split; [exact Hmon|]. split; intros _; [by apply H1|by apply H2].
  - split; simpl.
    + intros a Ha. rewrite lookup_insert_ne by lia. apply Hfresh. lia.
    + intros a b cla clb Ha Hb He.
      apply lookup_insert_Some in Ha as [[<- <-]|[Hna Ha]];
        apply lookup_insert_Some in Hb as [[<- <-]|[Hnb Hb]].
      * reflexivity.
      * by destruct (Hw b clb Hb).
      * by destruct (Hw a cla Ha).
      * by apply (Hwin a b cla clb).
  - exact Hsel.
Qed.

(** A client in no list can be freed. *)
Lemma swf_free c s :
  state_wf_but (Some c) (Some c) s ->
  state_wf_but None None (set_heap (delete c (heap s)) s).
Proof.
  intros (Hm & Hc & [Hfresh Hwin] & Hsel). split; [|split; [|split]].
  - intros i m Hi. destruct (Hm i m Hi) as (H1 & H2 & H3 & H4 & H5 & H6).
    split; [exact H1|split; [exact H2|split; [|split; [|split; [exact H5|exact H6]]]]].
    + intros a Ha. destruct (H3 a Ha) as [Hne Hma]. split; [done|].
      unfold mon_of; simpl. rewrite lookup_delete_ne by congruence. exact Hma.
    + intros a Ha. destruct (H4 a Ha) as [Hne Hma]. split; [done|].
      unfold mon_of; simpl. rewrite lookup_delete_ne by congruence. exact Hma.
  - simpl. intros a cl Ha. apply lookup_delete_Some in Ha as [Hne Ha].
    destruct (Hc a cl Ha) as (m & Hmon & H1 & H2).
    exists m. split; [exact Hmon|]. split; intros _; [apply H1|apply H2]; congruence.
  - split; simpl.
    + intros a Ha. apply lookup_delete_None. right. by apply Hfresh.
    + intros a b cla clb Ha Hb.
      apply lookup_delete_Some in Ha as [_ Ha].
      apply lookup_delete_Some in Hb as [_ Hb]. by apply Hwin.
  - exact Hsel.
Qed.
#[local] Hint Resolve swf_free : swf.

Lemma swf_applyrule c class instance r s :
  state_wf_but (Some c) (Some c) s ->
  state_wf_but (Some c) (Some c) (applyrule c class instance s r).
Proof.
  intros H. unfold applyrule.
  destruct (heap s !! c) as [cl|]; [|exact H].
  destruct (_ && _); [|exact H]. cbv zeta.
  match goal with
  | |- context [list_find ?P (mons ?s1)] =>
      assert (H1 : state_wf_but (Some c) (Some c) s1) by eauto with swf;
      destruct (list_find P (mons s1)) as [[mi m]|] eqn:Hf; [|exact H1]
  end.
  apply swf_updc_but; [|done|exact H1].
  intros cl1 _. apply list_find_Some in Hf as (Hmi & _). by exists m.
Qed.

Lemma swf_applyrules c res_class res_name s :
  state_wf_but (Some c) (Some c) s ->
  state_wf_but (Some c) (Some c) (applyrules c res_class res_name s).
Proof.
  intros H. unfold applyrules. cbv zeta.
  match goal with
  | |- context [foldl ?f ?s0 ?l] =>
      assert (H1 : state_wf_but (Some c) (Some c) (foldl f s0 l));
      [apply swf_foldl; [intros; by apply swf_applyrule|eauto with swf]|];
      generalize dependent (foldl f s0 l)
  end.
  intros s1 H1. swf_cases.
Qed.
#[local] Hint Resolve swf_applyrules : swf.

Lemma mons_applyrule c class instance r s :
  mons (applyrule c class instance s r) = mons s.
Proof.
  unfold applyrule. destruct (heap s !! c); [|reflexivity].
  destruct (_ && _); [|reflexivity]. cbv zeta.
  by destruct (list_find _ _) as [[? ?]|].
Qed.

Lemma mons_applyrules c res_class res_name s :
  mons (applyrules c res_class res_name s) = mons s.
Proof.
  unfold applyrules. cbv zeta.
  match goal with
  | |- context [foldl ?f ?s0 ?l] =>
      assert (H1 : mons (foldl f s0 l) = mons s);
      [|generalize dependent (foldl f s0 l)]
  end.
  - generalize config.rules. intros rules.
    change (mons s) with
      (mons (updc c (fun cl => Client.set_tags 0 (Client.set_isfloating false cl)) s)).
    generalize (updc c (fun cl => Client.set_tags 0 (Client.set_isfloating false cl)) s).
    induction rules as [|r rules IH]; intros s0; simpl; [reflexivity|].
    by rewrite IH, mons_applyrule.
  - intros s1 H1. by destruct (heap s1 !! c ≫= _).
Qed.

Lemma mons_updatetitle c t s : mons (updatetitle c t s) = mons s.
Proof. unfold updatetitle. repeat case_match; reflexivity. Qed.

Lemma wintoclient_None w s :
  state_wf_but None None s -> wintoclient w s = None ->
  forall a cl, heap s !! a = Some cl -> Client.win cl <> w.
Proof.
  intros (_ & Hc & _) Hw a cl Ha He.
  destruct (Hc a cl Ha) as (m & Hm & H1 & _). specialize (H1 ltac:(done)).
  unfold wintoclient in Hw.
  assert (Hin : In a (concat (Monitor.clients <$> mons s))).
  { apply in_concat. exists (Monitor.clients m).
    split; [|by apply list_elem_of_In]. apply list_elem_of_In, list_elem_of_fmap.
    exists m. split; [reflexivity|]. by eapply list_elem_of_lookup_2. }
  pose proof (find_none _ _ Hw a Hin) as Hf. simpl in Hf.
  rewrite Ha in Hf. apply Z.eqb_neq in Hf. contradiction.
Qed.

(** [manage] is for a window that has no client yet. *)
Lemma swf_manage w wa p s :
  wintoclient w s = None ->
  state_wf_but None None s -> state_wf_but None None (manage w wa p s).
Proof.
  intros Hw H. unfold manage. cbv zeta.
  set (c := nextaddr s).
  set (t := WinProps.transient_for p ≫= _).
  set (cl := Client.mk _ _ _ _ _ _ _ _ _ _ _ _ _ _ _ _ _ _ _ _ _ _ _ _ _ _ _ _ _ _).
  set (s1 := set_nextaddr (S c) (set_heap (<[c:=cl]> (heap s)) s)).
  match goal with
  | |- context [match t with Some _ => updatetitle c ?n s1 | None => ?a end] =>
      set (s2 := match t with Some _ => updatetitle c n s1 | None => a end)
  end.
  destruct (mons s !! Client.mon cl) as [m0|] eqn:Hm0.
  - assert (H1 : state_wf_but (Some c) (Some c) s1).
    { apply swf_alloc; [done| |exact H]. intros a cl' Ha.
      by apply (wintoclient_None w s H Hw a cl'). }
    assert (H2 : state_wf_but (Some c) (Some c) s2)
      by (unfold s2; destruct t; eauto with swf).
    clearbody s2. clear H1.
    destruct (heap s2 !! c ≫= _) as [m|]; [|exact H].
    match goal with
    | |- context [attachstack c ?s3] =>
        assert (H3 : state_wf_but None None (attachstack c s3)) by eauto 12 with swf;
        generalize dependent (attachstack c s3)
    end.
    intros s4 H4. destruct (mon_of s4 c) as [mi|] eqn:Hmc; [|exact H].
    apply swf_focus, swf_arrange, swf_set_sel; [|exact H4].
    intros m' a Hm' [= <-]. unfold mon_of in Hmc.
    destruct (heap s4 !! c) as [cl4|] eqn:Hc4; [|discriminate].
    injection Hmc as <-. destruct H4 as (_ & Hc & _).
    destruct (Hc c cl4 Hc4) as (m4 & Hm4 & _ & Hst).
    rewrite Hm' in Hm4. injection Hm4 as <-. by apply Hst.
  - assert (Hs2 : mons s2 = mons s).
    { unfold s2. destruct t; [by rewrite mons_updatetitle|].
      by rewrite mons_applyrules, mons_updatetitle. }
    assert (Hnil : mons s = []).
    { destruct H as (_ & Hc & _ & Hsel). unfold cl in Hm0. simpl in Hm0.
      destruct t as [tcl|] eqn:Ht; simpl in Hm0.
      - unfold t in Ht. destruct (WinProps.transient_for p) as [trans|]; [|discriminate].
        simpl in Ht. destruct (wintoclient trans s) as [ta|]; [|discriminate].
        simpl in Ht. destruct (Hc ta tcl Ht) as (m & Hm & _). congruence.
      - destruct Hsel as [Hlt|[Hn _]]; [|exact Hn].
        apply lookup_lt_is_Some in Hlt. destruct Hlt as [m Hm]. congruence. }
    clearbody s2. destruct (heap s2 !! c) as [cl2|]; simpl; [|exact H].
    by rewrite Hs2, Hnil.
Qed.

Lemma swf_unmanage c s :
  state_wf_but None None s -> state_wf_but None None (unmanage c s).
Proof. intros H. unfold unmanage. swf_cases. Qed.
#[local] Hint Resolve swf_manage swf_unmanage : swf.

Lemma swf_maprequest w wa p s :
  state_wf_but None None s -> state_wf_but None None (maprequest w wa p s).
Proof.
  intros H. unfold maprequest. destruct wa as [wa|]; [|exact H].
  destruct (XWindowAttributes.override_redirect wa); [exact H|].
  destruct (wintoclient w s) eqn:Hw; [exact H|by apply swf_manage].
Qed.
#[local] Hint Resolve swf_maprequest : swf.


(** *** Monitors coming and going *)

(** A new monitor list: the old monitors with their lists and selections,
    then monitors without clients. *)
Lemma swf_set_mons ec es extra ms s :
  Forall2 (fun m m' => lists_of m' = lists_of m
                       /\ (mon_scalars_ok m -> mon_scalars_ok m'))
          (mons s ++ extra) ms ->
  Forall (fun m => lists_of m = ([], [], None) /\ mon_scalars_ok m) extra ->
  state_wf_but ec es s -> state_wf_but ec es (set_mons ms s).
Proof.
  intros HR Hx (Hm & Hc & Hfresh & Hsel). split; [|split; [|split]].
  - simpl. intros i m' Hi.
    destruct (Forall2_lookup_r _ _ _ _ _ HR Hi) as (m & Hl & Hl1 & Hl2).
    unfold lists_of in Hl1. injection Hl1 as E1 E2 E3.
    unfold mon_wf. rewrite E1, E2, E3.
    apply lookup_app_Some in Hl as [Hl|[_ Hl]].
    + destruct (Hm i m Hl) as (H1 & H2 & H3 & H4 & H5 & H6).
      exact (conj H1 (conj H2 (conj H3 (conj H4 (conj H5 (Hl2 H6)))))).
    + destruct (proj1 (Forall_lookup _ _) Hx _ _ Hl) as [Hn Hq].
      unfold lists_of in Hn. injection Hn as -> -> ->.
      split; [constructor|split; [constructor|]].
      split; [by intros a Ha%elem_of_nil|split; [by intros a Ha%elem_of_nil|]].
      split; [done|by apply Hl2].
  - simpl. intros a cl Ha. destruct (Hc a cl Ha) as (m & Hmon & H1 & H2).
    destruct (Forall2_lookup_l _ _ _ _ _ HR (lookup_app_l_Some _ extra _ _ Hmon))
      as (m' & Hl & Hl1 & _).
    unfold lists_of in Hl1. injection Hl1 as E1 E2 _.
    exists m'. rewrite E1, E2. by split.
  - exact Hfresh.
  - unfold mon_index_ok in *. simpl.
    apply Forall2_length in HR. rewrite length_app in HR.
    destruct Hsel as [Hs|[Hs ->]]; [left; lia|].
    destruct ms as [|m ms]; [by right|left; simpl; lia].
Qed.

Lemma lists_of_setgeom bh i u m : lists_of (setgeom bh i u m) = lists_of m.
Proof.
  unfold setgeom, updatebarpos. cbv zeta.
  by repeat match goal with
            | |- context [if ?b then _ else _] => destruct b
            end.
Qed.

Lemma scalars_setgeom bh i u m :
  mon_scalars_ok m -> mon_scalars_ok (setgeom bh i u m).
Proof.
  unfold setgeom, updatebarpos, mon_scalars_ok. cbv zeta.
  by repeat match goal with
            | |- context [if ?b then _ else _] => destruct b
            end.
Qed.

Lemma updategeom_set_lists bh n unique :
  forall ms i,
    Forall2 (fun m m' => lists_of m' = lists_of m
                         /\ (mon_scalars_ok m -> mon_scalars_ok m'))
            ms (fst (updategeom_set bh n i unique ms)).
Proof.
  assert (Hrefl : forall ms : list Monitor.t,
             Forall2 (fun m m' => lists_of m' = lists_of m
                                  /\ (mon_scalars_ok m -> mon_scalars_ok m')) ms ms).
  { intros ms. apply Forall2_same_length_lookup. split; [done|].
    intros j m m' H1 H2. rewrite H1 in H2. by injection H2 as <-. }
  induction unique as [|u unique IH]; intros ms i; [destruct ms; apply Hrefl|].
  destruct ms as [|m ms]; [apply Hrefl|]. cbn [updategeom_set].
  specialize (IH ms (S i)).
  destruct (updategeom_set bh n (S i) unique ms) as [rest dirty]. cbn [fst] in IH.
  destruct (_ || _); cbn [fst]; constructor; try exact IH; [|done].
  split; [apply lists_of_setgeom|apply scalars_setgeom].
Qed.

Lemma lists_of_createmon : lists_of createmon = ([], [], None).
Proof. reflexivity. Qed.

Lemma scalars_createmon : mon_scalars_ok createmon.
Proof. unfold mon_scalars_ok. vm_compute. repeat split; auto; discriminate. Qed.


(** The client list of the monitor at position [i]. *)
Lemma clients_updm_keep i j f s :
  (forall m, Monitor.clients (f m) = Monitor.clients m) ->
  Monitor.clients <$> mons (updm j f s) !! i = Monitor.clients <$> mons s !! i.
Proof.
  intros Hf. unfold updm; simpl. destruct (decide (i = j)) as [->|Hne].
  - rewrite list_lookup_alter_eq. destruct (mons s !! j); simpl; [|done].
    by rewrite Hf.
  - by rewrite list_lookup_alter_ne.
Qed.

Lemma clients_detachstack i c s :
  Monitor.clients <$> mons (detachstack c s) !! i = Monitor.clients <$> mons s !! i.
Proof.
  destruct (mon_of s c) as [mi|] eqn:Hmc.
  - destruct (detachstack_updm c s mi Hmc) as (g & Hg & ->).
    apply clients_updm_keep. intros m. by destruct (Hg m) as (-> & _).
  - unfold detachstack. by rewrite Hmc.
Qed.

Lemma clients_attachstack i c s :
  Monitor.clients <$> mons (attachstack c s) !! i = Monitor.clients <$> mons s !! i.
Proof.
  unfold attachstack. destruct (mon_of s c); [|reflexivity].
  by apply clients_updm_keep.
Qed.

Lemma clients_attach_ne i c s :
  mon_of s c <> Some i ->
  Monitor.clients <$> mons (attach c s) !! i = Monitor.clients <$> mons s !! i.
Proof.
  intros Hne. unfold attach. destruct (mon_of s c) as [mi|]; [|reflexivity].
  unfold updm; simpl. rewrite list_lookup_alter_ne; [reflexivity|congruence].
Qed.

(** Taking the first client off the list of its monitor is [detach]. *)
Lemma detach_head c rest last m s :
  mons s !! last = Some m -> Monitor.clients m = c :: rest ->
  mon_of s c = Some last ->
  updm last (Monitor.set_clients rest) s = detach c s.
Proof.
  intros Hm Hcs Hmc. unfold detach. rewrite Hmc.
  unfold updm, set_mons. f_equal. apply list_alter_ext; [|done].
  intros m' Hm'. rewrite Hm in Hm'. injection Hm' as <-.
  rewrite Hcs. simpl. by rewrite decide_True.
Qed.

Lemma swf_migrate last cs :
  forall s m,
    state_wf_but None None s ->
    mons s !! last = Some m -> Monitor.clients m = cs -> last <> 0%nat ->
    state_wf_but None None (migrate last cs s)
    /\ Monitor.clients <$> mons (migrate last cs s) !! last = Some []
    /\ length (mons (migrate last cs s)) = length (mons s)
    /\ selmon (migrate last cs s) = selmon s.
Proof.
  induction cs as [|c rest IH]; intros s m H Hm Hcs Hl; simpl.
  { by rewrite Hm, <- Hcs. }
  assert (Hmc : mon_of s c = Some last).
  { destruct H as (Hmw & _). destruct (Hmw _ m Hm) as (_ & _ & H3 & _).
    apply H3. rewrite Hcs. apply elem_of_cons. by left. }
  rewrite (detach_head c rest last m s Hm Hcs Hmc).
  set (s1 := detachstack c (detach c s)).
  assert (H1 : state_wf_but (Some c) (Some c) s1) by (unfold s1; eauto with swf).
  assert (Hlen1 : length (mons s1) = length (mons s))
    by (unfold s1; by rewrite length_mons_detachstack, length_mons_detach).
  assert (Hcl1 : Monitor.clients <$> mons s1 !! last = Some rest).
  { unfold s1. rewrite clients_detachstack.
    rewrite <- (detach_head c rest last m s Hm Hcs Hmc).
    rewrite (lookup_mons_updm_Some last _ s last m Hm).
    by rewrite decide_True. }
  assert (Hsel1 : selmon s1 = selmon s).
  { unfold s1. rewrite selmon_detachstack. unfold detach. by destruct (mon_of s c). }
  clearbody s1.
  set (s2 := updc c (Client.set_mon 0%nat) s1).
  assert (H2 : state_wf_but (Some c) (Some c) s2).
  { apply swf_updc_but; [|done|exact H1]. intros cl _. simpl.
    apply lookup_lt_is_Some. rewrite Hlen1.
    apply lookup_lt_Some in Hm. lia. }
  assert (Hmc2 : mon_of s2 c <> Some last).
  { unfold s2, mon_of. rewrite lookup_updc_eq.
    destruct (heap s1 !! c); simpl; congruence. }
  assert (Hcl2 : Monitor.clients <$> mons s2 !! last = Some rest) by exact Hcl1.
  assert (Hlen2 : length (mons s2) = length (mons s)) by exact Hlen1.
  assert (Hsel2 : selmon s2 = selmon s) by exact Hsel1.
  clearbody s2.
  set (s3 := attachstack c (attach c s2)).
  assert (H3 : state_wf_but None None s3) by (unfold s3; eauto with swf).
  assert (Hcl3 : Monitor.clients <$> mons s3 !! last = Some rest)
    by (unfold s3; by rewrite clients_attachstack, clients_attach_ne).
  assert (Hlen3 : length (mons s3) = length (mons s))
    by (unfold s3; by rewrite length_mons_attachstack, length_mons_attach).
  assert (Hsel3 : selmon s3 = selmon s).
  { unfold s3. rewrite selmon_attachstack. unfold attach. by destruct (mon_of s2 c). }
  clearbody s3.
  destruct (mons s3 !! last) as [m3|] eqn:Hm3; [|discriminate].
  injection Hcl3 as Hcl3.
  destruct (IH s3 m3 H3 Hm3 Hcl3 Hl) as (G1 & G2 & G3 & G4).
  split; [exact G1|split; [exact G2|split; congruence]].
Qed.

(** The last monitor can go when it has no client. *)
Lemma swf_take last s m :
  state_wf_but None None s ->
  last = pred (length (mons s)) ->
  mons s !! last = Some m -> Monitor.clients m = [] ->
  selmon s <> last \/ selmon s = 0%nat ->
  state_wf_but None None (set_mons (take last (mons s)) s).
Proof.
  intros (Hm & Hc & Hfresh & Hsel) Hl Hlast Hcs Hs.
  assert (Hlen : length (mons s) = S last).
  { apply lookup_lt_Some in Hlast. lia. }
  assert (Hmon : forall a cl, heap s !! a = Some cl -> (Client.mon cl < last)%nat).
  { intros a cl Ha. destruct (Hc a cl Ha) as (m' & Hm' & H1 & _).
    destruct (decide (Client.mon cl = last)) as [He|Hne].
    - rewrite He, Hlast in Hm'. injection Hm' as <-.
      specialize (H1 ltac:(done)). rewrite Hcs in H1. by apply elem_of_nil in H1.
    - apply lookup_lt_Some in Hm'. lia. }
  split; [|split; [|split]].
  - intros i m' Hi. change (take last (mons s) !! i = Some m') in Hi.
    apply lookup_take_Some in Hi as [Hi _]. exact (Hm i m' Hi).
  - intros a cl Ha. change (heap s !! a = Some cl) in Ha.
    destruct (Hc a cl Ha) as (m' & Hm' & H1 & H2).
    exists m'. split; [|by split].
    change (take last (mons s) !! Client.mon cl = Some m').
    rewrite lookup_take_lt; [exact Hm'|]. by apply (Hmon a cl).
  - exact Hfresh.
  - unfold mon_index_ok.
    change (mons (set_mons (take last (mons s)) s)) with (take last (mons s)).
    change (selmon (set_mons (take last (mons s)) s)) with (selmon s).
    rewrite length_take, Hlen.
    destruct (decide (last = 0%nat)) as [He|Hne].
    + right. rewrite He. split; [reflexivity|].
      destruct Hsel as [Hlt|[_ ->]]; [|reflexivity]. lia.
    + left. destruct Hs as [Hs| ->]; [|lia].
      destruct Hsel as [Hlt|[Hn _]]; [lia|]. rewrite Hn in Hlen. discriminate.
Qed.

Lemma swf_updategeom_shrink k :
  forall s, state_wf_but None None s ->
            state_wf_but None None (fst (updategeom_shrink k s)).
Proof.
  induction k as [|k IH]; intros s H; simpl; [exact H|].
  destruct (mons s !! pred (length (mons s))) as [m|] eqn:Hm; [|exact H].
  destruct (bool_decide (pred (length (mons s)) = 0%nat)
            && negb (bool_decide (Monitor.clients m = []))) eqn:Hg; [exact H|].
  match goal with
  | |- context [updategeom_shrink k ?s1] =>
      assert (H1 : state_wf_but None None s1); [|specialize (IH s1 H1);
                                                 destruct (updategeom_shrink k s1); exact IH]
  end.
  set (last := pred (length (mons s))) in *.
  assert (Hmig : state_wf_but None None (migrate last (Monitor.clients m) s)
                 /\ Monitor.clients <$> mons (migrate last (Monitor.clients m) s) !! last
                    = Some []
                 /\ length (mons (migrate last (Monitor.clients m) s)) = length (mons s)
                 /\ selmon (migrate last (Monitor.clients m) s) = selmon s).
  { apply andb_false_iff in Hg as [Hg|Hg].
    - apply (swf_migrate last _ s m H Hm eq_refl). by apply bool_decide_eq_false in Hg.
    - apply negb_false_iff, bool_decide_eq_true in Hg. rewrite Hg. simpl.
      split; [exact H|split; [|by split]]. rewrite Hm. simpl. by rewrite Hg. }
  destruct Hmig as (G1 & G2 & G3 & G4).
  generalize dependent (migrate last (Monitor.clients m) s). intros s1 G1 G2 G3 G4.
  destruct (mons s1 !! last) as [m1|] eqn:Hm1; [|discriminate]. injection G2 as G2.
  assert (Hl1 : last = pred (length (mons s1))) by (unfold last; by rewrite G3).
  destruct (bool_decide (selmon s1 = last)) eqn:Hb.
  - apply (swf_take last (set_selmon 0%nat s1) m1);
      [|exact Hl1|exact Hm1|exact G2|by right].
    apply swf_set_selmon; [|exact G1]. left. apply lookup_lt_Some in Hm1. lia.
  - apply (swf_take last s1 m1); [exact G1|exact Hl1|exact Hm1|exact G2|].
    left. by apply bool_decide_eq_false in Hb.
Qed.

Lemma swf_updategeom xinerama ptr s :
  state_wf_but None None s ->
  state_wf_but None None (fst (updategeom xinerama ptr s)).
Proof.
  intros H. unfold updategeom.
  match goal with
  | |- context [let '(_, _) := ?e in _] =>
      assert (H1 : state_wf_but None None (fst e));
      [|destruct e as [s1 []]; [|exact H1]]
  end.
  - destruct xinerama as [info|].
    + cbv zeta. destruct (bool_decide _); [|by apply swf_updategeom_shrink].
      match goal with
      | |- context [updategeom_set ?a ?b ?c ?d ?e] =>
          pose proof (updategeom_set_lists a b d e c) as Hs;
          destruct (updategeom_set a b c d e) as [ms dirty]
      end.
      cbn [fst] in *. eapply swf_set_mons; [exact Hs| |exact H].
      apply Forall_replicate. split; [apply lists_of_createmon|apply scalars_createmon].
    + cbv zeta.
      set (s0 := if bool_decide (mons s = []) then _ else s).
      assert (H0 : state_wf_but None None s0).
      { unfold s0. destruct (bool_decide (mons s = [])) eqn:Hb; [|exact H].
        apply bool_decide_eq_true in Hb.
        apply (swf_set_mons _ _ [createmon]); [| |exact H].
        - rewrite Hb. simpl. constructor; [by split|constructor].
        - constructor; [|constructor].
          split; [apply lists_of_createmon|apply scalars_createmon]. }
      clearbody s0. destruct (mons s0 !! 0%nat) as [m|]; [|exact H0].
      destruct (_ || _); [|exact H0]. cbn [fst]. eauto with swf.
  - cbn [fst] in *. cbv zeta. apply swf_set_selmon.
    + by eapply wintomon_index_ok, swf_set_selmon;
        [destruct H1 as (_ & _ & _ & [Hs|[Hs _]]);
         [left; lia|right; by split]|exact H1].
    + apply swf_set_selmon; [|exact H1].
      destruct H1 as (_ & _ & _ & [Hs|[Hs _]]); [left; lia|right; by split].
Qed.

Lemma swf_configurenotify w width height xinerama ptr s :
  state_wf_but None None s ->
  state_wf_but None None (configurenotify w width height xinerama ptr s).
Proof.
  intros H. unfold configurenotify. destruct (bool_decide _); [|exact H].
  cbv zeta.
  pose proof (swf_updategeom xinerama ptr (set_screen width height s) H) as H1.
  destruct (updategeom _ _ _) as [s1 changed]. simpl in H1.
  destruct (_ || _); [|exact H1]. eauto with swf.
Qed.

(** *** Drags, keys and buttons *)

Lemma mon_index_ok_length s s' v :
  length (mons s') = length (mons s) -> mon_index_ok s v -> mon_index_ok s' v.
Proof.
  unfold mon_index_ok. intros Hl [H|[H ->]]; [left; lia|right].
  split; [|reflexivity]. rewrite H in Hl. by apply nil_length_inv.
Qed.

Lemma length_mons_frame s s' : frame s s' -> length (mons s') = length (mons s).
Proof. intros [_ H]. by rewrite <- (length_fmap mtag), H, length_fmap. Qed.

Lemma length_mons_sendmon c mi s : length (mons (sendmon c mi s)) = length (mons s).
Proof.
  unfold sendmon. destruct (heap s !! c); [|reflexivity].
  destruct (mons s !! mi); [|reflexivity]. destruct (decide _); [reflexivity|].
  cbv zeta.
  rewrite (length_mons_frame _ _ (frame_arrange _ _ None (frame_focus _ _ None
                                                            (frame_refl _)))).
  by rewrite length_mons_attachstack, length_mons_attach, mons_updc,
    length_mons_detachstack, length_mons_detach.
Qed.

Lemma swf_drag_release c s :
  state_wf_but None None s -> state_wf_but None None (drag_release c s).
Proof.
  intros H. unfold drag_release.
  destruct (heap s !! c) as [cl|]; [|exact H]. cbv zeta.
  destruct (bool_decide _); [exact H|].
  apply swf_focus, swf_set_selmon; [|by apply swf_sendmon].
  apply (mon_index_ok_length s); [apply length_mons_sendmon|].
  by eapply recttomon_index_ok.
Qed.
#[local] Hint Resolve swf_drag_release : swf.

Lemma swf_movemouse_step c ocx ocy x y st ev :
  state_wf_but None None (snd st) ->
  state_wf_but None None (snd (movemouse_step c ocx ocy x y st ev)).
Proof.
  destruct st as [lasttime s]. simpl. intros H. unfold movemouse_step.
  destruct ev; simpl; try exact H; [by apply swf_configurerequest
                                   | by apply swf_maprequest |].
  repeat match goal with
         | |- context [if ?b then _ else _] => destruct b eqn:?; simpl
         | |- context [match ?x with Some _ => _ | None => _ end] =>
             destruct x eqn:?; simpl
         end; eauto 6 with swf.
Qed.

Lemma swf_resizemouse_step c ocx ocy st ev :
  state_wf_but None None (snd st) ->
  state_wf_but None None (snd (resizemouse_step c ocx ocy st ev)).
Proof.
  destruct st as [lasttime s]. simpl. intros H. unfold resizemouse_step.
  destruct ev; simpl; try exact H; [by apply swf_configurerequest
                                   | by apply swf_maprequest |].
  repeat match goal with
         | |- context [if ?b then _ else _] => destruct b eqn:?; simpl
         | |- context [match ?x with Some _ => _ | None => _ end] =>
             destruct x eqn:?; simpl
         end; eauto 6 with swf.
Qed.

Lemma swf_foldl_snd {A} (f : Z * State -> A -> Z * State) (l : list A) :
  (forall st a, state_wf_but None None (snd st) -> state_wf_but None None (snd (f st a))) ->
  forall st, state_wf_but None None (snd st) -> state_wf_but None None (snd (foldl f st l)).
Proof.
  intros Hf. induction l as [|a l IH]; intros st H; simpl; [exact H|].
  apply IH, Hf, H.
Qed.

Lemma swf_movemouse d s : state_wf_but None None s -> state_wf_but None None (movemouse d s).
Proof.
  intros H. unfold movemouse.
  destruct (mons s !! selmon s ≫= Monitor.sel) as [c|]; [|exact H].
  destruct (heap s !! c) as [cl|]; [|exact H].
  destruct (Client.isfullscreen cl); [exact H|].
  destruct (negb (Drag.grab_ok d)); [exact H|].
  destruct (Drag.rootptr d) as [[x y]|]; [|exact H].
  pose proof (swf_foldl_snd (movemouse_step c (Client.x cl) (Client.y cl) x y)
                (Drag.events d)
                (fun st a => swf_movemouse_step c _ _ x y st a) (0, s) H) as Hf.
  destruct (foldl _ _ _) as [t s']. simpl in Hf. by apply swf_drag_release.
Qed.

Lemma swf_resizemouse d s : state_wf_but None None s -> state_wf_but None None (resizemouse d s).
Proof.
  intros H. unfold resizemouse.
  destruct (mons s !! selmon s ≫= Monitor.sel) as [c|]; [|exact H].
  destruct (heap s !! c) as [cl|]; [|exact H].
  destruct (Client.isfullscreen cl); [exact H|].
  destruct (negb (Drag.grab_ok d)); [exact H|].
  pose proof (swf_foldl_snd (resizemouse_step c (Client.x cl) (Client.y cl))
                (Drag.events d)
                (fun st a => swf_resizemouse_step c _ _ st a) (0, s) H) as Hf.
  destruct (foldl _ _ _) as [t s']. simpl in Hf. by apply swf_drag_release.
Qed.
#[local] Hint Resolve swf_movemouse swf_resizemouse : swf.

Lemma swf_call f a d s : state_wf_but None None s -> state_wf_but None None (call f a d s).
Proof. intros H. destruct f; simpl; eauto with swf. Qed.

Lemma swf_keypress keysym state nlm d s :
  state_wf_but None None s -> state_wf_but None None (keypress keysym state nlm d s).
Proof.
  intros H. unfold keypress. apply swf_foldl; [|exact H].
  intros s0 [[[mod_ sym] f] a] H0. destruct (_ && _); [by apply swf_call|exact H0].
Qed.

Lemma swf_buttonpress w ptr region button state nlm d s :
  state_wf_but None None s ->
  state_wf_but None None (buttonpress w ptr region button state nlm d s).
Proof.
  intros H. unfold buttonpress. cbv zeta.
  set (s1 := if bool_decide _ then s else _).
  assert (H1 : state_wf_but None None s1) by (unfold s1; swf_cases).
  clearbody s1.
  destruct (if bool_decide (w = BarWin (selmon s1)) then _ else _)
    as [[click arg] s2] eqn:E.
  assert (H2 : state_wf_but None None s2).
  { destruct (bool_decide (w = BarWin (selmon s1))).
    - destruct region; [destruct (bool_decide _)|..]; by injection E as _ _ <-.
    - destruct (match w with Win w0 => wintoclient w0 s1 | _ => None end);
        injection E as _ _ <-; eauto with swf. }
  apply swf_foldl; [|exact H2].
  intros s0 [[[[bclick mask] bbutton] f] a] H0.
  destruct (_ && _); [by apply swf_call|exact H0].
Qed.

Lemma swf_handler ev s : state_wf_but None None s -> state_wf_but None None (handler ev s).
Proof.
  intros H. destruct ev; simpl; try exact H.
  - by apply swf_buttonpress.
  - by apply swf_clientmessage.
  - by apply swf_configurerequest.
  - by apply swf_configurenotify.
  - destruct (wintoclient _ _); [by apply swf_unmanage|exact H].
  - by apply swf_enternotify.
  - by apply swf_keypress.
  - by apply swf_maprequest.
  - by apply swf_motionnotify.
  - by apply swf_propertynotify.
  - destruct (wintoclient _ _); [|exact H].
    destruct send_event; [exact H|by apply swf_unmanage].
Qed.

Lemma swf_setup sw sh fh xinerama ptr :
  state_wf_but None None (setup sw sh fh xinerama ptr).
Proof.
  unfold setup. cbv zeta. apply swf_focus, swf_updategeom.
  split; [|split; [|split]]; simpl.
  - intros i m Hi. discriminate.
  - intros a cl Ha. by rewrite lookup_empty in Ha.
  - split; [intros a _; apply lookup_empty|].
    intros a b cla clb Ha. simpl in Ha. by rewrite lookup_empty in Ha.
  - by right.
Qed.

Lemma reachable_state_wf s : reachable s -> state_wf s.
Proof.
  induction 1 as [|s ev _ IH _]; [apply swf_setup|by apply swf_handler].
Qed.


(** *** The focus stacks *)

Lemma state_wf_stacks_wf s : state_wf s -> stacks_wf s.
Proof.
  intros (Hm & _ & [Hfresh _] & _). split; [|split; [|exact Hfresh]].
  - apply Forall_lookup. intros i l Hl. unfold stacks in Hl.
    rewrite list_lookup_fmap in Hl.
    destruct (mons s !! i) as [m|] eqn:Hi; [|discriminate]. injection Hl as <-.
    by destruct (Hm i m Hi) as (_ & H2 & _).
  - intros i l a Hl Ha. unfold stacks in Hl. rewrite list_lookup_fmap in Hl.
    destruct (mons s !! i) as [m|] eqn:Hi; [|discriminate]. injection Hl as <-.
    destruct (Hm i m Hi) as (_ & _ & _ & H4 & _). by apply H4.
Qed.

Lemma reachable_stacks_wf s : reachable s -> stacks_wf s.
Proof. intros H. by apply state_wf_stacks_wf, reachable_state_wf. Qed.

Lemma stacks_wf_owned s : stacks_wf s -> stack_owned s.
Proof.
  intros (_ & Hown & _) m a cl Hm Ha Hcl.
  assert (Hl : stacks s !! selmon s = Some (Monitor.stack m))
    by (unfold stacks; by rewrite list_lookup_fmap, Hm).
  destruct (Hown _ _ a Hl Ha) as [_ Hmon]. unfold mon_of in Hmon.
  rewrite Hcl in Hmon. simpl in Hmon. congruence.
Qed.

(** C7: in every state the window manager can reach, for a mask with a
    tag of the configuration in it, a second [view] of the same mask right
    after the first changes nothing: the mask is the active tagset already
    and the call returns at once, so the selected tagset and both tagset
    slots are those the first call left. *)
Theorem view_twice s M :
  reachable s ->
  Z.land M TAGMASK <> 0 ->
  view M (view M s) = view M s.
Proof.
  intros Hr HM. apply view_twice_owned; [|exact HM].
  by apply stacks_wf_owned, reachable_stacks_wf.
Qed.

Lemma view_twice_witness :
  reachable ex_one_client
  /\ Z.land 2 TAGMASK <> 0
  /\ view 2 (view 2 ex_one_client) = view 2 ex_one_client.
Proof.
  assert (Hr : reachable ex_one_client).
  { apply reachable_step; [apply reachable_setup|reflexivity]. }
  assert (HM : Z.land 2 TAGMASK <> 0) by (vm_compute; discriminate).
  split; [exact Hr|split; [exact HM|]].
  exact (view_twice ex_one_client 2 Hr HM).
Defined.

(** ** What holds in every state the window manager reaches *)

(** X1: in every reachable state no client is twice in the client list
    of a monitor or twice in its focus stack, and every client of either
    list is allocated and has [mon] pointing to that monitor. *)
Theorem reachable_lists_sound s i m :
  reachable s -> mons s !! i = Some m ->
  NoDup (Monitor.clients m) /\ NoDup (Monitor.stack m)
  /\ (forall a, a ∈ Monitor.clients m \/ a ∈ Monitor.stack m ->
        exists cl, heap s !! a = Some cl /\ Client.mon cl = i).
Proof.
  intros Hr Hi. destruct (reachable_state_wf s Hr) as (Hm & _).
  destruct (Hm i m Hi) as (H1 & H2 & H3 & H4 & _).
  split; [exact H1|split; [exact H2|]].
  intros a Ha.
  assert (Hmon : mon_of s a = Some i)
    by (destruct Ha as [Ha|Ha]; [by apply H3|by apply H4]).
  unfold mon_of in Hmon. destruct (heap s !! a) as [cl|]; [|discriminate].
  exists cl. split; [reflexivity|]. simpl in Hmon. congruence.
Qed.

Lemma reachable_lists_sound_witness :
  exists m, mons ex_one_client !! 0%nat = Some m
            /\ NoDup (Monitor.clients m) /\ NoDup (Monitor.stack m)
            /\ (forall a, a ∈ Monitor.clients m \/ a ∈ Monitor.stack m ->
                  exists cl, heap ex_one_client !! a = Some cl
                             /\ Client.mon cl = 0%nat).
Proof.
  eexists. split; [vm_compute; reflexivity|].
  apply (reachable_lists_sound ex_one_client 0%nat).
  - apply reachable_step; [apply reachable_setup|reflexivity].
  - vm_compute; reflexivity.
Defined.

(** X2: in every reachable state the monitor of every allocated client
    is in the monitor list, and the client is in the client list and in
    the focus stack of that monitor. *)
Theorem reachable_clients_listed s a cl :
  reachable s -> heap s !! a = Some cl ->
  exists m, mons s !! Client.mon cl = Some m
            /\ a ∈ Monitor.clients m /\ a ∈ Monitor.stack m.
Proof.
  intros Hr Ha. destruct (reachable_state_wf s Hr) as (_ & Hc & _).
  destruct (Hc a cl Ha) as (m & Hm & H1 & H2).
  exists m. split; [exact Hm|]. split; [by apply H1|by apply H2].
Qed.

Lemma reachable_clients_listed_witness :
  exists cl m, heap ex_one_client !! 0%nat = Some cl
               /\ mons ex_one_client !! Client.mon cl = Some m
               /\ 0%nat ∈ Monitor.clients m /\ 0%nat ∈ Monitor.stack m.
Proof.
  eexists.
  assert (Hr : reachable ex_one_client)
    by (apply reachable_step; [apply reachable_setup|reflexivity]).
  destruct (reachable_clients_listed ex_one_client 0%nat _ Hr
              ltac:(vm_compute; reflexivity)) as (m & H).
  exists m. split; [vm_compute; reflexivity|exact H].
Defined.

(** X3: in every reachable state the client list and the focus stack of
    a monitor hold the same clients, each once: one is a permutation of
    the other. *)
Theorem reachable_clients_stack_perm s i m :
  reachable s -> mons s !! i = Some m ->
  Monitor.clients m ≡ₚ Monitor.stack m.
Proof.
  intros Hr Hi. destruct (reachable_state_wf s Hr) as (Hm & Hc & _).
  destruct (Hm i m Hi) as (H1 & H2 & H3 & H4 & _).
  assert (Hown : forall a, mon_of s a = Some i ->
                           a ∈ Monitor.clients m /\ a ∈ Monitor.stack m).
  { intros a Ha. unfold mon_of in Ha.
    destruct (heap s !! a) as [cl|] eqn:E; [|discriminate]. injection Ha as Ha.
    destruct (Hc a cl E) as (m' & Hm' & G1 & G2).
    rewrite Ha, Hi in Hm'. injection Hm' as <-. split; [by apply G1|by apply G2]. }
  apply NoDup_Permutation; [exact H1|exact H2|].
  intros a. split; intros Ha.
  - by apply Hown, H3.
  - by apply Hown, H4.
Qed.

Lemma reachable_clients_stack_perm_witness :
  exists m, mons ex_one_client !! 0%nat = Some m
            /\ Monitor.clients m ≡ₚ Monitor.stack m.
Proof.
  eexists. split; [vm_compute; reflexivity|].
  apply (reachable_clients_stack_perm ex_one_client 0%nat).
  - apply reachable_step; [apply reachable_setup|reflexivity].
  - vm_compute; reflexivity.
Defined.

(** X4: in every reachable state the selection of a monitor is null or
    a client of the focus stack of that monitor, hence an allocated client
    of that monitor. *)
Theorem reachable_sel_in_stack s i m c :
  reachable s -> mons s !! i = Some m -> Monitor.sel m = Some c ->
  c ∈ Monitor.stack m /\ exists cl, heap s !! c = Some cl /\ Client.mon cl = i.
Proof.
  intros Hr Hi Hs. destruct (reachable_state_wf s Hr) as (Hm & _).
  destruct (Hm i m Hi) as (_ & _ & _ & H4 & H5 & _).
  pose proof (H5 c Hs) as Hin. split; [exact Hin|].
  destruct (H4 c Hin) as [_ Hmon]. unfold mon_of in Hmon.
  destruct (heap s !! c) as [cl|]; [|discriminate].
  exists cl. split; [reflexivity|]. simpl in Hmon. congruence.
Qed.

Lemma reachable_sel_in_stack_witness :
  exists m, mons ex_one_client !! 0%nat = Some m
            /\ Monitor.sel m = Some 0%nat
            /\ 0%nat ∈ Monitor.stack m
            /\ exists cl, heap ex_one_client !! 0%nat = Some cl
                          /\ Client.mon cl = 0%nat.
Proof.
  eexists. split; [vm_compute; reflexivity|]. split; [reflexivity|].
  apply (reachable_sel_in_stack ex_one_client 0%nat).
  - apply reachable_step; [apply reachable_setup|reflexivity].
  - vm_compute; reflexivity.
  - reflexivity.
Defined.

(** X5: in every reachable state with a monitor, [selmon] points to a
    monitor of the list. *)
Theorem reachable_selmon_valid s :
  reachable s -> mons s <> [] -> is_Some (mons s !! selmon s).
Proof.
  intros Hr Hne. destruct (reachable_state_wf s Hr) as (_ & _ & _ & [H|[H _]]).
  - by apply lookup_lt_is_Some.
  - contradiction.
Qed.

Lemma reachable_selmon_valid_witness : is_Some (mons ex_setup2 !! selmon ex_setup2).
Proof.
  apply reachable_selmon_valid; [apply reachable_setup|].
  vm_compute. discriminate.
Defined.

(** X6: in every reachable state [nmaster] of every monitor is not
    negative, and [seltags] and [sellt] are 0 or 1: the two-element arrays
    [tagset] and [lt] are never indexed out of bounds. *)
Theorem reachable_counters s i m :
  reachable s -> mons s !! i = Some m ->
  0 <= Monitor.nmaster m
  /\ (Monitor.seltags m = 0 \/ Monitor.seltags m = 1)
  /\ (Monitor.sellt m = 0 \/ Monitor.sellt m = 1).
Proof.
  intros Hr Hi. destruct (reachable_state_wf s Hr) as (Hm & _).
  by destruct (Hm i m Hi) as (_ & _ & _ & _ & _ & H6).
Qed.

Lemma reachable_counters_witness :
  exists m, mons ex_one_client !! 0%nat = Some m
            /\ 0 <= Monitor.nmaster m
            /\ (Monitor.seltags m = 0 \/ Monitor.seltags m = 1)
            /\ (Monitor.sellt m = 0 \/ Monitor.sellt m = 1).
Proof.
  eexists. split; [vm_compute; reflexivity|].
  apply (reachable_counters ex_one_client 0%nat).
  - apply reachable_step; [apply reachable_setup|reflexivity].
  - vm_compute; reflexivity.
Defined.

(** X7: in every reachable state the two tagsets of every monitor and
    the tags of every client have no bit outside [TAGMASK]. *)
Theorem reachable_tags_in_mask s :
  reachable s ->
  (forall m, m ∈ mons s ->
     Z.land (Monitor.tagset0 m) TAGMASK = Monitor.tagset0 m
     /\ Z.land (Monitor.tagset1 m) TAGMASK = Monitor.tagset1 m)
  /\ (forall c cl, heap s !! c = Some cl ->
        Z.land (Client.tags cl) TAGMASK = Client.tags cl).
Proof.
  intros Hr. destruct (inv_reachable s Hr) as [Hms Hcs]. split.
  - intros m Hm.
    destruct (proj1 (Forall_forall _ _) Hms m Hm) as [[H0 _] [H1 _]]. by split.
  - intros c cl Hc. by destruct (Hcs c cl Hc) as [H _].
Qed.

Lemma reachable_tags_in_mask_witness :
  (forall m, m ∈ mons ex_one_client ->
     Z.land (Monitor.tagset0 m) TAGMASK = Monitor.tagset0 m
     /\ Z.land (Monitor.tagset1 m) TAGMASK = Monitor.tagset1 m)
  /\ (forall c cl, heap ex_one_client !! c = Some cl ->
        Z.land (Client.tags cl) TAGMASK = Client.tags cl).
Proof.
  apply (reachable_tags_in_mask ex_one_client).
  apply reachable_step; [apply reachable_setup|reflexivity].
Defined.

(** X8: in every reachable state no two clients have the same window,
    and [wintoclient] finds the client of a window exactly when a client
    has that window. *)
Theorem reachable_wintoclient s w a :
  reachable s ->
  wintoclient w s = Some a
  <-> exists cl, heap s !! a = Some cl /\ Client.win cl = w.
Proof.
  intros Hr. destruct (reachable_state_wf s Hr) as (_ & Hc & [_ Hwin] & _).
  assert (Hfound : forall b, wintoclient w s = Some b ->
                             exists cl, heap s !! b = Some cl /\ Client.win cl = w).
  { intros b Hb. unfold wintoclient in Hb. apply find_some in Hb as [_ Hb].
    destruct (heap s !! b) as [cl|]; [|discriminate].
    exists cl. split; [reflexivity|]. by apply Z.eqb_eq. }
  split; [apply Hfound|].
  intros (cl & Ha & Hw).
  destruct (wintoclient w s) as [b|] eqn:Hb.
  - destruct (Hfound b eq_refl) as (clb & Hclb & Hwb).
    f_equal. apply (Hwin b a clb cl Hclb Ha). congruence.
  - destruct (wintoclient_None w s (reachable_state_wf s Hr) Hb a cl Ha Hw).
Qed.

Lemma reachable_wintoclient_witness :
  wintoclient 41 ex_one_client = Some 0%nat
  <-> exists cl, heap ex_one_client !! 0%nat = Some cl /\ Client.win cl = 41.
Proof.
  apply reachable_wintoclient.
  apply reachable_step; [apply reachable_setup|reflexivity].
Defined.

(** ** Switching views *)

(** Writing the tag data of the selected monitor, focusing and arranging,
    as [view] and [toggleview] do: the selected monitor stays selected and
    nothing else changes in the tag data. *)
Lemma retag_mtag s g :
  stack_owned s ->
  (forall m, Monitor.stack (g m) = Monitor.stack m) ->
  selmon (arrange (Some (selmon (focus None (updm (selmon s) g s))))
            (focus None (updm (selmon s) g s))) = selmon s
  /\ mtag <$> mons (arrange (Some (selmon (focus None (updm (selmon s) g s))))
                      (focus None (updm (selmon s) g s)))
     = mtag <$> mons (updm (selmon s) g s).
Proof.
  intros Hown Hg.
  set (s1 := updm (selmon s) g s).
  assert (Hown1 : stack_owned s1).
  { intros m1 a cl Hm1 Ha Hcl.
    apply lookup_mons_updm in Hm1 as (m & Hm & [[_ ->]|[_ ->]]).
    - by apply (Hown m a cl).
    - rewrite Hg in Ha. by apply (Hown m a cl). }
  pose proof (selmon_focus_None s1 Hown1) as Hsel.
  pose proof (relayout_arrange _ _ (Some (selmon (focus None s1)))
                (relayout_refl (focus None s1))) as Hr.
  split.
  - by rewrite (relayout_selmon _ _ Hr), Hsel.
  - destruct (frame_arrange s1 _ (Some (selmon (focus None s1)))
                (frame_focus s1 s1 None (frame_refl s1))) as [_ H]. exact H.
Qed.

(** What [view] does to the tag data of a monitor. *)
Lemma view_mtag s M m :
  stack_owned s -> mons s !! selmon s = Some m ->
  Z.land M TAGMASK <> tagset m (Monitor.seltags m) ->
  selmon (view M s) = selmon s
  /\ mtag <$> mons (view M s)
     = alter (fun t =>
                let st := Z.lxor (snd t) 1 in
                if Z.land M TAGMASK =? 0 then (fst t, st)
                else if st =? 0 then (Z.land M TAGMASK, snd (fst t), st)
                     else (fst (fst t), Z.land M TAGMASK, st))
             (selmon s) (mtag <$> mons s).
Proof.
  intros Hown Hm HM. unfold view. rewrite Hm.
  apply Z.eqb_neq in HM. rewrite HM. cbv zeta.
  match goal with
  | |- context [updm (selmon s) ?g s] =>
      destruct (retag_mtag s g Hown) as [H1 H2]
  end.
  { intros m0. destruct (Z.land M TAGMASK =? 0); [reflexivity|].
    unfold set_tagset. by destruct (_ =? 0). }
  split; [exact H1|]. rewrite H2. unfold updm; simpl.
  apply list_fmap_alter, Forall_forall. intros m0 _. unfold mtag; simpl.
  destruct (Z.land M TAGMASK =? 0); [reflexivity|].
  unfold set_tagset; simpl. by destruct (Z.lxor (Monitor.seltags m0) 1 =? 0).
Qed.

Lemma reachable_stack_owned s : reachable s -> stack_owned s.
Proof. intros H. by apply stacks_wf_owned, reachable_stacks_wf. Qed.

Lemma lxor_1_twice z : Z.lxor (Z.lxor z 1) 1 = z.
Proof. by rewrite Z.lxor_assoc, Z.lxor_nilpotent, Z.lxor_0_r. Qed.

(** X9: in every reachable state, switching to the previous tagset twice
    ([view] with an empty mask, the binding of Mod-Tab) brings back the
    tag data of all monitors: the tagsets and the selected slot. *)
Theorem view_previous_twice s :
  reachable s ->
  mtag <$> mons (view 0 (view 0 s)) = mtag <$> mons s
  /\ selmon (view 0 (view 0 s)) = selmon s.
Proof.
  intros Hr.
  destruct (mons s !! selmon s) as [m|] eqn:Hm;
    [|unfold view; by rewrite !Hm].
  assert (Hne : forall s0 m0, tags_inv s0 -> mons s0 !! selmon s0 = Some m0 ->
                  Z.land 0 TAGMASK <> tagset m0 (Monitor.seltags m0)).
  { intros s0 m0 [Hms _] Hm0. rewrite Z.land_0_l. apply not_eq_sym, tagset_ok.
    apply (proj1 (Forall_forall _ _) Hms). by eapply list_elem_of_lookup_2. }
  pose proof (inv_reachable s Hr) as Hinv.
  destruct (view_mtag s 0 m (reachable_stack_owned s Hr) Hm (Hne s m Hinv Hm))
    as [Hs1 Ht1].
  assert (Hwf1 : state_wf (view 0 s)) by (by apply swf_view, reachable_state_wf).
  destruct (mons (view 0 s) !! selmon (view 0 s)) as [m1|] eqn:Hm1.
  - destruct (view_mtag (view 0 s) 0 m1) as [Hs2 Ht2];
      [by apply stacks_wf_owned, state_wf_stacks_wf|exact Hm1| |].
    { apply (Hne (view 0 s)); [by apply inv_view|exact Hm1]. }
    split; [|congruence].
    rewrite Ht2, Hs1, Ht1, list_alter_alter_eq. apply list_alter_id.
    intros [[t0 t1] st]. simpl. by rewrite lxor_1_twice.
  - exfalso. apply lookup_lt_Some in Hm. rewrite Hs1 in Hm1.
    apply lookup_ge_None in Hm1.
    apply (f_equal length) in Ht1. rewrite length_alter, !length_fmap in Ht1. lia.
Qed.

Lemma view_previous_twice_witness :
  mtag <$> mons (view 0 (view 0 ex_one_client)) = mtag <$> mons ex_one_client
  /\ selmon (view 0 (view 0 ex_one_client)) = selmon ex_one_client.
Proof.
  apply view_previous_twice.
  apply reachable_step; [apply reachable_setup|reflexivity].
Defined.

(** X10: [view] keeps the previous tagset: in every reachable state,
    after [view] of a mask with a tag in it that is not the active
    tagset, that mask is the active tagset of the selected monitor, and
    [view] with an empty mask then brings back the tagset that was active
    before. *)
Theorem view_then_previous s M m :
  reachable s -> mons s !! selmon s = Some m ->
  Z.land M TAGMASK <> 0 ->
  Z.land M TAGMASK <> tagset m (Monitor.seltags m) ->
  exists m1 m2,
    mons (view M s) !! selmon s = Some m1
    /\ tagset m1 (Monitor.seltags m1) = Z.land M TAGMASK
    /\ mons (view 0 (view M s)) !! selmon s = Some m2
    /\ tagset m2 (Monitor.seltags m2) = tagset m (Monitor.seltags m)
    /\ selmon (view 0 (view M s)) = selmon s.
Proof.
  intros Hr Hm HM0 HM.
  destruct (view_mtag s M m (reachable_stack_owned s Hr) Hm HM) as [Hs1 Ht1].
  apply Z.eqb_neq in HM0 as HM0'. rewrite HM0' in Ht1.
  destruct (reachable_state_wf s Hr) as (Hmw & _).
  destruct (Hmw _ m Hm) as (_ & _ & _ & _ & _ & _ & Hst & _).
  assert (Hl1 : (mtag <$> mons (view M s)) !! selmon s
                = Some (if Z.lxor (Monitor.seltags m) 1 =? 0
                        then (Z.land M TAGMASK, Monitor.tagset1 m,
                              Z.lxor (Monitor.seltags m) 1)
                        else (Monitor.tagset0 m, Z.land M TAGMASK,
                              Z.lxor (Monitor.seltags m) 1))).
  { rewrite Ht1, list_lookup_alter_eq, list_lookup_fmap, Hm. reflexivity. }
  apply list_lookup_fmap_Some in Hl1 as (m1 & Hmt1 & Hm1).
  assert (Hact1 : tagset m1 (Monitor.seltags m1) = Z.land M TAGMASK).
  { unfold tagset. unfold mtag in Hmt1.
    destruct Hst as [E|E]; rewrite E in Hmt1; simpl in Hmt1;
      injection Hmt1 as <- <- <-; reflexivity. }
  assert (Hwf1 : state_wf (view M s)) by (by apply swf_view, reachable_state_wf).
  destruct (view_mtag (view M s) 0 m1) as [Hs2 Ht2];
    [by apply stacks_wf_owned, state_wf_stacks_wf|by rewrite Hs1| |].
  { rewrite Z.land_0_l, Hact1. by apply not_eq_sym. }
  assert (Hl2 : (mtag <$> mons (view 0 (view M s))) !! selmon s
                = Some (fst (mtag m1), Z.lxor (snd (mtag m1)) 1)).
  { rewrite Ht2, Hs1, list_lookup_alter_eq, list_lookup_fmap, Hm1. reflexivity. }
  apply list_lookup_fmap_Some in Hl2 as (m2 & Hmt2 & Hm2).
  exists m1, m2. split; [exact Hm1|split; [exact Hact1|split; [exact Hm2|split]]];
    [|congruence].
  rewrite <- Hmt1 in Hmt2. unfold tagset. unfold mtag in Hmt2.
  destruct Hst as [E|E]; rewrite E in *; simpl in Hmt2;
    injection Hmt2 as E0 E1 E2; rewrite <- E0, <- E1, <- E2; reflexivity.
Qed.

Lemma view_then_previous_witness :
  exists m m1 m2,
    mons ex_one_client !! selmon ex_one_client = Some m
    /\ mons (view 2 ex_one_client) !! selmon ex_one_client = Some m1
    /\ tagset m1 (Monitor.seltags m1) = Z.land 2 TAGMASK
    /\ mons (view 0 (view 2 ex_one_client)) !! selmon ex_one_client = Some m2
    /\ tagset m2 (Monitor.seltags m2) = tagset m (Monitor.seltags m)
    /\ selmon (view 0 (view 2 ex_one_client)) = selmon ex_one_client.
Proof.
  eexists.
  assert (Hr : reachable ex_one_client)
    by (apply reachable_step; [apply reachable_setup|reflexivity]).
  destruct (view_then_previous ex_one_client 2 _ Hr ltac:(vm_compute; reflexivity)
              ltac:(vm_compute; discriminate) ltac:(vm_compute; discriminate))
    as (m1 & m2 & H).
  exists m1, m2. split; [vm_compute; reflexivity|exact H].
Defined.

(** What [toggleview] does to the tag data of a monitor, when it does
    not refuse. *)
Lemma toggleview_mtag s ui m :
  stack_owned s -> mons s !! selmon s = Some m ->
  Z.lxor (tagset m (Monitor.seltags m)) (Z.land ui TAGMASK) <> 0 ->
  selmon (toggleview ui s) = selmon s
  /\ mtag <$> mons (toggleview ui s)
     = alter (fun t =>
                if snd t =? 0
                then (Z.lxor (fst (fst t)) (Z.land ui TAGMASK), snd (fst t), snd t)
                else (fst (fst t), Z.lxor (snd (fst t)) (Z.land ui TAGMASK), snd t))
             (selmon s) (mtag <$> mons s).
Proof.
  intros Hown Hm Hne. unfold toggleview. rewrite Hm. cbv zeta.
  apply Z.eqb_neq in Hne. rewrite Hne.
  match goal with
  | |- context [updm (selmon s) ?g s] =>
      destruct (retag_mtag s g Hown) as [H1 H2]
  end.
  { intros m0. unfold set_tagset. by destruct (Monitor.seltags m =? 0). }
  split; [exact H1|]. rewrite H2. unfold updm; simpl.
  apply list_eq. intros j. rewrite !list_lookup_fmap.
  destruct (decide (j = selmon s)) as [->|Hj].
  - rewrite !list_lookup_alter_eq, list_lookup_fmap, Hm. simpl. f_equal.
    unfold mtag, set_tagset, tagset; simpl. by destruct (Monitor.seltags m =? 0).
  - by rewrite !list_lookup_alter_ne, list_lookup_fmap by done.
Qed.

(** X11: in every reachable state, toggling the same tags of the view
    twice brings back the tag data of all monitors; when the first
    [toggleview] is refused, so is the second. *)
Theorem toggleview_twice s ui :
  reachable s ->
  mtag <$> mons (toggleview ui (toggleview ui s)) = mtag <$> mons s
  /\ selmon (toggleview ui (toggleview ui s)) = selmon s.
Proof.
  intros Hr.
  destruct (mons s !! selmon s) as [m|] eqn:Hm;
    [|unfold toggleview; by rewrite !Hm].
  destruct (decide (Z.lxor (tagset m (Monitor.seltags m)) (Z.land ui TAGMASK) = 0))
    as [E|Hne].
  { assert (Hs : toggleview ui s = s)
      by (unfold toggleview; rewrite Hm; cbv zeta; by rewrite E).
    by rewrite !Hs. }
  destruct (toggleview_mtag s ui m (reachable_stack_owned s Hr) Hm Hne) as [Hs1 Ht1].
  assert (Hwf1 : state_wf (toggleview ui s))
    by (by apply swf_toggleview, reachable_state_wf).
  assert (Hl1 : (mtag <$> mons (toggleview ui s)) !! selmon s
                = Some (if Monitor.seltags m =? 0
                        then (Z.lxor (Monitor.tagset0 m) (Z.land ui TAGMASK),
                              Monitor.tagset1 m, Monitor.seltags m)
                        else (Monitor.tagset0 m,
                              Z.lxor (Monitor.tagset1 m) (Z.land ui TAGMASK),
                              Monitor.seltags m))).
  { rewrite Ht1, list_lookup_alter_eq, list_lookup_fmap, Hm. reflexivity. }
  apply list_lookup_fmap_Some in Hl1 as (m1 & Hmt1 & Hm1).
  assert (Hact : Z.lxor (tagset m1 (Monitor.seltags m1)) (Z.land ui TAGMASK)
                 = tagset m (Monitor.seltags m)).
  { unfold tagset, mtag in *.
    destruct (Monitor.seltags m =? 0) eqn:E; injection Hmt1 as E0 E1 E2;
      rewrite <- E2, E, <- ?E0, <- ?E1;
      by rewrite Z.lxor_assoc, Z.lxor_nilpotent, Z.lxor_0_r. }
  destruct (toggleview_mtag (toggleview ui s) ui m1) as [Hs2 Ht2];
    [by apply stacks_wf_owned, state_wf_stacks_wf|by rewrite Hs1| |].
  { rewrite Hact. destruct (inv_reachable s Hr) as [Hms _]. apply tagset_ok.
    apply (proj1 (Forall_forall _ _) Hms). by eapply list_elem_of_lookup_2. }
  split; [|congruence].
  rewrite Ht2, Hs1, Ht1, list_alter_alter_eq. apply list_alter_id.
  intros [[t0 t1] st]. simpl. destruct (st =? 0) eqn:E; simpl; rewrite E;
    by rewrite Z.lxor_assoc, Z.lxor_nilpotent, Z.lxor_0_r.
Qed.

Lemma toggleview_twice_witness :
  mtag <$> mons (toggleview 6 (toggleview 6 ex_one_client))
  = mtag <$> mons ex_one_client
  /\ selmon (toggleview 6 (toggleview 6 ex_one_client)) = selmon ex_one_client.
Proof.
  apply toggleview_twice.
  apply reachable_step; [apply reachable_setup|reflexivity].
Defined.

(** ** Keys, buttons and the event loop *)

Lemma CLEANMASK_locks nlm state :
  CLEANMASK nlm (Z.lor state (Z.lor nlm LockMask)) = CLEANMASK nlm state.
Proof.
  unfold CLEANMASK. f_equal. apply Z.bits_inj'. intros n Hn.
  rewrite !Z.land_spec, Z.lor_spec, Z.lnot_spec by exact Hn.
  by destruct (Z.testbit state n), (Z.testbit (Z.lor nlm LockMask) n).
Qed.

(** X12: Caps Lock and Num Lock do not matter to the bindings: a key
    press or a button press with [LockMask] and the Num Lock modifier set
    in its state is handled as the same press without them. *)
Theorem bindings_ignore_locks keysym w ptr region button state nlm d s :
  keypress keysym (Z.lor state (Z.lor nlm LockMask)) nlm d s
  = keypress keysym state nlm d s
  /\ buttonpress w ptr region button (Z.lor state (Z.lor nlm LockMask)) nlm d s
     = buttonpress w ptr region button state nlm d s.
Proof.
  unfold keypress, buttonpress. by rewrite CLEANMASK_locks.
Qed.

(** A key press whose symbol no binding of [l] names calls nothing. *)
Lemma keypress_fold_skip keysym state nlm d s (l : list (Z * Z * Func * Arg)) :
  Forall (fun k => k.1.1.2 <> keysym) l ->
  foldl (fun s k =>
           let '(mod_, sym, f, a) := k in
           if (keysym =? sym) && (CLEANMASK nlm mod_ =? CLEANMASK nlm state)
           then call f a d s else s) s l = s.
Proof.
  induction 1 as [|[[[mod_ sym] f] a] l Hk _ IH]; [reflexivity|].
  cbn [foldl]. simpl in Hk.
  destruct (Z.eqb_spec keysym sym) as [->|_]; [done|]. exact IH.
Qed.

Lemma quit_idle s : running s = false -> quit s = s.
Proof. destruct s. unfold quit, set_running. simpl. by intros ->. Qed.

(** Lock bits in the state of a press do not survive [CLEANMASK]. *)
Lemma CLEANMASK_lock_bits nlm state locks :
  Z.land locks (Z.lor nlm LockMask) = locks ->
  CLEANMASK nlm (Z.lor state locks) = CLEANMASK nlm state.
Proof.
  intros Hl. unfold CLEANMASK. f_equal. apply Z.bits_inj'. intros n Hn.
  rewrite !Z.land_spec, Z.lor_spec, Z.lnot_spec by exact Hn.
  apply (f_equal (fun z => Z.testbit z n)) in Hl. rewrite Z.land_spec in Hl.
  by destruct (Z.testbit state n), (Z.testbit locks n),
       (Z.testbit (Z.lor nlm LockMask) n).
Qed.

(** The key press [state] on [XK_q] that cleans to Mod-Shift calls
    [quit], and the loop handles nothing after it. *)
Lemma quit_key_run state nlm d evs s :
  CLEANMASK nlm state = CLEANMASK nlm (Z.lor MODKEY ShiftMask) ->
  run (KeyPress XK_q state nlm d :: evs) s = quit s.
Proof.
  intros Hclean.
  assert (Hq : forall evs' s', running s' = false -> run evs' s' = s').
  { intros evs'. unfold run.
    induction evs' as [|ev evs' IH]; intros s' Hr; cbn [foldl]; [reflexivity|].
    rewrite Hr. by apply IH. }
  match goal with
  | |- run (?ev :: _) _ = _ =>
      change (run evs (if running s then handler ev s else s) = quit s)
  end.
  destruct (running s) eqn:Hr; [|by rewrite quit_idle, Hq].
  cbn [handler]. unfold keypress.
  change keys with (removelast keys ++ [(Z.lor MODKEY ShiftMask, XK_q, Fquit, Arg0)]).
  rewrite foldl_app, (keypress_fold_skip _ _ _ _ _ (removelast keys)).
  - cbn [foldl]. cbv beta iota. rewrite Z.eqb_refl, Hclean, Z.eqb_refl. cbn [andb call].
    by apply Hq.
  - apply (bool_decide_unpack _). by vm_compute.
Qed.

(** X13: the key Mod-Shift-q ends the event loop, with or without Caps
    Lock and Num Lock: from any state, [run] on that key press, plain or
    with any lock bits (bits of [LockMask] and of the Num Lock modifier)
    added to its state, followed by any events, leaves the state as
    [quit] leaves it and handles none of the events after it. *)
Theorem quit_key_ends_run nlm d evs s :
  run (KeyPress XK_q (Z.lor MODKEY ShiftMask) nlm d :: evs) s = quit s
  /\ run (KeyPress XK_q (Z.lor (Z.lor MODKEY ShiftMask) LockMask) nlm d :: evs) s
     = quit s
  /\ run (KeyPress XK_q (Z.lor (Z.lor MODKEY ShiftMask) nlm) nlm d :: evs) s
     = quit s
  /\ run (KeyPress XK_q (Z.lor (Z.lor MODKEY ShiftMask) (Z.lor nlm LockMask)) nlm d
            :: evs) s
     = quit s
  /\ forall locks,
       Z.land locks (Z.lor nlm LockMask) = locks ->
       run (KeyPress XK_q (Z.lor (Z.lor MODKEY ShiftMask) locks) nlm d :: evs) s
       = quit s.
Proof.
  assert (Hall : forall locks,
             Z.land locks (Z.lor nlm LockMask) = locks ->
             run (KeyPress XK_q (Z.lor (Z.lor MODKEY ShiftMask) locks) nlm d :: evs) s
             = quit s).
  { intros locks Hl. by apply quit_key_run, CLEANMASK_lock_bits. }
  split; [by apply quit_key_run|].
  assert (Habs : forall a b, Z.land a (Z.lor a b) = a).
  { intros a b. apply Z.bits_inj'. intros n Hn.
    rewrite Z.land_spec, Z.lor_spec. by destruct (Z.testbit a n). }
  split; [apply Hall|split; [apply Hall|split; [apply Hall|exact Hall]]].
  - by rewrite (Z.lor_comm nlm).
  - apply Habs.
  - apply Z.land_diag.
Qed.

Lemma quit_key_ends_run_witness :
  run [KeyPress XK_q (Z.lor MODKEY ShiftMask) Mod2Mask ex_nodrag;
       MapRequest 41 (Some ex_wa) ex_props] ex_setup
  = quit ex_setup
  /\ run [KeyPress XK_q (Z.lor (Z.lor MODKEY ShiftMask) Mod2Mask) Mod2Mask ex_nodrag;
          MapRequest 41 (Some ex_wa) ex_props] ex_setup
     = quit ex_setup.
Proof.
  destruct (quit_key_ends_run Mod2Mask ex_nodrag [MapRequest 41 (Some ex_wa) ex_props]
              ex_setup) as (Hplain & _ & _ & _ & Hlocks).
  split; [exact Hplain|]. apply Hlocks. reflexivity.
Defined.

(** ** Size hints, once more *)

(** The last steps of [applysizehints]: whatever the size is after the
    aspect and increment corrections, the minimum and then the maximum are
    applied to it. *)
Lemma applysizehints_clamped s m c x y w h interact :
  exists w0 h0,
    snd (fst (fst (applysizehints s m c x y w h interact)))
    = (if Client.maxw c =? 0 then Z.max (w0 + Client.basew c) (Client.minw c)
       else Z.min (Z.max (w0 + Client.basew c) (Client.minw c)) (Client.maxw c))
    /\ snd (fst (applysizehints s m c x y w h interact))
       = (if Client.maxh c =? 0 then Z.max (h0 + Client.baseh c) (Client.minh c)
          else Z.min (Z.max (h0 + Client.baseh c) (Client.minh c)) (Client.maxh c)).
Proof.
  unfold applysizehints. cbv zeta.
  change (config.resizehints || Client.isfloating c
          || negb (bool_decide (is_Some (cur_arrange m)))) with true.
  cbv iota.
  repeat match goal with
         | |- context [let '(_, _) := ?e in _] =>
             lazymatch e with
             | context [let '(_, _) := _ in _] => fail
             | _ => destruct e
             end
         end.
  simpl. eexists _, _. split; reflexivity.
Qed.

(** X14: the size [applysizehints] returns respects the maximum size of
    the client where one is given, and its minimum size where the maximum
    allows it, whatever the proposed geometry and the other hints are. *)
Theorem applysizehints_bounds s m c x y w h interact :
  (Client.maxw c <> 0 ->
   snd (fst (fst (applysizehints s m c x y w h interact))) <= Client.maxw c)
  /\ (Client.maxh c <> 0 ->
      snd (fst (applysizehints s m c x y w h interact)) <= Client.maxh c)
  /\ (Client.maxw c = 0 \/ Client.minw c <= Client.maxw c ->
      Client.minw c <= snd (fst (fst (applysizehints s m c x y w h interact))))
  /\ (Client.maxh c = 0 \/ Client.minh c <= Client.maxh c ->
      Client.minh c <= snd (fst (applysizehints s m c x y w h interact))).
Proof.
  destruct (applysizehints_clamped s m c x y w h interact) as (w0 & h0 & -> & ->).
  destruct (Z.eqb_spec (Client.maxw c) 0), (Z.eqb_spec (Client.maxh c) 0);
    repeat split; lia.
Qed.

Lemma hint_dim_grid bh base inc min max v :
  0 < inc -> base <= Z.max (Z.max 1 v) bh ->
  hint_dim bh base inc min max v = min
  \/ hint_dim bh base inc min max v = max
  \/ (Z.rem (hint_dim bh base inc min max v - base) inc = 0
      /\ Z.max (Z.max 1 v) bh - inc < hint_dim bh base inc min max v
         <= Z.max (Z.max 1 v) bh).
Proof.
  intros Hinc Hbase. unfold hint_dim. cbv zeta.
  replace (if Z.max 1 v <? bh then bh else Z.max 1 v) with (Z.max (Z.max 1 v) bh)
    by (destruct (Z.ltb_spec (Z.max 1 v) bh); lia).
  set (V := Z.max (Z.max 1 v) bh) in *.
  assert (Hi : (inc =? 0) = false) by (apply Z.eqb_neq; lia). rewrite Hi.
  pose proof (Z.rem_bound_pos (V - base) inc ltac:(lia) Hinc) as Hr.
  assert (Hg : Z.rem (V - base - Z.rem (V - base) inc + base - base) inc = 0).
  { pose proof (Z.quot_rem' (V - base) inc) as Hq.
    replace (V - base - Z.rem (V - base) inc + base - base)
      with ((V - base) ÷ inc * inc) by lia.
    apply Z.rem_mul. lia. }
  destruct (Z.max_spec (V - base - Z.rem (V - base) inc + base) min) as [[_ E]|[_ E]];
    rewrite E; destruct (max =? 0);
    try (destruct (Z.min_spec min max) as [[_ E']|[_ E']]; rewrite E');
    try (destruct (Z.min_spec (V - base - Z.rem (V - base) inc + base) max)
           as [[_ E']|[_ E']]; rewrite E');
    auto.
  all: right; right; split; [exact Hg|lia].
Qed.

(** X15: for a client without aspect hints, with a positive width
    increment and a base width not above the proposed width (the latter
    raised to 1 and to the bar height), the width [applysizehints] returns
    is the minimum width, the maximum width, or the largest width on the
    increment grid of the client (base width plus a multiple of the
    increment) that is not above the raised proposed width; likewise for
    the height, under the same conditions on the height hints. *)
Theorem applysizehints_on_grid s m c x y w h interact :
  no_aspect c ->
  (0 < Client.incw c -> Client.basew c <= Z.max (Z.max 1 w) (bh s) ->
   snd (fst (fst (applysizehints s m c x y w h interact))) = Client.minw c
   \/ snd (fst (fst (applysizehints s m c x y w h interact))) = Client.maxw c
   \/ (Z.rem (snd (fst (fst (applysizehints s m c x y w h interact)))
              - Client.basew c) (Client.incw c) = 0
       /\ Z.max (Z.max 1 w) (bh s) - Client.incw c
          < snd (fst (fst (applysizehints s m c x y w h interact)))
          <= Z.max (Z.max 1 w) (bh s)))
  /\ (0 < Client.inch c -> Client.baseh c <= Z.max (Z.max 1 h) (bh s) ->
      snd (fst (applysizehints s m c x y w h interact)) = Client.minh c
      \/ snd (fst (applysizehints s m c x y w h interact)) = Client.maxh c
      \/ (Z.rem (snd (fst (applysizehints s m c x y w h interact))
                 - Client.baseh c) (Client.inch c) = 0
          /\ Z.max (Z.max 1 h) (bh s) - Client.inch c
             < snd (fst (applysizehints s m c x y w h interact))
             <= Z.max (Z.max 1 h) (bh s))).
Proof.
  intros Hna.
  pose proof (applysizehints_size s m c x y w h interact Hna) as Hs.
  destruct (applysizehints s m c x y w h interact) as [[[[x' y'] w'] h'] fl].
  destruct Hs as [-> ->]. simpl.
  split; intros Hi Hb; by apply hint_dim_grid.
Qed.

Lemma applysizehints_on_grid_witness :
  let r := applysizehints (ex_state []) (ex_monitor [])
             (ex_client true 1 0 0 80 16 0 0 80 16) 10 20 837 409 true in
  (snd (fst (fst r)) = 80 \/ snd (fst (fst r)) = 0
   \/ (Z.rem (snd (fst (fst r)) - 0) 80 = 0 /\ 837 - 80 < snd (fst (fst r)) <= 837))
  /\ (snd (fst r) = 16 \/ snd (fst r) = 0
      \/ (Z.rem (snd (fst r) - 0) 16 = 0 /\ 409 - 16 < snd (fst r) <= 409)).
Proof.
  destruct (applysizehints_on_grid (ex_state []) (ex_monitor [])
              (ex_client true 1 0 0 80 16 0 0 80 16) 10 20 837 409 true)
    as [Hw Hh]; [by vm_compute|].
  split; [apply Hw|apply Hh]; vm_compute; (reflexivity || discriminate).
Defined.

(** ** Layouts *)

(** X16: [arrange] changes nothing but the geometry of clients (the
    current one and the saved one) and the layout symbols of monitors:
    with those blanked, the state after is the state before.  The lists,
    the selections, the tags and the flags are as they were. *)
Theorem arrange_changes_geometry_only m s : strip (arrange m s) = strip s.
Proof. exact (relayout_arrange s s m (relayout_refl s)). Qed.

Lemma ISVISIBLE_frame s s' cl : frame s s' -> ISVISIBLE s' cl = ISVISIBLE s cl.
Proof.
  intros [_ Hm]. unfold ISVISIBLE.
  assert (Hl : mtag <$> mons s' !! Client.mon cl = mtag <$> mons s !! Client.mon cl)
    by (by rewrite <- !list_lookup_fmap, Hm).
  destruct (mons s' !! Client.mon cl) as [m'|], (mons s !! Client.mon cl) as [m|];
    try discriminate; [|reflexivity].
  simpl in Hl. assert (Hl' : mtag m' = mtag m) by congruence.
  by rewrite (tagset_mtag m m' Hl').
Qed.

Lemma tile_loop_skip s a cl m n mw cs :
  Client.isfloating cl = true \/ ISVISIBLE s cl = false ->
  forall i my ty s0,
    frame s s0 -> heap s0 !! a = Some cl ->
    heap (tile_loop m n mw cs i my ty s0) !! a = Some cl.
Proof.
  intros Hskip. induction cs as [|c cs IH]; intros i my ty s0 Hf Ha; simpl; [exact Ha|].
  destruct (heap s0 !! c) as [cl0|] eqn:Hc; [|by apply IH].
  destruct (negb (Client.isfloating cl0) && ISVISIBLE s0 cl0) eqn:Ht; [|by apply IH].
  assert (Hne : c <> a).
  { intros ->. rewrite Ha in Hc. injection Hc as <-.
    rewrite (ISVISIBLE_frame s s0 cl Hf) in Ht.
    destruct Hskip as [E|E]; rewrite E in Ht; simpl in Ht;
      [discriminate|by rewrite andb_false_r in Ht]. }
  destruct (i <? u32 (Monitor.nmaster m)); apply IH;
    try (by rewrite resize_lookup_ne);
    by apply frame_resize.
Qed.

Lemma monocle_loop_skip s a cl m cs :
  Client.isfloating cl = true \/ ISVISIBLE s cl = false ->
  forall s0,
    frame s s0 -> heap s0 !! a = Some cl ->
    heap (monocle_loop m cs s0) !! a = Some cl.
Proof.
  intros Hskip. induction cs as [|c cs IH]; intros s0 Hf Ha; simpl; [exact Ha|].
  destruct (heap s0 !! c) as [cl0|] eqn:Hc; [|by apply IH].
  destruct (negb (Client.isfloating cl0) && ISVISIBLE s0 cl0) eqn:Ht; [|by apply IH].
  assert (Hne : c <> a).
  { intros ->. rewrite Ha in Hc. injection Hc as <-.
    rewrite (ISVISIBLE_frame s s0 cl Hf) in Ht.
    destruct Hskip as [E|E]; rewrite E in Ht; simpl in Ht;
      [discriminate|by rewrite andb_false_r in Ht]. }
  apply IH; [by apply frame_resize|by rewrite resize_lookup_ne].
Qed.

(** X17: the layouts [tile] and [monocle] leave a floating client and a
    hidden client exactly as they are. *)
Theorem layouts_skip_floating_and_hidden s mi a cl :
  heap s !! a = Some cl ->
  Client.isfloating cl = true \/ ISVISIBLE s cl = false ->
  heap (tile mi s) !! a = Some cl /\ heap (monocle mi s) !! a = Some cl.
Proof.
  intros Ha Hskip. split.
  - unfold tile. destruct (mons s !! mi) as [m|]; [|exact Ha]. cbv zeta.
    destruct (_ =? 0); [exact Ha|].
    by apply (tile_loop_skip s); [|apply frame_refl|].
  - unfold monocle. destruct (mons s !! mi) as [m|]; [|exact Ha]. cbv zeta.
    apply (monocle_loop_skip s); [exact Hskip| |].
    + destruct (0 <? _); [|apply frame_refl]. by apply frame_updm, frame_refl.
    + by destruct (0 <? _).
Qed.

Lemma layouts_skip_floating_and_hidden_witness :
  heap (tile 0 (ex_state [ex_client true 1 0 0 0 0 0 0 0 0])) !! 0%nat
  = Some (ex_client true 1 0 0 0 0 0 0 0 0)
  /\ heap (monocle 0 (ex_state [ex_client true 1 0 0 0 0 0 0 0 0])) !! 0%nat
     = Some (ex_client true 1 0 0 0 0 0 0 0 0).
Proof.
  apply layouts_skip_floating_and_hidden; [reflexivity|by left].
Defined.

Lemma monocle_loop_other m a cs :
  a ∉ cs -> forall s0, heap (monocle_loop m cs s0) !! a = heap s0 !! a.
Proof.
  induction cs as [|c cs IH]; intros Hnin s0; simpl; [reflexivity|].
  apply not_elem_of_cons in Hnin as [Hne Hnin].
  destruct (heap s0 !! c) as [cl0|]; [|by apply IH].
  destruct (_ && _); [|by apply IH].
  rewrite IH by exact Hnin. by apply resize_lookup_ne.
Qed.

Lemma monocle_loop_fills m a cl cs :
  Client.isfloating cl = false -> unrestricted cl -> 0 <= Client.bw cl ->
  forall s0 m0,
    NoDup cs -> a ∈ cs ->
    heap s0 !! a = Some cl -> mons s0 !! Client.mon cl = Some m0 ->
    (Monitor.wx m0, Monitor.wy m0, Monitor.ww m0, Monitor.wh m0)
    = (Monitor.wx m, Monitor.wy m, Monitor.ww m, Monitor.wh m) ->
    ISVISIBLE s0 cl = true ->
    Z.max 1 (bh s0) <= Monitor.ww m - 2 * Client.bw cl ->
    Z.max 1 (bh s0) <= Monitor.wh m - 2 * Client.bw cl ->
    exists cl',
      heap (monocle_loop m cs s0) !! a = Some cl'
      /\ geom cl' = (Monitor.wx m, Monitor.wy m,
                     Monitor.ww m - 2 * Client.bw cl, Monitor.wh m - 2 * Client.bw cl).
Proof.
  intros Hfl Hu Hbw. induction cs as [|c cs IH];
    intros s0 m0 Hnd Hin Ha Hm0 Hg Hv Hw Hh; [by apply elem_of_nil in Hin|].
  apply NoDup_cons in Hnd as [Hnin Hnd]. simpl.
  destruct (decide (c = a)) as [->|Hne].
  - rewrite Ha, Hfl, Hv. simpl. rewrite monocle_loop_other by exact Hnin.
    injection Hg as G1 G2 G3 G4.
    destruct (resize_slot s0 a cl m0 (Monitor.wx m) (Monitor.wy m)
                (Monitor.ww m - 2 * Client.bw cl) (Monitor.wh m - 2 * Client.bw cl)
                Ha Hm0 Hu) as (cl' & Hl & Hgeo & _); try lia.
    by exists cl'.
  - apply elem_of_cons in Hin as [->|Hin]; [done|].
    destruct (heap s0 !! c) as [cl0|]; [|by apply (IH s0 m0)].
    destruct (_ && _); [|by apply (IH s0 m0)].
    match goal with
    | |- context [resize c ?x ?y ?w ?h false s0] =>
        destruct (resize_globals s0 c x y w h false) as (Hmons & _ & Hbar & _);
        apply (IH (resize c x y w h false s0) m0); try assumption;
        [by rewrite resize_lookup_ne|by rewrite Hmons
        |by rewrite (ISVISIBLE_mons _ _ _ Hmons)|by rewrite Hbar|by rewrite Hbar]
    end.
Qed.

(** X18: [monocle] gives a tiled client without size hints the whole
    window area of its monitor, less its border, when that is at least as
    large as the bar is high. *)
Theorem monocle_fills s mi m a cl :
  mons s !! mi = Some m ->
  NoDup (Monitor.clients m) -> a ∈ Monitor.clients m ->
  heap s !! a = Some cl -> tiled_on s mi cl -> unrestricted cl ->
  0 <= Client.bw cl ->
  Z.max 1 (bh s) <= Monitor.ww m - 2 * Client.bw cl ->
  Z.max 1 (bh s) <= Monitor.wh m - 2 * Client.bw cl ->
  exists cl',
    heap (monocle mi s) !! a = Some cl'
    /\ geom cl' = (Monitor.wx m, Monitor.wy m,
                   Monitor.ww m - 2 * Client.bw cl, Monitor.wh m - 2 * Client.bw cl).
Proof.
  intros Hm Hnd Hin Ha (Hmon & Hfl & Hv) Hu Hbw Hw Hh.
  unfold monocle. rewrite Hm. cbv zeta.
  set (s0 := if 0 <? _ then _ else s).
  assert (Hs0 : heap s0 = heap s /\ bh s0 = bh s /\ frame s s0
                /\ exists m0, mons s0 !! mi = Some m0
                              /\ (Monitor.wx m0, Monitor.wy m0, Monitor.ww m0,
                                  Monitor.wh m0)
                                 = (Monitor.wx m, Monitor.wy m, Monitor.ww m,
                                    Monitor.wh m)).
  { unfold s0. destruct (0 <? _).
    - split; [reflexivity|split; [reflexivity|split]];
        [by apply frame_updm, frame_refl|].
      eexists. split.
      + rewrite (lookup_mons_updm_Some mi _ s mi m Hm).
        destruct (decide (mi = mi)); [reflexivity|done].
      + reflexivity.
    - split; [reflexivity|split; [reflexivity|split]]; [apply frame_refl|].
      by exists m. }
  clearbody s0. destruct Hs0 as (Hh0 & Hb0 & Hf0 & m0 & Hm0 & Hg0).
  apply (monocle_loop_fills m a cl (Monitor.clients m) Hfl Hu Hbw s0 m0);
    try assumption.
  - by rewrite Hh0.
  - by rewrite Hmon.
  - by rewrite (ISVISIBLE_frame s s0 cl Hf0).
  - by rewrite Hb0.
  - by rewrite Hb0.
Qed.

Lemma monocle_fills_witness :
  exists cl',
    heap (monocle 0 (ex_state [ex_client false 1 0 0 0 0 0 0 0 0])) !! 0%nat = Some cl'
    /\ geom cl' = (0, 0, 1600 - 2 * 1, 1000 - 2 * 1).
Proof.
  apply (monocle_fills (ex_state [ex_client false 1 0 0 0 0 0 0 0 0]) 0%nat
           (ex_monitor [0%nat]) 0%nat (ex_client false 1 0 0 0 0 0 0 0 0)).
  - reflexivity.
  - apply NoDup_singleton.
  - apply list_elem_of_singleton. reflexivity.
  - reflexivity.
  - repeat split.
  - repeat split.
  - simpl. lia.
  - vm_compute. discriminate.
  - vm_compute. discriminate.
Defined.

(** ** The UTF-8 decoder *)

Lemma utf8_decodebyte_ascii b :
  0 <= b < 128 -> utf8.utf8decodebyte b = (b, 1%nat).
Proof.
  intros Hb. assert (Hin : b ∈ seqZ 0 128) by (apply elem_of_seqZ; lia).
  clear Hb; revert b Hin. apply Forall_forall.
  apply (bool_decide_unpack _). by vm_compute.
Qed.

Lemma utf8_decodebyte_cont r :
  0 <= r < 64 -> utf8.utf8decodebyte (128 + r) = (r, 0%nat).
Proof.
  intros Hr. assert (Hin : r ∈ seqZ 0 64) by (apply elem_of_seqZ; lia).
  clear Hr; revert r Hin. apply Forall_forall.
  apply (bool_decide_unpack _). by vm_compute.
Qed.

Lemma utf8_decodebyte_lead2 r :
  0 <= r < 32 -> utf8.utf8decodebyte (192 + r) = (r, 2%nat).
Proof.
  intros Hr. assert (Hin : r ∈ seqZ 0 32) by (apply elem_of_seqZ; lia).
  clear Hr; revert r Hin. apply Forall_forall.
  apply (bool_decide_unpack _). by vm_compute.
Qed.

Lemma utf8_decodebyte_lead3 r :
  0 <= r < 16 -> utf8.utf8decodebyte (224 + r) = (r, 3%nat).
Proof.
  intros Hr. assert (Hin : r ∈ seqZ 0 16) by (apply elem_of_seqZ; lia).
  clear Hr; revert r Hin. apply Forall_forall.
  apply (bool_decide_unpack _). by vm_compute.
Qed.

Lemma utf8_decodebyte_lead4 r :
  0 <= r < 8 -> utf8.utf8decodebyte (240 + r) = (r, 4%nat).
Proof.
  intros Hr. assert (Hin : r ∈ seqZ 0 8) by (apply elem_of_seqZ; lia).
  clear Hr; revert r Hin. apply Forall_forall.
  apply (bool_decide_unpack _). by vm_compute.
Qed.

(** Six more bits below a value. *)
Lemma lor_shiftl_6 a r : 0 <= a -> 0 <= r < 64 -> Z.lor (Z.shiftl a 6) r = a * 64 + r.
Proof.
  intros Ha Hr. rewrite Z.shiftl_mul_pow2 by lia. change (2 ^ 6) with 64.
  assert (Hl : Z.land (a * 64) r = 0).
  { apply Z.bits_inj'. intros n Hn. rewrite Z.land_spec, Z.bits_0.
    destruct (Z.lt_ge_cases n 6) as [Hlt|Hge].
    - change 64 with (2 ^ 6). by rewrite Z.mul_pow2_bits_low.
    - destruct (Z.eq_dec r 0) as [->|Hr0]; [by rewrite Z.bits_0, andb_false_r|].
      rewrite (Z.bits_above_log2 r n), andb_false_r; [reflexivity|lia|].
      assert (Z.log2 r < 6) by (apply Z.log2_lt_pow2; lia). lia. }
  by rewrite <- Z.lxor_lor, <- Z.add_nocarry_lxor.
Qed.

Lemma utf8decode_loop_step c clen len n j ud r :
  (j < clen)%nat -> (j < len)%nat -> utf8.utf8decodebyte (c j) = (r, 0%nat) ->
  utf8.utf8decode_loop c clen len (S n) j ud
  = utf8.utf8decode_loop c clen len n (S j) (Z.lor (Z.shiftl ud 6) r).
Proof.
  intros H1 H2 Hb. cbn [utf8.utf8decode_loop].
  apply Nat.ltb_lt in H1, H2. by rewrite H1, H2, Hb.
Qed.

Lemma utf8decode_loop_end c clen len n j ud :
  ~ (j < len)%nat -> utf8.utf8decode_loop c clen len n j ud = inr (j, ud).
Proof.
  intros H. destruct n; [reflexivity|]. cbn [utf8.utf8decode_loop].
  apply Nat.ltb_nlt in H. by rewrite H, andb_false_r.
Qed.

Lemma utf8validate_valid u i lo hi :
  utf8.utfmin !! i = Some lo -> utf8.utfmax !! i = Some hi ->
  lo <= u <= hi -> ~ (0xD800 <= u <= 0xDFFF) ->
  fst (utf8.utf8validate u i) = u.
Proof.
  intros Hlo Hhi Hu Hs. unfold utf8.utf8validate, utf8.BETWEEN. rewrite Hlo, Hhi.
  simpl.
  destruct (Z.leb_spec lo u), (Z.leb_spec u hi); try lia.
  destruct (Z.leb_spec 0xD800 u), (Z.leb_spec u 0xDFFF); try lia; reflexivity.
Qed.

Local Ltac zdiv := try lia; Z.div_mod_to_equations; lia.

(** The start of [utf8decode] for a first byte that announces [len]
    bytes. *)
Lemma utf8decode_start c clen ud len :
  (1 <= clen)%nat -> (1 <= len <= 4)%nat ->
  utf8.utf8decodebyte (c 0%nat) = (ud, len) ->
  utf8.utf8decode c clen
  = match utf8.utf8decode_loop c clen len len 1 ud with
    | inl j => (j, utf8.UTF_INVALID)
    | inr (j, udecoded) =>
        if (j <? len)%nat then (0%nat, utf8.UTF_INVALID)
        else (len, fst (utf8.utf8validate udecoded len))
    end.
Proof.
  intros Hc Hl Hb. unfold utf8.utf8decode. rewrite Hb.
  destruct clen; [lia|]. cbn [Nat.eqb].
  unfold utf8.BETWEEN, utf8.UTF_SIZ.
  destruct (Z.leb_spec 1 (Z.of_nat len)), (Z.leb_spec (Z.of_nat len) (Z.of_nat 4));
    try lia. reflexivity.
Qed.

Lemma utf8decodebyte_uchar c :
  utf8.utf8decodebyte c = utf8.utf8decodebyte (utf8.uchar c).
Proof.
  unfold utf8.utf8decodebyte, utf8.utfmask, utf8.utfbyte.
  cbn [utf8.utf8decodebyte_loop].
  assert (H : utf8.uchar (utf8.uchar c) = utf8.uchar c).
  { unfold utf8.uchar. by rewrite Z.mod_mod. }
  by rewrite !H.
Qed.

(** The loop of [utf8decode] stays within the bytes it may read. *)
Lemma utf8decode_loop_bounds c clen len n j ud :
  (j <= clen)%nat -> (j <= len)%nat ->
  match utf8.utf8decode_loop c clen len n j ud with
  | inl j' => (j' < clen)%nat /\ (j' < len)%nat
  | inr (j', _) => (j' <= clen)%nat /\ (j' <= len)%nat
  end.
Proof.
  revert j ud. induction n as [|n IH]; intros j ud Hc Hl; [done|].
  cbn [utf8.utf8decode_loop].
  destruct (Nat.ltb_spec j clen); [|done].
  destruct (Nat.ltb_spec j len); [|done]. cbn [andb].
  destruct (utf8.utf8decodebyte (c j)) as [b type].
  destruct (type =? 0)%nat; cbn [negb]; [|done].
  apply IH; lia.
Qed.

Lemma utf8validate_range u i :
  fst (utf8.utf8validate u i) = utf8.UTF_INVALID
  \/ (default 0 (utf8.utfmin !! i) <= fst (utf8.utf8validate u i)
                                   <= default 0 (utf8.utfmax !! i)
      /\ ~ (0xD800 <= fst (utf8.utf8validate u i) <= 0xDFFF)).
Proof.
  unfold utf8.utf8validate, utf8.BETWEEN. cbn [fst].
  destruct (Z.leb_spec (default 0 (utf8.utfmin !! i)) u),
    (Z.leb_spec u (default 0 (utf8.utfmax !! i))),
    (Z.leb_spec 0xD800 u), (Z.leb_spec u 0xDFFF); cbn [andb negb orb];
    (by left) || (right; lia).
Qed.

(** X19: [utf8decode] decodes the UTF-8 encoding of every Unicode scalar
    value: given the one to four bytes that encode [u] and at least that
    many bytes to read, it returns their number and leaves [u]. *)
Theorem utf8decode_wellformed c clen u :
  (0 <= u <= 0x7F -> (1 <= clen)%nat -> utf8.uchar (c 0%nat) = u ->
   utf8.utf8decode c clen = (1%nat, u))
  /\ (0x80 <= u <= 0x7FF -> (2 <= clen)%nat ->
      utf8.uchar (c 0%nat) = 0xC0 + u / 64 -> utf8.uchar (c 1%nat) = 0x80 + u mod 64 ->
      utf8.utf8decode c clen = (2%nat, u))
  /\ (0x800 <= u <= 0xFFFF -> ~ (0xD800 <= u <= 0xDFFF) -> (3 <= clen)%nat ->
      utf8.uchar (c 0%nat) = 0xE0 + u / 4096 -> utf8.uchar (c 1%nat) = 0x80 + (u / 64) mod 64 ->
      utf8.uchar (c 2%nat) = 0x80 + u mod 64 ->
      utf8.utf8decode c clen = (3%nat, u))
  /\ (0x10000 <= u <= 0x10FFFF -> (4 <= clen)%nat ->
      utf8.uchar (c 0%nat) = 0xF0 + u / 262144 -> utf8.uchar (c 1%nat) = 0x80 + (u / 4096) mod 64 ->
      utf8.uchar (c 2%nat) = 0x80 + (u / 64) mod 64 -> utf8.uchar (c 3%nat) = 0x80 + u mod 64 ->
      utf8.utf8decode c clen = (4%nat, u)).
Proof.
  split; [|split; [|split]].
  - intros Hu Hc H0.
    rewrite (utf8decode_start c clen u 1); [|lia|lia|rewrite utf8decodebyte_uchar, H0; apply utf8_decodebyte_ascii; zdiv].
    rewrite utf8decode_loop_end by zdiv. cbn [Nat.ltb Nat.leb].
    by rewrite (utf8validate_valid u 1 0 0x7F) by (done || zdiv).
  - intros Hu Hc H0 H1.
    rewrite (utf8decode_start c clen (u / 64) 2);
      [|lia|lia|rewrite utf8decodebyte_uchar, H0; apply utf8_decodebyte_lead2; zdiv].
    rewrite (utf8decode_loop_step _ _ _ _ _ _ (u mod 64));
      [|lia|lia|rewrite utf8decodebyte_uchar, H1; apply utf8_decodebyte_cont; zdiv].
    rewrite utf8decode_loop_end by zdiv. cbn [Nat.ltb Nat.leb].
    rewrite lor_shiftl_6 by zdiv.
    replace (u / 64 * 64 + u mod 64) with u by zdiv.
    by rewrite (utf8validate_valid u 2 0x80 0x7FF) by (done || zdiv).
  - intros Hu Hs Hc H0 H1 H2.
    rewrite (utf8decode_start c clen (u / 4096) 3);
      [|lia|lia|rewrite utf8decodebyte_uchar, H0; apply utf8_decodebyte_lead3; zdiv].
    rewrite (utf8decode_loop_step _ _ _ _ _ _ ((u / 64) mod 64));
      [|lia|lia|rewrite utf8decodebyte_uchar, H1; apply utf8_decodebyte_cont; zdiv].
    rewrite (utf8decode_loop_step _ _ _ _ _ _ (u mod 64));
      [|lia|lia|rewrite utf8decodebyte_uchar, H2; apply utf8_decodebyte_cont; zdiv].
    rewrite utf8decode_loop_end by zdiv. cbn [Nat.ltb Nat.leb].
    rewrite (lor_shiftl_6 (u / 4096)) by zdiv.
    rewrite lor_shiftl_6 by zdiv.
    replace ((u / 4096 * 64 + (u / 64) mod 64) * 64 + u mod 64) with u by zdiv.
    by rewrite (utf8validate_valid u 3 0x800 0xFFFF) by (done || zdiv).
  - intros Hu Hc H0 H1 H2 H3.
    rewrite (utf8decode_start c clen (u / 262144) 4);
      [|lia|lia|rewrite utf8decodebyte_uchar, H0; apply utf8_decodebyte_lead4; zdiv].
    rewrite (utf8decode_loop_step _ _ _ _ _ _ ((u / 4096) mod 64));
      [|lia|lia|rewrite utf8decodebyte_uchar, H1; apply utf8_decodebyte_cont; zdiv].
    rewrite (utf8decode_loop_step _ _ _ _ _ _ ((u / 64) mod 64));
      [|lia|lia|rewrite utf8decodebyte_uchar, H2; apply utf8_decodebyte_cont; zdiv].
    rewrite (utf8decode_loop_step _ _ _ _ _ _ (u mod 64));
      [|lia|lia|rewrite utf8decodebyte_uchar, H3; apply utf8_decodebyte_cont; zdiv].
    rewrite utf8decode_loop_end by zdiv. cbn [Nat.ltb Nat.leb].
    rewrite (lor_shiftl_6 (u / 262144)) by zdiv.
    rewrite (lor_shiftl_6 (u / 262144 * 64 + (u / 4096) mod 64)) by zdiv.
    rewrite lor_shiftl_6 by zdiv.
    replace (((u / 262144 * 64 + (u / 4096) mod 64) * 64 + (u / 64) mod 64) * 64
             + u mod 64) with u by zdiv.
    by rewrite (utf8validate_valid u 4 0x10000 0x10FFFF) by (done || zdiv).
Qed.

(** X20: whatever the bytes, [utf8decode] reports at most [clen] and at
    most four bytes read, and the value it leaves is [UTF_INVALID] or a
    value within the range of the reported length that is no surrogate:
    an overlong encoding, a surrogate or a value above 0x10FFFF is never
    passed on. *)
Theorem utf8decode_result c clen :
  (fst (utf8.utf8decode c clen) <= clen)%nat
  /\ (fst (utf8.utf8decode c clen) <= utf8.UTF_SIZ)%nat
  /\ (snd (utf8.utf8decode c clen) = utf8.UTF_INVALID
      \/ ((1 <= fst (utf8.utf8decode c clen))%nat
          /\ default 0 (utf8.utfmin !! fst (utf8.utf8decode c clen))
             <= snd (utf8.utf8decode c clen)
             <= default 0 (utf8.utfmax !! fst (utf8.utf8decode c clen))
          /\ ~ (0xD800 <= snd (utf8.utf8decode c clen) <= 0xDFFF))).
Proof.
  unfold utf8.utf8decode, utf8.UTF_SIZ.
  destruct clen as [|clen]; cbn [Nat.eqb].
  { cbn [fst snd]. split; [lia|]. split; [lia|]. by left. }
  destruct (utf8.utf8decodebyte (c 0%nat)) as [ud len].
  unfold utf8.BETWEEN.
  destruct (Z.leb_spec 1 (Z.of_nat len)); cbn [andb negb];
    [|cbn [fst snd]; split; [lia|]; split; [lia|]; by left].
  destruct (Z.leb_spec (Z.of_nat len) (Z.of_nat 4)); cbn [negb];
    [|cbn [fst snd]; split; [lia|]; split; [lia|]; by left].
  pose proof (utf8decode_loop_bounds c (S clen) len len 1 ud) as Hb.
  destruct (utf8.utf8decode_loop c (S clen) len len 1 ud) as [j|[j ud']].
  { cbn [fst snd]. destruct Hb as [? ?]; [lia|lia|].
    split; [lia|]. split; [lia|]. by left. }
  destruct Hb as [? ?]; [lia|lia|].
  destruct (Nat.ltb_spec j len); cbn [fst snd].
  { split; [lia|]. split; [lia|]. by left. }
  split; [lia|]. split; [lia|].
  destruct (utf8validate_range ud' len) as [->|[? ?]]; [by left|].
  right. split; [lia|]. by split.
Qed.

(** The two bytes C3 A9 are read as U+00E9. *)
Lemma utf8decode_wellformed_witness :
  utf8.utf8decode (fun j => nth j [0xC3; 0xA9] 0) 2 = (2%nat, 0xE9).
Proof.
  apply (utf8decode_wellformed (fun j => nth j [0xC3; 0xA9] 0) 2 0xE9);
    (reflexivity || lia).
Defined.

(** ** Clients and their windows *)

Lemma wins_updc W c f s :
  (forall cl, Client.win (f cl) = Client.win cl) ->
  wins s = W -> wins (updc c f s) = W.
Proof.
  intros Hf <-. unfold wins. rewrite heap_updc.
  rewrite (fmap_alter Client.win f id); [|intros; apply Hf].
  apply map_eq. intros a. destruct (decide (a = c)) as [->|Hne].
  - rewrite lookup_alter_eq. by destruct (_ !! c).
  - by rewrite lookup_alter_ne.
Qed.

Lemma wins_updm W i f s : wins s = W -> wins (updm i f s) = W.
Proof. intros H. exact H. Qed.

Lemma wins_set_selmon W v s : wins s = W -> wins (set_selmon v s) = W.
Proof. intros H. exact H. Qed.

Lemma wins_relayout W s s' : relayout s s' -> wins s = W -> wins s' = W.
Proof.
  intros Hr <-. unfold relayout, strip in Hr.
  apply (f_equal heap) in Hr. simpl in Hr. unfold wins.
  assert (Hw : forall h : gmap nat Client.t, Client.win <$> h = Client.win <$> (nogeom <$> h)).
  { intros h. rewrite <- map_fmap_compose. reflexivity. }
  by rewrite (Hw (heap s')), (Hw (heap s)), Hr.
Qed.

Lemma wins_arrange W m s : wins s = W -> wins (arrange m s) = W.
Proof. apply wins_relayout, relayout_arrange, relayout_refl. Qed.

Create HintDb wins discriminated.
#[local] Hint Resolve wins_updc wins_updm wins_set_selmon wins_arrange : wins.
#[local] Hint Extern 2 (forall cl : Client.t, Client.win _ = Client.win _) =>
  record_fields : wins.

Ltac wins_cases :=
  repeat first
    [ progress cbv zeta
    | match goal with
      | |- wins (match ?x with _ => _ end) = _ => destruct x eqn:?
      | |- wins ?t = _ =>
          match t with
          | context [if ?b then _ else _] => destruct b eqn:?
          | context [match ?x with Some _ => _ | None => _ end] => destruct x eqn:?
          end
      end ];
  eauto 12 with wins.

Lemma wins_attach W c s : wins s = W -> wins (attach c s) = W.
Proof. intros H. unfold attach. wins_cases. Qed.

Lemma wins_attachstack W c s : wins s = W -> wins (attachstack c s) = W.
Proof. intros H. unfold attachstack. wins_cases. Qed.

Lemma wins_detach W c s : wins s = W -> wins (detach c s) = W.
Proof. intros H. unfold detach. wins_cases. Qed.

Lemma wins_detachstack W c s : wins s = W -> wins (detachstack c s) = W.
Proof. intros H. unfold detachstack. wins_cases. Qed.

Lemma wins_seturgent W c u s : wins s = W -> wins (seturgent c u s) = W.
Proof. intros H. unfold seturgent. wins_cases. Qed.
#[local] Hint Resolve wins_attach wins_attachstack wins_detach wins_detachstack
  wins_seturgent : wins.

Lemma wins_focus W c s : wins s = W -> wins (focus c s) = W.
Proof. intros H. unfold focus. wins_cases. Qed.

Lemma wins_resizeclient W c x y w h s :
  wins s = W -> wins (resizeclient c x y w h s) = W.
Proof. intros H. unfold resizeclient. wins_cases. Qed.
#[local] Hint Resolve wins_focus wins_resizeclient : wins.

Lemma wins_setfullscreen W c f s : wins s = W -> wins (setfullscreen c f s) = W.
Proof. intros H. unfold setfullscreen. wins_cases. Qed.
#[local] Hint Resolve wins_setfullscreen : wins.

Lemma wins_updatetitle W c t s : wins s = W -> wins (updatetitle c t s) = W.
Proof. intros H. unfold updatetitle. wins_cases. Qed.

Lemma wins_updatesizehints W c sz s :
  wins s = W -> wins (updatesizehints c sz s) = W.
Proof. intros H. unfold updatesizehints. wins_cases. Qed.

Lemma wins_updatewmhints W c h s : wins s = W -> wins (updatewmhints c h s) = W.
Proof. intros H. unfold updatewmhints. wins_cases. Qed.

Lemma wins_updatewindowtype W c f d s :
  wins s = W -> wins (updatewindowtype c f d s) = W.
Proof. intros H. unfold updatewindowtype. wins_cases. Qed.

Lemma wins_applyrule W c class instance r s :
  wins s = W -> wins (applyrule c class instance s r) = W.
Proof. intros H. unfold applyrule. wins_cases. Qed.

Lemma wins_applyrules W c res_class res_name s :
  wins s = W -> wins (applyrules c res_class res_name s) = W.
Proof.
  intros H. unfold applyrules. cbv zeta.
  assert (Hf : forall rules s0,
             wins s0 = W ->
             wins (foldl (applyrule c (default broken res_class)
                            (default broken res_name)) s0 rules) = W).
  { induction rules as [|r rules IH]; intros s0 H0; simpl; [exact H0|].
    by apply IH, wins_applyrule. }
  match goal with
  | |- context [foldl ?f ?s0 ?l] =>
      assert (H1 : wins (foldl f s0 l) = W) by (apply Hf; wins_cases);
      generalize dependent (foldl f s0 l)
  end.
  intros s1 H1. wins_cases.
Qed.
#[local] Hint Resolve wins_updatetitle wins_updatesizehints wins_updatewmhints
  wins_updatewindowtype wins_applyrules : wins.

(** [wintoclient] finds the client that has the window. *)
Lemma swf_wintoclient w a cl s :
  state_wf s -> heap s !! a = Some cl -> Client.win cl = w ->
  wintoclient w s = Some a.
Proof.
  intros H Ha Hw. destruct (wintoclient w s) as [b|] eqn:Hb.
  - unfold wintoclient in Hb. apply find_some in Hb as [_ Hb].
    destruct (heap s !! b) as [clb|] eqn:Hclb; [|discriminate].
    apply Z.eqb_eq in Hb. destruct H as (_ & _ & [_ Hwin] & _).
    f_equal. apply (Hwin b a clb cl Hclb Ha). congruence.
  - destruct (wintoclient_None w s H Hb a cl Ha Hw).
Qed.

Lemma wintoclient_found w a s :
  wintoclient w s = Some a -> wins s !! a = Some w.
Proof.
  intros Hb. unfold wintoclient in Hb. apply find_some in Hb as [_ Hb].
  unfold wins. rewrite lookup_fmap.
  destruct (heap s !! a) as [cl|]; [|discriminate].
  apply Z.eqb_eq in Hb. simpl. by rewrite Hb.
Qed.

Lemma wins_lookup s a w :
  wins s !! a = Some w <-> exists cl, heap s !! a = Some cl /\ Client.win cl = w.
Proof.
  unfold wins. rewrite lookup_fmap. destruct (heap s !! a) as [cl|]; simpl.
  - split; [intros [= <-]; by exists cl|intros (cl' & [= <-] & <-); reflexivity].
  - split; [discriminate|intros (cl' & [=] & _)].
Qed.

(** Among well-formed states, [wintoclient] is a matter of the windows
    of the clients. *)
Lemma wintoclient_wins w s s' :
  state_wf s -> state_wf s' ->
  (forall a, wins s' !! a = Some w <-> wins s !! a = Some w) ->
  wintoclient w s' = wintoclient w s.
Proof.
  intros H H' Hw. destruct (wintoclient w s) as [a|] eqn:Ha.
  - apply wintoclient_found, Hw, wins_lookup in Ha as (cl & Hcl & Hwin).
    by apply (swf_wintoclient w a cl).
  - destruct (wintoclient w s') as [b|] eqn:Hb; [|reflexivity].
    apply wintoclient_found, Hw, wins_lookup in Hb as (cl & Hcl & Hwin).
    by rewrite (swf_wintoclient w b cl s H Hcl Hwin) in Ha.
Qed.

(** [manage] allocates a client for the window and leaves the windows
    of the others. *)
Lemma wins_manage w wa p s :
  state_wf s -> mons s <> [] -> wintoclient w s = None ->
  wins (manage w wa p s) = <[nextaddr s := w]> (wins s).
Proof.
  intros H Hne Hw. unfold manage. cbv zeta.
  set (c := nextaddr s).
  set (t := WinProps.transient_for p ≫= _).
  set (cl := Client.mk _ _ _ _ _ _ _ _ _ _ _ _ _ _ _ _ _ _ _ _ _ _ _ _ _ _ _ _ _ _).
  set (s1 := set_nextaddr (S c) (set_heap (<[c:=cl]> (heap s)) s)).
  match goal with
  | |- context [match t with Some _ => updatetitle c ?n s1 | None => ?a end] =>
      set (s2 := match t with Some _ => updatetitle c n s1 | None => a end)
  end.
  assert (W1 : wins s1 = <[c := w]> (wins s)).
  { unfold wins, s1. simpl. by rewrite fmap_insert. }
  assert (W2 : wins s2 = <[c := w]> (wins s)) by (unfold s2; destruct t; wins_cases).
  assert (Hm0 : is_Some (mons s !! Client.mon cl)).
  { destruct H as (_ & Hc & _ & Hsel). unfold cl. simpl.
    destruct t as [tcl|] eqn:Ht; simpl.
    - unfold t in Ht. destruct (WinProps.transient_for p) as [trans|]; [|discriminate].
      simpl in Ht. destruct (wintoclient trans s) as [ta|]; [|discriminate].
      simpl in Ht. destruct (Hc ta tcl Ht) as (m & Hm & _). by exists m.
    - destruct Hsel as [Hlt|[Hn _]]; [|done]. by apply lookup_lt_is_Some. }
  assert (H1 : state_wf_but (Some c) (Some c) s1).
  { apply swf_alloc; [done| |exact H]. intros a cl' Ha.
    by apply (wintoclient_None w s H Hw a cl'). }
  assert (H2 : state_wf_but (Some c) (Some c) s2)
    by (unfold s2; destruct t; eauto with swf).
  clearbody s2. clear H1 W1.
  assert (Hc2 : wins s2 !! c = Some w) by (by rewrite W2, lookup_insert_eq).
  apply wins_lookup in Hc2 as (cl2 & Hcl2 & _).
  destruct H2 as (_ & Hc & _). destruct (Hc c cl2 Hcl2) as (m & Hm & _).
  rewrite Hcl2. simpl. rewrite Hm.
  match goal with
  | |- context [attachstack c ?s3] =>
      assert (W3 : wins (attachstack c s3) = <[c := w]> (wins s)) by wins_cases;
      generalize dependent (attachstack c s3)
  end.
  intros s4 W4.
  assert (Hc4 : wins s4 !! c = Some w) by (by rewrite W4, lookup_insert_eq).
  apply wins_lookup in Hc4 as (cl4 & Hcl4 & _).
  destruct (mon_of s4 c) as [mi|] eqn:Hmc.
  - apply wins_focus, (wins_arrange _ (Some mi)), wins_updm, W4.
  - unfold mon_of in Hmc. rewrite Hcl4 in Hmc. discriminate Hmc.
Qed.

(** [unmanage] frees the client and leaves the windows of the others. *)
Lemma wins_unmanage c s : wins (unmanage c s) = delete c (wins s).
Proof.
  unfold unmanage. destruct (mon_of s c) as [m|] eqn:Hm.
  - apply wins_arrange, wins_focus.
    assert (W : wins (detachstack c (detach c s)) = wins s) by wins_cases.
    unfold wins in *. simpl. by rewrite fmap_delete, W.
  - symmetry. apply delete_id. unfold wins. rewrite lookup_fmap.
    unfold mon_of in Hm. by destruct (heap s !! c).
Qed.

(** X21: a map request for a window that is not managed yet and does
    not ask to be left alone gives it a client, which [wintoclient] finds
    from then on, and changes the client of no other window; a second
    request for the window changes nothing. *)
Theorem maprequest_manages w wa p s :
  reachable s -> mons s <> [] ->
  XWindowAttributes.override_redirect wa = false ->
  is_Some (wintoclient w (maprequest w (Some wa) p s))
  /\ (forall w', w' <> w ->
        wintoclient w' (maprequest w (Some wa) p s) = wintoclient w' s)
  /\ maprequest w (Some wa) p (maprequest w (Some wa) p s)
     = maprequest w (Some wa) p s.
Proof.
  intros Hr Hne Hov. apply reachable_state_wf in Hr.
  assert (Hs : is_Some (wintoclient w (maprequest w (Some wa) p s))
               /\ forall w', w' <> w ->
                    wintoclient w' (maprequest w (Some wa) p s) = wintoclient w' s).
  { unfold maprequest. rewrite Hov.
    destruct (wintoclient w s) as [a|] eqn:Hw; [by rewrite Hw|].
    pose proof (wins_manage w wa p s Hr Hne Hw) as W.
    pose proof (swf_manage w wa p s Hw Hr) as Hr'.
    split.
    - assert (Hc : wins (manage w wa p s) !! nextaddr s = Some w)
        by (by rewrite W, lookup_insert_eq).
      apply wins_lookup in Hc as (cl & Hcl & Hwin).
      exists (nextaddr s). by apply (swf_wintoclient w _ cl).
    - intros w' Hw'. apply wintoclient_wins; [done|done|].
      intros a. rewrite W. destruct (decide (a = nextaddr s)) as [->|Ha].
      + rewrite lookup_insert_eq. split; [congruence|].
        intros Hc. apply wins_lookup in Hc as (cl & Hcl & _).
        destruct Hr as (_ & _ & [Hfree _] & _).
        by rewrite (Hfree (nextaddr s)) in Hcl.
      + by rewrite lookup_insert_ne. }
  destruct Hs as [[a Ha] Hother]. split; [by exists a|]. split; [exact Hother|].
  unfold maprequest at 1. by rewrite Hov, Ha.
Qed.

Lemma maprequest_manages_witness :
  is_Some (wintoclient 42 (maprequest 42 (Some ex_wa) ex_props ex_one_client))
  /\ (forall w', w' <> 42 ->
        wintoclient w' (maprequest 42 (Some ex_wa) ex_props ex_one_client)
        = wintoclient w' ex_one_client)
  /\ maprequest 42 (Some ex_wa) ex_props
       (maprequest 42 (Some ex_wa) ex_props ex_one_client)
     = maprequest 42 (Some ex_wa) ex_props ex_one_client.
Proof.
  apply (maprequest_manages 42 ex_wa ex_props ex_one_client).
  - apply reachable_step; [apply reachable_setup|reflexivity].
  - by vm_compute.
  - reflexivity.
Defined.

(** X22: when a window is destroyed, or unmapped (an unmap notification
    that is not a sent event), its client is freed: afterwards
    [wintoclient] finds no client for it, and the other windows keep
    their clients. *)
Theorem destroyed_window_unmanaged w s :
  reachable s ->
  (wintoclient w (handler (DestroyNotify w) s) = None
   /\ forall w', w' <> w ->
        wintoclient w' (handler (DestroyNotify w) s) = wintoclient w' s)
  /\ (wintoclient w (handler (UnmapNotify w false) s) = None
      /\ forall w', w' <> w ->
           wintoclient w' (handler (UnmapNotify w false) s) = wintoclient w' s).
Proof.
  intros Hr. apply reachable_state_wf in Hr as H.
  assert (Hs : wintoclient w (from_option (fun c => unmanage c s) s (wintoclient w s))
               = None
               /\ forall w', w' <> w ->
                    wintoclient w'
                      (from_option (fun c => unmanage c s) s (wintoclient w s))
                    = wintoclient w' s).
  { destruct (wintoclient w s) as [c|] eqn:Hw; simpl; [|done].
    pose proof (swf_unmanage c s H) as H'.
    pose proof (wins_unmanage c s) as W.
    apply wintoclient_found in Hw as Hcw. split.
    - destruct (wintoclient w (unmanage c s)) as [a|] eqn:Ha; [|reflexivity].
      apply wintoclient_found in Ha. rewrite W in Ha.
      apply lookup_delete_Some in Ha as [Hne Ha].
      apply wins_lookup in Ha as (cla & Hcla & Hwa).
      apply wins_lookup in Hcw as (clc & Hclc & Hwc).
      destruct H as (_ & _ & [_ Hwin] & _).
      destruct Hne. apply (Hwin c a clc cla Hclc Hcla). congruence.
    - intros w' Hw'. apply wintoclient_wins; [done|done|].
      intros a. rewrite W. destruct (decide (a = c)) as [->|Ha].
      + rewrite lookup_delete_eq. split; [discriminate|congruence].
      + by rewrite lookup_delete_ne. }
  split; cbn [handler]; by destruct (wintoclient w s).
Qed.

Lemma destroyed_window_unmanaged_witness :
  (wintoclient 41 (handler (DestroyNotify 41) ex_two_clients) = None
   /\ forall w', w' <> 41 ->
        wintoclient w' (handler (DestroyNotify 41) ex_two_clients)
        = wintoclient w' ex_two_clients)
  /\ (wintoclient 41 (handler (UnmapNotify 41 false) ex_two_clients) = None
      /\ forall w', w' <> 41 ->
           wintoclient w' (handler (UnmapNotify 41 false) ex_two_clients)
           = wintoclient w' ex_two_clients).
Proof.
  apply (destroyed_window_unmanaged 41 ex_two_clients).
  apply reachable_step; [|reflexivity].
  apply reachable_step; [apply reachable_setup|reflexivity].
Defined.

(** ** Focus, the master area and moves between monitors *)

(** [focus] of a visible client, in terms of its monitor. *)
Lemma focus_visible c cl m s :
  heap s !! c = Some cl -> visible s c = true ->
  mons s !! Client.mon cl = Some m ->
  selmon (focus (Some c) s) = Client.mon cl
  /\ (exists m', mons (focus (Some c) s) !! Client.mon cl = Some m'
                 /\ Monitor.sel m' = Some c
                 /\ Monitor.stack m' = c :: unlink c (Monitor.stack m)
                 /\ Monitor.clients m' = Monitor.clients m)
  /\ forall i, i <> Client.mon cl -> mons (focus (Some c) s) !! i = mons s !! i.
Proof.
  intros Hc Hvis Hm. unfold focus. rewrite Hvis, Hc.
  set (s1 := if decide (Client.mon cl = selmon s) then s
             else set_selmon (Client.mon cl) s).
  assert (Hs1 : heap s1 = heap s /\ mons s1 = mons s /\ selmon s1 = Client.mon cl).
  { unfold s1. destruct (decide (Client.mon cl = selmon s)); simpl; auto. }
  set (s2 := if Client.isurgent cl then seturgent c false s1 else s1).
  assert (Hs2 : mon_of s2 c = Some (Client.mon cl) /\ mons s2 = mons s
                /\ selmon s2 = Client.mon cl).
  { destruct Hs1 as (Hh & Hmo & Hsel). unfold s2, seturgent.
    destruct (Client.isurgent cl).
    - rewrite mon_of_updc_keep by reflexivity. rewrite mons_updc.
      unfold mon_of. rewrite Hh, Hc. auto.
    - unfold mon_of. rewrite Hh, Hc. auto. }
  clearbody s2. clear s1 Hs1. destruct Hs2 as (Hmon & Hmo & Hsel).
  destruct (detachstack_updm c s2 _ Hmon) as (g & Hg & ->).
  unfold attachstack. rewrite mon_of_updm, Hmon.
  destruct (Hg m) as (Hgc & Hgs & _).
  unfold updm; simpl. rewrite Hsel, Hmo. split; [reflexivity|]. split.
  - rewrite !list_lookup_alter_eq, Hm. simpl. eexists. split; [reflexivity|].
    simpl. by rewrite Hgs, Hgc.
  - intros i Hi. by rewrite !list_lookup_alter_ne.
Qed.

(** [focus] changes no client list. *)
Lemma clients_focus i c s :
  Monitor.clients <$> mons (focus c s) !! i = Monitor.clients <$> mons s !! i.
Proof.
  unfold focus. cbv zeta.
  match goal with
  | |- context [updm (selmon ?s1) (Monitor.set_sel ?v) _] =>
      generalize v; intros v'; set (s' := s1)
  end.
  rewrite clients_updm_keep by reflexivity.
  unfold s'. clear s'.
  repeat match goal with
         | |- context [match ?x with Some _ => _ | None => _ end] => destruct x
         | |- context [if ?b then _ else _] => destruct b
         end;
    rewrite ?clients_attachstack, ?clients_detachstack; try reflexivity;
    unfold seturgent; by rewrite mons_updc.
Qed.

(** [arrange] changes no client list. *)
Lemma clients_arrange i m s :
  Monitor.clients <$> mons (arrange m s) !! i = Monitor.clients <$> mons s !! i.
Proof.
  pose proof (relayout_arrange s s m (relayout_refl s)) as Hr.
  destruct (mons s !! i) as [mo|] eqn:Hmo.
  - destruct (relayout_mons _ _ _ _ Hr Hmo) as (m' & -> & Hn). simpl.
    f_equal. change (Monitor.clients (nosymbol m') = Monitor.clients (nosymbol mo)).
    by rewrite Hn.
  - destruct (mons (arrange m s) !! i) as [m'|] eqn:Hm'; [|reflexivity].
    exfalso. unfold relayout, strip in Hr. apply (f_equal mons) in Hr.
    simpl in Hr. apply (f_equal length) in Hr. rewrite !length_fmap in Hr.
    apply lookup_lt_Some in Hm'. apply lookup_ge_None in Hmo. lia.
Qed.

(** [pop] puts the client first in the client list of its monitor and
    keeps the order of the others. *)
Lemma pop_clients c cl m s :
  heap s !! c = Some cl -> mons s !! Client.mon cl = Some m ->
  exists m', mons (pop c s) !! Client.mon cl = Some m'
             /\ Monitor.clients m' = c :: unlink c (Monitor.clients m).
Proof.
  intros Hc Hm. unfold pop. cbv zeta.
  match goal with
  | |- context [arrange ?a (focus ?b ?s1)] =>
      pose proof (clients_arrange (Client.mon cl) a (focus b s1)) as Ha;
      pose proof (clients_focus (Client.mon cl) b s1) as Hf;
      assert (H1 : mons s1 !! Client.mon cl
                   = Some (Monitor.set_clients (c :: unlink c (Monitor.clients m))
                             (Monitor.set_clients (unlink c (Monitor.clients m)) m)))
  end.
  { assert (Hmon : mon_of s c = Some (Client.mon cl)) by (unfold mon_of; by rewrite Hc).
    unfold attach, detach. rewrite Hmon, mon_of_updm, Hmon.
    unfold updm; simpl. by rewrite !list_lookup_alter_eq, Hm. }
  rewrite Hf, H1 in Ha. simpl in Ha.
  match goal with
  | |- exists m', ?l = Some m' /\ _ => destruct l as [m'|]; [|discriminate]
  end.
  exists m'. split; [reflexivity|]. simpl in Ha. congruence.
Qed.

Lemma nexttiled_subseteq s l b : b ∈ nexttiled s l -> b ∈ l.
Proof.
  induction l as [|c l IH]; simpl; [done|].
  destruct (istiled s c); [done|]. intros H. right. by apply IH.
Qed.

Lemma after_subseteq a l b : b ∈ after a l -> b ∈ l.
Proof.
  induction l as [|c l IH]; simpl; [done|].
  destruct (decide (c = a)); intros H; right; [done|by apply IH].
Qed.

(** X23: [focus] of a visible client selects its monitor and, on that
    monitor, selects the client and puts it on top of the focus stack,
    keeping the order of the other clients there; the client list stays
    as it is, and so does every other monitor. *)
Theorem focus_selects c cl s :
  reachable s -> heap s !! c = Some cl -> visible s c = true ->
  selmon (focus (Some c) s) = Client.mon cl
  /\ (exists m m',
        mons s !! Client.mon cl = Some m
        /\ mons (focus (Some c) s) !! Client.mon cl = Some m'
        /\ Monitor.sel m' = Some c
        /\ Monitor.stack m' = c :: unlink c (Monitor.stack m)
        /\ Monitor.clients m' = Monitor.clients m)
  /\ forall i, i <> Client.mon cl -> mons (focus (Some c) s) !! i = mons s !! i.
Proof.
  intros Hr Hc Hvis. destruct (reachable_state_wf s Hr) as (_ & Hcl & _).
  destruct (Hcl c cl Hc) as (m & Hm & _).
  destruct (focus_visible c cl m s Hc Hvis Hm) as (Hsel & (m' & Hm') & Hoth).
  split; [exact Hsel|]. split; [by exists m, m'|exact Hoth].
Qed.

Lemma focus_selects_witness :
  selmon (focus (Some 0%nat) ex_two_clients) = 0%nat
  /\ (exists m m',
        mons ex_two_clients !! 0%nat = Some m
        /\ mons (focus (Some 0%nat) ex_two_clients) !! 0%nat = Some m'
        /\ Monitor.sel m' = Some 0%nat
        /\ Monitor.stack m' = 0%nat :: unlink 0%nat (Monitor.stack m)
        /\ Monitor.clients m' = Monitor.clients m)
  /\ forall i, i <> 0%nat ->
       mons (focus (Some 0%nat) ex_two_clients) !! i = mons ex_two_clients !! i.
Proof.
  assert (Hc : exists cl, heap ex_two_clients !! 0%nat = Some cl
                          /\ Client.mon cl = 0%nat).
  { eexists. split; [by vm_compute|reflexivity]. }
  destruct Hc as (cl & Hc & Hmon).
  assert (Hr : reachable ex_two_clients).
  { apply reachable_step; [|reflexivity].
    apply reachable_step; [apply reachable_setup|reflexivity]. }
  assert (Hvis : visible ex_two_clients 0%nat = true) by (by vm_compute).
  pose proof (focus_selects 0%nat cl ex_two_clients Hr Hc Hvis) as H.
  rewrite Hmon in H. exact H.
Defined.

(** X24: [focus] without a client selects, on the selected monitor, the
    first visible client of the focus stack, or no client when none is
    visible; the client selected is visible afterwards. *)
Theorem focus_null_selects m s :
  reachable s -> mons s !! selmon s = Some m ->
  selmon (focus None s) = selmon s
  /\ exists m',
       mons (focus None s) !! selmon s = Some m'
       /\ Monitor.sel m' = first_visible s (Monitor.stack m)
       /\ forall a, Monitor.sel m' = Some a -> visible (focus None s) a = true.
Proof.
  intros Hr Hm. pose proof (reachable_state_wf s Hr) as H.
  pose proof (stacks_wf_owned s (state_wf_stacks_wf s H)) as Hown.
  split; [by apply selmon_focus_None|].
  destruct (first_visible s (Monitor.stack m)) as [a|] eqn:Hfv.
  - pose proof (first_visible_visible _ _ _ Hfv) as Hvis.
    pose proof (first_visible_elem _ _ _ Hfv) as Hin.
    destruct (visible_allocated s a Hvis) as [cl Hcl].
    pose proof (Hown m a cl Hm Hin Hcl) as Hmon.
    assert (Hf : focus None s = focus (Some a) s).
    { unfold focus. by rewrite Hm, Hvis; simpl; rewrite Hfv. }
    rewrite Hf. rewrite <- Hmon in Hm.
    destruct (focus_visible a cl m s Hcl Hvis Hm) as (_ & (m' & Hm' & Hsel & _) & _).
    rewrite <- Hmon. exists m'. split; [exact Hm'|]. split; [exact Hsel|].
    intros b Hb. rewrite Hsel in Hb. injection Hb as <-.
    by rewrite (visible_frame s _ a (frame_focus _ _ _ (frame_refl s))).
  - unfold focus. rewrite Hm. simpl. rewrite Hfv. unfold updm; simpl.
    rewrite list_lookup_alter_eq, Hm. simpl. eexists. split; [reflexivity|].
    split; [reflexivity|]. intros a. discriminate.
Qed.

Lemma focus_null_selects_witness :
  selmon (focus None ex_two_clients) = selmon ex_two_clients
  /\ exists m',
       mons (focus None ex_two_clients) !! selmon ex_two_clients = Some m'
       /\ Monitor.sel m' = first_visible ex_two_clients
                            (Monitor.stack (default createmon (mons ex_two_clients !! 0%nat)))
       /\ forall a, Monitor.sel m' = Some a ->
                    visible (focus None ex_two_clients) a = true.
Proof.
  apply (focus_null_selects _ ex_two_clients).
  - apply reachable_step; [|reflexivity].
    apply reachable_step; [apply reachable_setup|reflexivity].
  - by vm_compute.
Defined.

(** X25: [zoom] in a layout that arranges, with a selected client that
    does not float: if the client is not the first tiled one it becomes
    the first of the client list; if it is, the tiled client after it
    does.  The other clients keep their order. *)
Theorem zoom_promotes a cl m s :
  reachable s -> mons s !! selmon s = Some m ->
  is_Some (cur_arrange m) -> Monitor.sel m = Some a ->
  heap s !! a = Some cl -> Client.isfloating cl = false ->
  exists m',
    mons (zoom s) !! selmon s = Some m'
    /\ (head (nexttiled s (Monitor.clients m)) <> Some a ->
        Monitor.clients m' = a :: unlink a (Monitor.clients m))
    /\ (head (nexttiled s (Monitor.clients m)) = Some a ->
        forall b, head (nexttiled s (after a (Monitor.clients m))) = Some b ->
                  Monitor.clients m' = b :: unlink b (Monitor.clients m)).
Proof.
  intros Hr Hm Harr Hsel Hcl Hfl. pose proof (reachable_state_wf s Hr) as H.
  destruct H as (Hmw & _).
  destruct (Hmw _ _ Hm) as (_ & _ & Hcs & Hst & Hselin & _).
  assert (Hown : forall b, b ∈ Monitor.clients m ->
                           exists clb, heap s !! b = Some clb
                                       /\ Client.mon clb = selmon s).
  { intros b Hb. destruct (Hcs b Hb) as [_ Hmon]. unfold mon_of in Hmon.
    destruct (heap s !! b) as [clb|]; [|discriminate].
    exists clb. split; [reflexivity|]. simpl in Hmon. congruence. }
  assert (Hamon : Client.mon cl = selmon s).
  { destruct (Hst a (Hselin a Hsel)) as [_ Hmon]. unfold mon_of in Hmon.
    rewrite Hcl in Hmon. simpl in Hmon. congruence. }
  unfold zoom. rewrite Hm, Hsel. simpl. rewrite Hcl, Hfl.
  rewrite bool_decide_eq_true_2 by exact Harr. simpl.
  destruct (decide (head (nexttiled s (Monitor.clients m)) = Some a)) as [Hh|Hh].
  - destruct (head (nexttiled s (after a (Monitor.clients m)))) as [b|] eqn:Hb.
    + assert (Hbin : b ∈ Monitor.clients m).
      { apply (after_subseteq a), (nexttiled_subseteq s).
        destruct (nexttiled s (after a (Monitor.clients m))); [discriminate|].
        injection Hb as ->. left. }
      destruct (Hown b Hbin) as (clb & Hclb & Hbmon).
      rewrite <- Hbmon in Hm.
      destruct (pop_clients b clb m s Hclb Hm) as (m' & Hm' & Hc').
      rewrite <- Hbmon. exists m'. split; [exact Hm'|].
      split; [done|]. by intros _ b' [= <-].
    + exists m. split; [exact Hm|]. split; [done|]. intros _ b. discriminate.
  - rewrite <- Hamon in Hm.
    destruct (pop_clients a cl m s Hcl Hm) as (m' & Hm' & Hc').
    rewrite <- Hamon. exists m'. split; [exact Hm'|].
    split; [done|]. done.
Qed.

Lemma zoom_promotes_witness :
  exists m',
    mons (zoom ex_two_clients) !! selmon ex_two_clients = Some m'
    /\ (head (nexttiled ex_two_clients [1; 0]%nat) <> Some 1%nat ->
        Monitor.clients m' = 1%nat :: unlink 1%nat [1; 0]%nat)
    /\ (head (nexttiled ex_two_clients [1; 0]%nat) = Some 1%nat ->
        forall b, head (nexttiled ex_two_clients (after 1%nat [1; 0]%nat)) = Some b ->
                  Monitor.clients m' = b :: unlink b [1; 0]%nat).
Proof.
  assert (Hm : exists m, mons ex_two_clients !! selmon ex_two_clients = Some m
                         /\ Monitor.clients m = [1; 0]%nat
                         /\ is_Some (cur_arrange m) /\ Monitor.sel m = Some 1%nat).
  { eexists. split; [by vm_compute|]. split; [reflexivity|]. split; [|reflexivity].
    eexists. by vm_compute. }
  destruct Hm as (m & Hm & Hc & Harr & Hsel).
  assert (Hcl : exists cl, heap ex_two_clients !! 1%nat = Some cl
                           /\ Client.isfloating cl = false).
  { eexists. split; [by vm_compute|reflexivity]. }
  destruct Hcl as (cl & Hcl & Hfl). rewrite <- Hc.
  apply (zoom_promotes 1%nat cl m ex_two_clients); try assumption.
  apply reachable_step; [|reflexivity].
  apply reachable_step; [apply reachable_setup|reflexivity].
Defined.

(** ** Monitors *)

(** X26: [sendmon] to another monitor moves the client there: afterwards
    the client points to that monitor and has the tags the monitor
    showed, it is in the client list and in the focus stack of that
    monitor, and in those of no other. *)
Theorem sendmon_moves c cl mi m s :
  reachable s -> heap s !! c = Some cl -> mons s !! mi = Some m ->
  Client.mon cl <> mi ->
  (exists cl', heap (sendmon c mi s) !! c = Some cl'
               /\ Client.mon cl' = mi
               /\ Client.tags cl' = tagset m (Monitor.seltags m))
  /\ (exists m', mons (sendmon c mi s) !! mi = Some m'
                 /\ c ∈ Monitor.clients m' /\ c ∈ Monitor.stack m')
  /\ (forall i m', i <> mi -> mons (sendmon c mi s) !! i = Some m' ->
                   (c ∉ Monitor.clients m') /\ (c ∉ Monitor.stack m')).
Proof.
  intros Hr Hc Hm Hne. pose proof (reachable_state_wf s Hr) as H.
  pose proof (swf_sendmon c mi s H) as H'.
  assert (Hcl' : exists cl', heap (sendmon c mi s) !! c = Some cl'
                             /\ Client.mon cl' = mi
                             /\ Client.tags cl' = tagset m (Monitor.seltags m)).
  { unfold sendmon. rewrite Hc, Hm.
    destruct (decide (Client.mon cl = mi)) as [|_]; [done|]. cbv zeta.
    match goal with
    | |- context [arrange None (focus None ?s3)] =>
        pose proof (frame_arrange s3 _ None (frame_focus s3 _ None (frame_refl s3)))
          as [Hf _];
        assert (H3 : heap s3 !! c
                     = Some (Client.set_tags (tagset m (Monitor.seltags m))
                               (Client.set_mon mi cl)))
    end.
    { rewrite heap_attachstack. unfold attach.
      match goal with
      | |- heap (match ?x with _ => _ end) !! _ = _ => destruct x
      end; simpl; rewrite lookup_alter_eq, heap_detachstack;
        unfold detach; destruct (mon_of s c); simpl; by rewrite Hc. }
    specialize (Hf c). rewrite H3 in Hf.
    match goal with
    | |- exists cl', ?l = Some cl' /\ _ => destruct l as [cl'|]; [|discriminate]
    end.
    simpl in Hf. injection Hf as Ht Hmon. by exists cl'. }
  destruct Hcl' as (cl' & Hcl' & Hmon & Htags).
  split; [by exists cl'|].
  destruct H' as (Hmw & Hcw & _). split.
  - destruct (Hcw c cl' Hcl') as (m' & Hm' & Hin1 & Hin2). rewrite Hmon in Hm'.
    exists m'. split; [exact Hm'|]. split; [by apply Hin1|by apply Hin2].
  - intros i m' Hi Hm'. destruct (Hmw i m' Hm') as (_ & _ & Hcs & Hst & _).
    assert (Hmo : mon_of (sendmon c mi s) c = Some mi)
      by (unfold mon_of; by rewrite Hcl', <- Hmon).
    split; intros Hin; [destruct (Hcs c Hin) as [_ Hx]|destruct (Hst c Hin) as [_ Hx]];
      congruence.
Qed.

Lemma sendmon_moves_witness :
  (exists cl', heap (sendmon 0%nat 0%nat ex_two_monitors) !! 0%nat = Some cl'
               /\ Client.mon cl' = 0%nat /\ Client.tags cl' = 1)
  /\ (exists m', mons (sendmon 0%nat 0%nat ex_two_monitors) !! 0%nat = Some m'
                 /\ 0%nat ∈ Monitor.clients m' /\ 0%nat ∈ Monitor.stack m')
  /\ (forall i m', i <> 0%nat ->
        mons (sendmon 0%nat 0%nat ex_two_monitors) !! i = Some m' ->
        (0%nat ∉ Monitor.clients m') /\ (0%nat ∉ Monitor.stack m')).
Proof.
  assert (Hc : exists cl, heap ex_two_monitors !! 0%nat = Some cl
                          /\ Client.mon cl = 1%nat).
  { eexists. split; [by vm_compute|reflexivity]. }
  destruct Hc as (cl & Hc & Hmon).
  assert (Hm : exists m, mons ex_two_monitors !! 0%nat = Some m
                         /\ tagset m (Monitor.seltags m) = 1).
  { eexists. split; [by vm_compute|reflexivity]. }
  destruct Hm as (m & Hm & Ht). rewrite <- Ht.
  apply (sendmon_moves 0%nat cl 0%nat m ex_two_monitors).
  - apply reachable_step; [apply reachable_setup|reflexivity].
  - exact Hc.
  - exact Hm.
  - by rewrite Hmon.
Defined.

(** With more than one monitor, [focusmon] selects the monitor that
    [dirtomon] names. *)
Lemma selmon_focusmon i s :
  state_wf s -> ~ (length (mons s) <= 1)%nat ->
  selmon (focusmon i s) = dirtomon i s.
Proof.
  intros H Hl. unfold focusmon.
  destruct (decide (length (mons s) <= 1)%nat); [done|]. cbv zeta.
  destruct (decide (dirtomon i s = selmon s)) as [He|He]; [done|].
  rewrite selmon_focus_None; [reflexivity|].
  apply stacks_wf_owned, state_wf_stacks_wf, swf_set_selmon; [|exact H].
  by apply (dirtomon_index_ok None None).
Qed.

(** X27: [focusmon] forward and then backward, or backward and then
    forward, comes back to the monitor that was selected. *)
Theorem focusmon_roundtrip i j s :
  reachable s -> 0 < i -> j <= 0 ->
  selmon (focusmon j (focusmon i s)) = selmon s
  /\ selmon (focusmon i (focusmon j s)) = selmon s.
Proof.
  intros Hr Hi Hj. pose proof (reachable_state_wf s Hr) as H.
  destruct (decide (length (mons s) <= 1)%nat) as [Hl|Hl].
  { assert (Hid : forall k, focusmon k s = s).
    { intros k. unfold focusmon. by destruct (decide (length (mons s) <= 1)%nat). }
    by rewrite !Hid. }
  assert (Hsel : (selmon s < length (mons s))%nat).
  { destruct H as (_ & _ & _ & [Hlt|[Hn _]]); [exact Hlt|].
    rewrite Hn in Hl. simpl in Hl. lia. }
  assert (Hstep : forall k, state_wf (focusmon k s)
                            /\ length (mons (focusmon k s)) = length (mons s)
                            /\ selmon (focusmon k s) = dirtomon k s).
  { intros k. split; [by apply swf_focusmon|]. split.
    - apply length_mons_frame, frame_focusmon, frame_refl.
    - by apply selmon_focusmon. }
  destruct (Hstep i) as (Hwi & Hli & Hsi), (Hstep j) as (Hwj & Hlj & Hsj).
  rewrite !selmon_focusmon by (done || lia).
  unfold dirtomon. rewrite Hli, Hlj, Hsi, Hsj. unfold dirtomon.
  destruct (Z.ltb_spec 0 i); [|lia]. destruct (Z.ltb_spec 0 j); [lia|].
  destruct (decide (S (selmon s) < length (mons s))%nat),
    (decide (selmon s = 0%nat));
  repeat match goal with
         | |- context [decide ?P] => destruct (decide P)
         end; lia.
Qed.

Lemma focusmon_roundtrip_witness :
  selmon (focusmon (-1) (focusmon 1 ex_two_monitors)) = selmon ex_two_monitors
  /\ selmon (focusmon 1 (focusmon (-1) ex_two_monitors)) = selmon ex_two_monitors.
Proof.
  apply (focusmon_roundtrip 1 (-1) ex_two_monitors); [|lia|lia].
  apply reachable_step; [apply reachable_setup|reflexivity].
Defined.

(** The screens kept so far stay distinct, and they are the ones met. *)
Lemma unique_fold info :
  forall acc, NoDup acc ->
    NoDup (foldl (fun unique i => if isuniquegeom unique i then unique ++ [i]
                                  else unique) acc info)
    /\ forall x, x ∈ foldl (fun unique i => if isuniquegeom unique i
                                            then unique ++ [i] else unique) acc info
                 <-> x ∈ acc \/ x ∈ info.
Proof.
  induction info as [|i info IH]; intros acc Hnd; cbn [foldl].
  { split; [exact Hnd|]. intros x. rewrite elem_of_nil. tauto. }
  destruct (isuniquegeom acc i) eqn:Hu; unfold isuniquegeom in Hu.
  - apply negb_true_iff, bool_decide_eq_false in Hu.
    assert (Hnd' : NoDup (acc ++ [i])).
    { apply NoDup_app. split; [exact Hnd|]. split; [|apply NoDup_singleton].
      intros x Hx ->%list_elem_of_singleton. contradiction. }
    destruct (IH _ Hnd') as [Hn He]. split; [exact Hn|].
    intros x. rewrite He, elem_of_app, list_elem_of_singleton, elem_of_cons. tauto.
  - apply negb_false_iff, bool_decide_eq_true in Hu.
    destruct (IH acc Hnd) as [Hn He]. split; [exact Hn|].
    intros x. rewrite He, elem_of_cons. split; [tauto|].
    intros [?|[->|?]]; tauto.
Qed.

Lemma unique_screens_elem info x : x ∈ unique_screens info <-> x ∈ info.
Proof.
  unfold unique_screens. destruct (unique_fold info [] (NoDup_nil_2)) as [_ He].
  rewrite He, elem_of_nil. tauto.
Qed.

(** X28: the screens [updategeom] keeps of the ones Xinerama reports are
    of distinct geometry, and every reported geometry is among them. *)
Theorem unique_screens_distinct info :
  NoDup (unique_screens info)
  /\ forall x, x ∈ unique_screens info <-> x ∈ info.
Proof.
  split; [|apply unique_screens_elem].
  unfold unique_screens. by destruct (unique_fold info [] (NoDup_nil_2)).
Qed.

Lemma length_updategeom_set bh n unique :
  forall i ms, length (updategeom_set bh n i unique ms).1 = length ms.
Proof.
  induction unique as [|u unique IH]; intros i ms; [reflexivity|].
  destruct ms as [|m ms]; [reflexivity|]. cbn [updategeom_set].
  specialize (IH (S i) ms).
  destruct (updategeom_set bh n (S i) unique ms) as [rest dirty].
  simpl in IH. by destruct (_ || _); simpl; rewrite IH.
Qed.

Lemma length_mons_migrate last cs :
  forall s, length (mons (migrate last cs s)) = length (mons s).
Proof.
  induction cs as [|c cs IH]; intros s; [reflexivity|]. cbn [migrate]. cbv zeta.
  rewrite IH, length_mons_attachstack, length_mons_attach, mons_updc,
    length_mons_detachstack. apply length_mons_updm.
Qed.

Lemma length_mons_shrink k :
  forall s, (k < length (mons s))%nat ->
            length (mons (updategeom_shrink k s).1) = (length (mons s) - k)%nat.
Proof.
  induction k as [|k IH]; intros s Hk; cbn [updategeom_shrink]; [simpl; lia|].
  cbv zeta.
  destruct (mons s !! pred (length (mons s))) as [m|] eqn:Hm.
  - rewrite (bool_decide_eq_false_2 (pred (length (mons s)) = 0%nat)) by lia.
    cbn [andb].
    match goal with
    | |- context [updategeom_shrink k ?s1] =>
        assert (Hl : length (mons s1) = pred (length (mons s)));
        [|specialize (IH s1); destruct (updategeom_shrink k s1) as [s2 dirty];
          simpl in *; rewrite IH; lia]
    end.
    simpl. rewrite length_take.
    match goal with
    | |- context [length (mons ?s1)] =>
        assert (Hl : length (mons s1) = length (mons s));
        [|rewrite Hl; lia]
    end.
    destruct (bool_decide _); simpl; apply length_mons_migrate.
  - apply lookup_ge_None in Hm. lia.
Qed.

(** X29: when Xinerama reports screens, [updategeom] leaves as many
    monitors as there are screens of distinct geometry. *)
Theorem updategeom_monitor_count info ptr s :
  info <> [] ->
  length (mons (updategeom (Some info) ptr s).1) = length (unique_screens info).
Proof.
  intros Hinfo.
  assert (Hnn : (0 < length (unique_screens info))%nat).
  { destruct info as [|x info]; [done|].
    assert (Hx : x ∈ unique_screens (x :: info)) by (apply unique_screens_elem; left).
    destruct (unique_screens (x :: info)); [by apply elem_of_nil in Hx|simpl; lia]. }
  unfold updategeom. cbv zeta.
  destruct (bool_decide (length (mons s) <= length (unique_screens info))%nat) eqn:Hb.
  - apply bool_decide_eq_true in Hb.
    pose proof (length_updategeom_set (bh s) (length (mons s)) (unique_screens info) 0
                  (mons s ++ replicate (length (unique_screens info)
                                        - length (mons s)) createmon)) as Hl.
    destruct (updategeom_set _ _ _ _ _) as [ms dirty]. simpl in Hl.
    rewrite length_app, length_replicate in Hl.
    destruct dirty; simpl; lia.
  - apply bool_decide_eq_false in Hb.
    pose proof (length_mons_shrink (length (mons s) - length (unique_screens info)) s)
      as Hl.
    destruct (updategeom_shrink _ s) as [s2 dirty]. simpl in Hl.
    destruct dirty; simpl; lia.
Qed.

Lemma updategeom_monitor_count_witness :
  length (mons (updategeom
                  (Some [XineramaScreenInfo.mk 0 0 1920 1080;
                         XineramaScreenInfo.mk 0 0 1920 1080;
                         XineramaScreenInfo.mk 1920 0 1280 1024])
                  None ex_one_client).1)
  = length (unique_screens [XineramaScreenInfo.mk 0 0 1920 1080;
                            XineramaScreenInfo.mk 0 0 1920 1080;
                            XineramaScreenInfo.mk 1920 0 1280 1024]).
Proof. by apply updategeom_monitor_count. Defined.

(** ** Fullscreen and back *)

(** What [arrange] leaves of a client: everything but its geometry. *)
Lemma relayout_lookup s s' c cl :
  relayout s s' -> heap s !! c = Some cl ->
  exists cl', heap s' !! c = Some cl' /\ nogeom cl' = nogeom cl.
Proof.
  unfold relayout. rewrite !strip_eq. intros H Hc.
  pose proof (f_equal heap H) as Hh. simpl in Hh.
  assert (Hl : (nogeom <$> heap s') !! c = Some (nogeom cl))
    by (by rewrite Hh, lookup_fmap, Hc).
  rewrite lookup_fmap in Hl.
  destruct (heap s' !! c) as [cl'|]; [|discriminate].
  exists cl'. split; [reflexivity|]. simpl in Hl. congruence.
Qed.

(** A hidden client is passed over by [showhide], by the layouts and so
    by [arrange] of a monitor. *)
Lemma showhide_hidden s a cl cs :
  ISVISIBLE s cl = false ->
  forall s0, frame s s0 -> heap s0 !! a = Some cl ->
             heap (showhide cs s0) !! a = Some cl.
Proof.
  intros Hhid. induction cs as [|c cs IH]; intros s0 Hf Ha; simpl; [exact Ha|].
  destruct (heap s0 !! c) as [cl0|] eqn:Hc; [|exact Ha].
  destruct (ISVISIBLE s0 cl0) eqn:Hv; [|by apply IH].
  assert (Hne : c <> a).
  { intros ->. rewrite Ha in Hc. injection Hc as <-.
    rewrite (ISVISIBLE_frame s s0 cl Hf) in Hv. congruence. }
  destruct (_ && _); [|by apply IH].
  apply IH; [by apply frame_resize|by rewrite resize_lookup_ne].
Qed.

Lemma arrange_hidden s mi a cl :
  heap s !! a = Some cl -> ISVISIBLE s cl = false ->
  heap (arrange (Some mi) s) !! a = Some cl.
Proof.
  intros Ha Hhid. unfold arrange.
  assert (H1 : heap (showhide_mon mi s) !! a = Some cl).
  { unfold showhide_mon. destruct (mons s !! mi); [|exact Ha].
    by apply (showhide_hidden s); [|apply frame_refl|]. }
  assert (Hf1 : frame s (showhide_mon mi s)) by apply frame_showhide_mon, frame_refl.
  revert H1 Hf1. generalize (showhide_mon mi s). intros s1 H1 Hf1.
  unfold arrangemon. destruct (mons s1 !! mi) as [m|]; [|exact H1].
  cbv zeta.
  set (s2 := updm mi _ s1).
  assert (H2 : heap s2 !! a = Some cl) by exact H1.
  assert (Hf2 : frame s s2) by (by apply frame_updm).
  clearbody s2.
  destruct (cur_arrange m) as [[|]|]; [| |exact H2].
  - unfold tile. destruct (mons s2 !! mi) as [m2|]; [|exact H2]. cbv zeta.
    destruct (_ =? 0); [exact H2|].
    apply (tile_loop_skip s); [by right|exact Hf2|exact H2].
  - unfold monocle. destruct (mons s2 !! mi) as [m2|]; [|exact H2]. cbv zeta.
    apply (monocle_loop_skip s); [by right| |].
    + destruct (0 <? _); [|exact Hf2]. by apply frame_updm.
    + by destruct (0 <? _).
Qed.

(** C3, as the code has it.  For a client that is not fullscreen, going
    fullscreen and back leaves it not fullscreen, with the border and the
    floating state it had (the saved ones hold them too); its geometry is
    restored as well, and then its monitor is arranged again, as after
    any change: a visible client may be laid out anew, a hidden client
    has exactly the geometry it had.  For a client that is fullscreen
    already the first call does nothing, and the second takes the border,
    the floating state and the geometry from the saved fields. *)
Theorem setfullscreen_roundtrip s c cl m :
  heap s !! c = Some cl ->
  mons s !! Client.mon cl = Some m ->
  exists cl',
    heap (setfullscreen c false (setfullscreen c true s)) !! c = Some cl'
    /\ Client.isfullscreen cl' = false
    /\ (Client.isfullscreen cl = false ->
        setfullscreen c false (setfullscreen c true s)
        = arrange (Some (Client.mon cl)) (updc c snapshot s)
        /\ Client.bw cl' = Client.bw cl
        /\ Client.isfloating cl' = Client.isfloating cl
        /\ Client.oldbw cl' = Client.bw cl
        /\ Client.oldstate cl' = Client.isfloating cl
        /\ (ISVISIBLE s cl = false -> geom cl' = geom cl /\ oldgeom cl' = geom cl))
    /\ (Client.isfullscreen cl = true ->
        setfullscreen c true s = s
        /\ setfullscreen c false (setfullscreen c true s)
           = arrange (Some (Client.mon cl)) (updc c restored s)
        /\ Client.bw cl' = Client.oldbw cl
        /\ Client.isfloating cl' = Client.oldstate cl
        /\ (ISVISIBLE s cl = false -> geom cl' = oldgeom cl)).
Proof.
  intros Hc Hm.
  assert (Hfield : forall f : Client.t -> Client.t,
             (forall x, Client.tags (f x) = Client.tags x
                        /\ Client.mon (f x) = Client.mon x) ->
             exists cl',
               heap (arrange (Some (Client.mon cl)) (updc c f s)) !! c = Some cl'
               /\ nogeom cl' = nogeom (f cl)
               /\ (ISVISIBLE s cl = false -> cl' = f cl)).
  { intros f Hf.
    assert (Hl : heap (updc c f s) !! c = Some (f cl))
      by (by rewrite lookup_updc_eq, Hc).
    destruct (relayout_lookup _ _ c (f cl)
                (relayout_arrange _ _ (Some (Client.mon cl)) (relayout_refl _)) Hl)
      as (cl' & Hcl' & Hn).
    exists cl'. split; [exact Hcl'|]. split; [exact Hn|].
    intros Hhid.
    assert (Hhid' : ISVISIBLE (updc c f s) (f cl) = false).
    { unfold ISVISIBLE in *. rewrite mons_updc.
      destruct (Hf cl) as [-> ->]. exact Hhid. }
    pose proof (arrange_hidden _ (Client.mon cl) c (f cl) Hl Hhid') as Hh.
    congruence. }
  destruct (Client.isfullscreen cl) eqn:Hfs.
  - (* fullscreen already *)
    assert (E1 : setfullscreen c true s = s).
    { unfold setfullscreen. by rewrite Hc, Hfs. }
    assert (E2 : setfullscreen c false s
                 = arrange (Some (Client.mon cl)) (updc c restored s)).
    { unfold setfullscreen. rewrite Hc, Hfs. simpl. f_equal.
      unfold updc; simpl. unfold set_heap; simpl. f_equal.
      rewrite alter_alter_eq. reflexivity. }
    destruct (Hfield restored) as (cl' & Hcl' & Hn & Hhid);
      [intros x; by split|].
    exists cl'. rewrite E1, E2. split; [exact Hcl'|].
    split; [exact (f_equal Client.isfullscreen Hn)|].
    split; [discriminate|]. intros _. split; [reflexivity|]. split; [reflexivity|].
    split; [exact (f_equal Client.bw Hn)|].
    split; [exact (f_equal Client.isfloating Hn)|].
    intros Hh. by rewrite (Hhid Hh).
  - (* not fullscreen *)
    assert (E : setfullscreen c false (setfullscreen c true s)
                = arrange (Some (Client.mon cl)) (updc c snapshot s)).
    { unfold setfullscreen at 2. rewrite Hc, Hfs, Hm. simpl.
      unfold setfullscreen, resizeclient.
      rewrite !lookup_updc_eq, Hc. simpl.
      f_equal.
      unfold updc; simpl. unfold set_heap; simpl. f_equal.
      rewrite !alter_alter_eq. f_equal.
      apply alter_ext. intros x Hx. rewrite Hc in Hx. injection Hx as <-.
      destruct cl. simpl in Hfs. subst. reflexivity. }
    destruct (Hfield snapshot) as (cl' & Hcl' & Hn & Hhid);
      [intros x; by split|].
    exists cl'. rewrite E. split; [exact Hcl'|].
    split; [exact (eq_trans (f_equal Client.isfullscreen Hn) Hfs)|].
    split; [|discriminate]. intros _. split; [reflexivity|].
    split; [exact (f_equal Client.bw Hn)|].
    split; [exact (f_equal Client.isfloating Hn)|].
    split; [exact (f_equal Client.oldbw Hn)|].
    split; [exact (f_equal Client.oldstate Hn)|].
    intros Hh. by rewrite (Hhid Hh).
Qed.

Lemma setfullscreen_roundtrip_witness :
  exists cl',
    heap (setfullscreen 0 false
            (setfullscreen 0 true (ex_state [ex_client false 1 0 0 0 0 0 0 0 0])))
      !! 0%nat = Some cl'
    /\ Client.isfullscreen cl' = false
    /\ Client.bw cl' = 1
    /\ Client.isfloating cl' = false.
Proof.
  destruct (setfullscreen_roundtrip (ex_state [ex_client false 1 0 0 0 0 0 0 0 0])
              0%nat (ex_client false 1 0 0 0 0 0 0 0 0) (ex_monitor [0%nat])
              eq_refl eq_refl)
    as (cl' & Hcl' & Hfs & Hnot & _).
  destruct (Hnot eq_refl) as (_ & Hbw & Hfl & _).
  exists cl'. split; [exact Hcl'|]. split; [exact Hfs|]. split; [exact Hbw|exact Hfl].
Defined.
